(* ===== verification/_CoqProject ===== *)
-Q . S2P
Prelude.v
Bytes.v
Text.v
CoreError.v
CoreTime.v
Fence.v
MessageState.v
Retry.v
Generation.v
Incarnation.v
Ring.v
Bounded.v
Sha256.v
Codec.v
Canon.v
Http.v
Json.v
JsonText.v
Connectors.v
RetryAfter.v
Jitter.v
Store.v
StoreSpec.v
StoreSafety.v
StoreOps.v
Service.v
ServiceSafety.v
ServiceOps.v
Client.v
Paths.v
Config.v
Clock.v
Journal.v
RecoveryEvent.v
RecoveryRing.v
GenerateProfile.v
Pointer.v
ImageWire.v
Command.v
Addressed.v
Checkpoint.v
CheckpointCodec.v
Replay.v
Image.v
Append.v
History.v
Host.v
Durable.v
Platform.v
Bootstrap.v
Envelope.v
StateMacKeys.v
StateMacDirectory.v
StoreSchema.v
MigrationV2.v
StoreOpening.v
KeyFiles.v
PointerPublication.v
Publication.v
CrashSafety.v
PublicationLive.v
PublicationHistory.v
ImageTheorems.v
