(* ===== verification/Prelude.v ===== *)
(** * MsgRiver: a verification development

    MsgRiver is a single-host message service: a local client submits a message
    over a Unix socket, the service keeps it in SQLite and hands it to one of two
    providers (ntfy, WhatsApp), and a public webhook lets listed senders run three
    commands. Beside the service the repository holds the library of decisions of
    its core crate, and the codecs and state machine of a fixed-root control
    journal that later releases are to stand on.

    ** Parts, files and sources

    Paths are relative to [src/crates]. A file models the named source; its
    operations carry the source's names.

    Common ground: [Prelude] (results, machine integers, list and tactic library),
    [Bytes] and [Text] (what is used of Rust's byte strings, integers and string
    methods), [Json] (values and accessors of [serde_json]), [JsonText] (the text of flat
    objects, and the contract of a parser that reads it), [Codec] (fixed-layout
    wires and the interface [WireCodec]).

    The core crate ([msgriver-core/src]): [CoreError] ([lib.rs]), [CoreTime]
    ([math.rs], [safetime.rs], [clock_checkpoint.rs]), [Fence], [MessageState]
    ([state.rs]), [Retry], [Generation], [Incarnation], [Ring], [Bounded],
    [Sha256] and [Canon] (both [canon.rs]).

    The running service: [Store] ([msgriver-store/src/lib.rs] over the tables of
    its migrations), [StoreSchema] (the migrations themselves), [MigrationV2] (the text
    that the build embeds, with [build.rs]), [StoreOpening] (the profile, the selected keys), [Http], [Service] and [Config] ([msgriver/src/main.rs]),
    [Connectors] ([msgriver-connectors/src]: [driver.rs], [ntfy.rs],
    [whatsapp.rs]), [RetryAfter], [Jitter] ([msgriver/src/jitter_source.rs]) and
    [Client] ([msgriver-client/src/lib.rs]). Beside it stands [Paths]
    ([msgriver-protocol/src/path.rs]): the path segments, which nothing calls yet.

    The control journal ([msgriver/src/initialization_key_pair.rs] and the files of
    [msgriver/src/initialization_key_pair/]): [Clock]
    ([clock_authority_projection.rs], [clock_checkpoint_body.rs]), [Journal] (key
    acquisition, [control_journal_header.rs], [control_journal_record.rs]),
    [RecoveryEvent], [RecoveryRing], [GenerateProfile], [Pointer]
    ([active_state_pointer.rs]), [Command] ([fixed_root_command.rs],
    [fixed_root_command_record.rs], [fixed_root_command_authenticated.rs]); and [control_journal_image.rs] in
    [ImageWire] (writer and reader), [Addressed] (addressed operations and their
    wires), [Checkpoint] (records and validation), [CheckpointCodec] (the thirteen
    members), [Replay] (the tail interpreter and folding), [Image] (sealed regions
    and the whole wire), [Append] (the operations that grow an image),
    [Host] (a directory, its files and the system calls on them), [Durable] (what of
    it survives a crash) and [Publication] (the owner directory: reading, replacing, reopening). The
    root and its owner are [Platform] ([msgriver/src/lib.rs]: start-up policy, root
    refusal, owner lock), [KeyFiles] ([publication.rs]) and [PointerPublication]
    ([active_state_pointer_publisher.rs], [active_state_pointer_caller.rs],
    [active_state_pointer_coordinator.rs], [active_state_pointer_generation_reopen.rs]). The
    start is [Bootstrap] ([msgriver/src/service_bootstrap.rs]) and [Envelope]
    ([bootstrap_envelope.rs]); the state MAC keys are [StateMacKeys] ([state_mac_key_file.rs]
    and the [state_mac_key_] files of [msgriver/src]: [path], [manifest_row], [meta_row],
    [manifest], [high_water], [snapshot]) and [StateMacDirectory]
    ([state_mac_key_reader.rs], [state_mac_key_directory_verifier.rs]).

    Proofs about several of them: [StoreSpec] (the abstract store and the
    refinement), [StoreSafety] and [StoreOps] (histories of store calls),
    [ServiceSafety] and [ServiceOps] (histories of processes), [History],
    [CrashSafety], [PublicationLive], [PublicationHistory] and [ImageTheorems] (the
    image).

    ** How they interact

    [Client] writes what [Http] reads; [Service] dispatches the request to [Store]
    operations and writes the answer [Client] parses. [serve_loop] alternates
    between arrivals and [dispatch_due], which claims a row of [Store], runs
    [Connectors.deliver] and records the outcome. A life of the service is one
    process; [lives] runs several, each of which starts with start-up recovery and
    may end anywhere.

    In the journal, [CheckpointCodec] composes the member codecs of [Clock],
    [Pointer], [RecoveryRing], [GenerateProfile] and [Addressed] through their
    [WireCodec] instances, [Replay] interprets the records of [Journal] over the
    checkpoint of [Checkpoint], and every operation on the image goes through
    [replay_tail].

    Three writers share the state root: [KeyFiles] publishes and loads the two
    initialization keys, [PointerPublication] the active-state pointer, [Publication]
    the journal. All of them run in the monad of [Host] and take the owner lock of
    [Platform] first; what a power loss may leave of a file is one theory, [Durable],
    that their theorems instantiate.

    [Bootstrap] runs the steps of a start over adapters: [Platform]'s policy, root and
    lock first, the service's own after them; [Envelope] supplies the root. The state
    keys that a store selects are validated by [StateMacKeys]; [StateMacDirectory]
    verifies the directory that holds them and reads one of them.

    ** What the theorems show

    - Store: every operation refines its atomic specification under every pattern
      of engine failures; histories keep the constraints, never change final rows
      or submitted content, never accept a callback twice nor a fifth notification in
      a window; a requeue beyond the attempts' limit is in the way for good.
    - Schema: the migrations are atomic upgrades of the histories they know, keep what a
      store of any version holds, and leave the tables the store's own theorems start from
      ([StoreSchema]); a store is opened only with a verified profile, and the table of the
      selected keys is one that no migration makes ([StoreOpening]).
    - Service: a message is handed over again by itself only when nothing was written or
      the answer was 429, else only after an operator's requeue of a refused attempt (of
      which one kind, a success answer that the ntfy driver cannot read, may have been
      published), at most five times; an accepting answer implies a durable row; only an
      authentic callback, as old as the clock allows, reaches the store, as one call.
    - Framing: requests that are read are exactly the bytes received, what drivers
      write is one request whatever the caller supplied, and client and service
      understand one another over every parser of [JsonText].
    - Core: canonical encodings identify exactly the requests that are the same, tags
      being a set, and tell omitted options from given ones;
      retry delays equal their unbounded reference; incarnations are not reused.
    - Journal: each codec accepts exactly the encodings of well-typed values
      ([WireCodec]), hence round trips in both directions; replay never moves safe
      time backwards and never replaces a hold; folding a tail preserves the
      projection.
    - Image: a wire is accepted exactly when the encoder writes it; whatever grows an
      image keeps it well typed and takes nothing back; the head of a projection
      commits to its tail ([History]); pending obligations survive a new clock
      authority.
    - Publication: whatever fails and whenever the process is killed or the machine
      crashes, the journal is the old one or the whole new one, as the result says
      ([CrashSafety]); only what does not go back replaces it, the loops end, and on a
      working host a grown image is published and reopened ([PublicationLive]).
      [ImageTheorems] applies all of this to a concrete image and host.
    - Publication over time: in any history of publications, reopenings, failing calls,
      kills and crashes the journal does not fall behind the last image whose
      publication succeeded ([PublicationHistory]).
    - Keys and pointer: each file is absent, old or whole whatever happens; what was
      published is what is loaded; a pointer is replaced only where its mode allows it;
      a load that succeeds ran under the lock of a private root in a process that is not
      root's ([KeyFiles], [PointerPublication], [Platform]).
    - Start: nothing runs before policy, non-root check, root and lock, and a start that
      succeeds has all four ([Bootstrap]); the envelope that is accepted is the trusted
      file with the six expected values ([Envelope]).
    - State keys: a snapshot is accepted exactly when its keys are usable
      ([StateMacKeys]); a directory that is verified is exactly its manifest, and all its
      keys can be read ([StateMacDirectory]).

    ** Bounds, fuel and environment

    Machine integers are [Z] with their range written out; subtraction and addition
    that overflow are panics, since the workspace turns overflow checks on. Fuel:
    [decimal] runs on 20 digits, enough for 64 bits; trimming on the length of its
    argument; SHA-256 padding on 64, proved enough by [pad_loop_done]. Loops over
    input are structural recursions on the input. Engine failures, network and
    socket behaviour, clock readings and process ends are arguments over which the
    theorems quantify. The host of a publication is a directory of named inodes, what
    its path, its reference and its opened descriptor show of the root, the settings of
    the process and a list with the outcome of every system call; when the list ends
    the process is killed at that call, and [crash] relates a directory to what a power
    loss may leave of it: any names since the last sync of the directory, arbitrary data
    in files not synced. While the owner lock is held nobody else changes the
    directory. [serde_json], the TOML parser, the [hmac] crate, TLS and the operating
    system are parameters or cases of the environment; [HmacOutput] states that HMAC tags
    have 32 bytes, which [canon_hmac] (the repository's own HMAC) satisfies. The
    [sha2] crate is taken to compute the SHA-256 that [canon.rs] writes out.

    ** Not modelled

    The phase-zero fixtures (test-only), generated protocol tables and vendored code;
    most tables of migration 2 and its triggers (only the tables that the store reads are
    modelled; that its text has the pinned digest is the code's own check, and not
    evaluated here); the one-shot client commands of
    [main.rs]; the JSON validator of [msgriver-protocol], a set of visitors that a
    third-party parser drives and that no command calls yet; of the journal directory
    the generator of malformed wires ([mutate_control_journal_image], used by tests).
    A COMMIT of the store that fails is taken to be without effect, and the rollback of a
    dropped transaction to succeed; the migrations' engine can also lose an answer.
    The steps of the bootstrap after the owner lock belong to an adapter that is not
    written yet. Descriptors, their lifetimes and the erasure of memory ([zeroize]) have
    no result the modelled code depends on. *)

From stdpp Require Export base tactics option list numbers strings gmap sorting.
From Stdlib Require Export ZArith Lia.

#[local] Open Scope Z_scope.

(** ** The [Result] type *)

Inductive result (E A : Type) : Type :=
| Ok (a : A)
| Err (e : E).
Arguments Ok {E A} a.
Arguments Err {E A} e.

#[export] Instance result_ret (E : Type) : MRet (result E) := fun A a => Ok a.

#[export] Instance result_bind (E : Type) : MBind (result E) :=
  fun A B f m => match m with Ok a => f a | Err e => Err e end.

#[export] Instance result_fmap (E : Type) : FMap (result E) :=
  fun A B f m => match m with Ok a => Ok (f a) | Err e => Err e end.

#[export] Instance result_eq_dec (E A : Type) `{EqDecision E} `{EqDecision A} :
  EqDecision (result E A).
Proof. solve_decision. Defined.

(** [Option::ok_or], [Result::ok] and [Result::map_err]. *)
Definition ok_or {E A : Type} (o : option A) (e : E) : result E A :=
  match o with Some a => Ok a | None => Err e end.

Definition ok {E A : Type} (r : result E A) : option A :=
  match r with Ok a => Some a | Err _ => None end.

Definition map_err {E F A : Type} (f : E -> F) (r : result E A) : result F A :=
  match r with Ok a => Ok a | Err e => Err (f e) end.

Definition is_ok {E A : Type} (r : result E A) : bool :=
  match r with Ok _ => true | Err _ => false end.

(** ** Machine integers

    A w-bit Rust integer is a [Z] inside its range; every operation that can
    leave the range is written out with the checked, wrapping or truncating
    behaviour the source selects. *)

Definition u8_max : Z := 2 ^ 8 - 1.
Definition u16_max : Z := 2 ^ 16 - 1.
Definition u32_max : Z := 2 ^ 32 - 1.
Definition u64_max : Z := 2 ^ 64 - 1.
Definition u128_max : Z := 2 ^ 128 - 1.
Definition i64_max : Z := 2 ^ 63 - 1.
Definition i64_min : Z := - 2 ^ 63.

Definition within (lo hi z : Z) : bool := (lo <=? z) && (z <=? hi).

Definition is_u8 (z : Z) : bool := within 0 u8_max z.
Definition is_u16 (z : Z) : bool := within 0 u16_max z.
Definition is_u32 (z : Z) : bool := within 0 u32_max z.
Definition is_u64 (z : Z) : bool := within 0 u64_max z.
Definition is_u128 (z : Z) : bool := within 0 u128_max z.
Definition is_i64 (z : Z) : bool := within i64_min i64_max z.

(** [checked_*] and [T::try_from]: the value when the target type holds it. *)
Definition checked (in_range : Z -> bool) (z : Z) : option Z :=
  if in_range z then Some z else None.

Definition checked_add_u64 (a b : Z) : option Z := checked is_u64 (a + b).
Definition checked_add_i64 (a b : Z) : option Z := checked is_i64 (a + b).
Definition checked_sub_i64 (a b : Z) : option Z := checked is_i64 (a - b).
Definition checked_mul_i64 (a b : Z) : option Z := checked is_i64 (a * b).
Definition checked_abs_i64 (a : Z) : option Z := checked is_i64 (Z.abs a).

(** [as u8], [as u32], [as u64], [as i64] between integer types. *)
Definition wrap (bits z : Z) : Z := z mod 2 ^ bits.
Definition as_i64 (z : Z) : Z := (z + 2 ^ 63) mod 2 ^ 64 - 2 ^ 63.

(** ** Automation *)

Create Rewrite HintDb b2p.
#[export] Hint Rewrite andb_true_iff orb_true_iff negb_true_iff andb_false_iff
  orb_false_iff negb_false_iff Z.leb_le Z.ltb_lt Z.eqb_eq Z.leb_gt Z.ltb_ge
  Z.eqb_neq Nat.leb_le Nat.ltb_lt Nat.eqb_eq Nat.leb_gt Nat.ltb_ge Nat.eqb_neq
  bool_decide_eq_true bool_decide_eq_false : b2p.

(** Turn boolean tests of the code into the propositions they decide. *)
Ltac b2p := autorewrite with b2p in *.

Ltac unfold_ranges :=
  unfold checked_add_u64, checked_add_i64, checked_sub_i64, checked_mul_i64,
    checked_abs_i64, checked, is_u8, is_u16, is_u32, is_u64, is_u128, is_i64,
    within, u8_max, u16_max, u32_max, u64_max, u128_max, i64_max, i64_min in *.

(** Case analysis on every test and match of the goal, innermost first. *)
Ltac split_cases :=
  repeat (case_match; simplify_eq/=; try done).

(** Range arithmetic: unfold the machine bounds, decide the tests, call [lia]. *)
Ltac range_solve := unfold_ranges; split_cases; b2p; intuition (try lia).

(** ** Shared lemmas *)

Section checked_facts.
Context (in_range : Z -> bool).

Lemma checked_Some z v : checked in_range z = Some v <-> v = z /\ in_range z = true.
Proof. unfold checked. destruct (in_range z); naive_solver. Qed.

Lemma checked_None z : checked in_range z = None <-> in_range z = false.
Proof. unfold checked. destruct (in_range z); naive_solver. Qed.
End checked_facts.

Lemma within_spec lo hi z : within lo hi z = true <-> lo <= z <= hi.
Proof. unfold within. b2p. done. Qed.

Lemma bind_Ok {E A B : Type} (m : result E A) (f : A -> result E B) b :
  m ≫= f = Ok b <-> exists a, m = Ok a /\ f a = Ok b.
Proof. destruct m; naive_solver. Qed.

Lemma Ok_inj {E A : Type} (a b : A) : @Ok E A a = Ok b -> a = b.
Proof. congruence. Qed.

Lemma ok_or_Ok {E A : Type} (o : option A) (e : E) a : ok_or o e = Ok a <-> o = Some a.
Proof. destruct o; naive_solver. Qed.

(** A property of every byte, or of every integer of an interval, is decided
    by evaluating it on the interval. *)
Definition zrange (n : nat) : list Z := map Z.of_nat (seq 0 n).

Lemma zrange_forall (n : nat) (P : Z -> bool) :
  forallb P (zrange n) = true -> forall z, 0 <= z < Z.of_nat n -> P z = true.
Proof.
  intros H z Hz. rewrite forallb_forall in H. apply H.
  apply in_map_iff. exists (Z.to_nat z). split; [lia|]. apply in_seq. lia.
Qed.

Lemma zrange_forall2 (n m : nat) (P : Z -> Z -> bool) :
  forallb (fun a => forallb (P a) (zrange m)) (zrange n) = true ->
  forall a b, 0 <= a < Z.of_nat n -> 0 <= b < Z.of_nat m -> P a b = true.
Proof.
  intros H a b Ha Hb. apply (zrange_forall m); [|done].
  exact (zrange_forall n (fun a => forallb (P a) (zrange m)) H a Ha).
Qed.

(** Close a boolean goal about an integer [b] of [0, n) by evaluating it at
    every value; the bound is left to [lia]. *)
Ltac by_range n b :=
  lazymatch goal with
  | |- ?B = true =>
    let P := eval pattern b in B in
    lazymatch P with
    | ?f b => refine (zrange_forall n f _ b _); [vm_compute; reflexivity|lia]
    end
  end.

Ltac by_range2 n m a b :=
  lazymatch goal with
  | |- ?B = true =>
    let P := eval pattern a, b in B in
    lazymatch P with
    | ?f a b =>
      refine (zrange_forall2 n m f _ a b _ _); [vm_compute; reflexivity|lia|lia]
    end
  end.

(** Lists *)

Lemma app_inj_length {A : Type} (l1 l2 k1 k2 : list A) :
  length l1 = length l2 -> l1 ++ k1 = l2 ++ k2 -> l1 = l2 /\ k1 = k2.
Proof. intros Hl H. apply app_inj_1 in H; [done|lia]. Qed.

Lemma forallb_Forall {A : Type} (f : A -> bool) l :
  forallb f l = true <-> Forall (fun x => f x = true) l.
Proof.
  induction l as [|x l IH]; simpl; [done|].
  rewrite andb_true_iff, IH, Forall_cons. done.
Qed.

Lemma existsb_Exists {A : Type} (f : A -> bool) l :
  existsb f l = true <-> Exists (fun x => f x = true) l.
Proof.
  induction l as [|x l IH]; simpl; [split; [done|inversion 1]|].
  rewrite orb_true_iff, IH, Exists_cons. done.
Qed.

#[export] Hint Rewrite within_spec @forallb_Forall @existsb_Exists : b2p.
