(* ===== verification/Bytes.v ===== *)
(** * Byte strings, text and fixed-width encodings

    Rust's [&[u8]] and [Vec<u8>] are lists of [Z] in [0, 256); [&str] and
    [String] are Rocq strings read as their UTF-8 bytes. The file holds what the
    crates use of the standard library on them: ASCII classes, UTF-8 decoding,
    [char::is_control], big-endian integers, lowercase hexadecimal, the
    lexicographic order behind [sort] with [dedup], and the lemmas on framing
    that the codecs share. *)

From S2P Require Import Prelude.

#[local] Open Scope Z_scope.

Abbreviation bytes := (list Z).

Definition is_byte (b : Z) : bool := within 0 255 b.
Definition is_bytes (l : bytes) : bool := forallb is_byte l.

(** ** Text *)

Definition byte_of_ascii (c : Ascii.ascii) : Z := Z.of_N (Ascii.N_of_ascii c).
Definition ascii_of_byte (b : Z) : Ascii.ascii := Ascii.ascii_of_N (Z.to_N b).

(** [str::as_bytes]. *)
Fixpoint as_bytes (s : string) : bytes :=
  match s with
  | EmptyString => []
  | String c s' => byte_of_ascii c :: as_bytes s'
  end.

Fixpoint of_bytes (l : bytes) : string :=
  match l with
  | [] => EmptyString
  | b :: l' => String (ascii_of_byte b) (of_bytes l')
  end.

(** [value.len()], a byte count. *)
Definition str_len (s : string) : Z := Z.of_nat (String.length s).
Definition len (l : bytes) : Z := Z.of_nat (length l).

Lemma len_cat l k : len (l ++ k) = len l + len k.
Proof. unfold len. rewrite length_app. lia. Qed.

Lemma len_nonneg l : 0 <= len l.
Proof. unfold len. lia. Qed.

(** ** ASCII classes of [u8] *)

Definition is_ascii_digit (b : Z) : bool := within 48 57 b.
Definition is_ascii_uppercase (b : Z) : bool := within 65 90 b.
Definition is_ascii_lowercase (b : Z) : bool := within 97 122 b.
Definition is_ascii_alphanumeric (b : Z) : bool :=
  is_ascii_digit b || is_ascii_uppercase b || is_ascii_lowercase b.
Definition is_ascii_graphic (b : Z) : bool := within 33 126 b.
Definition is_ascii_control (b : Z) : bool := within 0 31 b || (b =? 127).
Definition is_ascii (b : Z) : bool := within 0 127 b.

(** ** UTF-8 *)

Definition cont (b : Z) : bool := within 128 191 b.

(** [str::from_utf8] followed by [chars]: the code points of a well-formed
    sequence, [None] otherwise. *)
Fixpoint utf8_chars (l : bytes) : option (list Z) :=
  match l with
  | [] => Some []
  | b0 :: l0 =>
    if within 0 127 b0 then cons b0 <$> utf8_chars l0
    else match l0 with
    | [] => None
    | b1 :: l1 =>
      if within 194 223 b0 then
        if cont b1 then cons ((b0 - 192) * 64 + (b1 - 128)) <$> utf8_chars l1
        else None
      else match l1 with
      | [] => None
      | b2 :: l2 =>
        if within 224 239 b0 then
          if (if b0 =? 224 then within 160 191 b1
              else if b0 =? 237 then within 128 159 b1 else cont b1) && cont b2
          then cons ((b0 - 224) * 4096 + (b1 - 128) * 64 + (b2 - 128)) <$> utf8_chars l2
          else None
        else match l2 with
        | [] => None
        | b3 :: l3 =>
          if within 240 244 b0 then
            if (if b0 =? 240 then within 144 191 b1
                else if b0 =? 244 then within 128 143 b1 else cont b1)
               && cont b2 && cont b3
            then cons ((b0 - 240) * 262144 + (b1 - 128) * 4096
                       + (b2 - 128) * 64 + (b3 - 128)) <$> utf8_chars l3
            else None
          else None
        end
      end
    end
  end.

Definition is_utf8 (l : bytes) : bool :=
  match utf8_chars l with Some _ => true | None => false end.

(** [char::is_control]: general category Cc. *)
Definition char_is_control (c : Z) : bool := within 0 31 c || within 127 159 c.

(** ** Big-endian integers *)

(** [n] bytes of [z], most significant first; the two's complement bytes of a
    signed [z]. *)
Fixpoint be_bytes (n : nat) (z : Z) : bytes :=
  match n with
  | O => []
  | S n' => be_bytes n' (z / 256) ++ [z mod 256]
  end.

Definition of_be_bytes (l : bytes) : Z := foldl (fun acc b => acc * 256 + b) 0 l.

(** ** Lowercase hexadecimal *)

(** [HEX[i]] of [b"0123456789abcdef"]. *)
Definition hex_digit (n : Z) : Z := if n <? 10 then 48 + n else 87 + n.

Definition hex_byte (b : Z) : bytes :=
  [hex_digit (Z.shiftr b 4); hex_digit (Z.land b 15)].

Definition hex_bytes (l : bytes) : bytes := flat_map hex_byte l.

(** ** Order, sort and dedup of byte strings *)

Fixpoint bytes_cmp (a b : bytes) : comparison :=
  match a, b with
  | [], [] => Eq
  | [], _ :: _ => Lt
  | _ :: _, [] => Gt
  | x :: a', y :: b' =>
    match x ?= y with Eq => bytes_cmp a' b' | c => c end
  end.

Fixpoint insert_bytes (x : bytes) (l : list bytes) : list bytes :=
  match l with
  | [] => [x]
  | y :: l' => match bytes_cmp x y with Gt => y :: insert_bytes x l' | _ => x :: y :: l' end
  end.

(** [sort] and [sort_unstable]: equal byte strings are indistinguishable. *)
Definition sort_bytes (l : list bytes) : list bytes := foldr insert_bytes [] l.

(** [Vec::dedup]: drop consecutive repetitions. *)
Fixpoint dedup (l : list bytes) : list bytes :=
  match l with
  | [] => []
  | x :: l' =>
    match dedup l' with
    | (y :: _) as d => if bool_decide (x = y) then d else x :: d
    | [] => [x]
    end
  end.

(** ** Lemmas: text *)

Lemma byte_of_ascii_of_byte b : is_byte b = true -> byte_of_ascii (ascii_of_byte b) = b.
Proof.
  intros Hb. apply (within_spec 0 255) in Hb. unfold byte_of_ascii, ascii_of_byte.
  rewrite Ascii.N_ascii_embedding; lia.
Qed.

Lemma ascii_of_byte_of_ascii c : ascii_of_byte (byte_of_ascii c) = c.
Proof.
  unfold byte_of_ascii, ascii_of_byte. rewrite N2Z.id. apply Ascii.ascii_N_embedding.
Qed.

Lemma is_byte_of_ascii c : is_byte (byte_of_ascii c) = true.
Proof.
  unfold byte_of_ascii. pose proof (Ascii.N_ascii_bounded c).
  apply within_spec. lia.
Qed.

Lemma of_bytes_as_bytes s : of_bytes (as_bytes s) = s.
Proof. induction s as [|c s IH]; simpl; [done|]. by rewrite ascii_of_byte_of_ascii, IH. Qed.

Lemma as_bytes_of_bytes l : is_bytes l = true -> as_bytes (of_bytes l) = l.
Proof.
  induction l as [|b l IH]; simpl; [done|]. intros [Hb Hl]%andb_true_iff.
  by rewrite byte_of_ascii_of_byte, IH.
Qed.

Lemma as_bytes_inj s t : as_bytes s = as_bytes t -> s = t.
Proof. intros H. rewrite <- (of_bytes_as_bytes s), H. apply of_bytes_as_bytes. Qed.

Lemma is_bytes_as_bytes s : is_bytes (as_bytes s) = true.
Proof. induction s as [|c s IH]; simpl; [done|]. by rewrite is_byte_of_ascii, IH. Qed.

Lemma length_as_bytes s : length (as_bytes s) = String.length s.
Proof. induction s; simpl; auto. Qed.

Lemma is_bytes_app l k : is_bytes (l ++ k) = is_bytes l && is_bytes k.
Proof. apply forallb_app. Qed.

(** ** Lemmas: big-endian integers *)

Lemma length_be_bytes n z : length (be_bytes n z) = n.
Proof.
  revert z. induction n as [|n IH]; intros z; simpl; [done|].
  rewrite length_app, IH. simpl. lia.
Qed.

Lemma is_bytes_be_bytes n z : is_bytes (be_bytes n z) = true.
Proof.
  revert z. induction n as [|n IH]; intros z; simpl; [done|].
  rewrite is_bytes_app, IH. simpl. rewrite andb_true_r. apply within_spec.
  pose proof (Z.mod_pos_bound z 256). lia.
Qed.

Lemma of_be_bytes_snoc l b : of_be_bytes (l ++ [b]) = of_be_bytes l * 256 + b.
Proof. unfold of_be_bytes. by rewrite foldl_app. Qed.

Lemma of_be_bytes_be_bytes n z : of_be_bytes (be_bytes n z) = z mod 256 ^ Z.of_nat n.
Proof.
  revert z. induction n as [|n IH]; intros z; [by rewrite Z.mod_1_r|].
  cbn [be_bytes]. rewrite of_be_bytes_snoc, IH, Nat2Z.inj_succ, Z.pow_succ_r by lia.
  rewrite Z.rem_mul_r by lia. lia.
Qed.

Lemma be_bytes_of_be_bytes l :
  is_bytes l = true -> be_bytes (length l) (of_be_bytes l) = l.
Proof.
  induction l as [|b l IH] using rev_ind; [done|].
  rewrite is_bytes_app. simpl. rewrite andb_true_r. intros [Hl Hb]%andb_true_iff.
  apply (within_spec 0 255) in Hb.
  rewrite length_app, of_be_bytes_snoc, Nat.add_comm. cbn [length Nat.add be_bytes].
  replace ((of_be_bytes l * 256 + b) / 256) with (of_be_bytes l)
    by (rewrite Z.div_add_l, Z.div_small; lia).
  rewrite IH by done. f_equal. f_equal.
  rewrite Z.add_comm, Z.mod_add, Z.mod_small; lia.
Qed.

Lemma be_bytes_inj n z w :
  0 <= z < 256 ^ Z.of_nat n -> 0 <= w < 256 ^ Z.of_nat n ->
  be_bytes n z = be_bytes n w -> z = w.
Proof.
  intros Hz Hw H. rewrite <- (Z.mod_small z (256 ^ Z.of_nat n)) by done.
  rewrite <- (Z.mod_small w (256 ^ Z.of_nat n)) by done.
  by rewrite <- !of_be_bytes_be_bytes, H.
Qed.

(** Signed 64-bit integers are told apart by their eight bytes. *)
Lemma be_bytes_i64_inj z w :
  is_i64 z = true -> is_i64 w = true -> be_bytes 8 z = be_bytes 8 w -> z = w.
Proof.
  unfold is_i64. rewrite !within_spec. unfold i64_min, i64_max. intros Hz Hw H.
  apply (f_equal of_be_bytes) in H. rewrite !of_be_bytes_be_bytes in H.
  change (256 ^ Z.of_nat 8) with (2 ^ 64) in H.
  destruct (Z.lt_ge_cases z 0), (Z.lt_ge_cases w 0);
    rewrite ?(Z.mod_small z), ?(Z.mod_small w) in H by lia;
    rewrite <- ?(Z.mod_add z 1), <- ?(Z.mod_add w 1), ?Z.mod_small in H by lia; lia.
Qed.

Lemma of_be_bytes_bound l :
  is_bytes l = true -> 0 <= of_be_bytes l < 256 ^ Z.of_nat (length l).
Proof.
  intros Hl. rewrite <- (be_bytes_of_be_bytes l) at 1 2 by done.
  rewrite of_be_bytes_be_bytes. apply Z.mod_pos_bound. lia.
Qed.

Lemma of_be_bytes_app l k :
  of_be_bytes (l ++ k) = of_be_bytes l * 256 ^ len k + of_be_bytes k.
Proof.
  unfold len. induction k as [|b k IH] using rev_ind.
  - rewrite app_nil_r. cbn. lia.
  - rewrite app_assoc, !of_be_bytes_snoc, IH, length_app, Nat2Z.inj_add.
    rewrite Z.pow_add_r by lia. change (256 ^ Z.of_nat (length [b])) with 256. lia.
Qed.

(** ** Lemmas: hexadecimal *)

Lemma length_hex_bytes l : length (hex_bytes l) = (2 * length l)%nat.
Proof. induction l as [|b l IH]; cbn; [done|]. unfold hex_bytes in IH. rewrite IH. lia. Qed.

Definition is_hex_lower (b : Z) : bool := within 48 57 b || within 97 102 b.

Lemma hex_byte_lower b : is_byte b = true -> forallb is_hex_lower (hex_byte b) = true.
Proof.
  intros Hb%(within_spec 0 255). by_range 256%nat b.
Qed.

Lemma hex_bytes_lower l : is_bytes l = true -> forallb is_hex_lower (hex_bytes l) = true.
Proof.
  induction l as [|b l IH]; [done|]. cbn [is_bytes forallb].
  intros [Hb Hl]%andb_true_iff. unfold hex_bytes. cbn [flat_map].
  rewrite forallb_app. apply andb_true_iff. split; [by apply hex_byte_lower|by apply IH].
Qed.

#[global] Arguments be_bytes : simpl never.
#[global] Arguments hex_bytes : simpl never.

(** ** Lemmas: sort and dedup *)

Lemma bytes_cmp_eq a b : bytes_cmp a b = Eq <-> a = b.
Proof.
  revert b. induction a as [|x a IH]; intros [|y b]; simpl; try done.
  destruct (Z.compare_spec x y) as [->|?|?]; rewrite ?IH; split; try done;
    try (by intros ->); intros [= ?]; subst; try done; lia.
Qed.

Lemma bytes_cmp_antisym a b : bytes_cmp b a = CompOpp (bytes_cmp a b).
Proof.
  revert b. induction a as [|x a IH]; intros [|y b]; simpl; try done.
  rewrite (Z.compare_antisym x y). destruct (x ?= y); simpl; auto.
Qed.

Lemma bytes_cmp_trans a b c :
  bytes_cmp a b = Lt -> bytes_cmp b c = Lt -> bytes_cmp a c = Lt.
Proof.
  revert b c. induction a as [|x a IH]; intros [|y b] [|z c]; simpl; try done.
  destruct (Z.compare_spec x y), (Z.compare_spec y z), (Z.compare_spec x z);
    subst; try done; try lia; eauto.
Qed.

Definition bytes_le (a b : bytes) : Prop := bytes_cmp a b <> Gt.

#[export] Instance bytes_le_trans : Transitive bytes_le.
Proof.
  intros a b c Hab Hbc Hac. unfold bytes_le in *.
  destruct (bytes_cmp a b) eqn:E; [apply bytes_cmp_eq in E as ->; done| |done].
  destruct (bytes_cmp b c) eqn:E'; [apply bytes_cmp_eq in E' as ->; congruence| |done].
  by rewrite (bytes_cmp_trans _ _ _ E E') in Hac.
Qed.

#[export] Instance bytes_le_antisymm : AntiSymm (=) bytes_le.
Proof.
  intros a b Hab Hba. unfold bytes_le in *. rewrite (bytes_cmp_antisym a b) in Hba.
  apply bytes_cmp_eq. by destruct (bytes_cmp a b).
Qed.

Lemma insert_bytes_perm x l : insert_bytes x l ≡ₚ x :: l.
Proof.
  induction l as [|y l IH]; simpl; [done|].
  destruct (bytes_cmp x y); [done..|]. rewrite IH. apply Permutation_swap.
Qed.

Lemma sort_bytes_perm l : sort_bytes l ≡ₚ l.
Proof.
  induction l as [|x l IH]; [done|]. simpl. by rewrite insert_bytes_perm, IH.
Qed.

Lemma insert_bytes_sorted x l :
  StronglySorted bytes_le l -> StronglySorted bytes_le (insert_bytes x l).
Proof.
  induction 1 as [|y l Hl IH Hall]; simpl; [repeat constructor|].
  destruct (bytes_cmp x y) eqn:E.
  1,2: assert (bytes_le x y) by (unfold bytes_le; congruence);
    constructor; [by constructor|]; constructor; [done|];
    eapply Forall_impl; [exact Hall|]; intros z Hz; by transitivity y.
  constructor; [done|]. rewrite insert_bytes_perm. constructor; [|done].
  unfold bytes_le. by rewrite bytes_cmp_antisym, E.
Qed.

Lemma sort_bytes_sorted l : StronglySorted bytes_le (sort_bytes l).
Proof. induction l; simpl; [constructor|by apply insert_bytes_sorted]. Qed.

Lemma elem_of_dedup x l : x ∈ dedup l <-> x ∈ l.
Proof.
  induction l as [|y l IH]; simpl; [done|].
  rewrite (elem_of_cons l), <- IH. destruct (dedup l) as [|z d]; [by rewrite elem_of_cons|].
  case_bool_decide; subst; rewrite !elem_of_cons; tauto.
Qed.

Lemma dedup_sorted_nodup l :
  StronglySorted bytes_le l -> StronglySorted bytes_le (dedup l) /\ NoDup (dedup l).
Proof.
  induction 1 as [|y l Hl [IHs IHn] Hall]; simpl; [by split; constructor|].
  assert (Forall (bytes_le y) (dedup l)) as Hd.
  { rewrite Forall_forall in Hall |- *. intros z Hz. by apply Hall, elem_of_dedup. }
  destruct (dedup l) as [|z d]; [split; [repeat constructor|apply NoDup_singleton]|].
  case_bool_decide as Hyz; [by split|]. split; [by constructor|].
  constructor; [|done]. rewrite elem_of_cons. intros [?|Hin]; [done|].
  apply StronglySorted_inv in IHs as [_ Hz]. apply Forall_cons in Hd as [Hle _].
  rewrite Forall_forall in Hz. apply Hyz. apply (anti_symm bytes_le); auto.
Qed.

(** Sorting and deduplicating canonicalises the set of elements. *)
Lemma dedup_sort_set l k :
  dedup (sort_bytes l) = dedup (sort_bytes k) <-> forall x, x ∈ l <-> x ∈ k.
Proof.
  assert (forall l x, x ∈ dedup (sort_bytes l) <-> x ∈ l) as Hel.
  { intros l' x. by rewrite elem_of_dedup, sort_bytes_perm. }
  split; [intros H x; by rewrite <- (Hel l), <- (Hel k), H|intros H].
  destruct (dedup_sorted_nodup _ (sort_bytes_sorted l)) as [Hs Hn].
  destruct (dedup_sorted_nodup _ (sort_bytes_sorted k)) as [Hs' Hn'].
  apply (StronglySorted_unique bytes_le); [done..|].
  apply NoDup_Permutation; [done..|]. intros x. by rewrite !Hel.
Qed.

(** ** Lemmas: length-prefixed framing *)

Definition lp32 (value : bytes) : bytes := be_bytes 4 (wrap 32 (len value)) ++ value.

(** A field whose length fits the 32-bit prefix. *)
Definition framed (value : bytes) : bool := len value <=? u32_max.

Lemma app_be_bytes_inj n z w l k :
  be_bytes n z ++ l = be_bytes n w ++ k -> be_bytes n z = be_bytes n w /\ l = k.
Proof. apply app_inj_length. by rewrite !length_be_bytes. Qed.

Lemma be4_inj z w :
  0 <= z <= u32_max -> 0 <= w <= u32_max -> be_bytes 4 z = be_bytes 4 w -> z = w.
Proof.
  intros Hz Hw. apply be_bytes_inj; change (256 ^ Z.of_nat 4) with (2 ^ 32);
    unfold u32_max in *; lia.
Qed.

Lemma lp32_app_inj a b x y :
  framed a = true -> framed b = true -> lp32 a ++ x = lp32 b ++ y -> a = b /\ x = y.
Proof.
  unfold framed, lp32, len. rewrite <- !app_assoc, !Z.leb_le. intros Ha Hb H.
  apply app_be_bytes_inj in H as [Hl H]. unfold wrap in Hl.
  rewrite !Z.mod_small in Hl by (unfold u32_max in *; lia).
  apply be4_inj in Hl; [|lia..]. by apply app_inj_length in H; [|lia].
Qed.
