(* ===== verification/Text.v ===== *)
(** * Text scanning ([str] and [slice] methods the services parse with)

    Request and response heads are byte lists that passed [str::from_utf8]. The
    file translates the standard-library scanners the sources call: [split],
    [split_once], [rsplit_once], [strip_prefix], [trim], [lines],
    [split_ascii_whitespace], [eq_ignore_ascii_case], [windows(4).position] and
    the integer parsers. *)

From S2P Require Import Prelude Bytes.

#[local] Open Scope Z_scope.

(** ** Prefixes and suffixes *)

Fixpoint strip_prefix (p l : bytes) : option bytes :=
  match p, l with
  | [], _ => Some l
  | x :: p', y :: l' => if x =? y then strip_prefix p' l' else None
  | _ :: _, [] => None
  end.

Definition strip_suffix (s l : bytes) : option bytes :=
  (@rev Z) <$> strip_prefix (rev s) (rev l).

Definition starts_with (p l : bytes) : bool :=
  match strip_prefix p l with Some _ => true | None => false end.

Definition contains_any (set l : bytes) : bool :=
  existsb (fun b => existsb (Z.eqb b) set) l.

(** ** Splitting *)

(** [split_once(c)] and [rsplit_once(c)] at one ASCII character. *)
Fixpoint split_once (c : Z) (l : bytes) : option (bytes * bytes) :=
  match l with
  | [] => None
  | b :: l' => if b =? c then Some ([], l')
               else '(x, y) ← split_once c l'; Some (b :: x, y)
  end.

Definition rsplit_once (c : Z) (l : bytes) : option (bytes * bytes) :=
  '(x, y) ← split_once c (rev l); Some (rev y, rev x).

(** [split(c)]. *)
Fixpoint split_on (c : Z) (l : bytes) : list bytes :=
  match l with
  | [] => [[]]
  | b :: l' =>
    if b =? c then [] :: split_on c l'
    else match split_on c l' with
         | x :: rest => (b :: x) :: rest
         | [] => [[b]]
         end
  end.

(** [split("\r\n")]. *)
Fixpoint split_crlf (l : bytes) : list bytes :=
  match l with
  | [] => [[]]
  | b :: l' =>
    match l' with
    | b' :: l'' =>
      if (b =? 13) && (b' =? 10) then [] :: split_crlf l''
      else match split_crlf l' with
           | x :: rest => (b :: x) :: rest
           | [] => [[b]]
           end
    | [] => [[b]]
    end
  end.

Definition CRLF : bytes := [13; 10].
Definition CRLFCRLF : bytes := [13; 10; 13; 10].

(** [windows(4).position(|w| w == b"\r\n\r\n")]. *)
Fixpoint position (needle l : bytes) : option nat :=
  if starts_with needle l then Some O
  else match l with
       | [] => None
       | _ :: l' => S <$> position needle l'
       end.

(** [lines]: a line ends at LF, with the CR before it removed; what follows the
    last LF is a line when it is not empty, and keeps its CR. *)
Definition lines (l : bytes) : list bytes :=
  let pieces := split_on 10 l in
  map (fun line => match strip_suffix [13] line with Some x => x | None => line end)
    (removelast pieces)
  ++ match last pieces with
     | Some [] | None => []
     | Some line => [line]
     end.

Definition is_ascii_whitespace (b : Z) : bool :=
  (b =? 32) || (b =? 9) || (b =? 10) || (b =? 12) || (b =? 13).

Fixpoint split_whitespace_from (acc l : bytes) : list bytes :=
  match l with
  | [] => match acc with [] => [] | _ => [rev acc] end
  | b :: l' =>
    if is_ascii_whitespace b then
      match acc with [] => split_whitespace_from [] l'
      | _ => rev acc :: split_whitespace_from [] l' end
    else split_whitespace_from (b :: acc) l'
  end.
Definition split_ascii_whitespace (l : bytes) : list bytes := split_whitespace_from [] l.

(** ** Trimming *)

(** The encodings of the [White_Space] characters. *)
Definition whitespace_chars : list bytes :=
  map (fun b => [b]) [9; 10; 11; 12; 13; 32] ++ [[194; 133]; [194; 160]; [225; 154; 128]]
  ++ map (fun b => [226; 128; b]) [128; 129; 130; 131; 132; 133; 134; 135; 136; 137; 138;
                                   168; 169; 175]
  ++ [[226; 129; 159]; [227; 128; 128]].

Fixpoint first_strip (ps : list bytes) (l : bytes) : option bytes :=
  match ps with
  | [] => None
  | p :: ps' => match strip_prefix p l with Some l' => Some l' | None => first_strip ps' l end
  end.

Fixpoint trim_with (fuel : nat) (ps : list bytes) (l : bytes) : bytes :=
  match fuel with
  | O => l
  | S fuel' => match first_strip ps l with Some l' => trim_with fuel' ps l' | None => l end
  end.

(** Every pattern is nonempty, so the length of the text is enough fuel. *)
Definition trim_start (l : bytes) : bytes := trim_with (length l) whitespace_chars l.
Definition trim_end (l : bytes) : bytes :=
  rev (trim_with (length l) (map (@rev Z) whitespace_chars) (rev l)).
Definition trim (l : bytes) : bytes := trim_end (trim_start l).

(** [contains(char::is_whitespace)]. *)
Fixpoint has_whitespace (l : bytes) : bool :=
  match first_strip whitespace_chars l with
  | Some _ => true
  | None => match l with [] => false | _ :: l' => has_whitespace l' end
  end.

(** ** Case and integers *)

Definition to_ascii_lowercase (b : Z) : Z := if is_ascii_uppercase b then b + 32 else b.
Definition eq_ignore_ascii_case (a b : bytes) : bool :=
  bool_decide (map to_ascii_lowercase a = map to_ascii_lowercase b).

(** [parse] of an unsigned integer of at most [maximum]: an optional [+], then
    one or more digits. *)
Definition parse_digits (maximum : Z) (l : bytes) : option Z :=
  match l with
  | [] => None
  | _ => if forallb is_ascii_digit l
         then let v := foldl (fun acc b => acc * 10 + (b - 48)) 0 l in
              if v <=? maximum then Some v else None
         else None
  end.

Definition parse_unsigned (maximum : Z) (l : bytes) : option Z :=
  match strip_prefix [43] l with
  | Some rest => parse_digits maximum rest
  | None => parse_digits maximum l
  end.

Definition parse_usize (l : bytes) : option Z := parse_unsigned u64_max l.
Definition parse_u16 (l : bytes) : option Z := parse_unsigned u16_max l.

(** [parse::<i64>]. *)
Definition parse_i64 (l : bytes) : option Z :=
  match strip_prefix [45] l with
  | Some rest => Z.opp <$> parse_digits (- i64_min) rest
  | None => parse_unsigned i64_max l
  end.

(** [to_string] of an unsigned integer. *)
Fixpoint decimal_from (fuel : nat) (n : Z) (acc : bytes) : bytes :=
  match fuel with
  | O => acc
  | S fuel' =>
    let acc := (48 + n mod 10) :: acc in
    if n <? 10 then acc else decimal_from fuel' (n / 10) acc
  end.
(** Twenty digits hold every 64-bit value. *)
Definition decimal (n : Z) : bytes := decimal_from 20 n [].

Example trim_example : trim (as_bytes "  12 ") = as_bytes "12".
Proof. vm_compute. reflexivity. Qed.
Example split_example : split_crlf (as_bytes "a" ++ CRLF ++ as_bytes "b") = [as_bytes "a"; as_bytes "b"].
Proof. vm_compute. reflexivity. Qed.
Example lines_example : lines (as_bytes "a" ++ CRLF ++ as_bytes "b" ++ [10]) = [as_bytes "a"; as_bytes "b"].
Proof. vm_compute. reflexivity. Qed.

Example lines_last : lines (as_bytes "a" ++ [13]) = [as_bytes "a" ++ [13]].
Proof. vm_compute. reflexivity. Qed.

(** ** Lemmas *)

Lemma strip_prefix_Some p l r : strip_prefix p l = Some r <-> l = p ++ r.
Proof.
  revert l. induction p as [|x p IH]; intros l; cbn.
  - split; [by intros [= ->]|by intros ->].
  - destruct l as [|y l]; [done|]. destruct (Z.eqb_spec x y) as [->|Hne].
    + rewrite IH. split; [by intros ->|by intros [= ->]].
    + split; [done|]. intros [= -> ->]. done.
Qed.

Lemma strip_suffix_Some s l r : strip_suffix s l = Some r <-> l = r ++ s.
Proof.
  unfold strip_suffix. split.
  - destruct (strip_prefix (rev s) (rev l)) as [x|] eqn:E; [|done]. intros [= <-].
    apply strip_prefix_Some in E. apply (f_equal (@rev Z)) in E.
    by rewrite rev_app_distr, !rev_involutive in E.
  - intros ->. rewrite rev_app_distr.
    rewrite (proj2 (strip_prefix_Some (rev s) (rev s ++ rev r) (rev r))) by done.
    cbn. by rewrite rev_involutive.
Qed.

Lemma starts_with_spec p l : starts_with p l = true <-> exists r, l = p ++ r.
Proof.
  unfold starts_with. destruct (strip_prefix p l) as [r|] eqn:E.
  - apply strip_prefix_Some in E. split; [eauto|done].
  - split; [done|]. intros [r Hr%strip_prefix_Some]. congruence.
Qed.

(** The position found is that of the first occurrence. *)
Lemma position_Some needle l n :
  position needle l = Some n <->
  (exists before after, l = before ++ needle ++ after /\ length before = n)
  /\ forall m, (m < n)%nat -> starts_with needle (drop m l) = false.
Proof.
  revert n. induction l as [|b l IH]; intros n; cbn [position].
  - destruct (starts_with needle []) eqn:Hs.
    + split.
      * intros [= <-]. split; [|lia]. apply starts_with_spec in Hs as [r Hr].
        exists [], r. done.
      * intros [(before & after & H & <-) _]. destruct before; [done|discriminate].
    + split; [done|]. intros [(before & after & H & <-) _]. destruct before; [|discriminate].
      assert (starts_with needle [] = true) by (apply starts_with_spec; eauto). congruence.
  - destruct (starts_with needle (b :: l)) eqn:Hs.
    + split.
      * intros [= <-]. split; [|lia]. apply starts_with_spec in Hs as [r Hr]. exists [], r. done.
      * intros [(before & after & H & <-) Hm]. destruct before as [|x before]; [done|].
        specialize (Hm O ltac:(cbn; lia)). rewrite drop_0 in Hm. congruence.
    + split.
      * destruct (position needle l) as [k|] eqn:E; [|done]. intros [= <-].
        destruct (proj1 (IH k) eq_refl) as [(before & after & -> & <-) Hm]. split.
        { exists (b :: before), after. done. }
        intros [|m] Hlt; [by rewrite drop_0|]. cbn. apply Hm. lia.
      * intros [(before & after & H & <-) Hm]. destruct before as [|x before].
        { exfalso. assert (starts_with needle (b :: l) = true) by (apply starts_with_spec; eauto).
          congruence. }
        injection H as -> ->. cbn [length].
        rewrite (proj2 (IH (length before))); [done|]. split; [eauto|].
        intros m Hlt. apply (Hm (S m)). cbn. lia.
Qed.

(** ** Heads made of lines *)

(** Lines joined as a head joins them. *)
Fixpoint join_crlf (ls : list bytes) : bytes :=
  match ls with
  | [] => []
  | [l] => l
  | l :: rest => l ++ CRLF ++ join_crlf rest
  end.

Definition cr_free (l : bytes) : bool := forallb (fun b => negb (b =? 13)) l.

Lemma join_crlf_cons l x rest : join_crlf (l :: x :: rest) = l ++ CRLF ++ join_crlf (x :: rest).
Proof. done. Qed.

Lemma cr_free_app l k : cr_free (l ++ k) = cr_free l && cr_free k.
Proof. apply forallb_app. Qed.

Lemma cr_free_from (f : Z -> bool) l :
  (forall b, f b = true -> negb (b =? 13) = true) -> forallb f l = true -> cr_free l = true.
Proof. intros Hf. unfold cr_free. rewrite !forallb_Forall. intros H. by apply (Forall_impl _ _ _ H). Qed.

Lemma split_crlf_free_cons b l :
  negb (b =? 13) = true ->
  split_crlf (b :: l) = match split_crlf l with x :: rest => (b :: x) :: rest | [] => [[b]] end.
Proof. intros Hb%negb_true_iff. cbn. destruct l; [done|]. by rewrite Hb. Qed.

Lemma split_crlf_free l : cr_free l = true -> split_crlf l = [l].
Proof.
  induction l as [|b l IH]; [done|]. intros [Hb Hl]%andb_true_iff.
  by rewrite split_crlf_free_cons, IH.
Qed.

Lemma split_crlf_line l r : cr_free l = true -> split_crlf (l ++ CRLF ++ r) = l :: split_crlf r.
Proof.
  induction l as [|b l IH]; [done|]. intros [Hb Hl]%andb_true_iff. cbn [app].
  by rewrite split_crlf_free_cons, IH.
Qed.

(** Lines without CR are the lines of their join: none of them can smuggle another. *)
Lemma split_crlf_join ls :
  ls <> [] -> Forall (fun l => cr_free l = true) ls -> split_crlf (join_crlf ls) = ls.
Proof.
  induction ls as [|l [|x rest] IH]; [done| |]; intros _ [Hl Hr]%Forall_cons.
  - by apply split_crlf_free.
  - rewrite join_crlf_cons, split_crlf_line by done. by rewrite IH.
Qed.

Lemma position_free_cons b l :
  negb (b =? 13) = true -> position CRLFCRLF (b :: l) = S <$> position CRLFCRLF l.
Proof.
  intros Hb. cbn [position]. unfold starts_with, CRLFCRLF. cbn [strip_prefix].
  rewrite Z.eqb_sym. by apply negb_true_iff in Hb as ->.
Qed.

Lemma position_free_app l r :
  cr_free l = true -> position CRLFCRLF (l ++ r) = (Nat.add (length l)) <$> position CRLFCRLF r.
Proof.
  induction l as [|b l IH].
  - intros _. cbn [app]. by destruct (position CRLFCRLF r).
  - intros [Hb Hl]%andb_true_iff. cbn [app]. rewrite position_free_cons, IH by done.
    by destruct (position CRLFCRLF r).
Qed.

(** The blank line that ends a head of nonempty lines without CR is the first. *)
Lemma position_join ls r :
  ls <> [] -> Forall (fun l => cr_free l = true /\ l <> []) ls ->
  position CRLFCRLF (join_crlf ls ++ CRLFCRLF ++ r) = Some (length (join_crlf ls)).
Proof.
  induction ls as [|l [|x rest] IH]; [done| |]; intros _ [[Hl Hne] Hr]%Forall_cons.
  - cbn [join_crlf]. rewrite position_free_app by done.
    assert (position CRLFCRLF (CRLFCRLF ++ r) = Some O) as ->.
    { apply position_Some. split; [by exists [], r|lia]. }
    cbn. f_equal. lia.
  - rewrite join_crlf_cons, <- !app_assoc, position_free_app by done.
    specialize (IH ltac:(done) Hr). apply Forall_cons in Hr as [[Hx Hxne] _].
    assert (exists b l', join_crlf (x :: rest) ++ CRLFCRLF ++ r = b :: l'
              /\ negb (b =? 13) = true) as (b & l' & E & Hb).
    { destruct x as [|b x]; [done|]. apply andb_true_iff in Hx as [Hb _].
      exists b. destruct rest; cbn; eauto. }
    rewrite E in *. unfold CRLF. cbn [app]. change (13 :: 10 :: b :: l') with ([13; 10] ++ b :: l').
    assert (position CRLFCRLF ([13; 10] ++ b :: l') = (Nat.add 2) <$> position CRLFCRLF (b :: l')) as ->.
    { cbn [app]. cbn [position]. unfold starts_with, CRLFCRLF. cbn [strip_prefix].
      apply negb_true_iff in Hb. rewrite (Z.eqb_sym 13 b), Hb. cbn.
      by destruct (position [13; 10; 13; 10] l'). }
    rewrite IH. cbn. f_equal. rewrite !length_app. cbn. lia.
Qed.

Lemma digit_cr_free l : forallb is_ascii_digit l = true -> cr_free l = true.
Proof. apply cr_free_from. intros b Hb. unfold is_ascii_digit, within in Hb. b2p. lia. Qed.

Lemma decimal_from_digits fuel n acc :
  0 <= n -> forallb is_ascii_digit acc = true -> forallb is_ascii_digit (decimal_from fuel n acc) = true.
Proof.
  revert n acc. induction fuel as [|fuel IH]; intros n acc Hn Hacc; [done|]. cbn [decimal_from].
  cbv zeta. assert (forallb is_ascii_digit ((48 + n mod 10) :: acc) = true) as Ha.
  { cbn. rewrite Hacc. unfold is_ascii_digit. rewrite andb_true_r. apply within_spec.
    pose proof (Z.mod_pos_bound n 10). lia. }
  destruct (n <? 10); [done|]. apply IH; [|done]. apply Z.div_pos; lia.
Qed.

Lemma decimal_digits n : 0 <= n -> forallb is_ascii_digit (decimal n) = true.
Proof. intros Hn. by apply decimal_from_digits. Qed.

(** ** Decimal integers *)

Lemma decimal_from_value fuel n acc :
  0 <= n < 10 ^ Z.of_nat fuel ->
  foldl (fun v b => v * 10 + (b - 48)) 0 (decimal_from fuel n acc)
  = foldl (fun v b => v * 10 + (b - 48)) n acc.
Proof.
  revert n acc. induction fuel as [|fuel IH]; intros n acc Hn.
  - cbn in Hn. by replace n with 0 by lia.
  - cbn [decimal_from]. cbv zeta. pose proof (Z.div_mod n 10 ltac:(lia)).
    destruct (Z.ltb_spec n 10).
    + cbn [foldl]. f_equal. rewrite Z.mod_small by lia. lia.
    + rewrite IH.
      * cbn [foldl]. f_equal. lia.
      * rewrite Nat2Z.inj_succ, Z.pow_succ_r in Hn by lia.
        split; [apply Z.div_pos; lia|apply Z.div_lt_upper_bound; lia].
Qed.

Lemma decimal_from_nonempty fuel n acc : acc <> [] -> decimal_from fuel n acc <> [].
Proof.
  revert n acc. induction fuel as [|fuel IH]; intros n acc Hacc; [done|]. cbn [decimal_from].
  cbv zeta. destruct (n <? 10); [done|]. by apply IH.
Qed.

Lemma decimal_nonempty n : decimal n <> [].
Proof.
  unfold decimal. cbn [decimal_from]. cbv zeta. destruct (n <? 10); [done|].
  by apply (decimal_from_nonempty 19).
Qed.

Lemma digit_cases b : is_ascii_digit b = true ->
  b = 48 \/ b = 49 \/ b = 50 \/ b = 51 \/ b = 52 \/ b = 53 \/ b = 54 \/ b = 55 \/ b = 56 \/ b = 57.
Proof. unfold is_ascii_digit, within. b2p. lia. Qed.

(** No encoding of white space starts, or ends, with a digit. *)
Lemma digit_not_space b l :
  is_ascii_digit b = true ->
  first_strip whitespace_chars (b :: l) = None
  /\ first_strip (map (@rev Z) whitespace_chars) (b :: l) = None.
Proof.
  intros Hb. repeat destruct (digit_cases b Hb) as [->|Hb']; try done;
    repeat (destruct Hb' as [->|Hb']; [done|]); subst; done.
Qed.

Lemma trim_with_stop ps fuel l : first_strip ps l = None -> trim_with fuel ps l = l.
Proof. intros H. destruct fuel; cbn; [done|]. by rewrite H. Qed.

Lemma trim_digits l : l <> [] -> forallb is_ascii_digit l = true -> trim (32 :: l) = l.
Proof.
  intros Hne Hd. unfold trim.
  assert (trim_start (32 :: l) = l) as ->.
  { unfold trim_start. cbn [length trim_with].
    change (first_strip whitespace_chars (32 :: l)) with (Some l). cbv iota.
    apply trim_with_stop. destruct l as [|b l]; [done|]. apply andb_true_iff in Hd as [Hb _].
    exact (proj1 (digit_not_space b l Hb)). }
  unfold trim_end. rewrite trim_with_stop; [by rewrite rev_involutive|].
  destruct (rev l) as [|b k] eqn:E.
  - by rewrite <- (rev_involutive l), E in Hne.
  - refine (proj2 (digit_not_space b k _)). rewrite forallb_forall in Hd. apply Hd.
    apply in_rev. rewrite E. by left.
Qed.

Lemma parse_digits_decimal maximum n :
  0 <= n <= maximum -> n < 10 ^ 20 -> parse_digits maximum (decimal n) = Some n.
Proof.
  intros Hn Hmax. unfold parse_digits. rewrite decimal_digits by lia.
  pose proof (decimal_nonempty n). destruct (decimal n) as [|b k] eqn:E; [done|]. rewrite <- E.
  cbv zeta. unfold decimal. rewrite decimal_from_value by (cbn; lia). cbn [foldl].
  by destruct (Z.leb_spec n maximum); [|lia].
Qed.

(** A printed length is the length read back. *)
Lemma parse_usize_decimal n :
  0 <= n <= u64_max -> parse_usize (trim (32 :: decimal n)) = Some n.
Proof.
  intros Hn. rewrite trim_digits by (try apply decimal_nonempty; apply decimal_digits; lia).
  unfold parse_usize, parse_unsigned.
  assert (strip_prefix [43] (decimal n) = None) as ->.
  { pose proof (decimal_digits n ltac:(lia)) as Hd. destruct (decimal n) as [|b k]; [done|].
    apply andb_true_iff in Hd as [Hb _]. cbn [strip_prefix].
    destruct (Z.eqb_spec 43 b) as [<-|]; [discriminate Hb|reflexivity]. }
  apply parse_digits_decimal; [done|]. unfold u64_max in Hn. lia.
Qed.

(** ASCII text is UTF-8. *)
Lemma utf8_chars_ascii l : forallb is_ascii l = true -> utf8_chars l = Some l.
Proof.
  induction l as [|b l IH]; [done|]. intros [Hb Hl]%andb_true_iff. cbn [utf8_chars].
  fold (is_ascii b). by rewrite Hb, IH.
Qed.

Lemma ascii_is_utf8 l : forallb is_ascii l = true -> is_utf8 l = true.
Proof. intros H. unfold is_utf8. by rewrite utf8_chars_ascii. Qed.

Lemma digits_ascii l : forallb is_ascii_digit l = true -> forallb is_ascii l = true.
Proof.
  rewrite !forallb_forall. intros H b Hb. specialize (H b Hb).
  unfold is_ascii_digit, is_ascii, within in *. b2p. lia.
Qed.
