(* ===== verification/CoreError.v ===== *)
(** * The core error vocabulary ([crates/msgriver-core/src/lib.rs])

    [Frontier] and [RejectClass] are the closed enumerations of the source;
    [CoreError] is the private sum [CoreErrorInner] behind its accessors. *)

From S2P Require Import Prelude.

(** [enum Frontier]: the scaffold seams. *)
Inductive Frontier : Type :=
| ValidateBoundedGrammar
| CheckedArithmetic
| CanonicalEncode
| MacDomainSeparate
| ComputeBackoff
| StateTransition
| TerminalPrecedence
| FenceArbitrate
| SafeTimeHighWater
| GenerationArithmetic
| IncarnationAlloc
| KeyRingState
| ReadinessReasonFrontier.

Definition frontier_label (f : Frontier) : string :=
  match f with
  | ValidateBoundedGrammar => "validate_bounded_grammar"
  | CheckedArithmetic => "checked_arithmetic"
  | CanonicalEncode => "canonical_encode"
  | MacDomainSeparate => "mac_domain_separate"
  | ComputeBackoff => "compute_backoff"
  | StateTransition => "state_transition"
  | TerminalPrecedence => "terminal_precedence"
  | FenceArbitrate => "fence_arbitrate"
  | SafeTimeHighWater => "safe_time_high_water"
  | GenerationArithmetic => "generation_arithmetic"
  | IncarnationAlloc => "incarnation_alloc"
  | KeyRingState => "key_ring_state"
  | ReadinessReasonFrontier => "readiness_reason"
  end.

(** [enum RejectClass]: the stable rejections. *)
Inductive RejectClass : Type :=
| InvalidIdentifier
| InvalidTopic
| TooManyTags
| InvalidTag
| InvalidUtf8
| EmptyText
| InvalidTextControl
| InvalidTitleControl
| TitleTooLong
| TextTooLong
| ExpiryInPast
| ArithmeticOverflow
| ControlCapacity
| InvalidTransition
| LeaseConfigInvalid
| RetryDelayInputInvalid
| StateGenerationExhausted
| IncarnationExhausted
| DowntimeCeilingInvalid
| SafeTimeAuthorityEmpty
| SafeTimeRegression
| MacKeySerialExhausted
| IncarnationSerialZero
| IncarnationHexWidth
| IncarnationHexCase
| IncarnationHexCharacter.

Definition reject_label (c : RejectClass) : string :=
  match c with
  | InvalidIdentifier => "invalid_identifier"
  | InvalidTopic => "invalid_topic"
  | TooManyTags => "too_many_tags"
  | InvalidTag => "invalid_tag"
  | InvalidUtf8 => "invalid_utf8"
  | EmptyText => "empty_text"
  | InvalidTextControl => "invalid_text_control"
  | InvalidTitleControl => "invalid_title_control"
  | TitleTooLong => "title_too_long"
  | TextTooLong => "text_too_long"
  | ExpiryInPast => "expiry_in_past"
  | ArithmeticOverflow => "arithmetic_overflow"
  | ControlCapacity => "control_capacity"
  | InvalidTransition => "invalid_transition"
  | LeaseConfigInvalid => "lease_config_invalid"
  | RetryDelayInputInvalid => "retry_delay_input_invalid"
  | StateGenerationExhausted => "state_generation_exhausted"
  | IncarnationExhausted => "incarnation_exhausted"
  | DowntimeCeilingInvalid => "downtime_ceiling_invalid"
  | SafeTimeAuthorityEmpty => "safe_time_authority_empty"
  | SafeTimeRegression => "safe_time_regression"
  | MacKeySerialExhausted => "mac_key_serial_exhausted"
  | IncarnationSerialZero => "incarnation_serial_zero"
  | IncarnationHexWidth => "incarnation_hex_width"
  | IncarnationHexCase => "incarnation_hex_case"
  | IncarnationHexCharacter => "incarnation_hex_character"
  end.

#[export] Instance Frontier_eq_dec : EqDecision Frontier.
Proof. solve_decision. Defined.
#[export] Instance RejectClass_eq_dec : EqDecision RejectClass.
Proof. solve_decision. Defined.

(** [struct CoreError] over its private [enum CoreErrorInner]. *)
Inductive CoreError : Type :=
| ScaffoldGap (frontier : Frontier)
| Reject (class : RejectClass).

#[export] Instance CoreError_eq_dec : EqDecision CoreError.
Proof. solve_decision. Defined.

Definition scaffold_frontier (e : CoreError) : option Frontier :=
  match e with ScaffoldGap f => Some f | Reject _ => None end.

Definition reject_class (e : CoreError) : option RejectClass :=
  match e with ScaffoldGap _ => None | Reject c => Some c end.

Abbreviation core_result := (result CoreError).

Definition scaffold {A : Type} (f : Frontier) : core_result A := Err (ScaffoldGap f).
Definition reject {A : Type} (c : RejectClass) : core_result A := Err (Reject c).

Definition ok_or_reject {A : Type} (o : option A) (c : RejectClass) : core_result A :=
  ok_or o (Reject c).
