(* ===== verification/Fence.v ===== *)
(** * Fence and lease arbitration ([crates/msgriver-core/src/fence.rs]) *)

From S2P Require Import Prelude CoreError.

#[local] Open Scope Z_scope.

Inductive FenceOutcome : Type :=
| Accepted | Transient | Permanent | Ambiguous.

#[export] Instance FenceOutcome_eq_dec : EqDecision FenceOutcome.
Proof. solve_decision. Defined.

Module Evidence.
Inductive ProviderResponseEvidence : Type :=
| Accepted | Transient | RateLimited | PermanentValidation
| AuthenticationConfiguration | Ambiguous.
End Evidence.

Module Normalized.
Inductive NormalizedProviderOutcome : Type :=
| Accepted | Transient | RateLimited | Permanent
| AuthenticationConfiguration | Ambiguous.
End Normalized.

Definition classify_provider_response (evidence : Evidence.ProviderResponseEvidence)
    : core_result Normalized.NormalizedProviderOutcome :=
  Ok (match evidence with
      | Evidence.Accepted => Normalized.Accepted
      | Evidence.Transient => Normalized.Transient
      | Evidence.RateLimited => Normalized.RateLimited
      | Evidence.PermanentValidation => Normalized.Permanent
      | Evidence.AuthenticationConfiguration => Normalized.AuthenticationConfiguration
      | Evidence.Ambiguous => Normalized.Ambiguous
      end).

Inductive FenceArbitration : Type :=
| Applied (outcome : FenceOutcome)
| Stale (ambiguity_orred : bool) (attempt_delta : Z).

Definition arbitrate_outcome (current_lease_generation current_fence_token
    update_lease_generation update_fence_token : Z) (outcome : FenceOutcome)
    : core_result FenceArbitration :=
  if bool_decide ((current_lease_generation, current_fence_token)
                  = (update_lease_generation, update_fence_token))
  then Ok (Applied outcome)
  else match outcome with
  | Transient | Permanent => Ok (Stale false 0)
  | Ambiguous => Ok (Stale true 0)
  | Accepted => scaffold FenceArbitrate
  end.

Definition validate_lease_config (lease_ttl_millis timeout_millis margin_millis : Z)
    : core_result unit :=
  required ← ok_or_reject (checked_add_u64 timeout_millis margin_millis) LeaseConfigInvalid;
  if (5000 <=? margin_millis) && (required <? lease_ttl_millis)
  then Ok tt else reject LeaseConfigInvalid.

(** ** Properties *)

(** For u64 inputs the lease check accepts exactly when the margin is at least
    five seconds and the lease outlives timeout plus margin, the sum taken
    without wrap-around. *)
Theorem validate_lease_config_exact ttl timeout margin :
  is_u64 ttl = true -> is_u64 timeout = true -> is_u64 margin = true ->
  validate_lease_config ttl timeout margin =
    if (5000 <=? margin) && (timeout + margin <? ttl) then Ok tt
    else Err (Reject LeaseConfigInvalid).
Proof.
  intros Ht Hi Hm. unfold validate_lease_config, ok_or_reject, ok_or, reject.
  unfold_ranges. split_cases; cbn in *; split_cases; b2p; lia.
Qed.

(** An outcome is applied exactly when lease generation and fence token both
    match; an unmatched outcome never decrements an attempt, ORs ambiguity
    exactly for an ambiguous outcome, and an unmatched acceptance is never
    decided here. *)
Theorem arbitrate_outcome_exact g t g' t' o r :
  arbitrate_outcome g t g' t' o = Ok r <->
  (g = g' /\ t = t' /\ r = Applied o) \/
  ((g <> g' \/ t <> t') /\ o <> Accepted /\ r = Stale (bool_decide (o = Ambiguous)) 0).
Proof.
  unfold arbitrate_outcome, scaffold. case_bool_decide as Heq.
  - simplify_eq. naive_solver.
  - assert (g <> g' \/ t <> t') by (destruct (decide (g = g')); naive_solver).
    destruct o; naive_solver.
Qed.
