(* ===== verification/MessageState.v ===== *)
(** * Message states, sticky flags and terminal precedence
    ([crates/msgriver-core/src/state.rs]) *)

From S2P Require Import Prelude CoreError.

Inductive MessageState : Type :=
| Queued | Held | Delivering | RetryScheduled
| ProviderAccepted | Failed | Cancelled | Expired.

#[export] Instance MessageState_eq_dec : EqDecision MessageState.
Proof. solve_decision. Defined.

Record StickyFlags : Type := mkFlags {
  cancel_requested : bool;
  effect_may_have_occurred : bool;
  duplicate_effect_possible : bool
}.

Inductive TransitionEvent : Type :=
| FairClaim | DispatchMark | TransientOutcome | AmbiguousOutcome | Cancel.

Record TransitionResult : Type := mkTransitionResult {
  state : MessageState;
  flags : StickyFlags
}.

(** [transition], arm by arm in the source's order. *)
Definition transition (from : MessageState) (current_flags : StickyFlags)
    (event : TransitionEvent) : core_result TransitionResult :=
  match from, current_flags, event with
  | Queued, mkFlags false false false, FairClaim =>
    Ok (mkTransitionResult Delivering current_flags)
  | RetryScheduled, mkFlags false true _, FairClaim =>
    Ok (mkTransitionResult Delivering current_flags)
  | Delivering, mkFlags false false false, DispatchMark =>
    Ok (mkTransitionResult Delivering (mkFlags false true false))
  | ProviderAccepted, mkFlags false true false, FairClaim =>
    reject InvalidTransition
  | Delivering, mkFlags false true false, TransientOutcome =>
    Ok (mkTransitionResult RetryScheduled current_flags)
  | Delivering, mkFlags false true true, TransientOutcome =>
    Ok (mkTransitionResult RetryScheduled (mkFlags false true true))
  | Delivering, mkFlags false true false, AmbiguousOutcome =>
    Ok (mkTransitionResult RetryScheduled (mkFlags false true true))
  | Delivering, mkFlags false true true, AmbiguousOutcome =>
    Ok (mkTransitionResult RetryScheduled (mkFlags false true true))
  | Delivering, mkFlags false true false, Cancel =>
    Ok (mkTransitionResult Delivering (mkFlags true true false))
  | Delivering, mkFlags false true true, Cancel =>
    Ok (mkTransitionResult Delivering (mkFlags true true true))
  | Delivering, mkFlags true true true, Cancel =>
    Ok (mkTransitionResult Delivering (mkFlags true true true))
  | Delivering, mkFlags false false false, Cancel =>
    Ok (mkTransitionResult Delivering
          (mkFlags true (effect_may_have_occurred current_flags)
             (duplicate_effect_possible current_flags)))
  | _, _, _ => scaffold StateTransition
  end.

Record TerminalGuards : Type := mkGuards {
  known_provider_acceptance : bool;
  cancel_committed : bool;
  expiry_eligible : bool;
  attempt_exhausted : bool;
  late_verifiable_ack : bool
}.

Module Winner.
Inductive TerminalWinner : Type :=
| ProviderAccepted | Cancelled | Expired | Failed | NoTerminal.

#[export] Instance TerminalWinner_eq_dec : EqDecision TerminalWinner.
Proof. solve_decision. Defined.
End Winner.

Record LateAckRow : Type := mkLateAckRow {
  prior : MessageState;
  row_late_verifiable_ack : bool;
  row_attempt_history_digest : list Z
}.

Record LateAckResolution : Type := mkLateAckResolution {
  winner : Winner.TerminalWinner;
  attempt_history_digest : list Z
}.

Definition resolve_late_ack (row : LateAckRow) : core_result LateAckResolution :=
  if negb (row_late_verifiable_ack row) then scaffold TerminalPrecedence
  else Ok (mkLateAckResolution Winner.ProviderAccepted (row_attempt_history_digest row)).

Definition terminal_precedence (guards : TerminalGuards)
    : core_result Winner.TerminalWinner :=
  if known_provider_acceptance guards || late_verifiable_ack guards then
    Ok Winner.ProviderAccepted
  else if cancel_committed guards then Ok Winner.Cancelled
  else if expiry_eligible guards then Ok Winner.Expired
  else if attempt_exhausted guards then Ok Winner.Failed
  else Ok Winner.NoTerminal.

(** ** The transition system *)

Abbreviation mstate := (MessageState * StickyFlags)%type.

(** One accepted event. *)
Inductive step : mstate -> TransitionEvent -> mstate -> Prop :=
| step_transition s fl e r :
    transition s fl e = Ok r -> step (s, fl) e (state r, flags r).

(** A run of accepted events. *)
Inductive run : mstate -> list TransitionEvent -> mstate -> Prop :=
| run_nil m : run m [] m
| run_cons m e m' es m'' : step m e m' -> run m' es m'' -> run m (e :: es) m''.

(** Flag order: [a] implies [b], flag by flag. *)
Definition flags_le (a b : StickyFlags) : Prop :=
  (cancel_requested a -> cancel_requested b) /\
  (effect_may_have_occurred a -> effect_may_have_occurred b) /\
  (duplicate_effect_possible a -> duplicate_effect_possible b).

#[export] Instance flags_le_preorder : PreOrder flags_le.
Proof. split; unfold flags_le; [firstorder|intros ???; tauto]. Qed.

(** The flag combinations the accepted events keep: a possible duplicate only
    after a possible effect, a message that is not [Delivering] carries no
    cancellation, a retry follows a possible effect, a queued message is clean. *)
Definition coherent (m : mstate) : bool :=
  let '(s, fl) := m in
  implb (duplicate_effect_possible fl) (effect_may_have_occurred fl) &&
  match s with
  | Queued => negb (cancel_requested fl) && negb (effect_may_have_occurred fl)
  | RetryScheduled => negb (cancel_requested fl) && effect_may_have_occurred fl
  | Delivering => true
  | _ => false
  end.

(** Every accepted event comes from one of the three live states and enters
    [Delivering] or [RetryScheduled]. *)
Lemma step_inv s fl e s' fl' :
  step (s, fl) e (s', fl') ->
  (s = Queued \/ s = RetryScheduled \/ s = Delivering) /\
  (s' = Delivering \/ s' = RetryScheduled) /\ flags_le fl fl'.
Proof.
  inversion 1 as [? ? ? r Ht]; subst. unfold transition, scaffold, reject, flags_le in *.
  destruct s, fl as [[] [] []], e; simplify_eq/=; naive_solver.
Qed.

Lemma step_coherent m e m' : step m e m' -> coherent m = true -> coherent m' = true.
Proof.
  inversion 1 as [s fl ? r Ht]; subst. unfold transition, scaffold, reject in *.
  destruct s, fl as [[] [] []], e; by simplify_eq/=.
Qed.

(** ** Properties *)

(** Along any run of accepted events a sticky flag that is set stays set. *)
Theorem run_flags_sticky m es m' : run m es m' -> flags_le m.2 m'.2.
Proof.
  induction 1 as [|[s fl] e [s' fl'] es m'' Hs Hr IH]; [reflexivity|].
  apply step_inv in Hs as (_ & _ & Hle). by transitivity fl'.
Qed.

(** From a clean queued message every reachable state is coherent: in
    particular a retry is scheduled only after a possible effect and never for
    a message with a requested cancellation. *)
Theorem run_from_queued_coherent es m :
  run (Queued, mkFlags false false false) es m -> coherent m = true.
Proof.
  assert (forall m0 es m, run m0 es m -> coherent m0 = true -> coherent m = true) as Hgen.
  { induction 1; [done|]. eauto using step_coherent. }
  intros H. by apply (Hgen _ _ _ H).
Qed.

(** Terminal precedence is the priority order acceptance, cancel, expiry,
    exhaustion: the winner is [w] exactly when its guard holds and no guard of
    higher priority does. *)
Theorem terminal_precedence_exact g w :
  terminal_precedence g = Ok w <->
  match w with
  | Winner.ProviderAccepted => known_provider_acceptance g || late_verifiable_ack g
  | Winner.Cancelled => negb (known_provider_acceptance g || late_verifiable_ack g)
      && cancel_committed g
  | Winner.Expired => negb (known_provider_acceptance g || late_verifiable_ack g
      || cancel_committed g) && expiry_eligible g
  | Winner.Failed => negb (known_provider_acceptance g || late_verifiable_ack g
      || cancel_committed g || expiry_eligible g) && attempt_exhausted g
  | Winner.NoTerminal => negb (known_provider_acceptance g || late_verifiable_ack g
      || cancel_committed g || expiry_eligible g || attempt_exhausted g)
  end = true.
Proof. destruct g as [[] [] [] [] []], w; naive_solver. Qed.
