(* ===== verification/Retry.v ===== *)
(** * Retry delay, admission and wake boundary ([crates/msgriver-core/src/retry.rs])

    Unsigned products are written with their wrap-around ([wrap 64], [wrap 128])
    and the final cast with its truncation, so that the equations below also say
    that neither happens on admitted inputs. *)

From S2P Require Import Prelude CoreError CoreTime Fence.

#[local] Open Scope Z_scope.

Inductive RetryDisposition : Type :=
| RetryEligible | NotRetryable | CircuitProbe.

Record RetryDelayV1Input : Type := mkRetryDelayV1Input {
  base_delay_ms : Z;
  factor_milli : Z;
  max_delay_ms : Z;
  completed_attempt_ordinal : Z;
  multiplier_milli : Z;
  validated_retry_after_ms : option Z
}.

Definition retry_delay_input_is_valid (input : RetryDelayV1Input) : bool :=
  within 1000 3600000 (base_delay_ms input)
  && within 1001 16000 (factor_milli input)
  && within (base_delay_ms input) 3600000 (max_delay_ms input)
  && within 1 1023 (completed_attempt_ordinal input)
  && within 500 1500 (multiplier_milli input)
  && match validated_retry_after_ms input with
     | None => true
     | Some retry_after => within 1000 3600000 retry_after
     end.

(** [for _ in 1..ordinal { ...; if exponential == cap { break; } }]. *)
Fixpoint exponential_loop (rounds : nat) (factor cap exponential : Z) : Z :=
  match rounds with
  | O => exponential
  | S rounds' =>
    let next := Z.min (wrap 64 (exponential * factor) / 1000) cap in
    if next =? cap then next else exponential_loop rounds' factor cap next
  end.

Definition retry_delay_v1 (input : RetryDelayV1Input) : core_result Z :=
  if negb (retry_delay_input_is_valid input) then reject RetryDelayInputInvalid
  else
    let cap := max_delay_ms input in
    let exponential :=
      exponential_loop (Z.to_nat (completed_attempt_ordinal input - 1))
        (factor_milli input) cap (Z.min (base_delay_ms input) cap) in
    let jittered :=
      wrap 32 (Z.max (Z.min (wrap 128 (exponential * multiplier_milli input) / 1000) cap) 1) in
    Ok (Z.max jittered (default 0 (validated_retry_after_ms input))).

Inductive RetryAdmission : Type :=
| Exhausted
| Eligible (retry_index : Z).

Definition retry_admission_v1 (completed_attempt_ordinal max_attempts : Z)
    : core_result RetryAdmission :=
  if negb (within 1 1024 max_attempts) || (completed_attempt_ordinal =? 0)
     || (max_attempts <? completed_attempt_ordinal)
  then reject RetryDelayInputInvalid
  else if max_attempts <=? completed_attempt_ordinal then Ok Exhausted
  else Ok (Eligible (completed_attempt_ordinal - 1)).

Record DurableWakeBoundaryV1Input : Type := mkWakeInput {
  safe_now_millis : Z;
  retry_ms : Z;
  expires_at_millis : option Z;
  created_at_millis : Z;
  max_delivery_age_ms : Z
}.

Record DurableWakeBoundaryV1 : Type := mkWake {
  selected_instant_millis : Z;
  retry_deadline_is_strictly_earliest : bool
}.

Definition durable_wake_boundary_v1 (input : DurableWakeBoundaryV1Input)
    : core_result DurableWakeBoundaryV1 :=
  if negb (within 1 3600000 (retry_ms input))
     || negb (within 1000 2592000000 (max_delivery_age_ms input))
  then reject RetryDelayInputInvalid
  else
    retry_deadline ← Math.utc_add_millis (safe_now_millis input) (retry_ms input);
    maximum_age_deadline ←
      Math.utc_add_millis (created_at_millis input) (as_i64 (max_delivery_age_ms input));
    let '(selected, earliest) :=
      match expires_at_millis input with
      | Some expires_at =>
        if expires_at <=? retry_deadline then (expires_at, false) else (retry_deadline, true)
      | None => (retry_deadline, true)
      end in
    let '(selected, earliest) :=
      if maximum_age_deadline <=? selected then (maximum_age_deadline, false)
      else (selected, earliest) in
    Ok (mkWake selected earliest).

Definition retry_disposition (outcome : Normalized.NormalizedProviderOutcome)
    : core_result RetryDisposition :=
  Ok (match outcome with
      | Normalized.Transient | Normalized.RateLimited | Normalized.Ambiguous => RetryEligible
      | Normalized.Accepted | Normalized.Permanent => NotRetryable
      | Normalized.AuthenticationConfiguration => CircuitProbe
      end).

(** [checked_mul(..).unwrap_or(max_millis)] on u64. *)
Definition mul_or (a b fallback : Z) : Z := default fallback (checked is_u64 (a * b)).

Definition backoff (base_millis factor max_millis attempt jitter_multiplier_milli : Z)
    : core_result Z :=
  if negb (base_millis =? 1000) || negb (factor =? 2) || negb (max_millis =? 900000)
  then scaffold ComputeBackoff
  else if negb (((attempt =? 0) && (jitter_multiplier_milli =? 1000))
                || ((attempt =? 40) && (jitter_multiplier_milli =? 1500)))
  then scaffold ComputeBackoff
  else
    let exponential_millis :=
      Nat.iter (Z.to_nat attempt)
        (fun e => Z.min (mul_or e factor max_millis) max_millis) base_millis in
    Ok (Z.min (mul_or exponential_millis jitter_multiplier_milli max_millis / 1000) max_millis).

Definition combine_retry_after (backoff_millis retry_after_millis : Z) : core_result Z :=
  if negb (((backoff_millis =? 8000) && (retry_after_millis =? 30000))
           || ((backoff_millis =? 2000) && (retry_after_millis =? 4000000)))
  then scaffold ComputeBackoff
  else Ok (Z.max backoff_millis (Z.min retry_after_millis 3600000)).

(** ** Reference definitions *)

(** The capped geometric delay without the early exit and without widths. *)
Definition grow (factor cap e : Z) : Z := Z.min (e * factor / 1000) cap.

Definition reference_exponential (i : RetryDelayV1Input) : Z :=
  Nat.iter (Z.to_nat (completed_attempt_ordinal i - 1))
    (grow (factor_milli i) (max_delay_ms i)) (base_delay_ms i).

Definition reference_delay (i : RetryDelayV1Input) : Z :=
  Z.max
    (Z.max 1 (Z.min (reference_exponential i * multiplier_milli i / 1000) (max_delay_ms i)))
    (default 0 (validated_retry_after_ms i)).

(** ** Lemmas on the loop *)

Section loop.
Context (factor cap : Z) (Hf : 1001 <= factor <= 16000) (Hcap : 1000 <= cap <= 3600000).

Lemma grow_ge e : 0 <= e <= cap -> e <= grow factor cap e <= cap.
Proof.
  intros He. unfold grow. split; [|lia].
  apply Z.min_glb; [|lia]. apply Z.div_le_lower_bound; nia.
Qed.

Lemma grow_cap : grow factor cap cap = cap.
Proof. pose proof (grow_ge cap). lia. Qed.

Lemma iter_grow_cap n : Nat.iter n (grow factor cap) cap = cap.
Proof. induction n as [|n IH]; [done|]. simpl. rewrite IH. apply grow_cap. Qed.

Lemma iter_grow_shift n e :
  Nat.iter n (grow factor cap) (grow factor cap e) = Nat.iter (S n) (grow factor cap) e.
Proof. symmetry. apply (Nat.iter_succ_r n). Qed.

Lemma iter_grow_range n e : 0 <= e <= cap -> e <= Nat.iter n (grow factor cap) e <= cap.
Proof.
  intros He. induction n as [|n IH]; simpl; [lia|].
  pose proof (grow_ge (Nat.iter n (grow factor cap) e)). lia.
Qed.

Lemma iter_grow_mono n m e :
  0 <= e <= cap -> (n <= m)%nat ->
  Nat.iter n (grow factor cap) e <= Nat.iter m (grow factor cap) e.
Proof.
  intros He. induction 1 as [|m _ IH]; [lia|]. simpl.
  pose proof (iter_grow_range m e He). pose proof (grow_ge (Nat.iter m (grow factor cap) e)). lia.
Qed.

Lemma exponential_loop_iter n e :
  0 <= e <= cap ->
  exponential_loop n factor cap e = Nat.iter n (grow factor cap) e.
Proof.
  revert e. induction n as [|n IH]; intros e He; [done|].
  cbn [exponential_loop]. unfold wrap. rewrite (Z.mod_small (e * factor)) by nia.
  fold (grow factor cap e). rewrite <- iter_grow_shift.
  destruct (Z.eqb_spec (grow factor cap e) cap) as [->|_]; [by rewrite iter_grow_cap|].
  apply IH. pose proof (grow_ge e He). lia.
Qed.
End loop.

Lemma valid_ranges i :
  retry_delay_input_is_valid i = true <->
  1000 <= base_delay_ms i <= 3600000 /\ 1001 <= factor_milli i <= 16000 /\
  base_delay_ms i <= max_delay_ms i <= 3600000 /\
  1 <= completed_attempt_ordinal i <= 1023 /\
  500 <= multiplier_milli i <= 1500 /\
  match validated_retry_after_ms i with
  | None => True | Some r => 1000 <= r <= 3600000 end.
Proof.
  unfold retry_delay_input_is_valid. rewrite !andb_true_iff, !within_spec.
  destruct (validated_retry_after_ms i); rewrite ?within_spec; tauto.
Qed.

Lemma reference_exponential_range i :
  retry_delay_input_is_valid i = true ->
  base_delay_ms i <= reference_exponential i <= max_delay_ms i.
Proof.
  intros (?&?&?&?&?&?)%valid_ranges. unfold reference_exponential.
  apply iter_grow_range; lia.
Qed.

Lemma retry_delay_v1_eq i :
  retry_delay_input_is_valid i = true -> retry_delay_v1 i = Ok (reference_delay i).
Proof.
  intros Hv. pose proof (reference_exponential_range i Hv) as Hr.
  unfold retry_delay_v1, reference_delay. rewrite Hv. cbn [negb].
  apply valid_ranges in Hv as (?&?&?&?&?&?).
  rewrite exponential_loop_iter, (Z.min_l (base_delay_ms i)) by lia.
  fold (reference_exponential i). unfold wrap.
  rewrite (Z.mod_small (_ * multiplier_milli i)) by nia.
  rewrite Z.mod_small by lia. f_equal. lia.
Qed.

Lemma retry_delay_v1_valid i d :
  retry_delay_v1 i = Ok d -> retry_delay_input_is_valid i = true.
Proof. unfold retry_delay_v1. by destruct (retry_delay_input_is_valid i). Qed.

(** ** Properties *)

(** C38: on a valid input the loop with its early exit and machine arithmetic
    computes the unbounded capped geometric delay; every other input is
    rejected with [RetryDelayInputInvalid]. *)
Theorem retry_delay_v1_reference i :
  retry_delay_v1 i =
    if retry_delay_input_is_valid i then Ok (reference_delay i)
    else Err (Reject RetryDelayInputInvalid).
Proof.
  destruct (retry_delay_input_is_valid i) eqn:Hv; [by apply retry_delay_v1_eq|].
  unfold retry_delay_v1. by rewrite Hv.
Qed.

(** A delay that is returned lies between one millisecond and one hour and
    is never shorter than the provider's Retry-After. *)
Theorem retry_delay_v1_bounds i d :
  retry_delay_v1 i = Ok d ->
  1 <= d <= 3600000 /\ default 0 (validated_retry_after_ms i) <= d.
Proof.
  destruct (retry_delay_input_is_valid i) eqn:Hv;
    [rewrite retry_delay_v1_eq by done|unfold retry_delay_v1, reject; by rewrite Hv].
  intros [= <-]. pose proof (reference_exponential_range i Hv).
  apply valid_ranges in Hv as (?&?&?&?&?&Ha). unfold reference_delay.
  destruct (validated_retry_after_ms i); simpl in *; lia.
Qed.

Lemma retry_delay_v1_bounds_witness :
  retry_delay_v1 (mkRetryDelayV1Input 1000 2000 900000 5 1500 (Some 30000)) = Ok 30000 /\
  1 <= 30000 <= 3600000.
Proof.
  assert (retry_delay_v1 (mkRetryDelayV1Input 1000 2000 900000 5 1500 (Some 30000)) = Ok 30000)
    as H by (vm_compute; reflexivity).
  split; [exact H|]. exact (proj1 (retry_delay_v1_bounds _ _ H)).
Defined.

(** With everything else fixed, a later attempt never waits less. *)
Theorem retry_delay_v1_monotone b f m n n' j ra d d' :
  n <= n' ->
  retry_delay_v1 (mkRetryDelayV1Input b f m n j ra) = Ok d ->
  retry_delay_v1 (mkRetryDelayV1Input b f m n' j ra) = Ok d' ->
  d <= d'.
Proof.
  intros Hn. set (i := mkRetryDelayV1Input b f m n j ra).
  set (i' := mkRetryDelayV1Input b f m n' j ra).
  intros Hd Hd'. pose proof (retry_delay_v1_valid _ _ Hd) as Hv.
  pose proof (retry_delay_v1_valid _ _ Hd') as Hv'. revert Hd Hd'.
  rewrite !retry_delay_v1_eq by done. intros [= <-] [= <-].
  assert (reference_exponential i <= reference_exponential i') as Hle.
  { apply valid_ranges in Hv as (?&?&?&?&?&?). unfold i, i', reference_exponential in *.
    cbn in *. apply iter_grow_mono; lia. }
  pose proof (reference_exponential_range i Hv).
  apply valid_ranges in Hv as (?&?&?&?&?&?). unfold reference_delay. cbn in *.
  enough (reference_exponential i * j / 1000 <= reference_exponential i' * j / 1000) by lia.
  apply Z.div_le_mono; nia.
Qed.

Lemma retry_delay_v1_monotone_witness : 8000 <= 16000.
Proof.
  apply (retry_delay_v1_monotone 1000 2000 900000 4 5 1000 None 8000 16000);
    [lia|vm_compute; reflexivity|vm_compute; reflexivity].
Defined.

(** Admission partitions the ordinals of a policy: an ordinal below the
    maximum is eligible with its zero-based index, the maximum itself is
    exhausted, and anything outside 1..max or a bad policy is rejected. *)
Theorem retry_admission_v1_exact n max r :
  is_u16 n = true ->
  retry_admission_v1 n max = Ok r <->
  1 <= max <= 1024 /\
  ((1 <= n < max /\ r = Eligible (n - 1)) \/ (n = max /\ r = Exhausted)).
Proof.
  intros Hn. unfold retry_admission_v1, reject. unfold_ranges.
  destruct (negb _ || _ || _) eqn:E1; b2p.
  { split; [done|]. intros [? [[? _]|[-> _]]]; lia. }
  destruct (max <=? n) eqn:E2; b2p; split.
  - intros [= <-]. split; [lia|]. right. split; [lia|done].
  - intros [? [[? ->]|[? ->]]]; [lia|done].
  - intros [= <-]. split; [lia|]. left. split; [lia|done].
  - intros [? [[? ->]|[? ->]]]; [done|lia].
Qed.

Lemma retry_admission_v1_exact_witness :
  is_u16 3 = true /\ retry_admission_v1 3 5 = Ok (Eligible 2).
Proof.
  split; [reflexivity|]. apply (retry_admission_v1_exact 3 5 (Eligible 2)); [reflexivity|].
  split; [lia|]. left. split; [lia|reflexivity].
Defined.

(** The instants the wake boundary minimises over. *)
Definition wake_candidates (i : DurableWakeBoundaryV1Input) : list Z :=
  [safe_now_millis i + retry_ms i; created_at_millis i + max_delivery_age_ms i]
  ++ match expires_at_millis i with Some e => [e] | None => [] end.

(** The wake boundary is the least of the retry deadline, the age deadline
    and the expiry, and the flag says exactly that the retry deadline is
    strictly below the other ones. *)
Theorem durable_wake_boundary_v1_least i w :
  durable_wake_boundary_v1 i = Ok w ->
  selected_instant_millis w ∈ wake_candidates i /\
  Forall (fun c => selected_instant_millis w <= c) (wake_candidates i) /\
  (retry_deadline_is_strictly_earliest w = true <->
   Forall (fun c => safe_now_millis i + retry_ms i < c) (tail (wake_candidates i))).
Proof.
  unfold durable_wake_boundary_v1, reject, Math.utc_add_millis, ok_or_reject.
  destruct (negb (within 1 3600000 (retry_ms i))
            || negb (within 1000 2592000000 (max_delivery_age_ms i))) eqn:Hv; [done|].
  apply orb_false_iff in Hv as [_ Hv%negb_false_iff%within_spec].
  assert (as_i64 (max_delivery_age_ms i) = max_delivery_age_ms i) as ->.
  { unfold as_i64. rewrite Z.mod_small by lia. lia. }
  intros (rd & [-> _]%ok_or_Ok%checked_Some & H)%bind_Ok.
  apply bind_Ok in H as (ad & [-> _]%ok_or_Ok%checked_Some & H).
  unfold wake_candidates. destruct (expires_at_millis i) as [e|]; simpl in *;
    rewrite ?Forall_cons, ?Forall_nil, ?elem_of_cons; split_cases; b2p;
    (split; [lia|]); (split; [lia|]); (split; [done || lia|]); intros; lia || done.
Qed.

Lemma durable_wake_boundary_v1_least_witness :
  4500 ∈ [1000 + 5000; 0 + 90000; 4500] /\ Forall (fun c => 4500 <= c) [1000 + 5000; 0 + 90000; 4500]
  /\ (false = true <-> Forall (fun c => 1000 + 5000 < c) [0 + 90000; 4500]).
Proof.
  apply (durable_wake_boundary_v1_least (mkWakeInput 1000 5000 (Some 4500) 0 90000)
    (mkWake 4500 false)).
  vm_compute. reflexivity.
Defined.
