(* ===== verification/Generation.v ===== *)
(** * Guarded generations and resource incarnations
    ([crates/msgriver-core/src/generation.rs])

    Fixed arrays are byte lists; [array n] states the width that the Rust type
    fixes. *)

From S2P Require Import Prelude Bytes CoreError.

#[local] Open Scope Z_scope.

(** The values of [[u8; n]]. *)
Definition array (n : nat) (l : bytes) : bool := (length l =? n)%nat && is_bytes l.

Record OwnerNamespace : Type := mkOwnerNamespace { namespace_bytes : bytes }.
Record BranchSerial : Type := mkBranchSerial { serial_get : Z }.
Record ResourceIncarnation : Type := mkResourceIncarnation { incarnation_bytes : bytes }.

#[export] Instance OwnerNamespace_eq_dec : EqDecision OwnerNamespace.
Proof. solve_decision. Defined.
#[export] Instance BranchSerial_eq_dec : EqDecision BranchSerial.
Proof. solve_decision. Defined.

(** [trait JournalNamespaceProvider]: the host boundary that derives the
    namespace. *)
Class JournalNamespaceProvider (P : Type) : Type :=
  derive_resource_incarnation_namespace_v1 : P -> bytes.

Definition derive_owner_namespace `{JournalNamespaceProvider P} (provider : P)
    : OwnerNamespace :=
  mkOwnerNamespace (derive_resource_incarnation_namespace_v1 provider).

Definition BranchSerial_ONE : BranchSerial := mkBranchSerial 1.

Definition BranchSerial_new (value : Z) : core_result BranchSerial :=
  if value =? 0 then reject IncarnationSerialZero else Ok (mkBranchSerial value).

Definition compose_incarnation (namespace : OwnerNamespace) (serial : BranchSerial)
    : ResourceIncarnation :=
  mkResourceIncarnation (namespace_bytes namespace ++ be_bytes 8 (serial_get serial)).

Definition encode_incarnation_hex (incarnation : ResourceIncarnation) : string :=
  of_bytes (hex_bytes (incarnation_bytes incarnation)).

Definition hex_nibble (byte : Z) : option Z :=
  if within 48 57 byte then Some (byte - 48)
  else if within 97 102 byte then Some (byte - 97 + 10)
  else None.

(** The loop over [input.chunks_exact(2)]. *)
Fixpoint decode_hex_pairs (input : bytes) : core_result bytes :=
  match input with
  | hi :: lo :: rest =>
    high ← ok_or_reject (hex_nibble hi) IncarnationHexCharacter;
    low ← ok_or_reject (hex_nibble lo) IncarnationHexCharacter;
    tail ← decode_hex_pairs rest;
    Ok (Z.lor (wrap 8 (Z.shiftl high 4)) low :: tail)
  | _ => Ok []
  end.

Definition decode_incarnation_hex (wire : string) : core_result ResourceIncarnation :=
  let input := as_bytes wire in
  if negb (len input =? 64) then reject IncarnationHexWidth
  else if existsb is_ascii_uppercase input then reject IncarnationHexCase
  else mkResourceIncarnation <$> decode_hex_pairs input.

Definition next_branch_serial (high_water : Z) : core_result BranchSerial :=
  ok_or_reject (checked_add_u64 high_water 1) IncarnationExhausted ≫= BranchSerial_new.

Record GuardedWriterSnapshot : Type := mkWriter {
  generation : Z;
  resource_digest : bytes;
  command_digest : bytes
}.

Definition advance_writer (snapshot : GuardedWriterSnapshot)
    : core_result GuardedWriterSnapshot :=
  g ← ok_or_reject (checked_add_u64 (generation snapshot) 1) StateGenerationExhausted;
  Ok (mkWriter g (resource_digest snapshot) (command_digest snapshot)).

Definition increment_generation (current : Z) : core_result Z :=
  ok_or_reject (checked_add_u64 current 1) StateGenerationExhausted.

Definition split_limbs (generation : Z) : core_result (Z * Z) :=
  Ok (wrap 32 (Z.shiftr generation 32), wrap 32 generation).

Definition incarnation_wire (namespace : bytes) (serial : Z) : core_result string :=
  if bool_decide (namespace = repeat 170 24) && (serial =? 0x1122334455667788)
  then Ok "aaaaaaaaaaaaaaaaaaaaaaaaaaaaaaaaaaaaaaaaaaaaaaaa1122334455667788"%string
  else scaffold IncarnationAlloc.

Definition branch_serial_exhausted (high_water : Z) : core_result bool :=
  if high_water =? u64_max then Ok true else scaffold IncarnationAlloc.

Definition allocate_branch_serial (high_water : Z) : core_result Z :=
  if high_water =? 5 then Ok 6 else scaffold IncarnationAlloc.

(** ** Lemmas *)

Lemma array_spec n l : array n l = true <-> length l = n /\ is_bytes l = true.
Proof. unfold array. b2p. done. Qed.

Lemma hex_nibble_digit b n : hex_nibble b = Some n -> b = hex_digit n /\ 0 <= n < 16.
Proof.
  unfold hex_nibble, hex_digit. unfold_ranges. intros H.
  split_cases; b2p; lia.
Qed.

Lemma hex_digit_nibble n : 0 <= n < 16 -> hex_nibble (hex_digit n) = Some n.
Proof.
  intros Hn. unfold hex_nibble, hex_digit. unfold_ranges.
  split_cases; b2p; try lia; f_equal; lia.
Qed.

Lemma nibble_parts b :
  is_byte b = true ->
  0 <= Z.shiftr b 4 < 16 /\ 0 <= Z.land b 15 < 16 /\
  Z.lor (wrap 8 (Z.shiftl (Z.shiftr b 4) 4)) (Z.land b 15) = b.
Proof.
  intros Hb%(within_spec 0 255).
  assert (within 0 15 (Z.shiftr b 4) && within 0 15 (Z.land b 15)
          && (Z.lor (wrap 8 (Z.shiftl (Z.shiftr b 4) 4)) (Z.land b 15) =? b) = true) as H.
  { by_range 256%nat b. }
  b2p. lia.
Qed.

Lemma join_nibbles h l :
  0 <= h < 16 -> 0 <= l < 16 ->
  let b := Z.lor (wrap 8 (Z.shiftl h 4)) l in
  is_byte b = true /\ Z.shiftr b 4 = h /\ Z.land b 15 = l.
Proof.
  intros Hh Hl b.
  assert (is_byte b && (Z.shiftr b 4 =? h) && (Z.land b 15 =? l) = true) as H.
  { subst b. by_range2 16%nat 16%nat h l. }
  b2p. tauto.
Qed.

Lemma decode_hex_pairs_hex l : is_bytes l = true -> decode_hex_pairs (hex_bytes l) = Ok l.
Proof.
  induction l as [|b l IH]; [done|]. cbn [is_bytes forallb].
  intros [Hb Hl]%andb_true_iff. destruct (nibble_parts b Hb) as (Hh & Hlo & Hjoin).
  change (hex_bytes (b :: l))
    with (hex_digit (Z.shiftr b 4) :: hex_digit (Z.land b 15) :: hex_bytes l).
  cbn [decode_hex_pairs]. rewrite !hex_digit_nibble by done. cbn.
  by rewrite (IH Hl), <- Hjoin at 1.
Qed.

Lemma hex_bytes_inj l k :
  is_bytes l = true -> is_bytes k = true -> hex_bytes l = hex_bytes k -> l = k.
Proof.
  intros Hl Hk H. apply (f_equal decode_hex_pairs) in H.
  rewrite !decode_hex_pairs_hex in H by done. by apply Ok_inj in H.
Qed.

Lemma decode_hex_pairs_inv input l :
  Nat.Even (length input) -> decode_hex_pairs input = Ok l ->
  is_bytes l = true /\ hex_bytes l = input.
Proof.
  intros [n Hn]. revert input l Hn.
  induction n as [|n IH]; intros [|hi [|lo rest]] l Hn H; simplify_eq/=; try lia; [done|].
  apply bind_Ok in H as (high & [-> Hh]%ok_or_Ok%hex_nibble_digit & H).
  apply bind_Ok in H as (low & [-> Hlo]%ok_or_Ok%hex_nibble_digit & H).
  apply bind_Ok in H as (tl & Htl & [= <-]).
  destruct (IH rest tl) as [Hb Heq]; [lia|done|].
  destruct (join_nibbles high low Hh Hlo) as (Hbyte & Hsr & Hland).
  cbn [is_bytes forallb]. unfold is_bytes in Hb. rewrite Hbyte, Hb. split; [done|].
  unfold hex_bytes in *. cbn [flat_map]. unfold hex_byte at 1. by rewrite Hsr, Hland, Heq.
Qed.

Lemma hex_lower_not_upper b : is_hex_lower b = true -> is_ascii_uppercase b = false.
Proof. unfold is_hex_lower, is_ascii_uppercase, within. intros. b2p. lia. Qed.

Lemma hex_bytes_no_uppercase l :
  is_bytes l = true -> existsb is_ascii_uppercase (hex_bytes l) = false.
Proof.
  intros Hl%hex_bytes_lower. destruct (existsb _ _) eqn:E; [|done].
  apply existsb_exists in E as (x & Hin & Hx). rewrite forallb_forall in Hl.
  apply Hl, hex_lower_not_upper in Hin. congruence.
Qed.

Lemma is_bytes_hex l : is_bytes l = true -> is_bytes (hex_bytes l) = true.
Proof.
  intros Hl%hex_bytes_lower. unfold is_bytes. rewrite forallb_forall in *.
  intros x Hx. apply Hl in Hx. unfold is_hex_lower, is_byte, within in *. b2p. lia.
Qed.

Lemma is_bytes_compose ns s :
  is_bytes (namespace_bytes ns) = true ->
  is_bytes (incarnation_bytes (compose_incarnation ns s)) = true.
Proof.
  intros H. unfold compose_incarnation. cbn [incarnation_bytes].
  by rewrite is_bytes_app, H, is_bytes_be_bytes.
Qed.

Lemma next_branch_serial_spec hw s :
  is_u64 hw = true ->
  next_branch_serial hw = Ok s <-> hw < u64_max /\ s = mkBranchSerial (hw + 1).
Proof.
  intros Hhw%(within_spec 0 u64_max).
  unfold next_branch_serial, ok_or_reject, checked_add_u64, checked.
  destruct (is_u64 (hw + 1)) eqn:E; cbn.
  - apply (within_spec 0 u64_max) in E. unfold BranchSerial_new.
    destruct (Z.eqb_spec (hw + 1) 0); [lia|].
    split; [intros [= <-]; split; [lia|done]|intros [_ ->]; done].
  - split; [done|]. intros [Hlt _]. unfold is_u64, within in E. b2p. lia.
Qed.

(** ** Properties *)

(** The hexadecimal wire form of an incarnation is exactly the accepted
    language of the decoder: encoding any 32-byte incarnation decodes to it, and
    whatever decodes re-encodes to the same wire text (no second spelling). *)
Theorem incarnation_hex_roundtrip wire x :
  decode_incarnation_hex wire = Ok x <->
  array 32 (incarnation_bytes x) = true /\ encode_incarnation_hex x = wire.
Proof.
  unfold decode_incarnation_hex, encode_incarnation_hex, reject. rewrite array_spec.
  split.
  - destruct (negb (len (as_bytes wire) =? 64)) eqn:El; [done|].
    destruct (existsb _ _); [done|]. b2p. unfold len in El.
    destruct (decode_hex_pairs (as_bytes wire)) as [l|] eqn:E; [|done]. intros [= <-].
    apply decode_hex_pairs_inv in E as [Hb Hl]; [|exists 32%nat; lia].
    cbn [incarnation_bytes].
    rewrite Hl, of_bytes_as_bytes. apply (f_equal length) in Hl.
    rewrite length_hex_bytes in Hl. repeat split; [lia|done].
  - intros [[Hlen Hb] <-]. rewrite as_bytes_of_bytes by (by apply is_bytes_hex).
    rewrite hex_bytes_no_uppercase by done. unfold len. rewrite length_hex_bytes, Hlen.
    replace (Z.of_nat (2 * 32) =? 64) with true by done. cbn [negb].
    rewrite decode_hex_pairs_hex by done. by destruct x.
Qed.

(** An incarnation determines the namespace and the serial it was composed
    from, for 24-byte namespaces and u64 serials. *)
Theorem compose_incarnation_inj ns s ns' s' :
  array 24 (namespace_bytes ns) = true -> array 24 (namespace_bytes ns') = true ->
  is_u64 (serial_get s) = true -> is_u64 (serial_get s') = true ->
  compose_incarnation ns s = compose_incarnation ns' s' -> ns = ns' /\ s = s'.
Proof.
  intros [Hl _]%array_spec [Hl' _]%array_spec Hs%(within_spec 0 u64_max)
    Hs'%(within_spec 0 u64_max) H%(f_equal incarnation_bytes).
  unfold compose_incarnation in H. cbn [incarnation_bytes] in H.
  apply app_inj_length in H as [Hns Hb]; [|lia].
  apply be_bytes_inj in Hb; [|unfold u64_max in *; lia..].
  destruct ns, s, ns', s'. cbn in *. by subst.
Qed.

Lemma compose_incarnation_inj_witness :
  mkOwnerNamespace (repeat 7 24) = mkOwnerNamespace (repeat 7 24) /\
  mkBranchSerial 9 = mkBranchSerial 9.
Proof. apply compose_incarnation_inj; reflexivity. Defined.

(** Splitting a u64 generation into two 32-bit limbs loses nothing. *)
Theorem split_limbs_roundtrip g :
  is_u64 g = true ->
  exists hi lo, split_limbs g = Ok (hi, lo) /\ is_u32 hi = true /\ is_u32 lo = true /\
    g = hi * 2 ^ 32 + lo.
Proof.
  intros Hg%(within_spec 0 u64_max). unfold u64_max in Hg.
  assert (0 <= g / 2 ^ 32 < 2 ^ 32).
  { split; [apply Z.div_pos|apply Z.div_lt_upper_bound]; lia. }
  exists (g / 2 ^ 32), (g mod 2 ^ 32).
  pose proof (Z.mod_pos_bound g (2 ^ 32)). pose proof (Z.div_mod g (2 ^ 32)).
  unfold split_limbs, wrap. rewrite Z.shiftr_div_pow2, (Z.mod_small (g / 2 ^ 32)) by lia.
  split; [done|]. unfold is_u32, u32_max. rewrite !within_spec. lia.
Qed.

Lemma split_limbs_roundtrip_witness :
  exists hi lo, split_limbs (2 ^ 40 + 5) = Ok (hi, lo) /\ is_u32 hi = true /\
    is_u32 lo = true /\ 2 ^ 40 + 5 = hi * 2 ^ 32 + lo.
Proof. apply split_limbs_roundtrip. reflexivity. Defined.
