(* ===== verification/Incarnation.v ===== *)
(** * Fixed-root incarnation allocator decisions
    ([crates/msgriver-core/src/incarnation.rs]) *)

From S2P Require Import Prelude Bytes CoreError Generation.

#[local] Open Scope Z_scope.

Inductive OperationId : Type :=
| BootstrapCreate | RestoreCreate | UpgradeRollback | ConfigurationActivate
| StateKeyRotate | StateKeyRetire | UpgradeMigrate | UpgradeActivate
| ForwardRepair | Other.

Inductive TransitionClass : Type := Allocating | Continuation | NonAllocator.

#[export] Instance TransitionClass_eq_dec : EqDecision TransitionClass.
Proof. solve_decision. Defined.

Definition classify_transition (operation : OperationId) : TransitionClass :=
  match operation with
  | BootstrapCreate | RestoreCreate | UpgradeRollback => Allocating
  | ConfigurationActivate | StateKeyRotate | StateKeyRetire
  | UpgradeMigrate | UpgradeActivate | ForwardRepair => Continuation
  | Other => NonAllocator
  end.

Inductive LocalWitnessKind : Type :=
| SelectedPointer | CurrentGuardedResource | AllocatingIntentTarget
| LocallyStagedTarget | HistoryOrProvenanceEpoch.

Inductive WitnessSource : Type :=
| Local (kind : LocalWitnessKind)
| ForeignAuthenticatedAncestry
| ImportedKeyOrigin
| Unknown.

Record AllocatorWitness : Type := mkAllocatorWitness {
  source : WitnessSource;
  namespace : OwnerNamespace;
  serial : Z
}.

Inductive WitnessClassification : Type := LocalWitness | ForeignAncestry | Corrupt.

Definition classify_witness (witness : AllocatorWitness)
    (recomputed_namespace : OwnerNamespace) (high_water : Z) : WitnessClassification :=
  match source witness with
  | ForeignAuthenticatedAncestry | ImportedKeyOrigin => ForeignAncestry
  | Local _ =>
    if bool_decide (namespace witness = recomputed_namespace)
       && negb (serial witness =? 0) && (serial witness <=? high_water)
    then LocalWitness else Corrupt
  | Unknown => Corrupt
  end.

Record TargetWitnessSet : Type := mkTargetWitnessSet {
  collision : bool;
  source_matches : bool;
  target_serial_matches : bool
}.

Inductive TargetValidation : Type :=
| TargetOk | Collision | SourceMismatch | TargetSerialMismatch.

Definition validate_target (witnesses : TargetWitnessSet) : TargetValidation :=
  if collision witnesses then Collision
  else if negb (source_matches witnesses) then SourceMismatch
  else if negb (target_serial_matches witnesses) then TargetSerialMismatch
  else TargetOk.

Definition derive_nonreused_serial (high_water : Z) : core_result BranchSerial :=
  next_branch_serial high_water.

Record AllocatorEvaluation : Type := mkAllocatorEvaluation {
  exact_same_command_recovery : bool;
  forbidding_restore_or_upgrade_hold : bool;
  serial_exhausted : bool;
  clock_hold : bool;
  capacity_available : bool;
  admission_or_drain_or_coordinator_conflict : bool
}.

Inductive AllocatorDecision : Type :=
| ExactRecovery | ForbiddenHold | IncarnationUnavailable | ClockHold
| ControlCapacityDecision | AdmissionDrainOrCoordinatorConflict
| PublishAndBurnAuthorized.

Definition allocator_hold_precedence (input : AllocatorEvaluation) : AllocatorDecision :=
  if exact_same_command_recovery input then ExactRecovery
  else if forbidding_restore_or_upgrade_hold input then ForbiddenHold
  else if serial_exhausted input then IncarnationUnavailable
  else if clock_hold input then ClockHold
  else if negb (capacity_available input) then ControlCapacityDecision
  else if admission_or_drain_or_coordinator_conflict input
       then AdmissionDrainOrCoordinatorConflict
  else PublishAndBurnAuthorized.

Record AllocatorHeader : Type := mkAllocatorHeader {
  owner_namespace : OwnerNamespace;
  branch_serial_high_water : Z
}.

Definition initialize_allocator_header `{JournalNamespaceProvider P} (provider : P)
    : AllocatorHeader :=
  mkAllocatorHeader (derive_owner_namespace provider) 0.

Record AllocationIntent : Type := mkAllocationIntent {
  intent_command_digest : bytes;
  intent_serial : BranchSerial;
  intent_target : ResourceIncarnation
}.

Inductive ReplayDecision : Type :=
| Reuse (intent : AllocationIntent)
| CommandCollision
| Fresh (serial : BranchSerial).

Definition replay_allocation (retained : option AllocationIntent)
    (command_digest : bytes) (high_water : Z) : core_result ReplayDecision :=
  match retained with
  | Some intent =>
    if bool_decide (intent_command_digest intent = command_digest)
    then Ok (Reuse intent) else Ok CommandCollision
  | None => Fresh <$> next_branch_serial high_water
  end.

Record AllocatorSnapshot : Type := mkAllocatorSnapshot {
  header : AllocatorHeader;
  selected_incarnation : ResourceIncarnation;
  image_digest : bytes
}.

Definition burn_next_serial (snapshot : AllocatorSnapshot)
    : core_result AllocatorSnapshot :=
  serial ← next_branch_serial (branch_serial_high_water (header snapshot));
  Ok (mkAllocatorSnapshot
        (mkAllocatorHeader (owner_namespace (header snapshot)) (serial_get serial))
        (selected_incarnation snapshot) (image_digest snapshot)).

Definition preserve_continuation (snapshot : AllocatorSnapshot) : AllocatorSnapshot :=
  snapshot.

Record PreStagingViews : Type := mkPreStagingViews {
  active_pointer_collision : bool;
  retained_history_collision : bool;
  retained_provenance_collision : bool;
  nonterminal_intent_collision : bool;
  staged_metadata_collision : bool
}.

Definition pre_staging_collision (views : PreStagingViews) : bool :=
  active_pointer_collision views || retained_history_collision views
  || retained_provenance_collision views || nonterminal_intent_collision views
  || staged_metadata_collision views.

Record ExhaustionRecovery : Type := mkExhaustionRecovery {
  independently_keyed_blank_root : bool;
  authenticated_disaster_artifact : bool;
  rekeys_exhausted_root_in_place : bool
}.

Inductive ExhaustionRecoveryDecision : Type := Supported | Unsupported.

Definition exhaustion_recovery_admissibility (recovery : ExhaustionRecovery)
    : ExhaustionRecoveryDecision :=
  if independently_keyed_blank_root recovery && authenticated_disaster_artifact recovery
     && negb (rekeys_exhausted_root_in_place recovery)
  then Supported else Unsupported.

Definition restore_serial_one (ns : OwnerNamespace) : ResourceIncarnation :=
  compose_incarnation ns BranchSerial_ONE.

Definition operation_admissible_under_exhaustion (operation : OperationId) : bool :=
  negb (bool_decide (classify_transition operation = Allocating)).

Definition imported_root_admissible : bool := false.

Inductive ArtifactAdmissionRole : Type :=
| RequestBody | BackupArtifact | SelectedState | Environment | Configuration.

Definition artifact_role_admissible (_role : ArtifactAdmissionRole) : bool := false.

Module Readiness.
Inductive ReadinessReason : Type := GenerationExhausted | IncarnationExhausted.

Definition contains_max (guarded_generations : list Z) : bool :=
  existsb (Z.eqb u64_max) guarded_generations.

Definition readiness_reason (high_water : Z) (guarded_generations : list Z)
    : option ReadinessReason :=
  if high_water =? u64_max then Some IncarnationExhausted
  else if contains_max guarded_generations then Some GenerationExhausted
  else None.

Definition readiness_exhaustion_both (high_water : Z) (guarded_generations : list Z)
    : core_result (ReadinessReason * ReadinessReason) :=
  if (high_water =? u64_max) && contains_max guarded_generations
  then Ok (IncarnationExhausted, GenerationExhausted)
  else scaffold ReadinessReasonFrontier.
End Readiness.

(** ** Runs of the allocator *)

(** [n] successive burns from a snapshot, with the target incarnation composed
    from every burned serial. *)
Fixpoint burn_run (n : nat) (s : AllocatorSnapshot)
    : core_result (AllocatorSnapshot * list ResourceIncarnation) :=
  match n with
  | O => Ok (s, [])
  | S n' =>
    s' ← burn_next_serial s;
    '(s'', targets) ← burn_run n' s';
    Ok (s'', compose_incarnation (owner_namespace (header s'))
               (mkBranchSerial (branch_serial_high_water (header s'))) :: targets)
  end.

Lemma burn_next_serial_spec s s' :
  is_u64 (branch_serial_high_water (header s)) = true ->
  burn_next_serial s = Ok s' <->
  branch_serial_high_water (header s) < u64_max /\
  s' = mkAllocatorSnapshot
         (mkAllocatorHeader (owner_namespace (header s))
            (branch_serial_high_water (header s) + 1))
         (selected_incarnation s) (image_digest s).
Proof.
  intros Hu. unfold burn_next_serial. rewrite bind_Ok. split.
  - intros (b & [Hlt ->]%next_branch_serial_spec & [= <-]); done.
  - intros [Hlt ->]. exists (mkBranchSerial (branch_serial_high_water (header s) + 1)).
    by rewrite next_branch_serial_spec.
Qed.

(** The targets of a run are composed from the consecutive serials above the
    starting high-water. *)
Lemma burn_run_targets n s s' targets :
  is_u64 (branch_serial_high_water (header s)) = true ->
  burn_run n s = Ok (s', targets) ->
  branch_serial_high_water (header s') = branch_serial_high_water (header s) + Z.of_nat n /\
  is_u64 (branch_serial_high_water (header s')) = true /\
  targets = map (fun k => compose_incarnation (owner_namespace (header s))
    (mkBranchSerial (branch_serial_high_water (header s) + 1 + Z.of_nat k))) (seq 0 n).
Proof.
  revert s targets. induction n as [|n IH]; intros s targets Hu; cbn [burn_run].
  { intros [= <- <-]. split; [lia|done]. }
  intros (s1 & Hs1 & H)%bind_Ok. apply burn_next_serial_spec in Hs1 as [Hlt ->]; [|done].
  apply bind_Ok in H as ([s2 ts] & Hrun & [= -> <-]).
  apply IH in Hrun as (Hhw & Hu' & ->); cbn [header owner_namespace branch_serial_high_water] in *.
  - split; [lia|]. split; [done|]. cbn [seq map]. rewrite <- seq_shift, map_map.
    f_equal; [f_equal; f_equal; lia|]. apply map_ext. intros k. do 2 f_equal. lia.
  - unfold is_u64 in *. rewrite within_spec in *. lia.
Qed.

(** ** Properties *)

(** No sequence of burns, from any snapshot with a 24-byte namespace, ever
    composes the same resource incarnation twice, and none of them is the
    incarnation of a serial at or below the starting high-water. *)
Theorem burn_run_never_reuses n s s' targets :
  array 24 (namespace_bytes (owner_namespace (header s))) = true ->
  is_u64 (branch_serial_high_water (header s)) = true ->
  burn_run n s = Ok (s', targets) ->
  NoDup targets /\
  forall old, 0 <= old <= branch_serial_high_water (header s) ->
    compose_incarnation (owner_namespace (header s)) (mkBranchSerial old) ∉ targets.
Proof.
  intros Hns Hu Hrun. apply burn_run_targets in Hrun as (Hhw & Hu' & ->); [|done].
  apply (within_spec 0 u64_max) in Hu, Hu'.
  assert (forall a b, 0 <= a <= u64_max -> 0 <= b <= u64_max ->
    compose_incarnation (owner_namespace (header s)) (mkBranchSerial a)
    = compose_incarnation (owner_namespace (header s)) (mkBranchSerial b) -> a = b) as Hinj.
  { intros a b Ha%(within_spec 0 u64_max) Hb%(within_spec 0 u64_max) H.
    by apply compose_incarnation_inj in H as [_ [= ->]]. }
  split.
  - apply NoDup_fmap_2_strong; [|apply NoDup_ListNoDup, seq_NoDup].
    intros x y Hx%list_elem_of_In%in_seq Hy%list_elem_of_In%in_seq H. apply Hinj in H; lia.
  - intros old Hold (k & Heq & Hk%list_elem_of_In%in_seq)%list_elem_of_fmap.
    apply Hinj in Heq; lia.
Qed.

(** A burn is possible exactly below the u64 ceiling and, when it succeeds,
    changes the high-water by one and nothing else of the snapshot. *)
Theorem burn_next_serial_exact s :
  is_u64 (branch_serial_high_water (header s)) = true ->
  burn_next_serial s =
    if branch_serial_high_water (header s) <? u64_max then
      Ok (mkAllocatorSnapshot
            (mkAllocatorHeader (owner_namespace (header s))
               (branch_serial_high_water (header s) + 1))
            (selected_incarnation s) (image_digest s))
    else Err (Reject IncarnationExhausted).
Proof.
  intros Hu. destruct (Z.ltb_spec (branch_serial_high_water (header s)) u64_max) as [Hlt|Hge].
  - by apply burn_next_serial_spec.
  - unfold burn_next_serial, next_branch_serial, ok_or_reject, checked_add_u64, checked.
    assert (is_u64 (branch_serial_high_water (header s) + 1) = false) as ->; [|done].
    unfold is_u64, within. b2p. lia.
Qed.

(** Publication is authorized exactly when no rule of higher precedence
    applies. *)
Theorem allocator_authorized_exact e :
  allocator_hold_precedence e = PublishAndBurnAuthorized <->
  e = mkAllocatorEvaluation false false false false true false.
Proof. destruct e as [[] [] [] [] [] []]; split; by intros [=]. Qed.

(** A snapshot whose selected incarnation was composed from its own high-water. *)
Definition sample_snapshot : AllocatorSnapshot :=
  let ns := mkOwnerNamespace (repeat 7 24) in
  mkAllocatorSnapshot (mkAllocatorHeader ns 1)
    (compose_incarnation ns (mkBranchSerial 1)) (repeat 0 32).

Lemma burn_run_never_reuses_witness :
  match burn_run 3 sample_snapshot with
  | Ok (_, targets) => NoDup targets /\ length targets = 3%nat
  | Err _ => False
  end.
Proof.
  split; [|reflexivity].
  exact (proj1 (burn_run_never_reuses 3 sample_snapshot _ _ eq_refl eq_refl eq_refl)).
Defined.
