(* ===== verification/Ring.v ===== *)
(** * Retained MAC-key ring observations ([crates/msgriver-core/src/ring.rs])
    and the MAC-key identities of [canon.rs] *)

From S2P Require Import Prelude Bytes CoreError.

#[local] Open Scope Z_scope.

(** [enum MacPurpose] with its explicit wire discriminants. *)
Inductive MacPurpose : Type :=
| ApiKeyVerifyV1
| IdempotencyLookupV1
| IdempotencyFingerprintV1
| ReplayLookupV1
| ReplayFingerprintV1
| CommandLookupV1
| CommandSemanticFingerprintV1
| CommandPhaseFingerprintV1
| RetryJitterV1
| ArtifactInternalAuthV1
| PortableReservationV1.

#[export] Instance MacPurpose_eq_dec : EqDecision MacPurpose.
Proof. solve_decision. Defined.

(** [purpose as u8]. *)
Definition purpose_code (p : MacPurpose) : Z :=
  match p with
  | ApiKeyVerifyV1 => 1
  | IdempotencyLookupV1 => 2
  | IdempotencyFingerprintV1 => 3
  | ReplayLookupV1 => 4
  | ReplayFingerprintV1 => 5
  | CommandLookupV1 => 6
  | CommandSemanticFingerprintV1 => 7
  | CommandPhaseFingerprintV1 => 8
  | RetryJitterV1 => 9
  | ArtifactInternalAuthV1 => 10
  | PortableReservationV1 => 11
  end.

(** [struct MacKeyId([u8; 40])] and [struct MacKeyRef]. *)
Record MacKeyRef : Type := mkMacKeyRef {
  purpose : MacPurpose;
  key_id : bytes
}.

#[export] Instance MacKeyRef_eq_dec : EqDecision MacKeyRef.
Proof. solve_decision. Defined.

Inductive RingTransition : Type :=
| RetireDependencyFree | CoveringWindowElapsed | BranchCopy | Rotate | OtherTransition.

Inductive RotationStage : Type :=
| SelectedOriginIntegrity | SerialExhaustion | RetainedCapacity
| CheckedAllocation | Entropy.

Inductive OriginClassification : Type := SelectedOrigin | ImportedKeyOrigin.

#[export] Instance OriginClassification_eq_dec : EqDecision OriginClassification.
Proof. solve_decision. Defined.

Inductive RingIntegrity : Type := Valid | Corruption.

Inductive RingObservation : Type :=
| CapacityRecovery (p : MacPurpose) (transition : RingTransition)
| BranchSlots (prior post : bytes)
| RotationOrder (selected_origin_valid serial_available retained_capacity_available
                 checked_allocation_available entropy_available : bool)
| PurposeRegistration (first second : MacKeyRef)
| Origin (id : bytes) (foreign_origin : bool)
| ImportedAuthority (classification : OriginClassification)
| JournalIntegrity (ring_contains_journal_key journal_has_mac_key_id : bool)
                   (plan_digest : bytes)
| LoadEvidence (limb_above_high_water duplicated_high_water : bool)
| AllocatorEvidence (missing lower duplicate_purpose foreign_origin_derived : bool).

Inductive RingObservationResult : Type :=
| CapacityRecoveredResult (recovered : bool)
| SlotDigestResult (digest : bytes)
| RotationFailureResult (stage : option RotationStage)
| PurposeRegistrationResult (valid paths_distinct : bool)
| OriginResult (classification : OriginClassification)
| ImportedAuthorityResult (local_allocator_witness purpose_high_water_evidence
                           fixed_root_corruption : bool)
| JournalIntegrityResult (ring_contains_journal_key journal_has_mac_key_id : bool)
                         (plan_digest : bytes)
| IntegrityResult (integrity : RingIntegrity).

Definition observe (observation : RingObservation) : core_result RingObservationResult :=
  Ok (match observation with
  | CapacityRecovery _ transition =>
    CapacityRecoveredResult
      (match transition with
       | RetireDependencyFree | CoveringWindowElapsed => true
       | _ => false
       end)
  | BranchSlots _ post => SlotDigestResult post
  | RotationOrder origin_valid serial capacity allocation entropy =>
    RotationFailureResult
      (if negb origin_valid then Some SelectedOriginIntegrity
       else if negb serial then Some SerialExhaustion
       else if negb capacity then Some RetainedCapacity
       else if negb allocation then Some CheckedAllocation
       else if negb entropy then Some Entropy
       else None)
  | PurposeRegistration first second =>
    let purpose_qualified := negb (bool_decide (purpose first = purpose second)) in
    PurposeRegistrationResult
      (purpose_qualified && bool_decide (key_id first = key_id second))
      purpose_qualified
  | Origin _ foreign_origin =>
    OriginResult (if foreign_origin then ImportedKeyOrigin else SelectedOrigin)
  | ImportedAuthority classification =>
    let imported := bool_decide (classification = ImportedKeyOrigin) in
    ImportedAuthorityResult (negb imported) (negb imported) false
  | JournalIntegrity ring journal digest => JournalIntegrityResult ring journal digest
  | LoadEvidence limb_above duplicated =>
    IntegrityResult (if limb_above || duplicated then Corruption else Valid)
  | AllocatorEvidence missing lower duplicate foreign =>
    IntegrityResult (if missing || lower || duplicate || foreign then Corruption else Valid)
  end).

Definition serial_next (high_water : Z) : core_result Z :=
  ok_or_reject (checked_add_u64 high_water 1) MacKeySerialExhausted.
