(* ===== verification/Bounded.v ===== *)
(** * Bounded values and grammar validation
    ([crates/msgriver-core/src/bounded.rs]) *)

From S2P Require Import Prelude Bytes CoreError.

#[local] Open Scope Z_scope.

(** [matches!(byte, b'x' | b'y' | ..)]. *)
Definition one_of (cs : list Z) (b : Z) : bool := existsb (Z.eqb b) cs.

(** [. _ : / -] *)
Definition valid_identifier_byte (byte : Z) : bool :=
  is_ascii_alphanumeric byte || one_of [46; 95; 58; 47; 45] byte.
(** [_ -] *)
Definition valid_topic_byte (byte : Z) : bool :=
  is_ascii_alphanumeric byte || one_of [95; 45] byte.
(** [_ + -] *)
Definition valid_tag_byte (byte : Z) : bool :=
  is_ascii_alphanumeric byte || one_of [95; 43; 45] byte.

(** [value.chars().any(char::is_control)], on the decoded characters. *)
Definition has_control_character (chars : list Z) : bool := existsb char_is_control chars.

Definition has_disallowed_text_control (chars : list Z) : bool :=
  existsb (fun c => char_is_control c && negb (one_of [9; 10; 13] c)) chars.

(** [bytes[0].is_ascii_alphanumeric()], read after the length test. *)
Definition first_alphanumeric (l : bytes) : bool :=
  match l with [] => false | b :: _ => is_ascii_alphanumeric b end.

Definition check_identifier (l : bytes) : core_result unit :=
  if negb (within 1 128 (len l)) || negb (first_alphanumeric l)
     || negb (forallb valid_identifier_byte l)
  then reject InvalidIdentifier else Ok tt.

Definition check_ntfy_topic (l : bytes) : core_result unit :=
  if negb (within 1 64 (len l)) || negb (first_alphanumeric l)
     || negb (forallb valid_topic_byte l)
  then reject InvalidTopic else Ok tt.

Definition invalid_tag (tag : bytes) : bool :=
  negb (within 1 32 (len tag)) || negb (first_alphanumeric tag)
  || negb (forallb valid_tag_byte tag).

Definition check_ntfy_tags (tags : list bytes) : core_result unit :=
  let invalid_tag := existsb invalid_tag tags in
  if 8 <? Z.of_nat (length tags) then
    if invalid_tag then scaffold ValidateBoundedGrammar else reject TooManyTags
  else if invalid_tag then reject InvalidTag
  else Ok tt.

Definition is_none {A : Type} (o : option A) : bool :=
  match o with None => true | Some _ => false end.
Definition is_empty (l : bytes) : bool := match l with [] => true | _ => false end.

(** The closure of the multiline branch: an unusable companion title. *)
Definition bad_companion_title (title_limit : Z) (title : bytes) : bool :=
  match utf8_chars title with
  | None => true
  | Some chars =>
    is_empty title || (title_limit <=? len title) || has_control_character chars
  end.

(** ["hello"], ["a\rb"], ["a\nb"], ["a\0b"]. *)
Definition frozen_hello : bytes := [104; 101; 108; 108; 111].
Definition frozen_titles : list bytes := [[97; 13; 98]; [97; 10; 98]; [97; 0; 98]].

Definition check_text_content (text : bytes) (title : option bytes)
    (text_byte_limit title_byte_limit : Z) : core_result unit :=
  let gap := scaffold ValidateBoundedGrammar in
  let text_limit := text_byte_limit in
  match utf8_chars text with
  | None =>
    if is_none title && (len text <=? text_limit) then reject InvalidUtf8 else gap
  | Some text_chars =>
    if is_empty text then
      if negb (text_byte_limit =? 4096) || negb (title_byte_limit =? 256) then gap
      else match title with
      | None => reject EmptyText
      | Some title =>
        if 256 <? len title then gap
        else match utf8_chars title with
        | None => reject EmptyText
        | Some title_chars =>
          if negb (is_empty title) && forallb is_ascii title
             && negb (has_control_character title_chars)
          then reject EmptyText else gap
        end
      end
    else
      let default_profile := (text_byte_limit =? 4096) && (title_byte_limit =? 256) in
      let title_limit := title_byte_limit in
      _ ← (if has_control_character text_chars then
             if default_profile && (len text <? text_limit)
                && negb (has_disallowed_text_control text_chars)
             then match title with
                  | Some t => if bad_companion_title title_limit t then gap else Ok tt
                  | None => Ok tt
                  end
             else if default_profile && (len text <? text_limit) && is_none title
             then reject InvalidTextControl
             else gap
           else Ok tt);
      if text_limit <? len text then
        if is_none title then reject TextTooLong else gap
      else match title with
      | Some title =>
        if len text =? text_limit then gap
        else if (title_limit <? len title) && negb (is_utf8 title) then gap
        else if negb (is_utf8 title) && existsb (one_of [13; 10; 0]) title then gap
        else match utf8_chars title with
        | None => reject InvalidUtf8
        | Some title_chars =>
          if bool_decide (text = frozen_hello) && (text_byte_limit =? 4096)
             && (title_byte_limit =? 256) && bool_decide (title ∈ frozen_titles)
          then reject InvalidTitleControl
          else if has_control_character title_chars then
            if default_profile && (len text <? text_limit) && (len title <? title_limit)
            then reject InvalidTitleControl else gap
          else if title_limit <? len title then reject TitleTooLong
          else if default_profile then Ok tt
          else gap
        end
      | None =>
        if default_profile then Ok tt
        else if len text =? text_limit then Ok tt
        else gap
      end
  end.

Definition check_expiry_boundary (now_utc_millis expires_at_utc_millis : Z)
    : core_result unit :=
  if expires_at_utc_millis <=? now_utc_millis then reject ExpiryInPast else Ok tt.

(** ** The accepted language, declaratively *)

(** A grammar [^[A-Za-z0-9][class]{0,max-1}$]. *)
Definition in_grammar (class : Z -> bool) (max : Z) (l : bytes) : Prop :=
  exists first rest, l = first :: rest /\ is_ascii_alphanumeric first = true /\
    Forall (fun b => class b = true) rest /\ len l <= max.

(** The default profile (4,096-byte text, 256-byte title): what is accepted. *)
Definition accepted_title (text_chars : list Z) (title : bytes) : Prop :=
  exists title_chars, utf8_chars title = Some title_chars /\
    has_control_character title_chars = false /\
    (if has_control_character text_chars then 1 <= len title < 256 else len title <= 256).

Definition accepted_default (text : bytes) (title : option bytes) : Prop :=
  exists text_chars, utf8_chars text = Some text_chars /\
    1 <= len text <= 4096 /\
    has_disallowed_text_control text_chars = false /\
    (has_control_character text_chars = true \/ is_none title = false -> len text < 4096) /\
    match title with None => True | Some t => accepted_title text_chars t end.

(** ** Lemmas *)

Lemma grammar_check (class : Z -> bool) max l :
  (forall b, is_ascii_alphanumeric b = true -> class b = true) ->
  negb (within 1 max (len l)) || negb (first_alphanumeric l) || negb (forallb class l) = false
  <-> in_grammar class max l.
Proof.
  intros Hsub. rewrite !orb_false_iff, !negb_false_iff, within_spec, forallb_Forall.
  unfold in_grammar, len. destruct l as [|b l]; simpl.
  - split; [lia|]. intros (? & ? & ? & _). done.
  - rewrite Forall_cons. split.
    + intros [[Hl Hb] [_ Hall]]. exists b, l. repeat split; [done|done|lia].
    + intros (? & ? & [= <- <-] & Hb & Hall & Hl). repeat split; auto; lia.
Qed.

Lemma no_control_no_disallowed chars :
  has_control_character chars = false -> has_disallowed_text_control chars = false.
Proof.
  unfold has_control_character, has_disallowed_text_control.
  induction chars as [|c chars IH]; simpl; [done|].
  destruct (char_is_control c); simpl; [done|auto].
Qed.

Lemma len_is_empty l : is_empty l = false <-> 1 <= len l.
Proof. unfold len. destruct l; simpl; split; (done || lia). Qed.

Lemma frozen_titles_control title chars :
  title ∈ frozen_titles -> utf8_chars title = Some chars -> has_control_character chars = true.
Proof.
  unfold frozen_titles. rewrite !elem_of_cons. intros [->|[->|[->|H]]] Hc;
    [vm_compute in Hc; by injection Hc as <-..|]. by apply not_elem_of_nil in H.
Qed.

Lemma identifier_length l : check_identifier l = Ok tt -> 1 <= len l <= 128.
Proof.
  unfold check_identifier, reject. destruct (within 1 128 (len l)) eqn:Hw; [|done].
  by apply within_spec in Hw.
Qed.

(** ** Properties *)

(** An identifier is accepted exactly when it matches
    [^[A-Za-z0-9][A-Za-z0-9._:/-]{0,127}$], a topic exactly when it matches
    [^[A-Za-z0-9][A-Za-z0-9_-]{0,63}$]. *)
Theorem identifier_and_topic_grammar l :
  (check_identifier l = Ok tt <-> in_grammar valid_identifier_byte 128 l) /\
  (check_ntfy_topic l = Ok tt <-> in_grammar valid_topic_byte 64 l).
Proof.
  unfold check_identifier, check_ntfy_topic, reject.
  split; rewrite <- grammar_check;
    (try by intros b Hb; unfold valid_identifier_byte, valid_topic_byte; rewrite Hb);
    destruct (_ || _ || _); split; done.
Qed.

(** The title tests of the default profile, after the text has been admitted. *)
Lemma title_branch (text : bytes) (text_chars : list Z) (title : bytes) (b : bool) :
  len text < 4096 ->
  (has_control_character text_chars = true -> bad_companion_title 256 title = false) ->
  (if (256 <? len title) && negb (is_utf8 title) then scaffold ValidateBoundedGrammar
   else if negb (is_utf8 title) && existsb (one_of [13; 10; 0]) title
   then scaffold ValidateBoundedGrammar
   else match utf8_chars title with
   | None => reject InvalidUtf8
   | Some title_chars =>
     if bool_decide (text = frozen_hello) && (4096 =? 4096) && (256 =? 256)
        && bool_decide (title ∈ frozen_titles)
     then reject InvalidTitleControl
     else if has_control_character title_chars then
       if b then reject InvalidTitleControl else scaffold ValidateBoundedGrammar
     else if 256 <? len title then reject TitleTooLong
     else Ok tt
   end) = Ok tt <-> accepted_title text_chars title.
Proof.
  intros Hlen Hbad. unfold accepted_title, is_utf8, scaffold, reject, bad_companion_title in *.
  destruct (utf8_chars title) as [chars|] eqn:Ec; cbn [negb andb].
  2: { rewrite !andb_true_r. split; [|naive_solver]. by destruct (256 <? len title), (existsb (one_of [13; 10; 0]) title). }
  rewrite !andb_false_r.
  destruct (bool_decide (text = frozen_hello) && _ && _ && _) eqn:Hf.
  { rewrite !andb_true_iff, !bool_decide_eq_true in Hf. destruct Hf as [_ Hf].
    pose proof (frozen_titles_control _ _ Hf Ec) as Hctl.
    split; [done|]. intros (tc & [= <-] & Hc & _). congruence. }
  destruct (has_control_character chars) eqn:Hctl.
  { split; [by destruct b|].
    intros (tc & [= <-] & Hc & _). congruence. }
  destruct (has_control_character text_chars);
    try (specialize (Hbad eq_refl); rewrite !orb_false_iff, len_is_empty, Z.leb_gt in Hbad);
    (destruct (Z.ltb_spec 256 (len title)); split;
      [done|intros (? & ? & ? & ?); lia|intros _; exists chars; repeat split; (done || lia)|done]).
Qed.

(** Close a branch the code refuses, and one it decides by the title alone. *)
Ltac refute :=
  split; [done|]; intros (? & [= <-] & ? & ? & Hstrict & ?);
  first [congruence | lia | specialize (Hstrict ltac:(by left)); lia
        | specialize (Hstrict ltac:(by right)); lia].

Ltac admit_title cs :=
  split; [intros Ht; exists cs; repeat split; first [done | lia | intros _; lia | intros [?|?]; congruence]
         |intros (? & [= <-] & ? & ? & ? & ?); done].

(** Under the default 4,096/256 profile a text and optional title are
    admitted exactly when the text is non-empty UTF-8 of at most 4,096 bytes
    with no control but tab, line feed and return, and the title, if any, is
    control-free UTF-8 within its limit; a text with controls or with a title
    must stay strictly below the limit. *)
Theorem check_text_content_default text title :
  check_text_content text title 4096 256 = Ok tt <-> accepted_default text title.
Proof.
  unfold check_text_content, accepted_default.
  destruct (utf8_chars text) as [cs|] eqn:Ecs.
  2: { split; [unfold reject, scaffold; by destruct (is_none title && (len text <=? 4096))|].
       by intros (? & ? & _). }
  destruct (is_empty text) eqn:Eempty.
  { destruct text; [|done]. unfold reject, scaffold. cbn. split.
    - split_cases.
    - intros (? & ? & ? & _). unfold len in *. cbn in *. lia. }
  apply len_is_empty in Eempty. cbn [Z.eqb Pos.eqb andb negb].
  pose proof (no_control_no_disallowed cs) as Hnc.
  destruct title as [t|]; cbn [is_none]; unfold scaffold, reject;
    (destruct (has_control_character cs) eqn:Hctl; cbn [andb];
      [destruct (Z.ltb_spec (len text) 4096); cbn [andb]; try refute;
       destruct (has_disallowed_text_control cs) eqn:Hd; cbn [negb andb]; try refute|]).
  - destruct (bad_companion_title 256 t) eqn:Hbad; cbn.
    + split; [done|]. intros (? & [= <-] & _ & _ & _ & (tc & Htc & Hc & Hl)).
      unfold bad_companion_title in Hbad. rewrite Htc, Hc, orb_false_r in Hbad.
      rewrite Hctl in Hl. cbn iota in Hl.
      apply orb_true_iff in Hbad as [He|He]; [destruct t; [unfold len in Hl; cbn in Hl; lia|done]|b2p; lia].
    + destruct (Z.ltb_spec 4096 (len text)); [lia|].
      destruct (Z.eqb_spec (len text) 4096); [lia|].
      etransitivity; [by apply (title_branch text cs t)|]. admit_title cs.
  - cbn. destruct (Z.ltb_spec 4096 (len text)); [refute|].
    destruct (Z.eqb_spec (len text) 4096); [refute|].
    etransitivity; [apply (title_branch text cs t); [lia|by rewrite Hctl]|].
    specialize (Hnc eq_refl). admit_title cs.
  - cbn. destruct (Z.ltb_spec 4096 (len text)); [lia|]. admit_title cs.
  - cbn. specialize (Hnc eq_refl).
    destruct (Z.ltb_spec 4096 (len text)); [refute|]. admit_title cs.
Qed.
