(* ===== verification/Sha256.v ===== *)
(** * SHA-256 and HMAC-SHA-256, written out in [crates/msgriver-core/src/canon.rs]

    Words are [Z] in [0, 2^32) with every wrapping addition, rotation and shift
    written out. [pad_loop] runs on fuel 64: the loop adds at most 63 zeros
    ([pad_loop_done]). *)

From S2P Require Import Prelude Bytes.

#[local] Open Scope Z_scope.

Definition SHA256_K : list Z :=
  [0x428a2f98; 0x71374491; 0xb5c0fbcf; 0xe9b5dba5; 0x3956c25b; 0x59f111f1; 0x923f82a4; 0xab1c5ed5]
  ++ [0xd807aa98; 0x12835b01; 0x243185be; 0x550c7dc3; 0x72be5d74; 0x80deb1fe; 0x9bdc06a7; 0xc19bf174]
  ++ [0xe49b69c1; 0xefbe4786; 0x0fc19dc6; 0x240ca1cc; 0x2de92c6f; 0x4a7484aa; 0x5cb0a9dc; 0x76f988da]
  ++ [0x983e5152; 0xa831c66d; 0xb00327c8; 0xbf597fc7; 0xc6e00bf3; 0xd5a79147; 0x06ca6351; 0x14292967]
  ++ [0x27b70a85; 0x2e1b2138; 0x4d2c6dfc; 0x53380d13; 0x650a7354; 0x766a0abb; 0x81c2c92e; 0x92722c85]
  ++ [0xa2bfe8a1; 0xa81a664b; 0xc24b8b70; 0xc76c51a3; 0xd192e819; 0xd6990624; 0xf40e3585; 0x106aa070]
  ++ [0x19a4c116; 0x1e376c08; 0x2748774c; 0x34b0bcb5; 0x391c0cb3; 0x4ed8aa4a; 0x5b9cca4f; 0x682e6ff3]
  ++ [0x748f82ee; 0x78a5636f; 0x84c87814; 0x8cc70208; 0x90befffa; 0xa4506ceb; 0xbef9a3f7; 0xc67178f2].

Definition rotate_right (x n : Z) : Z :=
  Z.lor (Z.shiftr x n) (wrap 32 (Z.shiftl x (32 - n))).
Definition wrapping_add (a b : Z) : Z := wrap 32 (a + b).
Definition not32 (x : Z) : Z := Z.lxor x u32_max.

Record Sha256State : Type := mkSha {
  sa : Z; sb : Z; sc : Z; sd : Z; se : Z; sf : Z; sg : Z; sh : Z
}.

Definition initial_state : Sha256State :=
  mkSha 0x6a09e667 0xbb67ae85 0x3c6ef372 0xa54ff53a 0x510e527f 0x9b05688c 0x1f83d9ab 0x5be0cd19.

(** [while message.len() % 64 != 56 { message.push(0); }]. *)
Fixpoint pad_loop (fuel : nat) (message : bytes) : bytes :=
  match fuel with
  | O => message
  | S fuel' =>
    if (length message mod 64 =? 56)%nat then message else pad_loop fuel' (message ++ [0])
  end.

Definition padded_message (data : bytes) : bytes :=
  pad_loop 64 (data ++ [128]) ++ be_bytes 8 (wrap 64 (len data * 8)).

(** [chunks_exact(n)]: whole chunks only. *)
Fixpoint chunks_exact_fuel (fuel n : nat) (l : bytes) : list bytes :=
  match fuel with
  | O => []
  | S fuel' =>
    if (length l <? n)%nat then [] else take n l :: chunks_exact_fuel fuel' n (drop n l)
  end.
Definition chunks_exact (n : nat) (l : bytes) : list bytes := chunks_exact_fuel (length l) n l.

Definition word (words : list Z) (index : nat) : Z := nth index words 0.

(** The body of [for index in 16..64] on the words filled so far. *)
Definition extend_words (words : list Z) : list Z :=
  let index := length words in
  let w15 := word words (index - 15) in
  let w2 := word words (index - 2) in
  let s0 := Z.lxor (Z.lxor (rotate_right w15 7) (rotate_right w15 18)) (Z.shiftr w15 3) in
  let s1 := Z.lxor (Z.lxor (rotate_right w2 17) (rotate_right w2 19)) (Z.shiftr w2 10) in
  words ++ [wrapping_add (wrapping_add (wrapping_add (word words (index - 16)) s0)
                            (word words (index - 7))) s1].

Definition message_schedule (chunk : bytes) : list Z :=
  Nat.iter 48 extend_words (map of_be_bytes (chunks_exact 4 chunk)).

(** One round, for a constant and its word. *)
Definition round (st : Sha256State) (kw : Z * Z) : Sha256State :=
  let '(mkSha a b c d e f g h) := st in
  let '(constant, w) := kw in
  let s1 := Z.lxor (Z.lxor (rotate_right e 6) (rotate_right e 11)) (rotate_right e 25) in
  let choice := Z.lxor (Z.land e f) (Z.land (not32 e) g) in
  let temp1 := wrapping_add (wrapping_add (wrapping_add (wrapping_add h s1) choice) constant) w in
  let s0 := Z.lxor (Z.lxor (rotate_right a 2) (rotate_right a 13)) (rotate_right a 22) in
  let majority := Z.lxor (Z.lxor (Z.land a b) (Z.land a c)) (Z.land b c) in
  let temp2 := wrapping_add s0 majority in
  mkSha (wrapping_add temp1 temp2) a b c (wrapping_add d temp1) e f g.

Definition compress (state : Sha256State) (chunk : bytes) : Sha256State :=
  let r := foldl round state (zip SHA256_K (message_schedule chunk)) in
  mkSha (wrapping_add (sa state) (sa r)) (wrapping_add (sb state) (sb r))
        (wrapping_add (sc state) (sc r)) (wrapping_add (sd state) (sd r))
        (wrapping_add (se state) (se r)) (wrapping_add (sf state) (sf r))
        (wrapping_add (sg state) (sg r)) (wrapping_add (sh state) (sh r)).

Definition digest_bytes (s : Sha256State) : bytes :=
  concat (map (be_bytes 4) [sa s; sb s; sc s; sd s; se s; sf s; sg s; sh s]).

Definition sha256 (data : bytes) : bytes :=
  digest_bytes (foldl compress initial_state (chunks_exact 64 (padded_message data))).

(** [for (index, byte) in normalized_key.iter().enumerate() { pad[index] ^= byte; }]. *)
Fixpoint xor_into (pad key : bytes) : bytes :=
  match pad, key with
  | p :: pad', k :: key' => Z.lxor p k :: xor_into pad' key'
  | _, _ => pad
  end.

Definition hmac_sha256 (key : bytes) (parts : list bytes) : bytes :=
  let normalized_key := if 64 <? len key then sha256 key else key in
  let inner_pad := xor_into (repeat 0x36 64) normalized_key in
  let outer_pad := xor_into (repeat 0x5c 64) normalized_key in
  let inner_digest := sha256 (inner_pad ++ concat parts) in
  sha256 (outer_pad ++ inner_digest).

(** ** HMAC as RFC 2104 states it *)

Definition hmac_key_block (key : bytes) : bytes :=
  let k := if 64 <? len key then sha256 key else key in
  k ++ repeat 0 (64 - length k).

Definition hmac_reference (key message : bytes) : bytes :=
  let k := hmac_key_block key in
  sha256 (map (Z.lxor 0x5c) k ++ sha256 (map (Z.lxor 0x36) k ++ message)).

(** The [hmac] crate's HMAC-SHA-256, a parameter wherever the sources call the
    crate; [HmacOutput] is its documented output type, [[u8; 32]]. *)
Class HmacSha256 : Type := hmac : bytes -> bytes -> bytes.

Class HmacOutput `{HmacSha256} : Prop := {
  hmac_length : forall key message, length (hmac key message) = 32%nat;
  hmac_bytes : forall key message, is_bytes (hmac key message) = true;
}.

(** ** Lemmas *)

(** The published digests of ["abc"], of the empty string and of a two-block
    message. *)
Example sha256_abc :
  hex_bytes (sha256 (as_bytes "abc")) =
  as_bytes "ba7816bf8f01cfea414140de5dae2223b00361a396177a9cb410ff61f20015ad".
Proof. vm_compute. reflexivity. Qed.

Example sha256_empty :
  hex_bytes (sha256 []) =
  as_bytes "e3b0c44298fc1c149afbf4c8996fb92427ae41e4649b934ca495991b7852b855".
Proof. vm_compute. reflexivity. Qed.

Example sha256_two_blocks :
  hex_bytes (sha256 (as_bytes "abcdbcdecdefdefgefghfghighijhijkijkljklmklmnlmnomnopnopq")) =
  as_bytes "248d6a61d20638b8e5c026930c3e6039a33ce45964ff2167f6ecedd419db06c1".
Proof. vm_compute. reflexivity. Qed.

Lemma length_digest_bytes s : length (digest_bytes s) = 32%nat.
Proof. unfold digest_bytes. cbn [map concat]. by rewrite !length_app, !length_be_bytes. Qed.

Lemma length_sha256 data : length (sha256 data) = 32%nat.
Proof. apply length_digest_bytes. Qed.

Lemma is_bytes_sha256 data : is_bytes (sha256 data) = true.
Proof.
  unfold sha256, digest_bytes. cbn [map concat].
  by rewrite !is_bytes_app, !is_bytes_be_bytes.
Qed.

(** The loop stops at the first length that is 56 modulo 64. *)
Lemma pad_loop_stops k fuel m :
  (k <= fuel)%nat -> ((length m + k) mod 64 = 56)%nat ->
  (forall j, (j < k)%nat -> ((length m + j) mod 64 <> 56)%nat) ->
  pad_loop fuel m = m ++ repeat 0 k.
Proof.
  revert fuel m. induction k as [|k IH]; intros fuel m Hk Hstop Hgo.
  - rewrite app_nil_r, Nat.add_0_r in *. destruct fuel; [done|].
    cbn [pad_loop]. by rewrite Hstop.
  - destruct fuel as [|fuel]; [lia|]. cbn [pad_loop].
    pose proof (Hgo O ltac:(lia)) as H0. rewrite Nat.add_0_r in H0.
    destruct (Nat.eqb_spec (length m mod 64) 56); [done|].
    rewrite IH; [by rewrite <- app_assoc|lia|..].
    + rewrite length_app. cbn. by rewrite <- Nat.add_assoc.
    + intros j Hj. rewrite length_app. cbn. rewrite <- Nat.add_assoc. apply Hgo. lia.
Qed.

(** Fewer than 64 zeros are missing from any length. *)
Lemma missing_zeros n : exists k, (k < 64)%nat /\ ((n + k) mod 64 = 56)%nat /\
  forall j, (j < k)%nat -> ((n + j) mod 64 <> 56)%nat.
Proof.
  pose proof (Nat.div_mod_eq n 64) as Hn. pose proof (Nat.mod_upper_bound n 64) as Hr.
  set (q := (n / 64)%nat) in *. set (r := (n mod 64)%nat) in *.
  destruct (Nat.le_gt_cases r 56) as [Hle|Hgt].
  - exists (56 - r)%nat. split; [lia|]. split.
    + symmetry. apply (Nat.mod_unique _ _ q); lia.
    + intros j Hj. rewrite <- (Nat.mod_unique (n + j) 64 q (r + j)); lia.
  - exists (120 - r)%nat. split; [lia|]. split.
    + symmetry. apply (Nat.mod_unique _ _ (S q)); lia.
    + intros j Hj. destruct (Nat.lt_ge_cases (r + j) 64).
      * rewrite <- (Nat.mod_unique (n + j) 64 q (r + j)); lia.
      * rewrite <- (Nat.mod_unique (n + j) 64 (S q) (r + j - 64)); lia.
Qed.

Lemma chunks_exact_concat fuel n q (l : bytes) :
  (0 < n)%nat -> (length l <= fuel)%nat -> length l = (q * n)%nat ->
  concat (chunks_exact_fuel fuel n l) = l /\
  Forall (fun c => length c = n) (chunks_exact_fuel fuel n l).
Proof.
  intros Hn. revert q l. induction fuel as [|fuel IH]; intros q l Hf Hq.
  { destruct l; [by split|]. cbn in Hf. lia. }
  cbn [chunks_exact_fuel]. destruct (Nat.ltb_spec (length l) n) as [Hlt|Hge].
  - destruct q; [|nia]. destruct l; [by split|]. cbn in Hq. lia.
  - destruct q as [|q]; [lia|].
    destruct (IH q (drop n l)) as [Hc Hall]; [rewrite length_drop; lia..|].
    cbn [concat]. rewrite Hc, take_drop. split; [done|].
    constructor; [|done]. rewrite length_take. lia.
Qed.

Lemma zip_xor_pad c n key :
  (length key <= n)%nat ->
  xor_into (repeat c n) key = map (Z.lxor c) (key ++ repeat 0 (n - length key)).
Proof.
  revert key. induction n as [|n IH]; intros [|k key] Hl; cbn in *; try done; try lia.
  - rewrite Z.lxor_0_r. f_equal. specialize (IH []). cbn in IH. rewrite Nat.sub_0_r in IH.
    rewrite <- IH by lia. by destruct n.
  - f_equal. apply IH. lia.
Qed.

Lemma hmac_key_short key :
  (length (if (64 <? len key)%Z then sha256 key else key) <= 64)%nat.
Proof.
  unfold len. destruct (Z.ltb_spec 64 (Z.of_nat (length key))); [rewrite length_sha256; lia|lia].
Qed.

(** ** Properties *)

(** The padding loop terminates within its fuel and the compression sees, in
    whole 64-byte blocks and in order, exactly the data, the 0x80 mark, fewer
    than 64 zeros and the 64-bit big-endian bit length. *)
Theorem sha256_blocks_exact data :
  exists k, (k < 64)%nat /\
    concat (chunks_exact 64 (padded_message data)) =
      data ++ [128] ++ repeat 0 k ++ be_bytes 8 (wrap 64 (len data * 8)) /\
    Forall (fun c => length c = 64%nat) (chunks_exact 64 (padded_message data)).
Proof.
  destruct (missing_zeros (length (data ++ [128]))) as (k & Hk & Hmod & Hgo).
  exists k. split; [done|].
  assert (padded_message data
          = data ++ [128] ++ repeat 0 k ++ be_bytes 8 (wrap 64 (len data * 8))) as Hp.
  { unfold padded_message. rewrite (pad_loop_stops k) by (done || lia).
    by rewrite <- !app_assoc. }
  rewrite <- Hp. pose proof (Nat.div_mod_eq (length (data ++ [128]) + k) 64) as Hq.
  apply (chunks_exact_concat _ _ ((length (data ++ [128]) + k) / 64 + 1)); [lia|done|].
  rewrite Hp, !length_app, repeat_length, length_be_bytes in *. cbn in *. lia.
Qed.

(** The in-place key pads and the multi-part absorption compute RFC 2104's
    HMAC of the concatenated parts; the framing of the parts is not part of
    the tag. *)
Theorem hmac_sha256_reference key parts :
  hmac_sha256 key parts = hmac_reference key (concat parts).
Proof.
  unfold hmac_sha256, hmac_reference, hmac_key_block.
  by rewrite !zip_xor_pad by apply hmac_key_short.
Qed.

(** The HMAC written out in [canon.rs] is one instance of the interface. *)
Definition canon_hmac : HmacSha256 := fun key message => hmac_sha256 key [message].

Lemma canon_hmac_output : @HmacOutput canon_hmac.
Proof. split; intros key message; [apply length_sha256|apply is_bytes_sha256]. Qed.

(** A sum over key and message, another instance and cheap to evaluate. *)
Definition sum_hmac : HmacSha256 := fun key message =>
  be_bytes 32 (foldl (fun sum b => wrap 32 (sum * 31 + b)) 7 (key ++ message)).

Lemma sum_hmac_output : @HmacOutput sum_hmac.
Proof. split; intros key message; [apply length_be_bytes|apply is_bytes_be_bytes]. Qed.
