(* ===== verification/Codec.v ===== *)
(** * Fixed-layout wire codecs

    What the private codecs of [crates/msgriver/src] have in common: slices and
    indices of a wire whose length has been checked, big-endian fields, presence
    tags, all-zero arrays, and the interface [WireCodec] that each of them is shown
    to implement: the decoder accepts exactly the encodings of well-typed values. *)

From S2P Require Import Prelude Bytes Generation Sha256.

#[local] Open Scope Z_scope.

(** [&bytes[from..to]] and [bytes[i]]. The sources bound every index by a length
    check first; out of range Rust panics, and these are shorter or [0]. *)
Definition slice (l : bytes) (from to : nat) : bytes := take (to - from) (drop from l).
Definition at_ (l : bytes) (i : nat) : Z := nth i l 0.

(** [bytes.iter().all(|byte| *byte == 0)]. *)
Definition all_zero (l : bytes) : bool := forallb (fun byte => byte =? 0) l.

(** [u8::from(flag)]. *)
Definition flag (b : bool) : Z := if b then 1 else 0.

Definition is_some {A : Type} (o : option A) : bool :=
  match o with Some _ => true | None => false end.

(** [o.map_or(true, p)] over the payload of an option. *)
Definition on_some {A : Type} (p : A -> bool) (o : option A) : bool :=
  match o with Some a => p a | None => true end.

(** ** The codec interface *)

Class WireCodec {E A : Type} (encode : A -> result E bytes)
    (decode : bytes -> result E A) (typed : A -> bool) : Prop := {
  codec_exact : forall wire a, is_bytes wire = true ->
    decode wire = Ok a <-> typed a = true /\ encode a = Ok wire;
  codec_bytes : forall a wire, typed a = true -> encode a = Ok wire -> is_bytes wire = true;
}.

Section wire_codec.
Context {E A : Type} {encode : A -> result E bytes} {decode : bytes -> result E A}.
Context {typed : A -> bool} `{!WireCodec encode decode typed}.

Lemma codec_roundtrip a wire :
  typed a = true -> encode a = Ok wire -> decode wire = Ok a.
Proof. intros Ha He. apply codec_exact; [by eapply codec_bytes|done]. Qed.

(** No value has two wires. *)
Lemma codec_canonical wire wire' a :
  is_bytes wire = true -> is_bytes wire' = true ->
  decode wire = Ok a -> decode wire' = Ok a -> wire = wire'.
Proof.
  intros Hw Hw' [_ Hd]%codec_exact [_ Hd']%codec_exact; [|done..]. congruence.
Qed.

(** No wire has two values. *)
Lemma codec_injective a a' wire :
  typed a = true -> typed a' = true -> encode a = Ok wire -> encode a' = Ok wire -> a = a'.
Proof.
  intros Ha Ha' He%codec_roundtrip He'%codec_roundtrip; [|done..]. congruence.
Qed.
End wire_codec.

(** ** Slices *)

Lemma length_slice l i j :
  (i <= j)%nat -> (j <= length l)%nat -> length (slice l i j) = (j - i)%nat.
Proof. intros. unfold slice. rewrite length_take, length_drop. lia. Qed.

Lemma slice_join l i j k :
  (i <= j)%nat -> (j <= k)%nat -> slice l i j ++ slice l j k = slice l i k.
Proof.
  intros. unfold slice. replace (drop j l) with (drop (j - i) (drop i l))
    by (rewrite drop_drop; f_equal; lia).
  replace (k - i)%nat with ((j - i) + (k - j))%nat by lia.
  by rewrite take_take_drop.
Qed.

Lemma slice_join_app l i j k r :
  (i <= j)%nat -> (j <= k)%nat -> slice l i j ++ slice l j k ++ r = slice l i k ++ r.
Proof. intros. by rewrite app_assoc, slice_join. Qed.

Lemma slice_all l n : length l = n -> slice l 0 n = l.
Proof. intros <-. unfold slice. by rewrite drop_0, Nat.sub_0_r, firstn_all. Qed.

Lemma slice_slice l n i j : (j <= n)%nat -> slice (slice l 0 n) i j = slice l i j.
Proof.
  intros Hj. unfold slice. rewrite drop_0, Nat.sub_0_r, skipn_firstn_comm, take_take.
  f_equal. lia.
Qed.

Lemma take_slice n l : take n l = slice l 0 n.
Proof. unfold slice. by rewrite drop_0, Nat.sub_0_r. Qed.

Lemma drop_slice n l : drop n l = slice l n (length l).
Proof. unfold slice. rewrite take_ge; [done|]. rewrite length_drop. lia. Qed.

Lemma slice_drop l n i j : slice (drop n l) i j = slice l (n + i) (n + j).
Proof. unfold slice. rewrite drop_drop. f_equal. lia. Qed.

Lemma at_drop l n i : at_ (drop n l) i = at_ l (n + i).
Proof. unfold at_. by rewrite !nth_lookup, lookup_drop. Qed.

Lemma slice_one l i : (i < length l)%nat -> slice l i (S i) = [at_ l i].
Proof.
  intros Hi. unfold slice, at_. replace (S i - i)%nat with 1%nat by lia.
  destruct (lookup_lt_is_Some_2 l i Hi) as [x Hx].
  rewrite (drop_S _ _ _ Hx). cbn. by rewrite (nth_lookup_Some _ _ _ _ Hx).
Qed.

Lemma is_bytes_take n l : is_bytes l = true -> is_bytes (take n l) = true.
Proof. unfold is_bytes. b2p. apply Forall_take. Qed.

Lemma is_bytes_drop n l : is_bytes l = true -> is_bytes (drop n l) = true.
Proof. unfold is_bytes. b2p. apply Forall_drop. Qed.

Lemma is_bytes_slice l i j : is_bytes l = true -> is_bytes (slice l i j) = true.
Proof. intros. by apply is_bytes_take, is_bytes_drop. Qed.

Lemma array_slice l i j n :
  is_bytes l = true -> (i <= j)%nat -> (j <= length l)%nat -> n = (j - i)%nat ->
  array n (slice l i j) = true.
Proof.
  intros Hl Hij Hj ->. apply array_spec. by rewrite length_slice, is_bytes_slice.
Qed.

Lemma at_byte l i : is_bytes l = true -> is_byte (at_ l i) = true.
Proof.
  intros Hl. unfold at_. destruct (lt_dec i (length l)) as [Hi|Hi].
  - unfold is_bytes in Hl. rewrite forallb_forall in Hl. apply Hl, nth_In, Hi.
  - by rewrite nth_overflow by lia.
Qed.

(** ** Chunks *)

Lemma chunks_fuel n fuel l :
  (0 < n)%nat -> (length l <= fuel)%nat ->
  chunks_exact_fuel fuel n l = chunks_exact_fuel (length l) n l.
Proof.
  intros Hn. revert l. induction fuel as [fuel IH] using lt_wf_ind. intros l Hl.
  destruct fuel as [|fuel]; [by destruct l; simpl in *; [|lia]|].
  destruct l as [|b l].
  { cbn [chunks_exact_fuel length]. rewrite (proj2 (Nat.ltb_lt 0 n)) by done. done. }
  cbn [chunks_exact_fuel length] in *. destruct (Nat.ltb_spec (S (length l)) n); [done|].
  f_equal. rewrite (IH fuel), (IH (length l)) by (rewrite ?length_drop; simpl; lia). done.
Qed.

Lemma chunks_exact_nil n : chunks_exact n [] = [].
Proof. done. Qed.

Lemma chunks_exact_app n a b :
  (0 < n)%nat -> length a = n -> chunks_exact n (a ++ b) = a :: chunks_exact n b.
Proof.
  intros Hn Ha. unfold chunks_exact. destruct a as [|x a]; [simpl in Ha; lia|].
  cbn [length app chunks_exact_fuel]. rewrite (proj2 (Nat.ltb_ge _ _)) by
    (rewrite <- Ha; simpl; rewrite length_app; lia).
  change (x :: a ++ b) with ((x :: a) ++ b). rewrite take_app_length', drop_app_length' by done.
  f_equal. apply chunks_fuel; [done|]. rewrite length_app. lia.
Qed.

(** ** Slices of a concatenation *)

(** The length of a segment, found by instance search. *)
Class Len (l : bytes) (n : nat) : Prop := len_eq : length l = n.
#[global] Hint Mode Len ! - : typeclass_instances.
#[global] Typeclasses Opaque sha256 be_bytes slice.

#[export] Instance len_nil : Len [] 0.
Proof. done. Qed.
#[export] Instance len_cons x l n : Len l n -> Len (x :: l) (S n).
Proof. unfold Len. simpl. lia. Qed.
#[export] Instance len_app l k n m : Len l n -> Len k m -> Len (l ++ k) (n + m).
Proof. unfold Len. rewrite length_app. lia. Qed.
#[export] Instance len_be_bytes n z : Len (be_bytes n z) n.
Proof. apply length_be_bytes. Qed.
#[export] Instance len_sha256 data : Len (sha256 data) 32.
Proof. apply length_sha256. Qed.
#[export] Instance len_hmac `{HmacOutput} key message : Len (hmac key message) 32.
Proof. apply hmac_length. Qed.

Lemma array_len n l : array n l = true -> Len l n.
Proof. intros H%array_spec. apply H. Qed.
#[export] Hint Extern 5 (Len ?l _) =>
  match goal with H : array _ l = true |- _ => exact (array_len _ _ H) end
  : typeclass_instances.

Lemma slice_skip a r i j n `{!Len a n} :
  (n <= i)%nat -> slice (a ++ r) i j = slice r (i - n) (j - n).
Proof.
  intros Hi. unfold slice. rewrite drop_app_ge by (rewrite (len_eq (n:=n)); done).
  rewrite (len_eq (n:=n)). f_equal. lia.
Qed.

Lemma slice_head a r j n `{!Len a n} :
  (n <= j)%nat -> slice (a ++ r) 0 j = a ++ slice r 0 (j - n).
Proof.
  intros Hj. unfold slice. rewrite !drop_0, take_app_ge by (rewrite (len_eq (n:=n)); lia).
  rewrite (len_eq (n:=n)). do 2 f_equal. lia.
Qed.

Lemma slice_whole a n `{!Len a n} : slice a 0 n = a.
Proof. by apply slice_all. Qed.

Lemma slice_none l i : slice l i i = [].
Proof. unfold slice. by rewrite Nat.sub_diag. Qed.

Lemma slice_cons_S x l i j : slice (x :: l) (S i) (S j) = slice l i j.
Proof. done. Qed.

Lemma slice_cons_0 x l j : slice (x :: l) 0 (S j) = x :: slice l 0 j.
Proof. unfold slice. rewrite !drop_0. by rewrite !Nat.sub_0_r. Qed.

Lemma slice_mid a b c i j :
  i = length a -> j = (length a + length b)%nat -> slice (a ++ b ++ c) i j = b.
Proof.
  intros -> ->. unfold slice. rewrite drop_app_length. apply take_app_length'. lia.
Qed.

Lemma slice_tail a b i j :
  i = length a -> j = (length a + length b)%nat -> slice (a ++ b) i j = b.
Proof. intros. rewrite <- (app_nil_r (a ++ b)), <- app_assoc. by apply slice_mid. Qed.

Lemma slice_app_l a r i j : (j <= length a)%nat -> slice (a ++ r) i j = slice a i j.
Proof.
  intros Hj. unfold slice. destruct (le_lt_dec i (length a)).
  - rewrite drop_app_le by done. apply take_app_le. rewrite length_drop. lia.
  - replace (j - i)%nat with 0%nat by lia. done.
Qed.

Lemma at_skip a r i n `{!Len a n} : (n <= i)%nat -> at_ (a ++ r) i = at_ r (i - n).
Proof.
  intros Hi. unfold at_. rewrite app_nth2 by (rewrite (len_eq (n:=n)); lia).
  by rewrite (len_eq (n:=n)).
Qed.

(** The same with symbolic positions, from the goal. *)
Lemma seg_skip a r i j b n `{!Len a n} :
  (n <= i)%nat -> slice r (i - n) (j - n) = b -> slice (a ++ r) i j = b.
Proof. intros Hi <-. by apply slice_skip. Qed.

Lemma seg_here a r i j n `{!Len a n} : i = 0%nat -> j = n -> slice (a ++ r) i j = a.
Proof. intros -> ->. rewrite (slice_head a r n _) by done. by rewrite Nat.sub_diag, slice_none, app_nil_r. Qed.

Lemma seg_last a i j n `{!Len a n} : i = 0%nat -> j = n -> slice a i j = a.
Proof. intros -> ->. by apply slice_whole. Qed.

Lemma byte_skip a r i b n `{!Len a n} :
  (n <= i)%nat -> at_ r (i - n) = b -> at_ (a ++ r) i = b.
Proof. intros Hi <-. by apply at_skip. Qed.

Lemma byte_here x r i : i = 0%nat -> at_ ([x] ++ r) i = x.
Proof. by intros ->. Qed.

Ltac segment :=
  repeat first
    [ refine (seg_here _ _ _ _ _ _ _); lia
    | refine (seg_last _ _ _ _ _ _); lia
    | refine (byte_here _ _ _ _); lia
    | refine (seg_skip _ _ _ _ _ _ _ _); [lia|]
    | refine (byte_skip _ _ _ _ _ _ _); [lia|] ].

(** Compute the slices and the bytes of a concatenation of known lengths. *)
Ltac slice_step :=
  match goal with
  | |- context [slice (?x :: ?l) (S ?i) (S ?j)] => rewrite (slice_cons_S x l i j)
  | |- context [slice (?x :: ?l) 0 (S ?j)] => rewrite (slice_cons_0 x l j)
  | |- context [slice ?l ?i ?i] => rewrite (slice_none l i)
  | |- context [slice (?a ++ ?r) ?i ?j] =>
    (rewrite (slice_skip a r i j _) by (cbn; lia)) ||
    (rewrite (slice_head a r j _) by (cbn; lia))
  | |- context [slice ?a 0 _] => rewrite (slice_whole a _)
  | |- context [at_ (?a ++ ?r) ?i] => rewrite (at_skip a r i _) by (cbn; lia)
  | |- context [at_ (?x :: ?l) 0] => change (at_ (x :: l) 0) with x
  | |- context [at_ (?x :: ?l) (S ?i)] => change (at_ (x :: l) (S i)) with (at_ l i)
  end; cbn [Nat.sub Nat.add].
Ltac slices := repeat slice_step.

(** ** Fields *)

Lemma be_slice n l i j :
  is_bytes l = true -> (i <= j)%nat -> (j <= length l)%nat -> n = (j - i)%nat ->
  be_bytes n (of_be_bytes (slice l i j)) = slice l i j.
Proof.
  intros Hl Hij Hj ->. rewrite <- (length_slice l i j) by done.
  by apply be_bytes_of_be_bytes, is_bytes_slice.
Qed.

Lemma of_be_bytes_small n z : 0 <= z < 256 ^ Z.of_nat n -> of_be_bytes (be_bytes n z) = z.
Proof. intros Hz. rewrite of_be_bytes_be_bytes. by apply Z.mod_small. Qed.

Lemma of_be_u16 z : is_u16 z = true -> of_be_bytes (be_bytes 2 z) = z.
Proof.
  intros Hz%within_spec. apply of_be_bytes_small. change (256 ^ Z.of_nat 2) with (2 ^ 16).
  unfold u16_max in Hz. lia.
Qed.

Lemma of_be_u32 z : is_u32 z = true -> of_be_bytes (be_bytes 4 z) = z.
Proof.
  intros Hz%within_spec. apply of_be_bytes_small. change (256 ^ Z.of_nat 4) with (2 ^ 32).
  unfold u32_max in Hz. lia.
Qed.

Lemma of_be_u64 z : is_u64 z = true -> of_be_bytes (be_bytes 8 z) = z.
Proof.
  intros Hz%within_spec. apply of_be_bytes_small. change (256 ^ Z.of_nat 8) with (2 ^ 64).
  unfold u64_max in Hz. lia.
Qed.

Lemma as_i64_mod z : as_i64 (z mod 2 ^ 64) = as_i64 z.
Proof. unfold as_i64. by rewrite Zplus_mod_idemp_l. Qed.

Lemma as_i64_small z : is_i64 z = true -> as_i64 z = z.
Proof.
  intros Hz%within_spec. unfold i64_min, i64_max in Hz. unfold as_i64.
  rewrite Z.mod_small; lia.
Qed.

Lemma is_i64_as_i64 z : is_i64 (as_i64 z) = true.
Proof.
  apply within_spec. unfold as_i64, i64_min, i64_max.
  pose proof (Z.mod_pos_bound (z + 2 ^ 63) (2 ^ 64)). lia.
Qed.

Lemma of_be_i64 z : is_i64 z = true -> as_i64 (of_be_bytes (be_bytes 8 z)) = z.
Proof.
  intros Hz. rewrite of_be_bytes_be_bytes. change (256 ^ Z.of_nat 8) with (2 ^ 64).
  rewrite as_i64_mod. by apply as_i64_small.
Qed.

Lemma be_bytes_S n z : be_bytes (S n) z = be_bytes n (z / 256) ++ [z mod 256].
Proof. done. Qed.

Lemma be_bytes_mod n z : be_bytes n (z mod 256 ^ Z.of_nat n) = be_bytes n z.
Proof.
  revert z. induction n as [|n IH]; intros z; [done|].
  rewrite !be_bytes_S.
  rewrite Nat2Z.inj_succ, Z.pow_succ_r by lia. rewrite Z.rem_mul_r by lia.
  set (m := 256 ^ Z.of_nat n). set (q := (z / 256) mod m).
  replace ((z mod 256 + 256 * q) / 256) with q
    by (rewrite (Z.mul_comm 256 q), Z.div_add, Z.div_small by (try apply Z.mod_pos_bound; lia); lia).
  replace ((z mod 256 + 256 * q) mod 256) with (z mod 256)
    by (rewrite (Z.mul_comm 256 q), Z.mod_add, Z.mod_mod by lia; done).
  unfold q, m. by rewrite (IH (z / 256)).
Qed.

Lemma be_bytes_as_i64 z : be_bytes 8 (as_i64 z) = be_bytes 8 z.
Proof.
  rewrite <- (be_bytes_mod 8 (as_i64 z)), <- (be_bytes_mod 8 z).
  change (256 ^ Z.of_nat 8) with (2 ^ 64). unfold as_i64.
  rewrite Zminus_mod_idemp_l. do 2 f_equal. lia.
Qed.

(** What a fixed-width integer read from exactly its bytes is. *)
Lemma uint_of_be n m l :
  256 ^ Z.of_nat n = m + 1 -> length l = n -> is_bytes l = true ->
  within 0 m (of_be_bytes l) = true /\ be_bytes n (of_be_bytes l) = l.
Proof.
  intros Hm Hn Hb. pose proof (be_bytes_of_be_bytes l Hb) as He. pose proof (of_be_bytes_bound l Hb) as Hr.
  rewrite Hn in He, Hr. split; [|done]. apply within_spec. lia.
Qed.

Lemma u16_of_be l :
  length l = 2%nat -> is_bytes l = true ->
  is_u16 (of_be_bytes l) = true /\ be_bytes 2 (of_be_bytes l) = l.
Proof. by apply uint_of_be. Qed.

Lemma u32_of_be l :
  length l = 4%nat -> is_bytes l = true ->
  is_u32 (of_be_bytes l) = true /\ be_bytes 4 (of_be_bytes l) = l.
Proof. by apply uint_of_be. Qed.

Lemma u64_of_be l :
  length l = 8%nat -> is_bytes l = true ->
  is_u64 (of_be_bytes l) = true /\ be_bytes 8 (of_be_bytes l) = l.
Proof. by apply uint_of_be. Qed.

Lemma i64_of_be l :
  length l = 8%nat -> is_bytes l = true ->
  is_i64 (as_i64 (of_be_bytes l)) = true /\ be_bytes 8 (as_i64 (of_be_bytes l)) = l.
Proof.
  intros Hn Hb. split; [apply is_i64_as_i64|]. rewrite be_bytes_as_i64, <- Hn.
  by apply be_bytes_of_be_bytes.
Qed.

Lemma be_slice_i64 l i j :
  is_bytes l = true -> (i <= j)%nat -> (j <= length l)%nat -> 8%nat = (j - i)%nat ->
  be_bytes 8 (as_i64 (of_be_bytes (slice l i j))) = slice l i j.
Proof. intros. rewrite be_bytes_as_i64. by apply be_slice. Qed.

Lemma of_be_slice_bound n l i j :
  is_bytes l = true -> (i <= j)%nat -> (j <= length l)%nat -> n = (j - i)%nat ->
  0 <= of_be_bytes (slice l i j) < 256 ^ Z.of_nat n.
Proof.
  intros Hl Hij Hj ->. rewrite <- (length_slice l i j) by done.
  by apply of_be_bytes_bound, is_bytes_slice.
Qed.

Lemma is_u16_slice l i j :
  is_bytes l = true -> (i <= j)%nat -> (j <= length l)%nat -> 2%nat = (j - i)%nat ->
  is_u16 (of_be_bytes (slice l i j)) = true.
Proof.
  intros Hl Hij Hj Hn. apply within_spec. unfold u16_max.
  pose proof (of_be_slice_bound _ _ _ _ Hl Hij Hj Hn) as Hb.
  change (256 ^ Z.of_nat 2) with (2 ^ 16) in Hb. lia.
Qed.

Lemma is_u32_slice l i j :
  is_bytes l = true -> (i <= j)%nat -> (j <= length l)%nat -> 4%nat = (j - i)%nat ->
  is_u32 (of_be_bytes (slice l i j)) = true.
Proof.
  intros Hl Hij Hj Hn. apply within_spec. unfold u32_max.
  pose proof (of_be_slice_bound _ _ _ _ Hl Hij Hj Hn) as Hb.
  change (256 ^ Z.of_nat 4) with (2 ^ 32) in Hb. lia.
Qed.

Lemma is_u64_slice l i j :
  is_bytes l = true -> (i <= j)%nat -> (j <= length l)%nat -> 8%nat = (j - i)%nat ->
  is_u64 (of_be_bytes (slice l i j)) = true.
Proof.
  intros Hl Hij Hj Hn. apply within_spec. unfold u64_max.
  pose proof (of_be_slice_bound _ _ _ _ Hl Hij Hj Hn) as Hb.
  change (256 ^ Z.of_nat 8) with (2 ^ 64) in Hb. lia.
Qed.

(** ** Fallible reads *)

(** [<[u8; n]>::try_from(bytes)], with the error the source maps it to. *)
Definition try_array {E : Type} (n : nat) (l : bytes) (e : E) : result E bytes :=
  if (length l =? n)%nat then Ok l else Err e.

Lemma try_array_Ok {E : Type} n l (e : E) a :
  try_array n l e = Ok a <-> length l = n /\ a = l.
Proof. unfold try_array. destruct (Nat.eqb_spec (length l) n); naive_solver. Qed.

Lemma try_array_slice {E : Type} n l (e : E) i j :
  (i <= j)%nat -> (j <= length l)%nat -> n = (j - i)%nat ->
  try_array n (slice l i j) e = Ok (slice l i j).
Proof. intros. apply try_array_Ok. by rewrite length_slice. Qed.

Lemma try_array_len {E : Type} n l (e : E) `{!Len l n} : try_array n l e = Ok l.
Proof. by apply try_array_Ok. Qed.

Lemma array_zero_eq n l : array n l = true -> all_zero l = true <-> l = repeat 0 n.
Proof.
  intros [Hl _]%array_spec. unfold all_zero. split.
  - revert n Hl. induction l as [|b l IH]; intros [|n] Hl; simpl in *; try lia; [done|].
    intros [Hb Hz]%andb_true_iff. f_equal; [b2p; lia|apply IH; [lia|done]].
  - intros ->. clear. induction n; simpl; auto.
Qed.

Lemma fmap_Ok {E A B : Type} (f : A -> B) (m : result E A) b :
  f <$> m = Ok b <-> exists a, m = Ok a /\ f a = b.
Proof. destruct m; naive_solver. Qed.

#[global] Arguments slice : simpl never.
#[global] Arguments at_ : simpl never.
#[global] Arguments as_i64 : simpl never.
#[global] Arguments of_be_bytes : simpl never.
#[global] Arguments all_zero : simpl never.
#[global] Arguments sha256 : simpl never.
#[global] Arguments is_utf8 : simpl never.
#[global] Arguments as_bytes : simpl never.
#[global] Arguments array : simpl never.
#[global] Arguments Nat.eqb !n !m : simpl nomatch.
#[global] Arguments Nat.leb !n !m : simpl nomatch.
#[global] Arguments Nat.ltb !n !m : simpl nomatch.
#[global] Arguments is_i64 : simpl never.
#[global] Arguments is_u64 : simpl never.
#[global] Arguments is_u32 : simpl never.
#[global] Arguments is_u16 : simpl never.
#[global] Arguments is_byte : simpl never.

(** Take a successful decoding apart, guard by guard. *)
Ltac decode_inv H :=
  repeat match type of H with
  | _ ≫= _ = Ok _ => let x := fresh "x" in let Hx := fresh "Hx" in
      apply bind_Ok in H as (x & Hx & H); decode_inv Hx
  | _ <$> _ = Ok _ => let x := fresh "x" in let Hx := fresh "Hx" in
      apply fmap_Ok in H as (x & Hx & H); decode_inv Hx
  | (if ?b then Err _ else _) = Ok _ =>
      let Hb := fresh "Hb" in destruct b eqn:Hb; [discriminate H|]
  | (if ?b then _ else Err _) = Ok _ =>
      let Hb := fresh "Hb" in destruct b eqn:Hb; [|discriminate H]
  | (if ?b then _ else _) = Ok _ => is_var b; destruct b
  | (if ?b then _ else _) = Ok _ => let Hb := fresh "Hb" in destruct b eqn:Hb
  | try_array _ _ _ = Ok _ => apply try_array_Ok in H as [H ?]; subst
  | Err _ = Ok _ => discriminate H
  | Ok ?a = Ok ?b => is_var b; apply Ok_inj in H; subst b
  | Ok ?a = Ok ?b => is_var a; apply Ok_inj in H; subst a
  | _ = ?b => is_var b; subst b
  | let x := _ in _ => cbv zeta in H
  end.

(** ** Reassembling a wire from what was read *)

#[export] Hint Extern 4 (Len (slice _ _ _) _) =>
  refine (length_slice _ _ _ _ _); lia : typeclass_instances.

Lemma assemble_step l a r i j n `{!Len a n} :
  (i + n <= j)%nat -> a = slice l i (i + n) -> r = slice l (i + n) j ->
  a ++ r = slice l i j.
Proof. intros Hj -> ->. apply slice_join; lia. Qed.

Lemma assemble_byte l i x :
  (i < length l)%nat -> at_ l i = x -> [x] = slice l i (S i).
Proof. intros Hi <-. by rewrite slice_one. Qed.

Lemma assemble_cons l x r i j :
  (i < length l)%nat -> (i < j)%nat -> at_ l i = x -> r = slice l (S i) j ->
  x :: r = slice l i j.
Proof.
  intros Hi Hj <- ->. rewrite <- (slice_join l i (S i) j) by lia. by rewrite slice_one.
Qed.

(** A goal [field = slice wire i j]. *)
Ltac field_leaf :=
  cbn [Nat.add];
  lazymatch goal with
  | |- be_bytes _ (as_i64 _) = _ => apply be_slice_i64; [done|lia..]
  | |- be_bytes _ (of_be_bytes _) = _ => apply be_slice; [done|lia..]
  | |- [_] = slice _ _ _ => apply assemble_byte; [lia|first [done|congruence|lia]]
  | |- slice _ _ _ = slice _ _ _ => reflexivity
  | |- [] = slice _ _ _ => symmetry; apply slice_none
  | H : of_be_bytes (slice ?l ?i ?j) = ?c |- be_bytes _ ?c = slice ?l ?i ?j =>
    rewrite <- H; apply be_slice; [done|lia..]
  | |- _ => first [ assumption | congruence ]
  end.

(** A goal [fields = wire], where the length of [wire] is the numeral [n]. *)
Ltac assemble wire n :=
  repeat (rewrite <- app_assoc || rewrite <- app_comm_cons); rewrite ?app_nil_l, ?app_nil_r;
  etrans; [|apply (slice_all wire n); lia];
  repeat first
    [ apply assemble_cons; [lia|lia|first [done|congruence|lia]|]
    | refine (assemble_step _ _ _ _ _ _ _ _ _); [cbn; lia|field_leaf|cbn [Nat.add]] ];
  try field_leaf.

(** Goals on the ranges of what was read. *)
Ltac typed_fields :=
  repeat match goal with |- _ && _ = true => apply andb_true_iff; split end;
  first
    [ done
    | apply is_i64_as_i64
    | apply is_u64_slice; [done|lia..]
    | apply is_u32_slice; [done|lia..]
    | apply is_u16_slice; [done|lia..]
    | apply array_slice; [done|lia..]
    | apply at_byte; done ].

(** [bytes.get(from..to)]. *)
Definition get (l : bytes) (from to : nat) : option bytes :=
  if (from <=? to)%nat && (to <=? length l)%nat then Some (slice l from to) else None.

Lemma get_Some l i j a :
  get l i j = Some a <-> (i <= j)%nat /\ (j <= length l)%nat /\ a = slice l i j.
Proof.
  unfold get. destruct (Nat.leb_spec i j), (Nat.leb_spec j (length l)); simpl;
    split; intros; naive_solver lia.
Qed.

Lemma get_in l i j : (i <= j)%nat -> (j <= length l)%nat -> get l i j = Some (slice l i j).
Proof. intros. by apply get_Some. Qed.

#[global] Arguments get : simpl never.

(** ** Reading back what was written *)

Ltac field_values :=
  repeat match goal with
  | H : is_i64 ?z = true |- context [as_i64 (of_be_bytes (be_bytes 8 ?z))] =>
    rewrite (of_be_i64 z H)
  | H : is_u64 ?z = true |- context [of_be_bytes (be_bytes 8 ?z)] => rewrite (of_be_u64 z H)
  | H : is_u32 ?z = true |- context [of_be_bytes (be_bytes 4 ?z)] => rewrite (of_be_u32 z H)
  | H : is_u16 ?z = true |- context [of_be_bytes (be_bytes 2 ?z)] => rewrite (of_be_u16 z H)
  end.

(** Read [wire] in the goal, where [Hw] equates it to its fields. *)
Ltac read_wire_step wire Hw :=
  match goal with
  | |- context [length wire] =>
    let H := fresh in
    assert (Len wire _) as H by (rewrite Hw; typeclasses eauto);
    unfold Len in H; cbn in H; rewrite H; clear H
  | |- context [at_ wire ?i] =>
    let H := fresh in
    eassert (at_ wire i = _) as H by (rewrite Hw; slices; reflexivity);
    rewrite H; clear H
  | |- context [get wire ?i ?j] =>
    rewrite (get_in wire i j)
      by (try lia; let H := fresh in assert (Len wire _) as H by (rewrite Hw; typeclasses eauto);
          unfold Len in H; cbn in H; lia)
  | |- context [slice wire ?i ?j] =>
    let H := fresh in
    eassert (slice wire i j = _) as H by
      (rewrite Hw; repeat (rewrite <- app_assoc || rewrite <- app_comm_cons); slices;
       rewrite ?app_nil_r; reflexivity);
    rewrite H; clear H
  end.

Lemma Ok_bind {E A B : Type} (a : A) (f : A -> result E B) : Ok a ≫= f = f a.
Proof. done. Qed.

Lemma Ok_fmap {E A B : Type} (a : A) (f : A -> B) : f <$> @Ok E A a = Ok (f a).
Proof. done. Qed.

(** [wire_read]: what a decoder of one field gives on the encoding of its value.
    [wire_codes]: which codes a decoder of one field accepts. *)
Create Rewrite HintDb wire_read.
Create Rewrite HintDb wire_codes.

Lemma ok_or_Some {E A : Type} (a : A) (e : E) : ok_or (Some a) e = Ok a.
Proof. done. Qed.
#[export] Hint Rewrite @ok_or_Some : wire_read.

Ltac read_wire wire Hw :=
  repeat first
    [ progress autorewrite with wire_read
    | progress field_values
    | rewrite Ok_bind; cbv beta
    | rewrite Ok_fmap
    | progress cbn -[mbind result_bind fmap result_fmap]
    | read_wire_step wire Hw
    | rewrite try_array_len by typeclasses eauto ].

(** The guards of an encoder and the wire it returned. *)
Ltac encode_inv H :=
  repeat match type of H with
  | _ ≫= _ = Ok _ => let x := fresh "x" in let Hx := fresh "Hx" in
      apply bind_Ok in H as (x & Hx & H)
  | (if ?b then Err _ else _) = Ok _ =>
      let Hb := fresh "Hb" in destruct b eqn:Hb; [discriminate H|]
  | Err _ = Ok _ => discriminate H
  | Ok _ = Ok _ => apply Ok_inj in H; symmetry in H
  end.

Lemma is_bytes_cons x l : is_bytes (x :: l) = is_byte x && is_bytes l.
Proof. done. Qed.

Lemma is_bytes_array n l : array n l = true -> is_bytes l = true.
Proof. intros H%array_spec. apply H. Qed.

Create Rewrite HintDb wire_bytes.
#[export] Hint Rewrite is_bytes_app is_bytes_cons is_bytes_be_bytes : wire_bytes.

Ltac bytes_fields :=
  autorewrite with wire_bytes;
  repeat match goal with |- _ && _ = true => apply andb_true_iff; split end;
  first [ done | eapply is_bytes_array; eassumption | apply hmac_bytes | apply is_bytes_sha256
        | match goal with |- is_byte (_ ?x) = true => destruct x; reflexivity end ].

(** [from_code (code x) = Ok x], and nothing else is accepted: by cases on the
    enumeration and on the codes it tests for. *)
Ltac enum_codes :=
  match goal with |- ?f ?c = Ok ?m <-> ?c = ?g ?m =>
    split;
    [ unfold f; repeat case_match; intros [= <-]; b2p; subst; done
    | intros ->; destruct m; reflexivity ]
  end.
