(* ===== verification/Canon.v ===== *)
(** * Semantic canonicalization and the MAC boundary
    ([crates/msgriver-core/src/canon.rs])

    [canonical_request_v1] is the encoder the idempotency fingerprint is taken
    over. [meaning] is what it reads in a request, and [same_request] when two
    requests are the same to it. The key-isolating provider is the
    interface [MacProvider]; no implementation of it is part of the source. *)

From S2P Require Import Prelude Bytes CoreError Ring Sha256.

#[local] Open Scope Z_scope.

Record CanonicalInput : Type := mkCanonicalInput {
  provider : bytes;
  destination_kind : bytes;
  destination_schema_version : Z;
  destination_fields : list bytes;
  content_kind : bytes;
  content_schema_version : Z;
  content_fields : list bytes;
  options_kind : option bytes;
  options_schema_version : option Z;
  options_fields : list bytes;
  options_set_like : bool;
  expires_at_millis : option Z;
  correlation_id : option bytes
}.

(** ** Literals *)

Definition lit_request : bytes := as_bytes "msgriver-request" ++ [0].
Definition lit_ntfy : bytes := as_bytes "ntfy".
Definition lit_ntfy_topic : bytes := as_bytes "ntfy_topic".
Definition lit_text : bytes := as_bytes "text".
Definition lit_default : bytes := as_bytes "default".
Definition lit_topic_schema : bytes := as_bytes "msgriver://schema/ntfy-topic/1".
Definition lit_text_schema : bytes := as_bytes "msgriver://schema/text/1".
Definition lit_options_schema : bytes := as_bytes "msgriver://schema/ntfy-options/1".

(** ** Encoding helpers ([lp32] is in [Bytes]) *)

Definition u32_be (value : Z) : bytes := be_bytes 4 value.

Definition segment (role : Z) (schema_id kind : bytes) (schema_version : Z)
    (payload : bytes) : bytes :=
  [role] ++ lp32 schema_id ++ lp32 kind ++ u32_be schema_version ++ lp32 payload.

Definition valid_ascii (value : bytes) : bool :=
  match value with [] => false | _ => forallb is_ascii value end.

Definition count (l : list bytes) : Z := wrap 32 (Z.of_nat (length l)).

(** ** The legacy profile *)

(** The [match] on the option tuple: [None] is the early return, [Some tags] the
    tags to encode. *)
Definition legacy_tags (input : CanonicalInput) : option (option (list bytes)) :=
  match options_kind input, options_schema_version input, options_set_like input with
  | None, None, false =>
    if bool_decide (options_fields input = []) then Some None else None
  | Some kind, Some version, true =>
    if bool_decide (kind = lit_ntfy) && (version =? 1)
       && negb (bool_decide (options_fields input = []))
       && forallb valid_ascii (options_fields input)
    then Some (Some (dedup (sort_bytes (options_fields input)))) else None
  | _, _, _ => None
  end.

Definition legacy_shape (input : CanonicalInput) : bool :=
  negb (bool_decide (is_Some (expires_at_millis input))
        || bool_decide (is_Some (correlation_id input))
        || negb (bool_decide (provider input = lit_ntfy))
        || negb (bool_decide (destination_kind input = lit_ntfy_topic))
        || negb (destination_schema_version input =? 1)
        || negb (bool_decide (content_kind input = lit_text))
        || negb (content_schema_version input =? 1)
        || negb (length (destination_fields input) =? 1)%nat
        || negb (length (content_fields input) =? 2)%nat
        || negb (forallb valid_ascii (destination_fields input))
        || negb (forallb valid_ascii (content_fields input))).

Definition legacy_canonical_request_v1 (input : CanonicalInput) : option bytes :=
  if negb (legacy_shape input) then None
  else
    tags ← legacy_tags input;
    Some (lit_request ++ [1] ++ lp32 (provider input) ++ lp32 (destination_kind input)
      ++ u32_be 4 ++ u32_be (destination_schema_version input) ++ u32_be 1
      ++ lp32 (nth 0 (destination_fields input) [])
      ++ lp32 (content_kind input) ++ u32_be 4 ++ u32_be (content_schema_version input)
      ++ u32_be 2 ++ concat (map lp32 (content_fields input))
      ++ match tags with
         | None => [0]
         | Some tags =>
           [1] ++ lp32 lit_ntfy ++ u32_be 4 ++ u32_be 1 ++ u32_be (count tags)
           ++ concat (map lp32 tags)
         end
      ++ [0; 0]).

(** ** The first-slice profile *)

Definition normalized_transition_tags (input : CanonicalInput) : bool :=
  if negb (bool_decide (options_kind input = Some lit_ntfy))
     || negb (bool_decide (options_schema_version input = Some 1))
     || negb (options_set_like input)
     || negb (bool_decide (head (options_fields input) = Some lit_default))
  then false
  else bool_decide (dedup (sort_bytes (tail (options_fields input)))
                    = [as_bytes "apple"; as_bytes "mango"; as_bytes "zebra"]).

Definition admitted_first_slice_profile (input : CanonicalInput) : bool :=
  let rich_s11 :=
    bool_decide (is_Some (expires_at_millis input))
    && bool_decide (is_Some (correlation_id input))
    && bool_decide (options_kind input = Some lit_ntfy)
    && bool_decide (options_schema_version input = Some 1)
    && options_set_like input in
  let transition_options :=
    (bool_decide (options_kind input = None)
     && bool_decide (options_schema_version input = None)
     && negb (options_set_like input)
     && bool_decide (options_fields input = []))
    || normalized_transition_tags input in
  let transition :=
    bool_decide (destination_fields input = [as_bytes "alerts"])
    && bool_decide (content_fields input = [as_bytes "hello"])
    && bool_decide (expires_at_millis input = None)
    && bool_decide (correlation_id input = None)
    && transition_options in
  rich_s11 || transition.

Definition destination_payload (input : CanonicalInput) : option bytes :=
  match destination_fields input with
  | [field] =>
    if bool_decide (provider input = lit_ntfy)
       && bool_decide (destination_kind input = lit_ntfy_topic)
       && (destination_schema_version input =? 1) && valid_ascii field
    then Some (lp32 field) else None
  | _ => None
  end.

Definition content_parts (input : CanonicalInput) : option (option bytes * bytes) :=
  match content_fields input with
  | [text] => Some (None, text)
  | [title; text] => Some (Some title, text)
  | _ => None
  end.

Definition content_payload (input : CanonicalInput) : option bytes :=
  if negb (bool_decide (content_kind input = lit_text))
     || negb (content_schema_version input =? 1) then None
  else
    '(title, text) ← content_parts input;
    if bool_decide (text = []) || negb (is_utf8 text)
       || match title with Some value => negb (is_utf8 value) | None => false end
    then None
    else Some ((match title with
                | Some value => [1] ++ lp32 value
                | None => [0]
                end) ++ lp32 text).

(** The priority and the raw tags of the option fields. *)
Definition option_parts (input : CanonicalInput) : option (bytes * list bytes) :=
  match options_kind input, options_schema_version input, options_set_like input with
  | None, None, false =>
    if bool_decide (options_fields input = []) then Some (lit_default, []) else None
  | Some kind, Some version, true =>
    if bool_decide (kind = lit_ntfy) && (version =? 1) then
      match options_fields input with
      | priority :: tags => Some (priority, tags)
      | [] => None
      end
    else None
  | _, _, _ => None
  end.

Definition options_payload (input : CanonicalInput) : option bytes :=
  '(priority, tags) ← option_parts input;
  if negb (valid_ascii priority) || existsb (fun tag => negb (valid_ascii tag)) tags
  then None
  else
    let tags := dedup (sort_bytes tags) in
    Some (lp32 priority ++ u32_be (count tags) ++ concat (map lp32 tags)).

Definition canonical_request_v1 (input : CanonicalInput) : core_result bytes :=
  match legacy_canonical_request_v1 input with
  | Some encoded => Ok encoded
  | None =>
    if negb (admitted_first_slice_profile input) then scaffold CanonicalEncode
    else
      destination ← ok_or (destination_payload input) (ScaffoldGap CanonicalEncode);
      content ← ok_or (content_payload input) (ScaffoldGap CanonicalEncode);
      options ← ok_or (options_payload input) (ScaffoldGap CanonicalEncode);
      let encoded :=
        lit_request ++ u32_be 1 ++ lp32 lit_ntfy
        ++ segment 1 lit_topic_schema lit_ntfy_topic 1 destination
        ++ segment 2 lit_text_schema lit_text 1 content
        ++ [1] ++ segment 3 lit_options_schema lit_ntfy 1 options
        ++ match expires_at_millis input with
           | Some value => [1] ++ be_bytes 8 value
           | None => [0]
           end in
      match correlation_id input with
      | Some value =>
        if valid_ascii value then Ok (encoded ++ [1] ++ lp32 value)
        else scaffold CanonicalEncode
      | None => Ok (encoded ++ [0])
      end
  end.

(** ** The MAC boundary *)

Definition FINGERPRINT_DOMAIN : bytes := as_bytes "msgriver-idempotency-fingerprint-v1" ++ [0].
Definition LOOKUP_DOMAIN : bytes := as_bytes "msgriver-idempotency-lookup-v1" ++ [0].

Definition semantic_fingerprint_v1 (canonical mac_key : bytes) (key_version : Z)
    : core_result (Z * bytes) :=
  Ok (key_version, hmac_sha256 mac_key [FINGERPRINT_DOMAIN; canonical]).

Definition lookup_digest_v1 (principal key mac_key : bytes) (key_version : Z)
    : core_result (Z * bytes) :=
  Ok (key_version, hmac_sha256 mac_key [LOOKUP_DOMAIN; principal; [0]; key]).

Record VersionedTag : Type := mkVersionedTag {
  tag_key : MacKeyRef;
  tag_bytes : bytes
}.

Inductive MacProviderError : Type :=
| PurposeMismatch | InputTooLong | ReturnedMismatchedKey | Unavailable.

(** [trait MacProvider]. *)
Class MacProvider (P : Type) : Type :=
  authenticate : P -> MacKeyRef -> bytes -> result MacProviderError VersionedTag.

(** The framing loop over [parts]. *)
Fixpoint frame_parts (input : bytes) (parts : list bytes) : result MacProviderError bytes :=
  match parts with
  | [] => Ok input
  | part :: rest =>
    length ← ok_or (checked is_u32 (len part)) InputTooLong;
    frame_parts (input ++ be_bytes 4 length ++ part) rest
  end.

Section provider.
Context `{MacProvider P} (p : P).

Definition authenticate_idempotency (key : MacKeyRef) (expected_purpose : MacPurpose)
    (domain : bytes) (parts : list bytes) : result MacProviderError VersionedTag :=
  if negb (bool_decide (purpose key = expected_purpose)) then Err PurposeMismatch
  else
    input ← frame_parts (domain ++ key_id key) parts;
    result ← authenticate p key input;
    if negb (bool_decide (tag_key result = key)) then Err ReturnedMismatchedKey
    else Ok result.

Definition semantic_fingerprint_v1_with_provider (key : MacKeyRef) (canonical : bytes)
    : result MacProviderError VersionedTag :=
  authenticate_idempotency key IdempotencyFingerprintV1 FINGERPRINT_DOMAIN [canonical].

Definition lookup_digest_v1_with_provider (key : MacKeyRef)
    (principal idempotency_key : bytes) : result MacProviderError VersionedTag :=
  authenticate_idempotency key IdempotencyLookupV1 LOOKUP_DOMAIN
    [principal; idempotency_key].
End provider.

(** ** Specification: the meaning of a request *)

Inductive Meaning : Type :=
| LegacyMeaning (topic title text : bytes) (tags : option (gset bytes))
| FullMeaning (topic : bytes) (title : option bytes) (text priority : bytes)
    (tags : gset bytes) (expires : option Z) (correlation : option bytes).

Definition full_meaning (i : CanonicalInput) : option Meaning :=
  if admitted_first_slice_profile i
     && bool_decide (is_Some (destination_payload i))
     && bool_decide (is_Some (content_payload i))
     && bool_decide (is_Some (options_payload i))
     && match correlation_id i with Some value => valid_ascii value | None => true end
  then
    topic ← head (destination_fields i);
    '(title, text) ← content_parts i;
    '(priority, tags) ← option_parts i;
    Some (FullMeaning topic title text priority (list_to_set tags)
            (expires_at_millis i) (correlation_id i))
  else None.

Definition meaning (i : CanonicalInput) : option Meaning :=
  match legacy_tags i, destination_fields i, content_fields i with
  | Some tags, [topic], [title; text] =>
    if legacy_shape i
    then Some (LegacyMeaning topic title text (list_to_set <$> tags))
    else full_meaning i
  | _, _, _ => full_meaning i
  end.

Definition tag_list (s : gset bytes) : list bytes := dedup (sort_bytes (elements s)).

Definition encode_tags (s : gset bytes) : bytes :=
  u32_be (count (tag_list s)) ++ concat (map lp32 (tag_list s)).

Definition encode_option (o : option bytes) : bytes :=
  match o with Some value => [1] ++ lp32 value | None => [0] end.

Definition encode_meaning (m : Meaning) : bytes :=
  match m with
  | LegacyMeaning topic title text tags =>
    lit_request ++ [1] ++ lp32 lit_ntfy ++ lp32 lit_ntfy_topic ++ u32_be 4 ++ u32_be 1
    ++ u32_be 1 ++ lp32 topic ++ lp32 lit_text ++ u32_be 4 ++ u32_be 1 ++ u32_be 2
    ++ lp32 title ++ lp32 text
    ++ match tags with
       | None => [0]
       | Some tags => [1] ++ lp32 lit_ntfy ++ u32_be 4 ++ u32_be 1 ++ encode_tags tags
       end ++ [0; 0]
  | FullMeaning topic title text priority tags expires correlation =>
    lit_request ++ u32_be 1 ++ lp32 lit_ntfy
    ++ segment 1 lit_topic_schema lit_ntfy_topic 1 (lp32 topic)
    ++ segment 2 lit_text_schema lit_text 1 (encode_option title ++ lp32 text)
    ++ [1] ++ segment 3 lit_options_schema lit_ntfy 1 (lp32 priority ++ encode_tags tags)
    ++ match expires with Some value => [1] ++ be_bytes 8 value | None => [0] end
    ++ encode_option correlation
  end.

(** ** The encoder is the reference encoding of the meaning *)

Lemma tag_list_of_list l : tag_list (list_to_set l) = dedup (sort_bytes l).
Proof. apply dedup_sort_set. intros x. by rewrite elem_of_elements, elem_of_list_to_set. Qed.

Lemma dedup_sort_idemp l :
  dedup (sort_bytes (dedup (sort_bytes l))) = dedup (sort_bytes l).
Proof. apply dedup_sort_set. intros x. by rewrite elem_of_dedup, sort_bytes_perm. Qed.

Lemma legacy_tags_Some i tags :
  legacy_tags i = Some (Some tags) -> tags = dedup (sort_bytes (options_fields i)).
Proof. unfold legacy_tags. repeat (case_match; try done). naive_solver. Qed.

Lemma destination_payload_Some i p :
  destination_payload i = Some p ->
  exists topic, destination_fields i = [topic] /\ p = lp32 topic.
Proof.
  unfold destination_payload. destruct (destination_fields i) as [|topic [|]]; [done| |done].
  case_match; [|done]. intros [= <-]. eauto.
Qed.

Lemma content_payload_Some i p :
  content_payload i = Some p ->
  exists title text, content_parts i = Some (title, text)
    /\ p = encode_option title ++ lp32 text.
Proof.
  unfold content_payload. case_match; [done|].
  destruct (content_parts i) as [[title text]|]; [|done]. cbn.
  case_match; [done|]. intros [= <-]. eauto.
Qed.

Lemma options_payload_Some i p :
  options_payload i = Some p ->
  exists priority tags, option_parts i = Some (priority, tags)
    /\ p = lp32 priority ++ encode_tags (list_to_set tags).
Proof.
  unfold options_payload, encode_tags.
  destruct (option_parts i) as [[priority tags]|]; [|done]. cbn.
  case_match; [done|]. intros [= <-]. exists priority, tags. by rewrite tag_list_of_list.
Qed.

Lemma full_meaning_exact i :
  legacy_canonical_request_v1 i = None ->
  canonical_request_v1 i = ok_or (encode_meaning <$> full_meaning i) (ScaffoldGap CanonicalEncode).
Proof.
  unfold canonical_request_v1, full_meaning, scaffold. intros ->.
  destruct (admitted_first_slice_profile i); [|done]. cbn [negb andb].
  destruct (destination_payload i) as [p1|] eqn:E1; [|done].
  apply destination_payload_Some in E1 as (topic & -> & ->).
  destruct (content_payload i) as [p2|] eqn:E2; [|done].
  apply content_payload_Some in E2 as (title & text & -> & ->).
  destruct (options_payload i) as [p3|] eqn:E3; [|done].
  apply options_payload_Some in E3 as (priority & tags & -> & ->).
  cbn [ok_or mbind result_bind option_bind head].
  rewrite !bool_decide_true by eauto. cbn [andb].
  destruct (correlation_id i) as [v|]; [destruct (valid_ascii v)|];
    cbn [ok_or fmap option_fmap option_map encode_meaning encode_option];
    rewrite <- ?app_assoc; reflexivity.
Qed.

Lemma legacy_shape_lists i :
  legacy_shape i = true ->
  provider i = lit_ntfy /\ destination_kind i = lit_ntfy_topic
  /\ destination_schema_version i = 1 /\ content_kind i = lit_text
  /\ content_schema_version i = 1
  /\ exists topic title text, destination_fields i = [topic]
       /\ content_fields i = [title; text].
Proof.
  unfold legacy_shape. rewrite negb_true_iff, !orb_false_iff, !negb_false_iff.
  rewrite !bool_decide_eq_true, !Z.eqb_eq, !Nat.eqb_eq. intros Hs.
  destruct (destination_fields i) as [|t [|]], (content_fields i) as [|a [|b [|]]];
    destruct_and!; simpl in *; try lia. naive_solver.
Qed.

Lemma legacy_canonical_exact i e :
  legacy_canonical_request_v1 i = Some e ->
  exists m, meaning i = Some m /\ e = encode_meaning m.
Proof.
  unfold legacy_canonical_request_v1, meaning.
  destruct (legacy_shape i) eqn:Hs; [|done]. cbn [negb].
  apply legacy_shape_lists in Hs
    as (-> & -> & -> & -> & -> & topic & title & text & -> & ->).
  destruct (legacy_tags i) as [tags|] eqn:Ht; [|done].
  cbn [mbind option_bind nth map concat]. intros [= <-]. eexists. split; [done|].
  assert (forall l, tags = Some l -> tag_list (list_to_set l) = l) as Hl.
  { intros l ->. rewrite tag_list_of_list. apply legacy_tags_Some in Ht as ->.
    apply dedup_sort_idemp. }
  cbn [encode_meaning]. rewrite app_nil_r, <- !app_assoc.
  destruct tags as [tags|]; cbn [fmap option_fmap option_map]; [|done].
  unfold encode_tags. rewrite (Hl tags) by done. rewrite <- ?app_assoc. done.
Qed.

Lemma legacy_canonical_None i :
  legacy_canonical_request_v1 i = None -> meaning i = full_meaning i.
Proof.
  unfold legacy_canonical_request_v1, meaning.
  destruct (legacy_tags i) as [tags|]; [|done].
  destruct (legacy_shape i); cbn; [done|]. intros _. by repeat case_match.
Qed.

Lemma canonical_request_meaning i :
  canonical_request_v1 i = ok_or (encode_meaning <$> meaning i) (ScaffoldGap CanonicalEncode).
Proof.
  destruct (legacy_canonical_request_v1 i) as [e|] eqn:E.
  - unfold canonical_request_v1. rewrite E.
    apply legacy_canonical_exact in E as (m & -> & ->). done.
  - rewrite full_meaning_exact, legacy_canonical_None by done. done.
Qed.

(** ** The reference encoding is injective *)

(** Every field, and the number of option fields, fits its 32-bit prefix. *)
Definition well_sized (i : CanonicalInput) : bool :=
  forallb framed (destination_fields i) && forallb framed (content_fields i)
  && forallb framed (options_fields i)
  && (Z.of_nat (length (options_fields i)) <=? u32_max)
  && match correlation_id i with Some value => framed value | None => true end
  && match expires_at_millis i with Some value => is_i64 value | None => true end.

Definition sized_tags (s : gset bytes) : Prop :=
  Forall (fun t => framed t = true) (tag_list s)
  /\ Z.of_nat (length (tag_list s)) <= u32_max.

Definition sized_option (o : option bytes) : Prop :=
  match o with Some value => framed value = true | None => True end.

Definition sized (m : Meaning) : Prop :=
  match m with
  | LegacyMeaning topic title text tags =>
    framed topic = true /\ framed title = true /\ framed text = true
    /\ match tags with Some s => sized_tags s | None => True end
  | FullMeaning topic title text priority tags expires correlation =>
    framed topic = true /\ sized_option title /\ framed text = true
    /\ framed priority = true /\ sized_tags tags
    /\ match expires with Some value => is_i64 value = true | None => True end
    /\ sized_option correlation
  end.

Lemma length_dedup l : (length (dedup l) <= length l)%nat.
Proof.
  induction l as [|x l IH]; simpl; [done|].
  destruct (dedup l); simpl in *; [lia|]. case_bool_decide; simpl; lia.
Qed.

Lemma sized_tags_of_list l :
  Forall (fun t => framed t = true) l -> Z.of_nat (length l) <= u32_max ->
  sized_tags (list_to_set l).
Proof.
  intros Hf Hl. unfold sized_tags. rewrite tag_list_of_list. split.
  - rewrite Forall_forall in Hf |- *. intros t Ht.
    apply Hf. by rewrite elem_of_dedup, sort_bytes_perm in Ht.
  - pose proof (length_dedup (sort_bytes l)).
    pose proof (Permutation_length (sort_bytes_perm l)). lia.
Qed.

Lemma concat_lp32_app_inj l k x y :
  Forall (fun t => framed t = true) l -> Forall (fun t => framed t = true) k ->
  length l = length k ->
  concat (map lp32 l) ++ x = concat (map lp32 k) ++ y -> l = k /\ x = y.
Proof.
  intros Hl. revert k. induction Hl as [|a l Ha Hl IH]; intros [|b k] Hk Hlen H;
    try discriminate; [done|].
  apply Forall_cons in Hk as [Hb Hk]. cbn in H. rewrite <- !app_assoc in H.
  apply lp32_app_inj in H as [-> H]; [|done..].
  apply IH in H as [-> ->]; [done|done|by injection Hlen].
Qed.

Lemma encode_tags_app_inj s t x y :
  sized_tags s -> sized_tags t -> encode_tags s ++ x = encode_tags t ++ y ->
  s = t /\ x = y.
Proof.
  unfold encode_tags, u32_be, count, wrap. intros [Hs Hsl] [Ht Htl] H.
  rewrite <- !app_assoc in H. apply app_be_bytes_inj in H as [Hc H].
  rewrite !Z.mod_small in Hc by (unfold u32_max in *; lia).
  apply be4_inj in Hc; [|lia..].
  apply concat_lp32_app_inj in H as [H ->]; [|done|done|lia].
  split; [|done]. apply set_eq. intros z. rewrite <- !elem_of_elements.
  by apply dedup_sort_set.
Qed.

Lemma encode_option_app_inj a b x y :
  sized_option a -> sized_option b -> encode_option a ++ x = encode_option b ++ y ->
  a = b /\ x = y.
Proof.
  destruct a, b; intros Ha Hb H; try discriminate; [|naive_solver].
  cbn [encode_option] in H. rewrite <- !app_assoc in H. apply app_inv_head in H.
  apply lp32_app_inj in H as [-> ->]; done.
Qed.

(** The payload of a segment is told apart by its own framing, not by its length. *)
Lemma segment_app_inj role schema_id kind v (p q : bytes) x y :
  segment role schema_id kind v p ++ x = segment role schema_id kind v q ++ y ->
  p ++ x = q ++ y.
Proof.
  unfold segment. rewrite <- !app_assoc. intros H. do 4 apply app_inv_head in H.
  unfold lp32 in H. rewrite <- !app_assoc in H. by apply app_be_bytes_inj in H as [_ H].
Qed.

Lemma encode_expires_inj (a b : option Z) (x y : bytes) :
  match a with Some v => is_i64 v = true | None => True end ->
  match b with Some v => is_i64 v = true | None => True end ->
  match a with Some v => [1] ++ be_bytes 8 v | None => [0] end ++ x
  = match b with Some v => [1] ++ be_bytes 8 v | None => [0] end ++ y -> a = b /\ x = y.
Proof.
  destruct a, b; intros Ha Hb H; try discriminate; [|naive_solver].
  rewrite <- !app_assoc in H. apply app_inv_head in H. apply app_be_bytes_inj in H as [H ->].
  by apply be_bytes_i64_inj in H as ->.
Qed.

Lemma encode_meaning_inj m n :
  sized m -> sized n -> encode_meaning m = encode_meaning n -> m = n.
Proof.
  destruct m as [topic title text tags|topic title text priority tags expires correlation],
    n as [topic' title' text' tags'|topic' title' text' priority' tags' expires' correlation'];
    cbn [sized encode_meaning]; intros Hm Hn H; apply app_inv_head in H; try discriminate.
  - destruct_and!. do 6 apply app_inv_head in H.
    apply lp32_app_inj in H as [-> H]; [|done..]. do 4 apply app_inv_head in H.
    apply lp32_app_inj in H as [-> H]; [|done..].
    apply lp32_app_inj in H as [-> H]; [|done..].
    destruct tags, tags'; try discriminate; [|done]. rewrite <- !app_assoc in H.
    do 4 apply app_inv_head in H.
    by apply encode_tags_app_inj in H as [-> _].
  - destruct_and!. do 2 apply app_inv_head in H.
    apply segment_app_inj, lp32_app_inj in H as [-> H]; [|done..].
    apply segment_app_inj in H. rewrite <- !app_assoc in H.
    apply encode_option_app_inj in H as [-> H]; [|done..].
    apply lp32_app_inj in H as [-> H]; [|done..]. apply app_inv_head in H.
    apply segment_app_inj in H. rewrite <- !app_assoc in H.
    apply lp32_app_inj in H as [-> H]; [|done..].
    apply encode_tags_app_inj in H as [-> H]; [|done..].
    apply encode_expires_inj in H as [-> H]; [|done..].
    rewrite <- (app_nil_r (encode_option correlation)), <- (app_nil_r (encode_option correlation')) in H.
    by apply encode_option_app_inj in H as [-> _].
Qed.

Lemma well_sized_fields i :
  well_sized i = true ->
  Forall (fun t => framed t = true) (destination_fields i)
  /\ Forall (fun t => framed t = true) (content_fields i)
  /\ Forall (fun t => framed t = true) (options_fields i)
  /\ Z.of_nat (length (options_fields i)) <= u32_max
  /\ sized_option (correlation_id i)
  /\ match expires_at_millis i with Some value => is_i64 value = true | None => True end.
Proof.
  unfold well_sized. b2p. intros H. destruct_and!. split_and!; try done;
    [by destruct (correlation_id i)|by destruct (expires_at_millis i)].
Qed.

Lemma guard_Some {A : Type} (b : bool) (o : option A) a :
  (if b then o else None) = Some a -> b = true /\ o = Some a.
Proof. by destruct b. Qed.

Lemma full_meaning_sized i m : well_sized i = true -> full_meaning i = Some m -> sized m.
Proof.
  intros (Hd & Hc & Ho & Hl & Hcor & Hex)%well_sized_fields. unfold full_meaning.
  intros [_ H]%guard_Some. revert H.
  destruct (destination_fields i) as [|topic ds]; [done|]. cbn.
  apply Forall_cons in Hd as [Htopic _].
  unfold content_parts, option_parts.
  destruct (content_fields i) as [|a [|b [|]]]; [done| | |done];
    rewrite ?Forall_cons in Hc; destruct_and!;
    repeat (case_match; try done); intros [= <-];
    rewrite ?Forall_cons in Ho; destruct_and?; cbn [length] in Hl;
    cbn [sized sized_option]; split_and!; try done;
    try (apply sized_tags_of_list; [done|lia]); apply (sized_tags_of_list []); done.
Qed.

Lemma meaning_sized i m : well_sized i = true -> meaning i = Some m -> sized m.
Proof.
  intros Hw. pose proof (full_meaning_sized i m Hw) as Hfull. unfold meaning.
  apply well_sized_fields in Hw as (Hd & Hc & Ho & Hl & Hcor & Hex).
  destruct (legacy_tags i) as [tags|] eqn:Ht; [|done].
  destruct (destination_fields i) as [|topic [|]]; [done| |done].
  destruct (content_fields i) as [|title [|text [|]]]; [done|done| |done].
  destruct (legacy_shape i); [|done]. intros [= <-].
  apply Forall_cons in Hd as [Ht1 _]. apply Forall_cons in Hc as [Ht2 Hc].
  apply Forall_cons in Hc as [Ht3 _]. cbn [sized]. split_and!; [done..|].
  destruct tags as [tags|]; [|exact I].
  apply legacy_tags_Some in Ht as ->. cbn.
  pose proof (sized_tags_of_list _ Ho Hl) as [Hf Hn].
  rewrite tag_list_of_list in Hf, Hn. by apply sized_tags_of_list.
Qed.

(** ** The provider input *)

(** The bytes [authenticate_idempotency] hands to the provider. *)
Definition mac_input (domain : bytes) (key : MacKeyRef) (parts : list bytes) : bytes :=
  domain ++ key_id key ++ concat (map lp32 parts).

Lemma frame_parts_Ok input parts f :
  frame_parts input parts = Ok f <->
  Forall (fun p => framed p = true) parts /\ f = input ++ concat (map lp32 parts).
Proof.
  revert input. induction parts as [|p parts IH]; intros input; cbn [frame_parts map concat].
  { rewrite app_nil_r. split; [intros [= ->]; split; [constructor|done]|by intros [_ ->]]. }
  rewrite Forall_cons. unfold checked, framed, is_u32, within.
  assert (0 <=? len p = true) as -> by (apply Z.leb_le; unfold len; lia). cbn [andb].
  destruct (len p <=? u32_max) eqn:E; cbn; [|split; [done|intros [[? _] _]; done]].
  rewrite IH. apply Z.leb_le in E. unfold lp32, wrap. rewrite Z.mod_small
    by (unfold len, u32_max in *; lia). rewrite <- !app_assoc. tauto.
Qed.

Section provider_facts.
Context `{MacProvider P} (p : P).

(** The property of the HMAC a caller relies on: equal authenticators come from
    equal keys and inputs. *)
Definition collision_free : Prop :=
  forall k k' x y t, authenticate p k x = Ok t -> authenticate p k' y = Ok t -> x = y.

Lemma authenticate_idempotency_Ok key expected domain parts t :
  authenticate_idempotency p key expected domain parts = Ok t <->
  purpose key = expected /\ tag_key t = key
  /\ Forall (fun part => framed part = true) parts
  /\ authenticate p key (mac_input domain key parts) = Ok t.
Proof.
  unfold authenticate_idempotency, mac_input.
  case_bool_decide as Hp; cbn [negb]; [|naive_solver].
  destruct (frame_parts _ parts) as [f|e] eqn:Hf; cbn.
  - apply frame_parts_Ok in Hf as [Hf ->]. rewrite <- app_assoc.
    destruct (authenticate p key _) as [t'|]; cbn; [|naive_solver].
    case_bool_decide; cbn [negb]; naive_solver.
  - split; [done|]. intros (_ & _ & Hfr & _). exfalso.
    assert (frame_parts (domain ++ key_id key) parts
            = Ok ((domain ++ key_id key) ++ concat (map lp32 parts))) as Hok
      by by apply frame_parts_Ok.
    congruence.
Qed.

Lemma mac_input_inj domain k k' parts parts' :
  length (key_id k) = length (key_id k') ->
  length parts = length parts' ->
  Forall (fun part => framed part = true) parts ->
  Forall (fun part => framed part = true) parts' ->
  mac_input domain k parts = mac_input domain k' parts' ->
  key_id k = key_id k' /\ parts = parts'.
Proof.
  unfold mac_input. intros Hk Hl Hp Hp' Heq.
  apply app_inv_head, app_inj_length in Heq as [Hid Heq]; [|done].
  split; [done|]. rewrite <- (app_nil_r (concat (map lp32 parts))),
    <- (app_nil_r (concat (map lp32 parts'))) in Heq.
  by apply concat_lp32_app_inj in Heq as [-> _].
Qed.
End provider_facts.

(** ** Theorems *)

(** The legacy form: two content fields, and neither expiry nor correlation. *)
Definition legacy_form (i : CanonicalInput) : bool :=
  bool_decide (expires_at_millis i = None) && bool_decide (correlation_id i = None)
  && (length (content_fields i) =? 2)%nat.

(** The same options: given or omitted alike, and the same fields; the first of them is the
    priority and the others are a set, but in the legacy form all of them are one set. *)
Definition same_options (i j : CanonicalInput) : Prop :=
  options_kind i = options_kind j
  /\ if legacy_form i
     then (list_to_set (options_fields i) : gset bytes) = list_to_set (options_fields j)
     else head (options_fields i) = head (options_fields j)
          /\ (list_to_set (tail (options_fields i)) : gset bytes) = list_to_set (tail (options_fields j)).

Definition same_request (i j : CanonicalInput) : Prop :=
  destination_fields i = destination_fields j /\ content_fields i = content_fields j
  /\ expires_at_millis i = expires_at_millis j /\ correlation_id i = correlation_id j
  /\ same_options i j.

(** [REQUEST_V1_HEX] of [specs/architecture.md]: the minimal submission. *)
Definition REQUEST_V1 : bytes :=
  [0x6d; 0x73; 0x67; 0x72; 0x69; 0x76; 0x65; 0x72; 0x2d; 0x72; 0x65; 0x71; 0x75; 0x65; 0x73; 0x74; 0x00; 0x00;
   0x00; 0x00; 0x01; 0x00; 0x00; 0x00; 0x04; 0x6e; 0x74; 0x66; 0x79; 0x01; 0x00; 0x00; 0x00; 0x1e; 0x6d; 0x73;
   0x67; 0x72; 0x69; 0x76; 0x65; 0x72; 0x3a; 0x2f; 0x2f; 0x73; 0x63; 0x68; 0x65; 0x6d; 0x61; 0x2f; 0x6e; 0x74;
   0x66; 0x79; 0x2d; 0x74; 0x6f; 0x70; 0x69; 0x63; 0x2f; 0x31; 0x00; 0x00; 0x00; 0x0a; 0x6e; 0x74; 0x66; 0x79;
   0x5f; 0x74; 0x6f; 0x70; 0x69; 0x63; 0x00; 0x00; 0x00; 0x01; 0x00; 0x00; 0x00; 0x0a; 0x00; 0x00; 0x00; 0x06;
   0x61; 0x6c; 0x65; 0x72; 0x74; 0x73; 0x02; 0x00; 0x00; 0x00; 0x18; 0x6d; 0x73; 0x67; 0x72; 0x69; 0x76; 0x65;
   0x72; 0x3a; 0x2f; 0x2f; 0x73; 0x63; 0x68; 0x65; 0x6d; 0x61; 0x2f; 0x74; 0x65; 0x78; 0x74; 0x2f; 0x31; 0x00;
   0x00; 0x00; 0x04; 0x74; 0x65; 0x78; 0x74; 0x00; 0x00; 0x00; 0x01; 0x00; 0x00; 0x00; 0x0a; 0x00; 0x00; 0x00;
   0x00; 0x05; 0x68; 0x65; 0x6c; 0x6c; 0x6f; 0x01; 0x03; 0x00; 0x00; 0x00; 0x20; 0x6d; 0x73; 0x67; 0x72; 0x69;
   0x76; 0x65; 0x72; 0x3a; 0x2f; 0x2f; 0x73; 0x63; 0x68; 0x65; 0x6d; 0x61; 0x2f; 0x6e; 0x74; 0x66; 0x79; 0x2d;
   0x6f; 0x70; 0x74; 0x69; 0x6f; 0x6e; 0x73; 0x2f; 0x31; 0x00; 0x00; 0x00; 0x04; 0x6e; 0x74; 0x66; 0x79; 0x00;
   0x00; 0x00; 0x01; 0x00; 0x00; 0x00; 0x0f; 0x00; 0x00; 0x00; 0x07; 0x64; 0x65; 0x66; 0x61; 0x75; 0x6c; 0x74;
   0x00; 0x00; 0x00; 0x00; 0x00; 0x00].

(** What an accepted request has when it means [m]. *)
Definition means (i : CanonicalInput) (m : Meaning) : Prop :=
  match m with
  | LegacyMeaning topic title text tags =>
    legacy_form i = true /\ expires_at_millis i = None /\ correlation_id i = None
    /\ destination_fields i = [topic] /\ content_fields i = [title; text]
    /\ match tags with
       | None => options_kind i = None /\ options_fields i = []
       | Some s => options_kind i = Some lit_ntfy /\ s = list_to_set (options_fields i)
       end
  | FullMeaning topic title text priority tags expires correlation =>
    legacy_form i = false /\ expires_at_millis i = expires /\ correlation_id i = correlation
    /\ destination_fields i = [topic]
    /\ content_fields i = match title with Some title => [title; text] | None => [text] end
    /\ (options_kind i = None /\ options_fields i = [] /\ priority = as_bytes "default" /\ tags = ∅
           /\ topic = as_bytes "alerts" /\ title = None /\ text = as_bytes "hello"
           /\ expires = None /\ correlation = None
        \/ options_kind i = Some lit_ntfy /\ head (options_fields i) = Some priority
           /\ tags = list_to_set (tail (options_fields i)) /\ (expires = None -> tags <> ∅))
  end.

Lemma dedup_nil l : dedup l = [] -> l = [].
Proof. destruct l as [|x l]; [done|]. cbn. by destruct (dedup l); cbn; repeat case_match. Qed.

Lemma legacy_means i tags topic title text :
  legacy_tags i = Some tags -> destination_fields i = [topic] -> content_fields i = [title; text] ->
  legacy_shape i = true -> means i (LegacyMeaning topic title text (list_to_set <$> tags)).
Proof.
  intros Ht Hd Hc Hs. assert (expires_at_millis i = None /\ correlation_id i = None) as [He Hco].
  { unfold legacy_shape in Hs. rewrite negb_true_iff, !orb_false_iff, !bool_decide_eq_false, <- !eq_None_not_Some in Hs.
    tauto. }
  unfold means, legacy_form. rewrite He, Hco, Hc, !bool_decide_true by done. split_and!; try done.
  unfold legacy_tags in Ht.
  destruct (options_kind i) as [k|], (options_schema_version i), (options_set_like i); try discriminate.
  - destruct (bool_decide_reflect (k = lit_ntfy)) as [->|]; [|done]. cbn [andb] in Ht.
    case_match; [|done]. injection Ht as <-. split; [done|]. apply set_eq. intros x.
    by rewrite !elem_of_list_to_set, elem_of_dedup, sort_bytes_perm.
  - destruct (bool_decide_reflect (options_fields i = [])) as [->|]; [|done]. by injection Ht as <-.
Qed.

Lemma content_parts_fields i title text :
  content_parts i = Some (title, text) ->
  content_fields i = match title with Some title => [title; text] | None => [text] end.
Proof. unfold content_parts. destruct (content_fields i) as [|x [|y [|]]]; try done; by intros [= <- <-]. Qed.

(** What the options of an admitted request are. *)
Lemma option_parts_fields i priority tags :
  option_parts i = Some (priority, tags) ->
  options_kind i = None /\ options_fields i = [] /\ priority = lit_default /\ tags = []
  \/ options_kind i = Some lit_ntfy /\ options_fields i = priority :: tags.
Proof.
  unfold option_parts. destruct (options_kind i) as [k|], (options_schema_version i), (options_set_like i); try done.
  - destruct (bool_decide_reflect (k = lit_ntfy)) as [->|]; [|done]. cbn [andb].
    destruct (z =? 1); [|done]. destruct (options_fields i) as [|p l]; [done|]. intros [= <- <-]. by right.
  - destruct (bool_decide_reflect (options_fields i = [])); [|done]. intros [= <- <-]. by left.
Qed.

(** An admitted request has both expiry and correlation and explicit options, or it is the
    minimal one, with its options omitted or with three tags. *)
Lemma admitted_cases i :
  admitted_first_slice_profile i = true ->
  (expires_at_millis i <> None /\ options_kind i = Some lit_ntfy)
  \/ destination_fields i = [as_bytes "alerts"] /\ content_fields i = [as_bytes "hello"]
     /\ expires_at_millis i = None /\ correlation_id i = None
     /\ (options_kind i = None \/ options_kind i = Some lit_ntfy /\ tail (options_fields i) <> []).
Proof.
  unfold admitted_first_slice_profile, normalized_transition_tags.
  rewrite orb_true_iff, !andb_true_iff, orb_true_iff, !andb_true_iff, !bool_decide_eq_true.
  intros [((((He & _) & Hk) & _) & _)|((((Hd & Hc) & He) & Hco) & Ho)].
  - left. split; [|done]. intros Hn. rewrite Hn in He. by destruct He.
  - right. split_and!; try done. destruct Ho as [Ho|Ho]; [left; tauto|right].
    destruct (_ || negb (bool_decide (head _ = _))) eqn:E in Ho; [done|].
    rewrite !orb_false_iff, !negb_false_iff, !bool_decide_eq_true in E. split; [tauto|].
    intros Ht. rewrite Ht in Ho. by apply bool_decide_eq_true in Ho.
Qed.

Lemma full_means i m : full_meaning i = Some m -> means i m.
Proof.
  unfold full_meaning. destruct (admitted_first_slice_profile i) eqn:Ha; [|done].
  destruct (destination_payload i) as [p|] eqn:E1; [|by rewrite andb_false_r].
  apply destination_payload_Some in E1 as (topic & Hd & _). case_match; [|done]. rewrite Hd. cbn [head mbind option_bind].
  destruct (content_parts i) as [[title text]|] eqn:Ec; [|done]. apply content_parts_fields in Ec.
  destruct (option_parts i) as [[priority tags]|] eqn:Eo; [|done]. cbn [mbind option_bind]. intros [= <-].
  apply option_parts_fields in Eo. apply admitted_cases in Ha. unfold means, legacy_form.
  destruct Ha as [[He Hk]|(Hd' & Hc' & He & Hco & Hk)].
  - rewrite (bool_decide_eq_false_2 (expires_at_millis i = None)) by done.
    destruct Eo as [(Hk' & _)|[_ Ho]]; [congruence|]. rewrite Ho. split_and!; try done. right. by split_and!.
  - rewrite Hd in Hd'. injection Hd' as ->. rewrite Hc' in Ec |- *. rewrite He, Hco.
    assert (title = None /\ text = as_bytes "hello") as [-> ->] by (destruct title; [done|by injection Ec as <-]).
    split_and!; try done. destruct Eo as [(Hk' & Ho & -> & ->)|[Hk' Ho]]; [left; by split_and!|right].
    rewrite Ho in Hk |- *. split_and!; try done. intros _. destruct Hk as [Hk|[_ Ht]]; [congruence|].
    cbn [tail] in Ht |- *. destruct tags as [|x l]; [done|]. cbn. set_solver.
Qed.

Lemma meaning_means i m : meaning i = Some m -> means i m.
Proof.
  unfold meaning. destruct (legacy_tags i) as [tags|] eqn:Et; [|apply full_means].
  destruct (destination_fields i) as [|topic [|]] eqn:Ed; [apply full_means| |apply full_means].
  destruct (content_fields i) as [|title [|text [|]]] eqn:Ec; try apply full_means.
  destruct (legacy_shape i) eqn:Es; [|apply full_means]. intros [= <-]. by apply legacy_means.
Qed.

Lemma means_same i j m n : means i m -> means j n -> (m = n <-> same_request i j).
Proof.
  unfold same_request, same_options. intros Hi Hj.
  destruct m as [topic title text tags|topic title text priority tags expires correlation],
    n as [topic' title' text' tags'|topic' title' text' priority' tags' expires' correlation'].
  - destruct Hi as (-> & He & Hco & -> & -> & Ho), Hj as (_ & -> & -> & -> & -> & Ho'). rewrite He, Hco. split.
    + intros [= -> -> -> ->]. destruct tags' as [s|]; destruct Ho as [Hk1 Ho], Ho' as [Hk2 Ho'];
        split_and!; congruence.
    + intros ([= ->] & [= -> ->] & _ & _ & Hk & Hs).
      destruct tags as [s|], tags' as [s'|]; destruct Ho as [Hk1 Ho], Ho' as [Hk2 Ho']; congruence.
  - destruct Hi as (Hl & He & Hco & _ & Hc & _), Hj as (Hl' & He' & Hco' & _ & Hc' & _). split; [done|].
    intros (_ & Hcc & Hee & Hcoo & _). unfold legacy_form in Hl, Hl'. rewrite Hee, Hcoo, Hcc in Hl. congruence.
  - destruct Hi as (Hl & He & Hco & _ & Hc & _), Hj as (Hl' & He' & Hco' & _ & Hc' & _). split; [done|].
    intros (_ & Hcc & Hee & Hcoo & _). unfold legacy_form in Hl, Hl'. rewrite Hee, Hcoo, Hcc in Hl. congruence.
  - destruct Hi as (-> & -> & -> & -> & -> & Ho), Hj as (_ & -> & -> & -> & -> & Ho'). split.
    + intros [= -> -> -> -> -> -> ->].
      destruct Ho as [(Hk1 & Ho & Hp1 & Ht1 & _ & _ & _ & He1 & _)|(Hk1 & Hh1 & Ht1 & Hne1)],
        Ho' as [(Hk2 & Ho' & Hp2 & Ht2 & _ & _ & _ & He2 & _)|(Hk2 & Hh2 & Ht2 & Hne2)].
      * by rewrite Hk1, Hk2, Ho, Ho'.
      * destruct (Hne2 He1 Ht1).
      * destruct (Hne1 He2 Ht2).
      * split_and!; congruence.
    + intros ([= ->] & Hc & -> & -> & Hk & Hh & Ht).
      assert (title = title' /\ text = text') as [-> ->] by (destruct title, title'; by simplify_eq).
      destruct Ho as [(Hk1 & Ho & Hp1 & Ht1 & _)|(Hk1 & Hh1 & Ht1 & _)],
        Ho' as [(Hk2 & Ho' & Hp2 & Ht2 & _)|(Hk2 & Hh2 & Ht2 & _)]; congruence.
Qed.

(** C37: Two requests that the encoder accepts have the same encoding exactly when they are the
    same request: the same destination, content, expiry, correlation and options, of which the
    tags are a set, so that their order and repetition are invisible to the fingerprint. Defaults
    are expanded as the contract says, to the frozen vector of the minimal submission, where the
    options are omitted outside the legacy form; but options that are omitted and options that
    are given are never the same request. *)
Theorem canonical_request_v1_semantic i j e e' :
  well_sized i = true -> well_sized j = true ->
  canonical_request_v1 i = Ok e -> canonical_request_v1 j = Ok e' ->
  (e = e' <-> same_request i j)
  /\ (options_kind i = None -> legacy_form i = false -> e = REQUEST_V1)
  /\ (options_kind i = None -> options_kind j <> None -> e <> e').
Proof.
  intros Hi Hj. rewrite !canonical_request_meaning.
  destruct (meaning i) as [m|] eqn:Em; [|done]. destruct (meaning j) as [n|] eqn:En; [|done].
  cbn [fmap option_fmap option_map ok_or]. intros [= <-] [= <-].
  pose proof (meaning_means i m Em) as Hm. pose proof (meaning_means j n En) as Hn.
  assert (encode_meaning m = encode_meaning n <-> same_request i j) as Heq.
  { rewrite <- (means_same i j m n Hm Hn). split; [|by intros ->].
    apply encode_meaning_inj; [exact (meaning_sized i m Hi Em)|exact (meaning_sized j n Hj En)]. }
  split; [exact Heq|]. split.
  - intros Hk Hl. destruct m as [|topic title text priority tags expires correlation];
      [destruct Hm as [Hl' _]; congruence|]. destruct Hm as (_ & _ & _ & _ & _ & [Ho|(Hk' & _)]); [|congruence].
    destruct Ho as (_ & _ & -> & -> & -> & -> & -> & -> & ->). vm_compute. reflexivity.
  - intros Hk Hk' (_ & _ & _ & _ & Hs & _)%Heq. congruence.
Qed.

(** Under a collision-free provider, two lookup authenticators agree only when
    key, principal and idempotency key agree, and an authenticator names the
    lookup key it was asked for. *)
Theorem lookup_digest_v1_with_provider_inj `{MacProvider P} (p : P)
    k k' principal principal' idem idem' t :
  collision_free p ->
  length (key_id k) = 40%nat -> length (key_id k') = 40%nat ->
  lookup_digest_v1_with_provider p k principal idem = Ok t ->
  lookup_digest_v1_with_provider p k' principal' idem' = Ok t ->
  k = k' /\ principal = principal' /\ idem = idem'
  /\ tag_key t = k /\ purpose k = IdempotencyLookupV1.
Proof.
  unfold lookup_digest_v1_with_provider. intros Hcf Hk Hk'.
  rewrite !authenticate_idempotency_Ok.
  intros (Hpu & Htk & Hf & Ha) (Hpu' & Htk' & Hf' & Ha').
  pose proof (Hcf _ _ _ _ _ Ha Ha') as Hin.
  apply mac_input_inj in Hin as [_ Hparts]; [|congruence|done..].
  injection Hparts as -> ->. rewrite <- Htk'. auto.
Qed.

(** ** Witnesses *)

Definition sample_input (tags : list bytes) (topic : bytes) : CanonicalInput :=
  mkCanonicalInput lit_ntfy lit_ntfy_topic 1 [topic] lit_text 1
    [as_bytes "title"; as_bytes "text"] (Some lit_ntfy) (Some 1) tags true None None.

Lemma canonical_request_v1_semantic_witness :
  let i := sample_input [as_bytes "b"; as_bytes "a"; as_bytes "b"] (as_bytes "alerts") in
  let j := sample_input [as_bytes "a"; as_bytes "b"] (as_bytes "alerts") in
  canonical_request_v1 i = canonical_request_v1 j.
Proof.
  cbn zeta. pose (i := sample_input [as_bytes "b"; as_bytes "a"; as_bytes "b"] (as_bytes "alerts")).
  pose (j := sample_input [as_bytes "a"; as_bytes "b"] (as_bytes "alerts")).
  destruct (canonical_request_v1 i) as [e|] eqn:Ei; [|vm_compute in Ei; discriminate].
  destruct (canonical_request_v1 j) as [e'|] eqn:Ej; [|vm_compute in Ej; discriminate].
  change (canonical_request_v1 i = canonical_request_v1 j). rewrite Ei, Ej. f_equal.
  refine (proj2 (proj1 (canonical_request_v1_semantic i j e e' _ _ Ei Ej)) _); [vm_compute; reflexivity..|].
  split_and!; try reflexivity. split; [reflexivity|]. cbn [legacy_form]. apply (bool_decide_eq_true_1 _). vm_compute. reflexivity.
Defined.

(** The minimal submission, and the same with its default written out, which is refused. *)
Definition minimal_input (kind : option bytes) (version : option Z) (fields : list bytes) (set_like : bool) : CanonicalInput :=
  mkCanonicalInput lit_ntfy lit_ntfy_topic 1 [as_bytes "alerts"] lit_text 1 [as_bytes "hello"] kind version fields set_like None None.

Example minimal_request :
  canonical_request_v1 (minimal_input None None [] false) = Ok REQUEST_V1
  /\ is_ok (canonical_request_v1 (minimal_input (Some lit_ntfy) (Some 1) [as_bytes "default"] true)) = false.
Proof. vm_compute. split; reflexivity. Qed.

(** A provider that returns its input as the authenticator. *)
#[local] Instance echo_provider : MacProvider unit :=
  fun _ key input => Ok (mkVersionedTag key input).

Lemma lookup_digest_v1_with_provider_inj_witness :
  let k := mkMacKeyRef IdempotencyLookupV1 (repeat 7 40) in
  exists t, lookup_digest_v1_with_provider tt k (as_bytes "p") (as_bytes "k") = Ok t
            /\ tag_key t = k.
Proof.
  cbn zeta. eexists. split; [vm_compute; reflexivity|].
  set (k := mkMacKeyRef IdempotencyLookupV1 (repeat 7 40)).
  apply (lookup_digest_v1_with_provider_inj tt k k (as_bytes "p") (as_bytes "p")
    (as_bytes "k") (as_bytes "k")).
  - intros a b x y t H1 H2. unfold authenticate, echo_provider in *. congruence.
  - reflexivity.
  - reflexivity.
  - vm_compute; reflexivity.
  - vm_compute; reflexivity.
Defined.
