(* ===== verification/Http.v ===== *)
(** * Request framing and authentication
    ([crates/msgriver/src/main.rs], lines 772-1049 and 1171-1208)

    A stream is the list of what its reads return: [Some chunk] for bytes,
    [Some []] for end of stream, [None] for an error; a list that runs out is a
    read that times out. Overflow checks are on in every profile of the
    workspace, so an overflowing subtraction is a panic. *)

From S2P Require Import Prelude Bytes Text Sha256.

#[local] Open Scope Z_scope.

Definition MAX_REQUEST : Z := 16 * 1024.
Definition MAX_WEBHOOK_CHALLENGE : Z := 1024.

Definition Reads : Type := list (option bytes).

(** ** The local control surface *)

Inductive LocalRoute : Type :=
| RouteNtfy | RouteWhatsapp | RouteInboundEnable | RouteInboundDisable | RouteStatus
| RouteMessageStatus (message_id : bytes) | RouteMessageRetry (message_id : bytes).

Definition valid_message_id (value : bytes) : bool :=
  (len value =? 64) && forallb (fun b => is_ascii_digit b || within 97 102 b) value.

Definition message_route (request_line : bytes) : option LocalRoute :=
  rest ← strip_prefix (as_bytes "POST /v1/messages/") request_line;
  path ← strip_suffix (as_bytes " HTTP/1.1") rest;
  '(message_id, action) ← split_once 47 path;
  if negb (valid_message_id message_id) || contains_any [47] action then None
  else if bool_decide (action = as_bytes "status") then Some (RouteMessageStatus message_id)
  else if bool_decide (action = as_bytes "retry") then Some (RouteMessageRetry message_id)
  else None.

Definition local_route (request_line : bytes) : option LocalRoute :=
  if bool_decide (request_line = as_bytes "POST /v1/messages HTTP/1.1") then Some RouteNtfy
  else if bool_decide (request_line = as_bytes "POST /v1/whatsapp/messages HTTP/1.1")
  then Some RouteWhatsapp
  else if bool_decide (request_line = as_bytes "POST /v1/inbound/enable HTTP/1.1")
  then Some RouteInboundEnable
  else if bool_decide (request_line = as_bytes "POST /v1/inbound/disable HTTP/1.1")
  then Some RouteInboundDisable
  else if bool_decide (request_line = as_bytes "POST /v1/status HTTP/1.1")
  then Some RouteStatus
  else message_route request_line.

(** The loop over the header lines: [None] is the early return. *)
Fixpoint length_loop (lines : list bytes) (length : option Z) : option (option Z) :=
  match lines with
  | [] => Some length
  | line :: rest =>
    '(name, value) ← split_once 58 line;
    if eq_ignore_ascii_case name (as_bytes "content-length") then
      match length with
      | Some _ => None
      | None => length_loop rest (parse_usize (trim value))
      end
    else length_loop rest length
  end.

Definition content_length (head : bytes) : option (LocalRoute * Z) :=
  match split_crlf head with
  | [] => None
  | request_line :: lines =>
    route ← local_route request_line;
    length ← length_loop lines None;
    (fun n => (route, n)) <$> length
  end.

(** [while bytes.len() < total { read }] of [read_request]. *)
Fixpoint read_body (l : bytes) (total : Z) (reads : Reads) : result string (option bytes) :=
  if total <=? len l then Ok (Some l)
  else match reads with
  | Some [] :: _ => Ok None
  | Some chunk :: rest =>
    let l := l ++ chunk in
    if MAX_REQUEST <? len l then Ok None else read_body l total rest
  | _ => Err "socket read failed"%string
  end.

(** What [read_request] does once the head is complete. *)
Definition read_after_head (l : bytes) (separator : nat) (rest : Reads)
    : result string (option (LocalRoute * bytes)) :=
  let head := take separator l in
  if negb (is_utf8 head) then Ok None
  else match content_length head with
  | None => Ok None
  | Some (route, content_length) =>
    let start := Z.of_nat separator + 4 in
    maximum_body ← ok_or (checked is_u64 (MAX_REQUEST - start)) "request size failed"%string;
    if maximum_body <? content_length then Ok None
    else
      complete ← read_body l (start + content_length) rest;
      match complete with
      | None => Ok None
      | Some l =>
        if negb (len l =? start + content_length) then Ok None
        else Ok (Some (route, drop (separator + 4) l))
      end
  end.

Fixpoint read_framed (l : bytes) (reads : Reads) : result string (option (LocalRoute * bytes)) :=
  if MAX_REQUEST <=? len l then Ok None
  else match reads with
  | Some [] :: _ => Ok None
  | Some chunk :: rest =>
    let l := l ++ chunk in
    if MAX_REQUEST <? len l then Ok None
    else match position CRLFCRLF l with
    | Some separator => read_after_head l separator rest
    | None => read_framed l rest
    end
  | _ => Err "socket read failed"%string
  end.

(** ** The webhook listener *)

Inductive HttpFailure : Type := Refused (message : string) | Panic.

(** The loop of [header_once] over the lines after the request line. *)
Fixpoint header_loop (wanted : bytes) (lines : list bytes) (value : option bytes)
    : option bytes :=
  match lines with
  | [] => value
  | line :: rest =>
    '(name, candidate) ← split_once 58 line;
    if eq_ignore_ascii_case name wanted then
      match value with
      | Some _ => None
      | None => header_loop wanted rest (Some (trim candidate))
      end
    else header_loop wanted rest value
  end.

Definition header_once (head wanted : bytes) : option bytes :=
  header_loop wanted (tail (split_crlf head)) None.

Definition WEBHOOK_GET : bytes := as_bytes "GET /v1/whatsapp/webhook?".

Fixpoint read_http_body (l : bytes) (total : Z) (reads : Reads)
    : result HttpFailure (option bytes) :=
  if total <=? len l then Ok (Some l)
  else match reads with
  | Some [] :: _ => Ok None
  | Some chunk :: rest => read_http_body (l ++ chunk) total rest
  | _ => Err (Refused "webhook read failed")
  end.

Definition read_http_after_head (l : bytes) (separator : nat) (rest : Reads)
    : result HttpFailure (option (bytes * bytes)) :=
  let head := take separator l in
  if negb (is_utf8 head) then Err (Refused "webhook request failed")
  else if starts_with WEBHOOK_GET head then Ok (Some (head, []))
  else match header_once head (as_bytes "content-length") ≫= parse_usize with
  | None => Ok None
  | Some length =>
    let start := Z.of_nat separator + 4 in
    (* [MAX_REQUEST - separator - 4] on [usize] *)
    maximum ← ok_or (checked is_u64 (MAX_REQUEST - start)) Panic;
    if maximum <? length then Ok None
    else
      complete ← read_http_body l (start + length) rest;
      match complete with
      | None => Ok None
      | Some l =>
        if negb (len l =? start + length) then Ok None
        else Ok (Some (head, drop (separator + 4) l))
      end
  end.

Fixpoint read_http_request (l : bytes) (reads : Reads)
    : result HttpFailure (option (bytes * bytes)) :=
  if MAX_REQUEST <? len l then Ok None
  else match reads with
  | Some [] :: _ => Ok None
  | Some chunk :: rest =>
    let l := l ++ chunk in
    match position CRLFCRLF l with
    | Some separator => read_http_after_head l separator rest
    | None => read_http_request l rest
    end
  | _ => Err (Refused "webhook read failed")
  end.

Definition is_ascii_hexdigit (b : Z) : bool :=
  within 48 57 b || within 65 70 b || within 97 102 b.

(** [u8::from_str_radix(pair, 16)] on one digit. *)
Definition hexdigit_value (b : Z) : Z :=
  if within 48 57 b then b - 48 else if within 97 102 b then b - 87 else b - 55.

Fixpoint decode_pairs (l : bytes) : bytes :=
  match l with
  | x :: y :: l' => (16 * hexdigit_value x + hexdigit_value y) :: decode_pairs l'
  | _ => []
  end.

Definition verify_signature `{HmacSha256} (secret body value : bytes) : bool :=
  match strip_prefix (as_bytes "sha256=") value with
  | None => false
  | Some encoded =>
    if negb (len encoded =? 64) || negb (forallb is_ascii_hexdigit encoded) then false
    else bool_decide (hmac secret body = decode_pairs encoded)
  end.

(** The three query values of [handle_subscription]. *)
Record Query : Type := mkQuery {
  q_mode : option bytes;
  q_token : option bytes;
  q_challenge : option bytes
}.

(** The loop over [query.split('&')]: [None] is a 400 answer. *)
Fixpoint query_loop (pairs : list bytes) (q : Query) : option Query :=
  match pairs with
  | [] => Some q
  | piece :: rest =>
    '(key, value) ← split_once 61 piece;
    if bool_decide (key = as_bytes "hub.mode") then
      match q_mode q with
      | Some _ => None
      | None => query_loop rest (mkQuery (Some value) (q_token q) (q_challenge q))
      end
    else if bool_decide (key = as_bytes "hub.verify_token") then
      match q_token q with
      | Some _ => None
      | None => query_loop rest (mkQuery (q_mode q) (Some value) (q_challenge q))
      end
    else if bool_decide (key = as_bytes "hub.challenge") then
      match q_challenge q with
      | Some _ => None
      | None => query_loop rest (mkQuery (q_mode q) (q_token q) (Some value))
      end
    else None
  end.

Definition valid_challenge (value : bytes) : bool :=
  negb (len value =? 0) && (len value <=? MAX_WEBHOOK_CHALLENGE)
  && forallb is_ascii_graphic value.

(** The status and body [handle_subscription] writes. *)
Definition handle_subscription (query verify_token : bytes) : Z * bytes :=
  match query_loop (split_on 38 query) (mkQuery None None None) with
  | None => (400, [])
  | Some q =>
    match q_challenge q with
    | Some challenge =>
      if negb (valid_challenge challenge) then (400, [])
      else if negb (bool_decide (q_mode q = Some (as_bytes "subscribe"))) then (400, [])
      else if negb (bool_decide
                (q_token q = if is_utf8 verify_token then Some verify_token else None))
      then (401, [])
      else (200, challenge)
    | None => (400, [])
    end
  end.

Example status_route :
  content_length (as_bytes "POST /v1/status HTTP/1.1" ++ CRLF ++ as_bytes "Content-Length: 0")
  = Some (RouteStatus, 0).
Proof. vm_compute. reflexivity. Qed.

(** ** Lemmas: framing *)

Lemma position_app needle l r n :
  position needle l = Some n -> position needle (l ++ r) = Some n.
Proof.
  intros [(before & after & -> & <-) Hm]%position_Some. apply position_Some. split.
  - exists before, (after ++ r). split; [|done]. by rewrite <- !app_assoc.
  - intros m Hlt. specialize (Hm m Hlt). apply not_true_iff_false. intros E. apply starts_with_spec in E as [x Hx]. rewrite drop_app_le in Hx
      by (rewrite length_app; lia).
    assert (starts_with needle (drop m (before ++ needle ++ after)) = true); [|congruence].
    apply starts_with_spec. exists (drop (length needle) (drop m (before ++ needle ++ after))).
    rewrite <- (take_drop (length needle) (drop m (before ++ needle ++ after))) at 1. f_equal.
    apply (f_equal (take (length needle))) in Hx.
    rewrite take_app_le in Hx by (rewrite length_drop, !length_app; lia).
    by rewrite take_app_length in Hx.
Qed.

Lemma len_app l k : len (l ++ k) = len l + len k.
Proof. unfold len. rewrite length_app. lia. Qed.

Lemma len_pos (l : bytes) : l <> [] -> 0 < len l.
Proof. unfold len. destruct l; [done|]. cbn [length]. lia. Qed.

Lemma len_zero (l : bytes) : len l <= 0 -> l = [].
Proof. unfold len. destruct l; [done|]. cbn [length]. lia. Qed.

(** The reads that deliver [chunks], whatever follows. *)
Definition delivers (chunks : list bytes) (extra : Reads) : Reads := map Some chunks ++ extra.

Lemma read_body_delivers chunks extra l :
  Forall (fun c => c <> []) chunks -> len (l ++ concat chunks) <= MAX_REQUEST ->
  read_body l (len (l ++ concat chunks)) (delivers chunks extra)
  = Ok (Some (l ++ concat chunks)).
Proof.
  revert l. induction chunks as [|c chunks IH]; intros l Hne Hmax; unfold delivers; cbn [map concat app] in *.
  - rewrite app_nil_r. destruct extra; cbn [read_body]; by rewrite Z.leb_refl.
  - apply Forall_cons in Hne as [Hc Hne]. cbn [read_body]. cbv zeta.
    rewrite !len_app in *. pose proof (len_pos c Hc). pose proof (Zle_0_nat (length (concat chunks))).
    destruct (Z.leb_spec (len l + (len c + len (concat chunks))) (len l)); [unfold len in *; lia|].
    destruct c as [|b c]; [done|].
    destruct (Z.ltb_spec MAX_REQUEST (len l + len (b :: c))); [unfold len in *; lia|].
    rewrite (app_assoc l), <- !len_app, app_assoc. apply IH; [done|].
    rewrite !len_app in *. lia.
Qed.

Lemma read_after_head_delivers head body route l chunks extra :
  is_utf8 head = true -> content_length head = Some (route, len body) ->
  Forall (fun c => c <> []) chunks ->
  l ++ concat chunks = head ++ CRLFCRLF ++ body -> (length head + 4 <= length l)%nat ->
  len (head ++ CRLFCRLF ++ body) <= MAX_REQUEST ->
  read_after_head l (length head) (delivers chunks extra) = Ok (Some (route, body)).
Proof.
  intros Hu Hcl Hne Hl Hlen Hmax. unfold read_after_head.
  assert (take (length head) l = head) as ->.
  { rewrite <- (take_app_le l (concat chunks)) by lia. by rewrite Hl, take_app_length. }
  rewrite Hu, Hcl. cbn [negb]. unfold checked, is_u64, within.
  assert (len (head ++ CRLFCRLF ++ body) = Z.of_nat (length head) + 4 + len body) as Htot
    by (rewrite !len_app; unfold len, CRLFCRLF; cbn [length]; lia).
  pose proof (Zle_0_nat (length body)). fold (len body) in *.
  replace (0 <=? MAX_REQUEST - (Z.of_nat (length head) + 4)) with true by (symmetry; b2p; lia).
  replace (MAX_REQUEST - (Z.of_nat (length head) + 4) <=? u64_max) with true
    by (symmetry; b2p; unfold MAX_REQUEST, u64_max; lia).
  cbn [andb ok_or mbind result_bind].
  replace (MAX_REQUEST - (Z.of_nat (length head) + 4) <? len body) with false
    by (symmetry; b2p; lia).
  rewrite <- Htot, <- Hl in *. rewrite read_body_delivers by done.
  cbn [mbind result_bind]. rewrite Z.eqb_refl. cbn [negb]. rewrite Hl, app_assoc. do 3 f_equal.
  apply drop_app_length'. rewrite length_app. cbn. lia.
Qed.

Lemma read_framed_delivers head body route chunks extra l :
  is_utf8 head = true -> content_length head = Some (route, len body) ->
  Forall (fun c => c <> []) chunks ->
  l ++ concat chunks = head ++ CRLFCRLF ++ body ->
  position CRLFCRLF (head ++ CRLFCRLF ++ body) = Some (length head) ->
  position CRLFCRLF l = None -> len (head ++ CRLFCRLF ++ body) <= MAX_REQUEST ->
  read_framed l (delivers chunks extra) = Ok (Some (route, body)).
Proof.
  intros Hu Hcl. revert l. induction chunks as [|c chunks IH]; intros l Hne Hl Hpos Hnone Hmax.
  { cbn [concat] in Hl. rewrite app_nil_r in Hl. congruence. }
  apply Forall_cons in Hne as [Hc Hne]. unfold delivers. cbn [map app read_framed]. cbv zeta.
  cbn [concat] in Hl. rewrite app_assoc in Hl.
  assert (len (l ++ c) <= MAX_REQUEST) as Hle.
  { rewrite <- Hl, len_app in Hmax. unfold len in *. lia. }
  pose proof (len_pos c Hc). rewrite len_app in Hle.
  destruct (Z.leb_spec MAX_REQUEST (len l)); [lia|].
  destruct c as [|b c]; [done|].
  destruct (Z.ltb_spec MAX_REQUEST (len (l ++ b :: c))); [rewrite len_app in *; lia|].
  destruct (position CRLFCRLF (l ++ b :: c)) as [sep|] eqn:E; [|by apply IH].
  pose proof (position_app _ _ (concat chunks) _ E) as Hsep. rewrite Hl, Hpos in Hsep.
  injection Hsep as <-. apply read_after_head_delivers; try done.
  apply position_Some in E as [(x & y & Hxy & Hx) _]. rewrite Hxy, !length_app, Hx. cbn. lia.
Qed.

(** A request that is read is what the stream delivered, cut where the declared
    length says. *)
Definition framed_request (reads : Reads) (l : bytes) (route : LocalRoute) (body : bytes) : Prop :=
  exists chunks extra head,
    reads = delivers chunks extra /\ l ++ concat chunks = head ++ CRLFCRLF ++ body
    /\ content_length head = Some (route, len body)
    /\ position CRLFCRLF (head ++ CRLFCRLF ++ body) = Some (length head).

Lemma read_body_sound l total reads r :
  read_body l total reads = Ok (Some r) ->
  exists chunks extra, reads = delivers chunks extra /\ r = l ++ concat chunks
    /\ (len r <= MAX_REQUEST \/ r = l).
Proof.
  revert l. induction reads as [|[c|] reads IH]; intros l; cbn [read_body].
  - destruct (total <=? len l); [|done]. intros [= <-]. exists [], [].
    unfold delivers. cbn. rewrite app_nil_r. auto.
  - destruct (total <=? len l).
    { intros [= <-]. exists [], (Some c :: reads). unfold delivers. cbn. rewrite app_nil_r. auto. }
    destruct c as [|b c]; [done|]. cbv zeta.
    destruct (Z.ltb_spec MAX_REQUEST (len (l ++ b :: c))); [done|].
    intros (chunks & extra & -> & -> & Hm)%IH. exists ((b :: c) :: chunks), extra.
    unfold delivers. cbn [map concat app]. rewrite <- app_assoc. split_and!; [done|done|].
    left. destruct Hm as [Hm|Hm]; [by rewrite <- app_assoc in Hm|].
    rewrite <- app_assoc in Hm. rewrite Hm. done.
  - destruct (total <=? len l); [|done]. intros [= <-]. exists [], (None :: reads).
    unfold delivers. cbn. rewrite app_nil_r. auto.
Qed.

Lemma read_after_head_sound l sep rest route body :
  position CRLFCRLF l = Some sep ->
  read_after_head l sep rest = Ok (Some (route, body)) -> framed_request rest l route body.
Proof.
  unfold read_after_head. intros Hpos H.
  destruct (is_utf8 (take sep l)); [|done]. cbn [negb] in H.
  destruct (content_length (take sep l)) as [[rt n]|] eqn:Hcl; [|done].
  apply bind_Ok in H as (maximum & Hmax & H).
  destruct (maximum <? n); [done|].
  apply bind_Ok in H as ([r|] & Hbody & H); [|done].
  destruct (Z.eqb_spec (len r) (Z.of_nat sep + 4 + n)) as [Hlen|]; [|done]. cbn [negb] in H.
  injection H as -> <-. apply read_body_sound in Hbody as (chunks & extra & -> & -> & _).
  exists chunks, extra, (take sep l).
  pose proof (position_app _ _ (concat chunks) _ Hpos) as Hpos'.
  pose proof Hpos as [(before & after & Hl & Hb) _]%position_Some.
  assert (take sep l = before) as Hhead by (rewrite Hl, <- Hb; apply take_app_length).
  assert (drop (sep + 4) (l ++ concat chunks) = after ++ concat chunks) as Hdrop.
  { rewrite Hl, <- Hb. change 4%nat with (length CRLFCRLF).
    rewrite <- length_app, <- app_assoc, <- app_assoc, app_assoc. apply drop_app_length. }
  assert (l ++ concat chunks = before ++ CRLFCRLF ++ after ++ concat chunks) as Hall
    by (rewrite Hl, <- !app_assoc; done).
  rewrite Hdrop, Hhead, <- Hall in *. split_and!; [done|done| |by rewrite Hb].
  rewrite Hcl. do 2 f_equal. rewrite Hall, !len_app in Hlen.
  change (len CRLFCRLF) with 4 in Hlen. rewrite len_app. unfold len in *. lia.
Qed.

Lemma read_framed_sound l reads route body :
  position CRLFCRLF l = None ->
  read_framed l reads = Ok (Some (route, body)) -> framed_request reads l route body.
Proof.
  revert l. induction reads as [|[c|] reads IH]; intros l Hnone; cbn [read_framed].
  - by destruct (MAX_REQUEST <=? len l).
  - destruct (MAX_REQUEST <=? len l); [done|]. destruct c as [|b c]; [done|]. cbv zeta.
    destruct (MAX_REQUEST <? len (l ++ b :: c)); [done|].
    destruct (position CRLFCRLF (l ++ b :: c)) as [sep|] eqn:E.
    + intros (chunks & extra & head & -> & Hl & Hcl & Hp)%read_after_head_sound; [|done].
      exists ((b :: c) :: chunks), extra, head. unfold delivers. cbn [map concat app].
      rewrite <- app_assoc in Hl. done.
    + intros (chunks & extra & head & -> & Hl & Hcl & Hp)%IH; [|done].
      exists ((b :: c) :: chunks), extra, head. unfold delivers. cbn [map concat app].
      rewrite <- app_assoc in Hl. done.
  - by destruct (MAX_REQUEST <=? len l).
Qed.

(** ** Lemmas: hexadecimal signatures *)

Lemma is_ascii_hexdigit_bound b : is_ascii_hexdigit b = true -> 0 <= b < 103.
Proof. unfold is_ascii_hexdigit, within. b2p. lia. Qed.

Lemma hexdigit_lower b :
  is_ascii_hexdigit b = true -> hexdigit_value (to_ascii_lowercase b) = hexdigit_value b.
Proof.
  intros Hb. pose proof (is_ascii_hexdigit_bound b Hb).
  enough (negb (is_ascii_hexdigit b)
          || (hexdigit_value (to_ascii_lowercase b) =? hexdigit_value b) = true) as H0
    by (rewrite Hb in H0; by apply Z.eqb_eq).
  clear Hb. by_range 103%nat b.
Qed.

Lemma hexdigit_pair x y :
  is_ascii_hexdigit x = true -> is_ascii_hexdigit y = true ->
  hex_byte (16 * hexdigit_value x + hexdigit_value y)
  = [to_ascii_lowercase x; to_ascii_lowercase y].
Proof.
  intros Hx Hy. pose proof (is_ascii_hexdigit_bound x Hx). pose proof (is_ascii_hexdigit_bound y Hy).
  enough (negb (is_ascii_hexdigit x) || negb (is_ascii_hexdigit y)
          || bool_decide (hex_byte (16 * hexdigit_value x + hexdigit_value y)
                          = [to_ascii_lowercase x; to_ascii_lowercase y]) = true) as H1
    by (rewrite Hx, Hy in H1; by apply bool_decide_eq_true in H1).
  clear Hx Hy. by_range2 103%nat 103%nat x y.
Qed.

Lemma hex_byte_pair b :
  is_byte b = true ->
  exists x y, hex_byte b = [x; y] /\ 16 * hexdigit_value x + hexdigit_value y = b.
Proof.
  intros Hb%(within_spec 0 255). eexists _, _. split; [reflexivity|]. apply Z.eqb_eq.
  by_range 256%nat b.
Qed.

Lemma two_step_ind (P : bytes -> Prop) :
  P [] -> (forall x, P [x]) -> (forall x y l, P l -> P (x :: y :: l)) -> forall l, P l.
Proof.
  intros H0 H1 H2 l. enough (P l /\ forall x, P (x :: l)) as [? _] by done.
  induction l as [|b l [IH1 IH2]]; split; auto.
Qed.

Lemma decode_pairs_lower l :
  forallb is_ascii_hexdigit l = true -> decode_pairs (map to_ascii_lowercase l) = decode_pairs l.
Proof.
  induction l as [| |x y l IH] using two_step_ind; [done|done|]. cbn.
  intros [Hx [Hy Hl]%andb_true_iff]%andb_true_iff.
  by rewrite !hexdigit_lower, IH.
Qed.

Lemma hex_decode_pairs l :
  forallb is_ascii_hexdigit l = true -> Nat.Even (length l) ->
  hex_bytes (decode_pairs l) = map to_ascii_lowercase l.
Proof.
  induction l as [|x|x y l IH] using two_step_ind; [done| |].
  - intros _ [k Hk]. cbn in Hk. lia.
  - cbn [forallb decode_pairs map]. intros [Hx [Hy Hl]%andb_true_iff]%andb_true_iff [k Hk].
    unfold hex_bytes in *. cbn [flat_map]. rewrite hexdigit_pair, IH; try done.
    exists (k - 1)%nat. cbn in Hk. lia.
Qed.

Lemma decode_pairs_hex m : is_bytes m = true -> decode_pairs (hex_bytes m) = m.
Proof.
  induction m as [|b m IH]; [done|]. cbn [is_bytes forallb].
  intros [Hb Hm]%andb_true_iff. destruct (hex_byte_pair b Hb) as (x & y & Hxy & Hv).
  unfold hex_bytes in *. cbn [flat_map]. rewrite Hxy. cbn [app decode_pairs].
  by rewrite Hv, IH.
Qed.

(** ** Lemmas: the webhook reader *)

Lemma position_prefix_None needle l r : position needle (l ++ r) = None -> position needle l = None.
Proof. intros H. destruct (position needle l) eqn:E; [|done]. by apply (position_app _ _ r) in E; congruence. Qed.

Lemma read_http_delivers chunks l extra :
  Forall (fun c => c <> []) chunks -> len (l ++ concat chunks) <= MAX_REQUEST ->
  position CRLFCRLF (l ++ concat chunks) = None ->
  read_http_request l (delivers chunks extra) = read_http_request (l ++ concat chunks) extra.
Proof.
  revert l. induction chunks as [|c chunks IH]; intros l Hne Hmax Hpos; unfold delivers; cbn [map concat app] in *.
  { by rewrite app_nil_r. }
  apply Forall_cons in Hne as [Hc Hne]. cbn [read_http_request]. cbv zeta.
  rewrite app_assoc in Hpos, Hmax. pose proof (position_prefix_None _ _ _ Hpos) as Hp.
  destruct (Z.ltb_spec MAX_REQUEST (len l)); [rewrite !len_app in Hmax; unfold len in *; lia|].
  destruct c as [|b c]; [done|]. rewrite Hp, (app_assoc l). by apply IH.
Qed.

(** ** Theorems *)

(** A request within the limit is read the same way however the stream cuts it
    into reads, and whatever follows it in later reads. *)
Theorem read_framed_segmentation head body route chunks extra :
  is_utf8 head = true -> content_length head = Some (route, len body) ->
  position CRLFCRLF (head ++ CRLFCRLF ++ body) = Some (length head) ->
  len (head ++ CRLFCRLF ++ body) <= MAX_REQUEST ->
  Forall (fun c => c <> []) chunks -> concat chunks = head ++ CRLFCRLF ++ body ->
  read_framed [] (delivers chunks extra) = Ok (Some (route, body)).
Proof. intros. by apply (read_framed_delivers head). Qed.

(** A request that is accepted is exactly the bytes delivered, split at the
    first blank line, with a body of exactly the one declared length. *)
Theorem read_framed_exact reads route body :
  read_framed [] reads = Ok (Some (route, body)) -> framed_request reads [] route body.
Proof. by apply read_framed_sound. Qed.

(** C29: a webhook request whose head ends beyond the request limit makes the
    listener subtract below zero: before any authentication, the service panics. *)
Theorem read_http_request_panics chunks c extra head rest n :
  Forall (fun c => c <> []) chunks -> c <> [] ->
  len (concat chunks) <= MAX_REQUEST ->
  position CRLFCRLF (concat chunks) = None ->
  concat chunks ++ c = head ++ CRLFCRLF ++ rest ->
  position CRLFCRLF (head ++ CRLFCRLF ++ rest) = Some (length head) ->
  is_utf8 head = true -> starts_with WEBHOOK_GET head = false ->
  header_once head (as_bytes "content-length") ≫= parse_usize = Some n ->
  MAX_REQUEST < len head + 4 ->
  read_http_request [] (delivers (chunks ++ [c]) extra) = Err Panic.
Proof.
  intros Hne Hc Hmax Hnone Heq Hpos Hu Hget Hlen Hover.
  assert (delivers (chunks ++ [c]) extra = delivers chunks (Some c :: extra)) as ->.
  { unfold delivers. by rewrite map_app, <- app_assoc. }
  rewrite read_http_delivers by done. cbn [app read_http_request]. cbv zeta.
  destruct (Z.ltb_spec MAX_REQUEST (len (concat chunks))); [lia|].
  destruct c as [|b c]; [done|]. rewrite Heq, Hpos. unfold read_http_after_head.
  rewrite take_app_length, Hu, Hget, Hlen. cbn [negb]. unfold checked, is_u64, within.
  replace (0 <=? MAX_REQUEST - (Z.of_nat (length head) + 4)) with false; [done|].
  symmetry. b2p. unfold len in Hover. lia.
Qed.

(** A signature is accepted exactly when it is the prefix [sha256=] and the
    hexadecimal form, in either case, of the HMAC of the body. *)
Theorem verify_signature_exact `{HmacSha256} secret body value :
  is_bytes (hmac secret body) = true -> length (hmac secret body) = 32%nat ->
  verify_signature secret body value = true <->
  exists encoded, value = as_bytes "sha256=" ++ encoded
    /\ forallb is_ascii_hexdigit encoded = true
    /\ map to_ascii_lowercase encoded = hex_bytes (hmac secret body).
Proof.
  intros Hb Hl. unfold verify_signature. split.
  - destruct (strip_prefix _ value) as [e|] eqn:E; [|done]. apply strip_prefix_Some in E.
    destruct (Z.eqb_spec (len e) 64) as [Hlen|]; [|done].
    destruct (forallb is_ascii_hexdigit e) eqn:Hh; [|done]. cbn [negb orb].
    intros Hd%bool_decide_eq_true. exists e. split_and!; [done|done|].
    rewrite Hd. symmetry. apply hex_decode_pairs; [done|]. exists 32%nat. unfold len in Hlen. lia.
  - intros (e & -> & Hh & Hlow).
    rewrite (proj2 (strip_prefix_Some (as_bytes "sha256=") (as_bytes "sha256=" ++ e) e)) by done.
    assert (length e = 64%nat) as He.
    { apply (f_equal length) in Hlow. rewrite length_map, length_hex_bytes, Hl in Hlow. done. }
    unfold len. rewrite He, Hh. cbn [negb orb Z.of_nat Z.eqb Pos.of_succ_nat Pos.succ Pos.eqb].
    apply bool_decide_eq_true. rewrite <- (decode_pairs_lower e Hh), Hlow.
    by rewrite decode_pairs_hex.
Qed.

(** A subscription is confirmed only to a caller that names the configured
    token, once, with one challenge of graphic characters; the confirmation is
    that challenge, so it cannot inject a header or a second response. *)
Theorem handle_subscription_confirms query verify_token body :
  is_utf8 verify_token = true ->
  handle_subscription query verify_token = (200, body) <->
  valid_challenge body = true
  /\ query_loop (split_on 38 query) (mkQuery None None None)
     = Some (mkQuery (Some (as_bytes "subscribe")) (Some verify_token) (Some body)).
Proof.
  intros Hu. unfold handle_subscription. split.
  - destruct (query_loop _ _) as [[mode token challenge]|]; [|done].
    cbn [q_mode q_token q_challenge]. destruct challenge as [c|]; [|done].
    destruct (valid_challenge c) eqn:Hc; [|done]. cbn [negb].
    destruct (bool_decide_reflect (mode = Some (as_bytes "subscribe"))) as [->|]; [|done].
    rewrite Hu. destruct (bool_decide_reflect (token = Some verify_token)) as [->|]; [|done].
    cbn [negb]. by intros [= <-].
  - intros [Hc ->]. cbn [q_mode q_token q_challenge]. rewrite Hc, Hu.
    by rewrite !bool_decide_true.
Qed.

(** ** Witnesses *)

Definition sample_head : bytes :=
  as_bytes "POST /v1/status HTTP/1.1" ++ CRLF ++ as_bytes "Content-Length: 0".

Lemma read_framed_segmentation_witness :
  read_framed [] (delivers [as_bytes "POST /v1/st"; as_bytes "atus HTTP/1.1" ++ [13];
    [10] ++ as_bytes "Content-Length: 0" ++ [13; 10; 13]; [10]] [None])
  = Ok (Some (RouteStatus, [])).
Proof.
  apply (read_framed_segmentation sample_head []); [vm_compute; reflexivity..| | |].
  - vm_compute. discriminate.
  - repeat constructor; discriminate.
  - vm_compute. reflexivity.
Defined.

Lemma read_framed_exact_witness :
  framed_request (delivers [sample_head ++ CRLFCRLF] []) [] RouteStatus [].
Proof. apply (read_framed_exact (delivers [sample_head ++ CRLFCRLF] [])). vm_compute. reflexivity. Defined.

(** A head of one short request line, a length and one very long header. *)
Definition long_head : bytes :=
  as_bytes "POST / HTTP/1.1" ++ CRLF ++ as_bytes "Content-Length: 0" ++ CRLF
  ++ as_bytes "X: " ++ repeat 97 16400.

Definition long_chunks : list bytes :=
  map (fun i => take 1000 (drop (1000 * i) long_head)) (seq 0 16).

(** Seventeen reads of at most 1,024 bytes. *)
Lemma read_http_request_panics_witness :
  read_http_request [] (delivers (long_chunks ++ [drop 16000 long_head ++ CRLFCRLF]) [])
  = Err Panic.
Proof.
  apply (read_http_request_panics long_chunks (drop 16000 long_head ++ CRLFCRLF) []
    long_head [] 0); [| | |vm_compute; reflexivity..].
  - apply Forall_forall. intros c (i & -> & Hi)%list_elem_of_fmap. apply elem_of_seq in Hi.
    do 16 (destruct i as [|i]; [vm_compute; discriminate|]). lia.
  - vm_compute. discriminate.
  - vm_compute. discriminate.
Defined.

#[local] Instance zero_hmac : HmacSha256 := fun _ _ => repeat 171 32.

Lemma verify_signature_exact_witness :
  verify_signature [] [] (as_bytes "sha256=" ++ flat_map (fun _ => as_bytes "aB") (seq 0 32)) = true.
Proof.
  apply (verify_signature_exact [] []); [reflexivity|reflexivity|].
  exists (flat_map (fun _ => as_bytes "aB") (seq 0 32)). split_and!; vm_compute; reflexivity.
Defined.

Lemma handle_subscription_confirms_witness :
  handle_subscription (as_bytes "hub.mode=subscribe&hub.verify_token=t&hub.challenge=123")
    (as_bytes "t") = (200, as_bytes "123").
Proof.
  apply (handle_subscription_confirms _ (as_bytes "t") (as_bytes "123")); [reflexivity|].
  split; vm_compute; reflexivity.
Defined.
