(* ===== verification/Json.v ===== *)
(** * JSON values

    [serde_json] is not part of the sources: its parser and its printer are the
    operations of [Serde]. What is translated is the value type and the accessors
    the sources call on it. An object is its fields in the order of the keys,
    without repetition. *)

From S2P Require Import Prelude Bytes.

#[local] Open Scope Z_scope.

Inductive Json : Type :=
| JNull
| JBool (b : bool)
| JNumber (literal : bytes)
| JString (s : bytes)
| JArray (items : list Json)
| JObject (fields : list (bytes * Json)).

Class Serde : Type := {
  from_slice : bytes -> option Json;
  to_vec : Json -> option bytes
}.

Definition as_str (v : Json) : option bytes :=
  match v with JString s => Some s | _ => None end.

Definition as_array (v : Json) : option (list Json) :=
  match v with JArray items => Some items | _ => None end.

Definition as_object (v : Json) : option (list (bytes * Json)) :=
  match v with JObject fields => Some fields | _ => None end.

Definition field (fields : list (bytes * Json)) (key : bytes) : option Json :=
  snd <$> find (fun kv => bool_decide (kv.1 = key)) fields.

Definition contains_key (fields : list (bytes * Json)) (key : bytes) : bool :=
  bool_decide (key ∈ map fst fields).

(** [Value::get] with a string key. *)
Definition get (v : Json) (key : string) : option Json :=
  fields ← as_object v; field fields (as_bytes key).

(** [collect::<Option<Vec<_>>>]. *)
Fixpoint collect {A : Type} (l : list (option A)) : option (list A) :=
  match l with
  | [] => Some []
  | x :: l' => a ← x; rest ← collect l'; Some (a :: rest)
  end.
