(* ===== verification/JsonText.v ===== *)
(** * The text of flat JSON objects (RFC 8259)

    What the parser of [serde_json] does with the texts that the client writes: objects
    whose values are strings or [null]. The characters of a string are those of section 7
    of the standard; [ReadsObjects] is the parser's contract, and [flat_reader] a parser
    that keeps it. *)

From S2P Require Import Prelude Bytes Text Json Http.

#[local] Open Scope Z_scope.

(** ** The characters of a string *)

Definition utf8_below_800 (code : Z) : bytes :=
  if code <? 128 then [code] else [192 + code / 64; 128 + code mod 64].

Definition simple_escape (c : Z) : option Z :=
  if (c =? 34) || (c =? 92) || (c =? 47) then Some c
  else if c =? 98 then Some 8 else if c =? 102 then Some 12 else if c =? 110 then Some 10
  else if c =? 114 then Some 13 else if c =? 116 then Some 9 else None.

(** A quote and a control character below U+0020 may not stand for themselves; of the
    escapes by number, those of characters below U+0800. *)
Fixpoint json_unescape (l : bytes) : option bytes :=
  match l with
  | [] => Some []
  | b :: rest =>
    if b =? 92 then
      match rest with
      | [] => None
      | c :: rest =>
        match simple_escape c with
        | Some x => cons x <$> json_unescape rest
        | None =>
          match rest with
          | d3 :: d2 :: d1 :: d0 :: rest =>
            let code := (hexdigit_value d2 * 16 + hexdigit_value d1) * 16 + hexdigit_value d0 in
            if (c =? 117) && (d3 =? 48) && is_ascii_hexdigit d2 && is_ascii_hexdigit d1
               && is_ascii_hexdigit d0 && (code <? 2048)
            then app (utf8_below_800 code) <$> json_unescape rest else None
          | _ => None
          end
        end
      end
    else if (b =? 34) || (b <? 32) then None
    else cons b <$> json_unescape rest
  end.

Lemma json_unescape_plain b l :
  b <> 92 -> json_unescape (b :: l) = if (b =? 34) || (b <? 32) then None else cons b <$> json_unescape l.
Proof. intros Hb. cbn [json_unescape]. by rewrite (proj2 (Z.eqb_neq b 92)). Qed.

(** What follows an escape that is read. *)
Lemma json_unescape_escape c l s :
  json_unescape (92 :: c :: l) = Some s ->
  is_Some (json_unescape l)
  \/ exists d2 d1 d0 l', l = 48 :: d2 :: d1 :: d0 :: l' /\ is_Some (json_unescape l')
       /\ is_ascii_hexdigit d2 = true /\ is_ascii_hexdigit d1 = true /\ is_ascii_hexdigit d0 = true.
Proof.
  cbn [json_unescape]. change (92 =? 92) with true. cbv iota. destruct (simple_escape c) as [x|].
  { intros (t & Ht & _)%fmap_Some. left. by eexists. }
  destruct l as [|d3 [|d2 [|d1 [|d0 l]]]]; [discriminate..|]. cbv zeta. case_match eqn:Hd; [|discriminate].
  intros (t & Ht & _)%fmap_Some. right. b2p. destruct_and!. subst d3. exists d2, d1, d0, l.
  by split_and!.
Qed.

(** ** Flat objects *)

(** A member is the text of its key, and that of its string or nothing for [null]. *)
Definition quote (text : bytes) : bytes := [34] ++ text ++ [34].
Definition value_text (value : option bytes) : bytes :=
  match value with Some text => quote text | None => as_bytes "null" end.
Definition member_text (member : bytes * option bytes) : bytes :=
  quote member.1 ++ [58] ++ value_text member.2.

Fixpoint members_text (members : list (bytes * option bytes)) : bytes :=
  match members with
  | [] => []
  | [member] => member_text member
  | member :: rest => member_text member ++ [44] ++ members_text rest
  end.
Definition object_text (members : list (bytes * option bytes)) : bytes := [123] ++ members_text members ++ [125].

Definition denotes_string (text s : bytes) : Prop := json_unescape text = Some s /\ is_utf8 s = true.

Definition denotes_member (member : bytes * option bytes) (field : bytes * Json) : Prop :=
  denotes_string member.1 field.1
  /\ match member.2 with
     | Some text => exists s, denotes_string text s /\ field.2 = JString s
     | None => field.2 = JNull
     end.

(** A text of an object whose keys differ is read as that object. *)
Class ReadsObjects (serde : Serde) : Prop :=
  reads_object members fields :
    members <> [] -> Forall2 denotes_member members fields -> NoDup (map fst fields) ->
    exists sorted, sorted ≡ₚ fields /\ from_slice (object_text members) = Some (JObject sorted).

(** ** The fields of an object *)

Lemma field_elem fields key v : NoDup (map fst fields) -> (key, v) ∈ fields -> field fields key = Some v.
Proof.
  unfold field. induction fields as [|[k x] fields IH]; [by intros _ ?%elem_of_nil|]. cbn.
  intros [Hk Hn]%NoDup_cons Hin. apply elem_of_cons in Hin as [[= -> ->]|Hin].
  - by rewrite bool_decide_true.
  - rewrite bool_decide_false; [by apply IH|]. intros ->. apply Hk. apply list_elem_of_fmap. by exists (key, v).
Qed.

Lemma field_permutation sorted fields key v :
  sorted ≡ₚ fields -> NoDup (map fst fields) -> (key, v) ∈ fields -> field sorted key = Some v.
Proof.
  intros Hp Hn Hin. apply field_elem; [|by rewrite Hp]. by rewrite (Permutation_map fst Hp).
Qed.

Lemma contains_permutation sorted fields key v :
  sorted ≡ₚ fields -> (key, v) ∈ fields -> contains_key sorted key = true.
Proof.
  intros Hp Hin. apply bool_decide_eq_true. rewrite (Permutation_map fst Hp). apply list_elem_of_fmap.
  by exists (key, v).
Qed.

(** ** A reader *)

(** The text of a string up to its closing quote, and what follows. *)
Fixpoint closing (l : bytes) : option (bytes * bytes) :=
  match l with
  | [] => None
  | b :: rest =>
    if b =? 34 then Some ([], rest)
    else if b =? 92 then
      match rest with
      | [] => None
      | c :: rest => '(text, rest) ← closing rest; Some (b :: c :: text, rest)
      end
    else '(text, rest) ← closing rest; Some (b :: text, rest)
  end.

Definition read_string (l : bytes) : option (bytes * bytes) :=
  l ← strip_prefix [34] l;
  '(text, rest) ← closing l;
  s ← json_unescape text;
  if is_utf8 s then Some (s, rest) else None.

Definition read_value (l : bytes) : option (Json * bytes) :=
  match strip_prefix (as_bytes "null") l with
  | Some rest => Some (JNull, rest)
  | None => '(s, rest) ← read_string l; Some (JString s, rest)
  end.

Fixpoint read_members (fuel : nat) (l : bytes) : option (list (bytes * Json)) :=
  match fuel with
  | O => None
  | S fuel =>
    '(key, l) ← read_string l;
    l ← strip_prefix [58] l;
    '(value, l) ← read_value l;
    if bool_decide (l = [125]) then Some [(key, value)]
    else l ← strip_prefix [44] l; rest ← read_members fuel l; Some ((key, value) :: rest)
  end.

Definition flat_reader : Serde :=
  {| from_slice := fun l => l ← strip_prefix [123] l; JObject <$> read_members (length l) l;
     to_vec := fun _ => None |}.

Lemma closing_plain b l : b <> 34 -> b <> 92 ->
  closing (b :: l) = '(text, rest) ← closing l; Some (b :: text, rest).
Proof. intros H1 H2. cbn [closing]. by rewrite (proj2 (Z.eqb_neq b 34)), (proj2 (Z.eqb_neq b 92)). Qed.

Lemma closing_hexdigit d l : is_ascii_hexdigit d = true ->
  closing (d :: l) = '(text, rest) ← closing l; Some (d :: text, rest).
Proof.
  intros Hd. unfold is_ascii_hexdigit in Hd. apply closing_plain; intros ->; discriminate.
Qed.

Lemma closing_spec text r : is_Some (json_unescape text) -> closing (text ++ 34 :: r) = Some (text, r).
Proof.
  induction text as [text IH] using (induction_ltof1 _ (@length Z)). unfold ltof in IH. intros [s Hs].
  destruct text as [|b text]; [done|]. cbn [app]. destruct (decide (b = 92)) as [->|Hb].
  - destruct text as [|c text]; [done|]. cbn [app]. cbn [closing]. change (92 =? 34) with false. change (92 =? 92) with true.
    cbv iota. apply json_unescape_escape in Hs as [Hs|(d2 & d1 & d0 & l & -> & Hs & H2 & H1 & H0)].
    + rewrite IH by (cbn; (lia || done)). done.
    + cbn [app]. rewrite (closing_plain 48), !closing_hexdigit by done. rewrite IH by (cbn; (lia || done)). done.
  - rewrite json_unescape_plain in Hs by done. destruct (Z.eqb_spec b 34); [done|]. cbn [orb] in Hs.
    destruct (b <? 32); [done|]. apply fmap_Some in Hs as (t & Ht & _).
    rewrite closing_plain by done. rewrite IH by (cbn; (lia || by eexists)). done.
Qed.

Lemma strip_prefix_app p r : strip_prefix p (p ++ r) = Some r.
Proof. by apply strip_prefix_Some. Qed.

Lemma read_string_spec text s r : denotes_string text s -> read_string (quote text ++ r) = Some (s, r).
Proof.
  intros [Hs Hu]. unfold read_string, quote. rewrite <- !app_assoc, strip_prefix_app. cbn [mbind option_bind app].
  rewrite closing_spec by (by eexists). cbn [mbind option_bind]. rewrite Hs. cbn [mbind option_bind]. by rewrite Hu.
Qed.

Lemma read_value_spec value v r :
  match value with Some text => exists s, denotes_string text s /\ v = JString s | None => v = JNull end ->
  read_value (value_text value ++ r) = Some (v, r).
Proof.
  unfold read_value. destruct value as [text|]; cbn [value_text].
  - intros (s & Hs & ->). change (strip_prefix (as_bytes "null") (quote text ++ r)) with (@None bytes).
    by rewrite (read_string_spec text s).
  - intros ->. by rewrite strip_prefix_app.
Qed.

Lemma members_text_cons member member' members :
  members_text (member :: member' :: members) = member_text member ++ [44] ++ members_text (member' :: members).
Proof. reflexivity. Qed.

Lemma read_members_spec members fields fuel :
  members <> [] -> Forall2 denotes_member members fields -> (length members <= fuel)%nat ->
  read_members fuel (members_text members ++ [125]) = Some fields.
Proof.
  intros Hne Hf. revert fuel Hne.
  induction Hf as [|[k value] [key v] members fields [Hk Hv] Hf IH]; [done|]. intros [|fuel] _ Hlen; [cbn in Hlen; lia|].
  cbn [fst snd] in Hk, Hv. cbn [read_members].
  destruct members as [|member members].
  - apply Forall2_nil_inv_l in Hf as ->. cbn [members_text]. unfold member_text. cbn [fst snd]. rewrite <- !app_assoc.
    rewrite (read_string_spec k key) by done. cbn [mbind option_bind].
    rewrite strip_prefix_app. cbn [mbind option_bind]. rewrite (read_value_spec value v) by done. done.
  - rewrite members_text_cons. unfold member_text at 1. cbn [fst snd]. rewrite <- !app_assoc.
    rewrite (read_string_spec k key) by done. cbn [mbind option_bind].
    rewrite strip_prefix_app. cbn [mbind option_bind]. rewrite (read_value_spec value v) by done. cbn [mbind option_bind].
    rewrite bool_decide_false by done. rewrite strip_prefix_app. cbn [mbind option_bind].
    rewrite (IH fuel) by (done || (cbn in *; lia)). done.
Qed.

Lemma members_text_length members : (length members <= S (length (members_text members)))%nat.
Proof.
  induction members as [|member [|member' members] IH]; [cbn; lia|cbn; lia|].
  rewrite members_text_cons, !length_app. cbn [length] in *. lia.
Qed.

#[export] Instance flat_reader_reads : ReadsObjects flat_reader.
Proof.
  intros members fields Hne Hf Hn. exists fields. split; [done|]. unfold from_slice, flat_reader, object_text.
  rewrite strip_prefix_app. cbn [mbind option_bind]. rewrite (read_members_spec members fields); [done..|].
  rewrite length_app. pose proof (members_text_length members). cbn. lia.
Qed.
