(* ===== verification/Connectors.v ===== *)
(** * Provider drivers ([crates/msgriver-connectors/src/driver.rs], [ntfy.rs],
    [whatsapp.rs])

    One delivery is one provider attempt. The network is the environment: how far
    the connection got, and what the reads returned. Name resolution, TLS and
    certificate checks are rustls and the operating system; their failures are
    cases of the environment. An attempt records the request it wrote, which its
    outcome has to be honest about. *)

From S2P Require Import Prelude Bytes Text Json Http.

#[local] Open Scope Z_scope.

(** ** driver.rs *)

Inductive Delivery : Type :=
| DeliverNtfy (topic : bytes) (title : option bytes) (body : bytes)
| DeliverWhatsapp (recipient template locale : bytes) (parameters : list bytes).

Inductive DeliveryOutcome : Type :=
| Accepted (acknowledgement : bytes)
| RateLimited | Transient | Permanent | AuthOrConfig | Ambiguous.

Inductive DriverError : Type := InvalidEndpoint | InvalidDelivery.

(** How a call into a driver ends: overflow checks make a panic possible. *)
Inductive Exit : Type :=
| Returned (r : result DriverError DeliveryOutcome)
| Panicked.

(** What the environment did with one attempt, and with the bytes written to it.
    [NoAddress] (the host does not resolve) and [NoSession] (trust roots, server
    name or TLS session refused) can only happen to the driver that uses names
    and TLS; the ntfy driver connects to a literal address over plain TCP. *)
Inductive Io : Type :=
| WriteFailed               (* writing or flushing the request failed *)
| Exchanged (reads : Reads). (* the request was written; these reads follow *)

Inductive Network : Type :=
| NoAddress
| NoConnection              (* connecting, or setting the timeouts, failed *)
| NoSession
| Connected (peer : bytes -> Io). (* the reaction to the bytes written *)

(** One attempt: the request handed to the connection, of which any part may have
    left; the reads that followed a request written whole; and how the call ended. *)
Record Attempt : Type := mkAttempt {
  written : option bytes;
  heard : option Reads;
  exit : Exit
}.

Definition valid_acknowledgement (value : bytes) : bool :=
  negb (bool_decide (value = [])) && (len value <=? 256) && negb (contains_any [0] value).

(** ** ntfy.rs *)

Module Ntfy.

Definition MAX_RESPONSE_HEADERS : Z := 16 * 1024.

Record NtfyEndpoint : Type := mkNtfyEndpoint {
  host : bytes;
  port : Z;
  prefix : bytes
}.

Record NtfyMessage : Type := mkNtfyMessage {
  topic : bytes;
  title : option bytes;
  body : bytes
}.

(** [trim_end_matches('/')]. *)
Fixpoint drop_slashes (l : bytes) : bytes :=
  match l with b :: l' => if b =? 47 then drop_slashes l' else l | [] => [] end.
Definition trim_end_slashes (l : bytes) : bytes := rev (drop_slashes (rev l)).

Definition parse_authority (authority : bytes) : result DriverError (bytes * Z) :=
  match rsplit_once 58 authority with
  | Some (host, port) =>
    if negb (contains_any [58] host)
    then port ← ok_or (parse_u16 port) InvalidEndpoint; Ok (host, port)
    else Err InvalidEndpoint
  | None => Ok (authority, 80)
  end.

Definition parse (value : bytes) : result DriverError NtfyEndpoint :=
  authority_and_path ← ok_or (strip_prefix (as_bytes "http://") value) InvalidEndpoint;
  if bool_decide (authority_and_path = []) || contains_any (as_bytes "?#@") authority_and_path
     || has_whitespace authority_and_path
  then Err InvalidEndpoint
  else
    let '(authority, suffix) :=
      match split_once 47 authority_and_path with
      | Some (authority, path) => (authority, path)
      | None => (authority_and_path, [])
      end in
    '(host, port) ← parse_authority authority;
    if negb (bool_decide (host = as_bytes "127.0.0.1"))
       && negb (bool_decide (host = as_bytes "localhost"))
    then Err InvalidEndpoint
    else
      prefix ←
        (if bool_decide (suffix = []) then Ok []
         else
           let candidate := 47 :: suffix in
           if existsb (fun b => is_ascii_control b || (b =? 32)) candidate
           then Err InvalidEndpoint else Ok (trim_end_slashes candidate));
      Ok (mkNtfyEndpoint host port prefix).

Definition topic_byte (b : Z) : bool := is_ascii_alphanumeric b || (b =? 45) || (b =? 95).

Definition validate_message (message : NtfyMessage) : result DriverError unit :=
  if bool_decide (topic message = []) || (64 <? len (topic message))
     || negb (forallb topic_byte (topic message))
     || bool_decide (body message = []) || (4096 <? len (body message))
     || contains_any [0] (body message)
     || match title message with
        | Some title => bool_decide (title = []) || (256 <? len title)
                        || contains_any [13; 10; 0] title
        | None => false
        end
  then Err InvalidDelivery else Ok tt.

Definition request_bytes (endpoint : NtfyEndpoint) (message : NtfyMessage) : bytes :=
  let path := prefix endpoint ++ [47] ++ topic message in
  let host := if port endpoint =? 80 then host endpoint
              else host endpoint ++ [58] ++ decimal (port endpoint) in
  as_bytes "POST " ++ path ++ as_bytes " HTTP/1.1" ++ CRLF
  ++ as_bytes "Host: " ++ host ++ CRLF
  ++ as_bytes "User-Agent: MsgRiver/0.1.0-alpha" ++ CRLF
  ++ as_bytes "Content-Type: text/plain; charset=utf-8" ++ CRLF
  ++ as_bytes "Content-Length: " ++ decimal (len (body message)) ++ CRLF
  ++ as_bytes "Connection: close" ++ CRLF
  ++ match title message with
     | Some title => as_bytes "Title: " ++ title ++ CRLF
     | None => []
     end
  ++ CRLF ++ body message.

(** The inner read loop of [response]. *)
Fixpoint response_body (l : bytes) (total : Z) (reads : Reads) : option bytes :=
  if total <=? len l then Some l
  else match reads with
  | Some [] :: _ => None
  | Some chunk :: rest =>
    if MAX_RESPONSE_HEADERS <? len l + len chunk then None
    else response_body (l ++ chunk) total rest
  | _ => None
  end.

(** The status of the first line and the declared lengths of the other lines. *)
Definition response_status (line : bytes) : option Z :=
  if negb (is_utf8 line) then None
  else match split_ascii_whitespace line with
  | version :: status :: _ =>
    if negb (bool_decide (version = as_bytes "HTTP/1.1"))
       && negb (bool_decide (version = as_bytes "HTTP/1.0")) then None
    else parse_u16 status
  | _ => None
  end.

Definition response_lengths (headers : bytes) : option (list Z) :=
  if negb (is_utf8 headers) then None
  else collect (map (fun '(_, value) => parse_usize (trim value))
    (List.filter (fun '(name, _) => eq_ignore_ascii_case name (as_bytes "content-length"))
      (omap (split_once 58) (split_crlf headers)))).

(** What follows the head in [response]; [Err] is the panic. *)
Definition response_after_head (l : bytes) (separator : nat) (rest : Reads)
    : result unit (option (Z * bytes)) :=
  let header_end := Z.of_nat separator + 4 in
  match position CRLF l with
  | None => Ok None
  | Some line_end =>
    match response_status (take line_end l) with
    | None => Ok None
    | Some status =>
      match response_lengths (drop (line_end + 2) (take (separator + 4) l)) with
      | Some [length] =>
        (* [MAX_RESPONSE_HEADERS - header_end] on [usize] *)
        maximum ← ok_or (checked is_u64 (MAX_RESPONSE_HEADERS - header_end)) tt;
        if maximum <? length then Ok None
        else match response_body l (header_end + length) rest with
        | None => Ok None
        | Some l =>
          if negb (len l =? header_end + length) then Ok None
          else Ok (Some (status, drop (separator + 4) l))
        end
      | _ => Ok None
      end
    end
  end.

Fixpoint response (l : bytes) (reads : Reads) : result unit (option (Z * bytes)) :=
  if MAX_RESPONSE_HEADERS <=? len l then Ok None
  else match reads with
  | Some [] :: _ => Ok None
  | Some chunk :: rest =>
    let l := l ++ chunk in
    match position CRLFCRLF l with
    | Some separator => response_after_head l separator rest
    | None => response l rest
    end
  | _ => Ok None
  end.

(** The mapping of a complete response. *)
Definition classify `{Serde} (status : Z) (body : bytes) : result DriverError DeliveryOutcome :=
  if within 200 299 status then
    match (value ← from_slice body; id ← get value "id"; as_str id) with
    | Some acknowledgement =>
      if valid_acknowledgement acknowledgement then Ok (Accepted acknowledgement)
      else Err InvalidDelivery
    | None => Err InvalidDelivery
    end
  else if status =? 429 then Ok RateLimited
  else if (status =? 401) || (status =? 403) || (status =? 404) then Ok AuthOrConfig
  else if within 400 499 status then Ok Permanent
  else Ok Ambiguous.

Definition deliver `{Serde} (endpoint : NtfyEndpoint) (message : NtfyMessage)
    (network : Network) : Attempt :=
  match validate_message message with
  | Err e => mkAttempt None None (Returned (Err e))
  | Ok _ =>
    match network with
    | NoAddress | NoConnection | NoSession => mkAttempt None None (Returned (Ok Transient))
    | Connected peer =>
      let request := request_bytes endpoint message in
      match peer request with
      | WriteFailed => mkAttempt (Some request) None (Returned (Ok Ambiguous))
      | Exchanged reads =>
        mkAttempt (Some request) (Some reads)
          match response [] reads with
          | Err _ => Panicked
          | Ok None => Returned (Ok Ambiguous)
          | Ok (Some (status, body)) => Returned (classify status body)
          end
      end
    end
  end.

End Ntfy.

(** ** whatsapp.rs *)

(** [RootCertStore::add]: which DER certificates the TLS library takes as a
    trust anchor. *)
Class TrustAnchors : Type := anchor_ok : bytes -> bool.

Module Whatsapp.

Definition MAX_PARAMETERS : Z := 15.
Definition MAX_PARAMETER_BYTES : Z := 1024.
Definition MAX_RESPONSE : Z := 16 * 1024.

Record WhatsappEndpoint : Type := mkWhatsappEndpoint {
  host : bytes;
  port : Z;
  version : bytes;
  phone_id : bytes
}.

Record TemplateRegistration : Type := mkTemplateRegistration {
  name : bytes;
  locale : bytes;
  parameter_count : Z
}.

Record WhatsappDriver : Type := mkWhatsappDriver {
  endpoint : WhatsappEndpoint;
  token : bytes;
  registration : TemplateRegistration;
  additional_root : option bytes
}.

Record WhatsappMessage : Type := mkWhatsappMessage {
  recipient : bytes;
  template : bytes;
  message_locale : bytes;
  parameters : list bytes
}.

Definition valid_host (value : bytes) : bool :=
  negb (bool_decide (value = [])) && (len value <=? 253)
  && forallb (fun b => is_ascii_alphanumeric b || (b =? 46) || (b =? 45)) value.

Definition valid_version (value : bytes) : bool :=
  (2 <=? len value) && starts_with [118] value
  && forallb (fun b => is_ascii_digit b || (b =? 46)) (drop 1 value).

Definition valid_phone_id (value : bytes) : bool :=
  negb (bool_decide (value = [])) && (len value <=? 32) && forallb is_ascii_digit value.

Definition valid_token (value : bytes) : bool :=
  negb (bool_decide (value = [])) && (len value <=? 4096) && forallb is_ascii_graphic value.

Definition valid_recipient (value : bytes) : bool :=
  within 8 16 (len value)
  && match value with
     | first :: second :: rest =>
       (first =? 43) && within 49 57 second && forallb is_ascii_digit rest
     | _ => false
     end.

Definition valid_template (value : bytes) : bool :=
  negb (bool_decide (value = [])) && (len value <=? 128)
  && forallb (fun b => is_ascii_alphanumeric b || (b =? 95)) value.

Definition valid_locale (value : bytes) : bool :=
  match value with
  | [b0; b1; b2; b3; b4] =>
    (b2 =? 95) && is_ascii_lowercase b0 && is_ascii_lowercase b1
    && is_ascii_uppercase b3 && is_ascii_uppercase b4
  | _ => false
  end.

Definition valid_parameter (value : bytes) : bool :=
  negb (bool_decide (value = [])) && (len value <=? MAX_PARAMETER_BYTES)
  && negb (contains_any [0] value).

Definition parse_authority (authority : bytes) : result DriverError (bytes * Z) :=
  match rsplit_once 58 authority with
  | Some (host, port) =>
    if negb (bool_decide (host = [])) && negb (contains_any [58] host)
    then port ← ok_or (parse_u16 port) InvalidEndpoint; Ok (host, port)
    else Err InvalidEndpoint
  | None => Ok (authority, 443)
  end.

Definition parse (url phone_id : bytes) : result DriverError WhatsappEndpoint :=
  authority_and_path ← ok_or (strip_prefix (as_bytes "https://") url) InvalidEndpoint;
  if bool_decide (authority_and_path = []) || contains_any (as_bytes "?#@") authority_and_path
     || has_whitespace authority_and_path || negb (valid_phone_id phone_id)
  then Err InvalidEndpoint
  else
    '(authority, path) ← ok_or (split_once 47 authority_and_path) InvalidEndpoint;
    '(host, port) ← parse_authority authority;
    if negb (valid_host host) || negb (valid_version path) then Err InvalidEndpoint
    else Ok (mkWhatsappEndpoint host port path phone_id).

Definition new_with_additional_root `{TrustAnchors} (endpoint : WhatsappEndpoint)
    (token : bytes) (registration : TemplateRegistration) (additional_root : option bytes)
    : result DriverError WhatsappDriver :=
  if negb (valid_token token) || negb (valid_template (name registration))
     || negb (valid_locale (locale registration))
     || (MAX_PARAMETERS <? parameter_count registration)
     || match additional_root with
        | Some certificate => bool_decide (certificate = []) || (32 * 1024 <? len certificate)
        | None => false
        end
  then Err InvalidEndpoint
  else
    match additional_root with
    | Some certificate => if anchor_ok certificate then Ok tt else Err InvalidEndpoint
    | None => Ok tt
    end ;;
    Ok (mkWhatsappDriver endpoint token registration additional_root).

Definition new `{TrustAnchors} (endpoint : WhatsappEndpoint) (token : bytes)
    (registration : TemplateRegistration) : result DriverError WhatsappDriver :=
  new_with_additional_root endpoint token registration None.

(** The values [json!] builds; the keys of each object in order. *)
Definition parameter_json (text : bytes) : Json :=
  JObject [(as_bytes "text", JString text); (as_bytes "type", JString (as_bytes "text"))].

Definition request_json (message : WhatsappMessage) : Json :=
  JObject [
    (as_bytes "messaging_product", JString (as_bytes "whatsapp"));
    (as_bytes "template", JObject [
       (as_bytes "components", JArray [JObject [
          (as_bytes "parameters", JArray (map parameter_json (parameters message)));
          (as_bytes "type", JString (as_bytes "body"))]]);
       (as_bytes "language", JObject [(as_bytes "code", JString (message_locale message))]);
       (as_bytes "name", JString (template message))]);
    (as_bytes "to", JString (recipient message));
    (as_bytes "type", JString (as_bytes "template"))].

Definition request_body `{Serde} (registration : TemplateRegistration)
    (message : WhatsappMessage) : result DriverError bytes :=
  if negb (valid_recipient (recipient message))
     || negb (valid_template (name registration))
     || negb (valid_locale (locale registration))
     || negb (bool_decide (template message = name registration))
     || negb (bool_decide (message_locale message = locale registration))
     || negb (Z.of_nat (length (parameters message)) =? parameter_count registration)
     || (MAX_PARAMETERS <? Z.of_nat (length (parameters message)))
     || existsb (fun value => negb (valid_parameter value)) (parameters message)
  then Err InvalidDelivery
  else ok_or (to_vec (request_json message)) InvalidDelivery.

Definition request (driver : WhatsappDriver) (body : bytes) : bytes :=
  let e := endpoint driver in
  let host := if port e =? 443 then host e else host e ++ [58] ++ decimal (port e) in
  as_bytes "POST /" ++ version e ++ [47] ++ phone_id e ++ as_bytes "/messages HTTP/1.1" ++ CRLF
  ++ as_bytes "Host: " ++ host ++ CRLF
  ++ as_bytes "Authorization: Bearer " ++ token driver ++ CRLF
  ++ as_bytes "Content-Type: application/json" ++ CRLF
  ++ as_bytes "Content-Length: " ++ decimal (len body) ++ CRLF
  ++ as_bytes "Connection: close" ++ CRLF ++ CRLF ++ body.

Fixpoint read_response (response : bytes) (reads : Reads) : option bytes :=
  if MAX_RESPONSE <=? len response then None
  else match reads with
  | Some [] :: _ => Some response
  | Some chunk :: rest =>
    if MAX_RESPONSE <? len response + len chunk then None
    else read_response (response ++ chunk) rest
  | _ => None
  end.

Definition acknowledgement_of `{Serde} (body : bytes) : option bytes :=
  value ← from_slice body;
  messages ← get value "messages";
  items ← as_array messages;
  first ← head items;
  id ← get first "id";
  as_str id.

Definition response_status (text : bytes) : option Z :=
  line ← head (lines text);
  value ← split_ascii_whitespace line !! 1%nat;
  parse_u16 value.

Definition classify_response `{Serde} (response : option bytes) : DeliveryOutcome :=
  match response with
  | None => Ambiguous
  | Some response =>
    match position CRLFCRLF response with
    | None => Ambiguous
    | Some separator =>
      let head := take separator response in
      if negb (is_utf8 head) then Ambiguous
      else match response_status head with
      | None => Ambiguous
      | Some status =>
        if status =? 200 then
          match acknowledgement_of (drop (separator + 4) response) with
          | Some value => if valid_acknowledgement value then Accepted value else Ambiguous
          | None => Ambiguous
          end
        else if (status =? 401) || (status =? 403) || (status =? 404) then AuthOrConfig
        else if status =? 429 then RateLimited
        else if within 400 499 status then Permanent
        else Ambiguous
      end
    end
  end.

Definition deliver `{Serde} (driver : WhatsappDriver) (message : WhatsappMessage)
    (network : Network) : Attempt :=
  match request_body (registration driver) message with
  | Err e => mkAttempt None None (Returned (Err e))
  | Ok body =>
    match network with
    | NoAddress => mkAttempt None None (Returned (Err InvalidEndpoint))
    | NoConnection => mkAttempt None None (Returned (Ok Transient))
    | NoSession => mkAttempt None None (Returned (Err InvalidEndpoint))
    | Connected peer =>
      let request := request driver body in
      match peer request with
      | WriteFailed => mkAttempt (Some request) None (Returned (Ok Ambiguous))
      | Exchanged reads =>
        mkAttempt (Some request) (Some reads)
          (Returned (Ok (classify_response (read_response [] reads))))
      end
    end
  end.

End Whatsapp.

(** ** The closed driver set *)

Inductive Driver : Type :=
| DriverNtfy (endpoint : Ntfy.NtfyEndpoint)
| DriverWhatsapp (driver : Whatsapp.WhatsappDriver).

Definition deliver `{Serde} (driver : Driver) (delivery : Delivery) (network : Network)
    : Attempt :=
  match driver, delivery with
  | DriverNtfy endpoint, DeliverNtfy topic title body =>
    Ntfy.deliver endpoint (Ntfy.mkNtfyMessage topic title body) network
  | DriverWhatsapp driver, DeliverWhatsapp recipient template locale parameters =>
    Whatsapp.deliver driver (Whatsapp.mkWhatsappMessage recipient template locale parameters)
      network
  | _, _ => mkAttempt None None (Returned (Err InvalidDelivery))
  end.

(** ** Lemmas: what validation excludes *)

Lemma contains_any_false set l :
  contains_any set l = false <-> Forall (fun b => b ∉ set) l.
Proof.
  unfold contains_any. induction l as [|b l IH]; [split; [by constructor|done]|].
  cbn. rewrite orb_false_iff, IH, Forall_cons.
  enough (existsb (Z.eqb b) set = false <-> b ∉ set) as -> by done.
  rewrite <- not_true_iff_false, existsb_exists, list_elem_of_In. split.
  - intros H Hin. apply H. exists b. by rewrite Z.eqb_refl.
  - intros H (x & Hin & Hx%Z.eqb_eq). by subst.
Qed.

Lemma contains_any_cr_free set l : 13 ∈ set -> contains_any set l = false -> cr_free l = true.
Proof.
  intros Hin Hf%contains_any_false. unfold cr_free. apply forallb_Forall.
  apply (Forall_impl _ _ _ Hf). intros b Hb. apply negb_true_iff, Z.eqb_neq. by intros ->.
Qed.

Lemma drop_slashes_suffix l : exists p, l = p ++ Ntfy.drop_slashes l.
Proof.
  induction l as [|b l [p Hp]]; [by exists []|]. cbn. destruct (b =? 47); [|by exists []].
  exists (b :: p). cbn. by f_equal.
Qed.

Lemma trim_end_slashes_prefix l : exists s, l = Ntfy.trim_end_slashes l ++ s.
Proof.
  unfold Ntfy.trim_end_slashes. destruct (drop_slashes_suffix (rev l)) as [p Hp].
  exists (rev p). rewrite <- rev_app_distr, <- Hp. by rewrite rev_involutive.
Qed.

Lemma parse_u16_range l v : parse_u16 l = Some v -> 0 <= v.
Proof.
  unfold parse_u16, parse_unsigned.
  assert (forall l, parse_digits u16_max l = Some v -> 0 <= v) as H.
  { intros [|b k]; [done|]. unfold parse_digits.
    destruct (forallb is_ascii_digit (b :: k)) eqn:Hd; [|done]. cbv zeta.
    destruct (_ <=? u16_max); [|done]. intros [= <-].
    assert (forall k acc, forallb is_ascii_digit k = true -> 0 <= acc ->
      0 <= foldl (fun acc b => acc * 10 + (b - 48)) acc k) as Hfold; [|exact (Hfold (b :: k) 0 Hd (Z.le_refl 0))].
    clear. induction k as [|x k IH]; intros acc; [done|].
    intros [Hx Hk]%andb_true_iff Hacc. cbn. apply IH; [done|].
    unfold is_ascii_digit in Hx. b2p. lia. }
  destruct (strip_prefix [43] l); apply H.
Qed.

Definition ntfy_lines (endpoint : Ntfy.NtfyEndpoint) (message : Ntfy.NtfyMessage) : list bytes :=
  [as_bytes "POST " ++ Ntfy.prefix endpoint ++ [47] ++ Ntfy.topic message ++ as_bytes " HTTP/1.1";
   as_bytes "Host: " ++ (if Ntfy.port endpoint =? 80 then Ntfy.host endpoint
                         else Ntfy.host endpoint ++ [58] ++ decimal (Ntfy.port endpoint));
   as_bytes "User-Agent: MsgRiver/0.1.0-alpha";
   as_bytes "Content-Type: text/plain; charset=utf-8";
   as_bytes "Content-Length: " ++ decimal (len (Ntfy.body message));
   as_bytes "Connection: close"]
  ++ match Ntfy.title message with Some title => [as_bytes "Title: " ++ title] | None => [] end.

Lemma ntfy_request_lines endpoint message :
  Ntfy.request_bytes endpoint message
  = join_crlf (ntfy_lines endpoint message) ++ CRLFCRLF ++ Ntfy.body message.
Proof.
  unfold Ntfy.request_bytes, ntfy_lines. change CRLFCRLF with (CRLF ++ CRLF).
  destruct (Ntfy.title message); cbn [app join_crlf];
    repeat (rewrite <- app_comm_cons || rewrite <- app_assoc); reflexivity.
Qed.

Definition plain_endpoint (endpoint : Ntfy.NtfyEndpoint) : Prop :=
  cr_free (Ntfy.host endpoint) = true /\ cr_free (Ntfy.prefix endpoint) = true
  /\ 0 <= Ntfy.port endpoint.

Lemma ntfy_parse_plain value endpoint : Ntfy.parse value = Ok endpoint -> plain_endpoint endpoint.
Proof.
  unfold Ntfy.parse. intros (ap & _ & H)%bind_Ok.
  destruct (bool_decide (ap = []) || _ || _); [done|].
  destruct (match split_once 47 ap with Some (a, p) => (a, p) | None => (ap, []) end)
    as [authority suffix].
  apply bind_Ok in H as ([host port] & Hauth & H).
  destruct (bool_decide_reflect (host = as_bytes "127.0.0.1")) as [Hh|];
    destruct (bool_decide_reflect (host = as_bytes "localhost")) as [Hh'|]; try done; cbn [negb andb] in H;
    apply bind_Ok in H as (prefix & Hp & [= <-]); (split; [by subst|]); cbn [Ntfy.prefix Ntfy.port].
  all: split; [|unfold Ntfy.parse_authority in Hauth; destruct (rsplit_once 58 authority) as [[h p]|];
    [destruct (negb (contains_any [58] h)); [|done]; apply bind_Ok in Hauth as (v & Hv & Hin);
     apply ok_or_Ok in Hv; apply Ok_inj in Hin; simplify_eq; by eapply parse_u16_range
    |by injection Hauth as <- <-]].
  all: destruct (bool_decide (suffix = [])); [by injection Hp as <-|]; cbv zeta in Hp;
    destruct (existsb _ (47 :: suffix)) eqn:Hc; [done|]; injection Hp as <-;
    destruct (trim_end_slashes_prefix (47 :: suffix)) as [s Hs]; rewrite Hs in Hc;
    rewrite existsb_app in Hc; apply orb_false_iff in Hc as [Hc _];
    unfold cr_free; apply forallb_forall; intros b Hb; apply negb_true_iff, Z.eqb_neq; intros ->;
    apply not_true_iff_false in Hc; apply Hc; apply existsb_exists; exists 13; done.
Qed.

Lemma ntfy_message_plain message :
  Ntfy.validate_message message = Ok tt ->
  cr_free (Ntfy.topic message) = true
  /\ forall title, Ntfy.title message = Some title -> cr_free title = true.
Proof.
  unfold Ntfy.validate_message.
  destruct (_ || _ || _ || _ || _ || _ || _) eqn:E; [done|]. intros _.
  rewrite !orb_false_iff in E. destruct E as [[[[[[_ _] Ht] _] _] _] Htitle]. split.
  - apply negb_false_iff in Ht. revert Ht. apply cr_free_from. intros b. unfold Ntfy.topic_byte,
      is_ascii_alphanumeric, is_ascii_digit, is_ascii_uppercase, is_ascii_lowercase. intros Hb. b2p. lia.
  - intros title Hti. rewrite Hti, !orb_false_iff in Htitle. destruct Htitle as [_ Hc].
    eapply contains_any_cr_free; [|exact Hc]. by left.
Qed.

Lemma ntfy_lines_plain endpoint message :
  plain_endpoint endpoint -> Ntfy.validate_message message = Ok tt ->
  Forall (fun l => cr_free l = true /\ l <> []) (ntfy_lines endpoint message).
Proof.
  intros (Hh & Hp & Hport) [Ht Htitle]%ntfy_message_plain. unfold ntfy_lines.
  assert (forall n, 0 <= n -> cr_free (decimal n) = true) as Hd
    by (intros n Hn; by apply digit_cr_free, decimal_digits).
  repeat (apply Forall_cons; split); try (split; [|done]); try done.
  - by rewrite !cr_free_app, Hp, Ht.
  - rewrite cr_free_app. destruct (_ =? 80); [by rewrite Hh|].
    by rewrite !cr_free_app, Hh, (Hd _ Hport).
  - rewrite cr_free_app, Hd; [done|]. unfold len. lia.
  - destruct (Ntfy.title message) as [title|] eqn:E; [|constructor].
    apply Forall_singleton. split; [|done]. by rewrite cr_free_app, (Htitle _ eq_refl).
Qed.

Definition whatsapp_lines (driver : Whatsapp.WhatsappDriver) (body : bytes) : list bytes :=
  let e := Whatsapp.endpoint driver in
  [as_bytes "POST /" ++ Whatsapp.version e ++ [47] ++ Whatsapp.phone_id e
     ++ as_bytes "/messages HTTP/1.1";
   as_bytes "Host: " ++ (if Whatsapp.port e =? 443 then Whatsapp.host e
                         else Whatsapp.host e ++ [58] ++ decimal (Whatsapp.port e));
   as_bytes "Authorization: Bearer " ++ Whatsapp.token driver;
   as_bytes "Content-Type: application/json";
   as_bytes "Content-Length: " ++ decimal (len body);
   as_bytes "Connection: close"].

Lemma whatsapp_request_lines driver body :
  Whatsapp.request driver body = join_crlf (whatsapp_lines driver body) ++ CRLFCRLF ++ body.
Proof.
  unfold Whatsapp.request, whatsapp_lines. change CRLFCRLF with (CRLF ++ CRLF).
  cbn [app join_crlf]. repeat (rewrite <- app_comm_cons || rewrite <- app_assoc). reflexivity.
Qed.

Lemma graphic_cr_free (f : Z -> bool) l :
  (forall b, f b = true -> b <> 13) -> forallb f l = true -> cr_free l = true.
Proof. intros Hf. apply cr_free_from. intros b Hb%Hf. by apply negb_true_iff, Z.eqb_neq. Qed.

Definition plain_driver (driver : Whatsapp.WhatsappDriver) : Prop :=
  let e := Whatsapp.endpoint driver in
  cr_free (Whatsapp.host e) = true /\ cr_free (Whatsapp.version e) = true
  /\ cr_free (Whatsapp.phone_id e) = true /\ cr_free (Whatsapp.token driver) = true
  /\ 0 <= Whatsapp.port e.

Lemma whatsapp_lines_plain driver body :
  plain_driver driver -> Forall (fun l => cr_free l = true /\ l <> []) (whatsapp_lines driver body).
Proof.
  intros (Hh & Hv & Hp & Ht & Hport). unfold whatsapp_lines.
  assert (forall n, 0 <= n -> cr_free (decimal n) = true) as Hd
    by (intros n Hn; by apply digit_cr_free, decimal_digits).
  repeat (apply Forall_cons; split); try (split; [|done]); try done.
  - by rewrite !cr_free_app, Hv, Hp.
  - rewrite cr_free_app. destruct (_ =? 443); [by rewrite Hh|].
    by rewrite !cr_free_app, Hh, (Hd _ Hport).
  - rewrite cr_free_app, Hd; [done|]. unfold len. lia.
Qed.

(** A host, a version, a phone number or a token that is accepted has no CR. *)
Lemma whatsapp_parse_plain `{TrustAnchors} url phone token registration root endpoint driver :
  Whatsapp.parse url phone = Ok endpoint ->
  Whatsapp.new_with_additional_root endpoint token registration root = Ok driver ->
  plain_driver driver.
Proof.
  intros Hparse Hnew.
  assert (Whatsapp.endpoint driver = endpoint /\ Whatsapp.token driver = token
          /\ Whatsapp.valid_token token = true) as (He & Htok & Hvt).
  { unfold Whatsapp.new_with_additional_root in Hnew.
    destruct (Whatsapp.valid_token token); [|done].
    destruct (_ || _ || _ || _ || _); [done|].
    apply bind_Ok in Hnew as (u & _ & Hd). apply Ok_inj in Hd. by subst driver. }
  unfold Whatsapp.parse in Hparse. apply bind_Ok in Hparse as (ap & _ & Hparse).
  destruct (Whatsapp.valid_phone_id phone) eqn:Hphone; [|by rewrite orb_true_r in Hparse].
  destruct (_ || _ || _ || _); [done|].
  apply bind_Ok in Hparse as ([authority path] & _ & Hparse).
  apply bind_Ok in Hparse as ([host port] & Hauth & Hparse).
  destruct (Whatsapp.valid_host host) eqn:Hhost; [|done].
  destruct (Whatsapp.valid_version path) eqn:Hver; [|done]. apply Ok_inj in Hparse.
  unfold plain_driver. rewrite He, Htok. subst endpoint.
  cbn [Whatsapp.host Whatsapp.version Whatsapp.phone_id Whatsapp.port].
  unfold Whatsapp.valid_host, Whatsapp.valid_version, Whatsapp.valid_phone_id,
    Whatsapp.valid_token in *. rewrite !andb_true_iff in *. split_and!.
  - destruct Hhost as [_ Hl]. revert Hl. apply graphic_cr_free. intros b Hb ->. done.
  - destruct Hver as [[_ Hs] Hl]. apply starts_with_spec in Hs as [r ->].
    rewrite cr_free_app. cbn [drop] in Hl. apply andb_true_iff. split; [done|].
    revert Hl. apply graphic_cr_free. intros b Hb ->. done.
  - destruct Hphone as [_ Hl]. by apply digit_cr_free.
  - destruct Hvt as [_ Hl]. revert Hl. apply graphic_cr_free. intros b Hb ->. done.
  - unfold Whatsapp.parse_authority in Hauth.
    destruct (rsplit_once 58 authority) as [[h p]|]; [|by injection Hauth as <- <-].
    destruct (negb (bool_decide (h = [])) && _); [|done].
    apply bind_Ok in Hauth as (v & Hv & Hin%Ok_inj). apply ok_or_Ok in Hv.
    simplify_eq. by eapply parse_u16_range.
Qed.

(** ** Theorems *)

(** An ntfy publication is one request whatever the caller supplied: its head
    is exactly the listed lines, ended by the first blank line, and what follows
    is the message body, whose length the head declares. *)
Theorem ntfy_request_framed url endpoint message :
  Ntfy.parse url = Ok endpoint -> Ntfy.validate_message message = Ok tt ->
  exists head,
    Ntfy.request_bytes endpoint message = head ++ CRLFCRLF ++ Ntfy.body message
    /\ position CRLFCRLF (Ntfy.request_bytes endpoint message) = Some (length head)
    /\ split_crlf head = ntfy_lines endpoint message.
Proof.
  intros Hp%ntfy_parse_plain Hm. pose proof (ntfy_lines_plain _ _ Hp Hm) as Hl.
  exists (join_crlf (ntfy_lines endpoint message)). rewrite ntfy_request_lines. split_and!.
  - done.
  - by apply position_join.
  - apply split_crlf_join; [done|]. apply (Forall_impl _ _ _ Hl). by intros ? [? _].
Qed.

(** A WhatsApp request has exactly the listed lines, the operator's token on
    one of them and nothing of the caller in any of them, then the JSON body. *)
Theorem whatsapp_request_framed `{TrustAnchors} url phone token registration root endpoint driver body :
  Whatsapp.parse url phone = Ok endpoint ->
  Whatsapp.new_with_additional_root endpoint token registration root = Ok driver ->
  exists head,
    Whatsapp.request driver body = head ++ CRLFCRLF ++ body
    /\ position CRLFCRLF (Whatsapp.request driver body) = Some (length head)
    /\ split_crlf head = whatsapp_lines driver body.
Proof.
  intros Hp Hn. pose proof (whatsapp_parse_plain _ _ _ _ _ _ _ Hp Hn) as Hd.
  pose proof (whatsapp_lines_plain _ body Hd) as Hl.
  exists (join_crlf (whatsapp_lines driver body)). rewrite whatsapp_request_lines. split_and!.
  - done.
  - by apply position_join.
  - apply split_crlf_join; [done|]. apply (Forall_impl _ _ _ Hl). by intros ? [? _].
Qed.

(** ** Lemmas: reading an ntfy response *)

Lemma response_body_sound l total reads r :
  Ntfy.response_body l total reads = Some r ->
  exists chunks extra, reads = delivers chunks extra /\ r = l ++ concat chunks
    /\ (len r <= Ntfy.MAX_RESPONSE_HEADERS \/ r = l).
Proof.
  revert l. induction reads as [|[c|] reads IH]; intros l; cbn [Ntfy.response_body].
  - destruct (total <=? len l); [|done]. intros [= <-]. exists [], [].
    unfold delivers. cbn. rewrite app_nil_r. auto.
  - destruct (total <=? len l).
    { intros [= <-]. exists [], (Some c :: reads). unfold delivers. cbn. rewrite app_nil_r. auto. }
    destruct c as [|b c]; [done|].
    destruct (Z.ltb_spec Ntfy.MAX_RESPONSE_HEADERS (len l + len (b :: c))); [done|].
    intros (chunks & extra & -> & -> & Hm)%IH. exists ((b :: c) :: chunks), extra.
    unfold delivers. cbn [map concat app]. rewrite <- app_assoc. split_and!; [done|done|].
    left. destruct Hm as [Hm|Hm]; [by rewrite <- app_assoc in Hm|].
    rewrite <- app_assoc in Hm. rewrite Hm, len_app. lia.
  - destruct (total <=? len l); [|done]. intros [= <-]. exists [], (None :: reads).
    unfold delivers. cbn. rewrite app_nil_r. auto.
Qed.

(** What a response that is read is: one status line, exactly one length among
    the header lines, and that many bytes after the first blank line. *)
Definition framed_response (reads : Reads) (l : bytes) (status : Z) (body : bytes) : Prop :=
  exists chunks extra head line rest,
    reads = delivers chunks extra
    /\ l ++ concat chunks = head ++ CRLFCRLF ++ body
    /\ position CRLFCRLF (head ++ CRLFCRLF ++ body) = Some (length head)
    /\ head ++ CRLFCRLF = line ++ CRLF ++ rest
    /\ Ntfy.response_status line = Some status
    /\ Ntfy.response_lengths rest = Some [len body].

Lemma response_after_head_sound l sep rest status body :
  position CRLFCRLF l = Some sep ->
  Ntfy.response_after_head l sep rest = Ok (Some (status, body)) ->
  framed_response rest l status body.
Proof.
  unfold Ntfy.response_after_head. cbv zeta. intros Hpos H.
  destruct (position CRLF l) as [n|] eqn:Hline; [|done].
  destruct (Ntfy.response_status (take n l)) as [st|] eqn:Hst; [|done].
  destruct (Ntfy.response_lengths (drop (n + 2) (take (sep + 4) l))) as [[|m [|]]|] eqn:Hlen; try done.
  apply bind_Ok in H as (maximum & Hmax & H). destruct (maximum <? m); [done|].
  destruct (Ntfy.response_body l (Z.of_nat sep + 4 + m) rest) as [r|] eqn:Hbody; [|done].
  destruct (Z.eqb_spec (len r) (Z.of_nat sep + 4 + m)) as [Hr|]; [|done]. cbn [negb] in H.
  injection H as -> <-. apply response_body_sound in Hbody as (chunks & extra & -> & -> & _).
  pose proof Hpos as [(before & after & -> & <-) _]%position_Some.
  assert (before ++ CRLFCRLF ++ after = (before ++ CRLFCRLF) ++ after) as Hsplit by apply app_assoc.
  assert (length (before ++ CRLFCRLF) = (length before + 4)%nat) as Hl4 by (rewrite length_app; done).
  assert (take (length before + 4) (before ++ CRLFCRLF ++ after) = before ++ CRLFCRLF) as Htake
    by (by rewrite Hsplit, <- Hl4, take_app_length).
  rewrite Htake in Hlen.
  assert (n <= length before)%nat as Hn.
  { apply position_Some in Hline as [_ Hm]. destruct (le_lt_dec n (length before)); [done|].
    specialize (Hm (length before) ltac:(lia)). rewrite drop_app_length in Hm. done. }
  pose proof Hline as [(line & tl & Hl & Hn') _]%position_Some.
  assert (take n (before ++ CRLFCRLF ++ after) = line) as Hline'
    by (by rewrite Hl, <- Hn', take_app_length).
  exists chunks, extra, before, line, (drop (n + 2) (before ++ CRLFCRLF)).
  pose proof (position_app _ _ (concat chunks) _ Hpos) as Hpos'.
  assert (drop (length before + 4) ((before ++ CRLFCRLF ++ after) ++ concat chunks)
          = after ++ concat chunks) as Hdrop
    by (by rewrite Hsplit, <- app_assoc, <- Hl4, drop_app_length).
  rewrite Hdrop. rewrite <- !app_assoc in *. split_and!; try done.
  - assert (take (n + 2) (before ++ CRLFCRLF) = line ++ CRLF) as Ht.
    { rewrite <- (take_app_le _ after) by (rewrite Hl4; lia). rewrite <- app_assoc, Hl, app_assoc.
      apply take_app_length'. rewrite length_app. cbn. lia. }
    rewrite <- (take_drop (n + 2) (before ++ CRLFCRLF)) at 1. by rewrite Ht, <- app_assoc.
  - by rewrite <- Hline'.
  - rewrite Hlen. do 2 f_equal. rewrite !len_app in Hr. change (len CRLFCRLF) with 4 in Hr.
    rewrite len_app. unfold len in *. lia.
Qed.

Lemma response_sound l reads status body :
  position CRLFCRLF l = None ->
  Ntfy.response l reads = Ok (Some (status, body)) -> framed_response reads l status body.
Proof.
  revert l. induction reads as [|[c|] reads IH]; intros l Hnone; cbn [Ntfy.response].
  - by destruct (Ntfy.MAX_RESPONSE_HEADERS <=? len l).
  - destruct (Ntfy.MAX_RESPONSE_HEADERS <=? len l); [done|]. destruct c as [|b c]; [done|]. cbv zeta.
    destruct (position CRLFCRLF (l ++ b :: c)) as [sep|] eqn:E.
    + intros (chunks & extra & head & line & rest & -> & Hl & H)%response_after_head_sound; [|done].
      exists ((b :: c) :: chunks), extra, head, line, rest. unfold delivers. cbn [map concat app].
      rewrite <- app_assoc in Hl. done.
    + intros (chunks & extra & head & line & rest & -> & Hl & H)%IH; [|done].
      exists ((b :: c) :: chunks), extra, head, line, rest. unfold delivers. cbn [map concat app].
      rewrite <- app_assoc in Hl. done.
  - by destruct (Ntfy.MAX_RESPONSE_HEADERS <=? len l).
Qed.

(** ** Theorems: outcomes *)

Definition speaks_ntfy (driver : Driver) : bool :=
  match driver with DriverNtfy _ => true | DriverWhatsapp _ => false end.

(** C26: an outcome never claims less than may have happened: "transient" and a
    refused endpoint mean that nothing was written, every other outcome that the
    request was, and an acknowledgement is one the store takes. The exceptions are
    the ntfy driver's: it can refuse a delivery, or panic, after having written. *)
Theorem deliver_outcome_honest `{Serde} driver delivery network :
  let a := deliver driver delivery network in
  match exit a with
  | Returned (Ok (Accepted ack)) => is_Some (written a) /\ valid_acknowledgement ack = true
  | Returned (Ok Transient) | Returned (Err InvalidEndpoint) => written a = None
  | Returned (Ok _) => is_Some (written a)
  | Returned (Err InvalidDelivery) => written a = None \/ speaks_ntfy driver = true
  | Panicked => is_Some (written a) /\ speaks_ntfy driver = true
  end.
Proof.
  cbv zeta. destruct driver as [endpoint|driver], delivery as [topic title body|r t l ps];
    cbn [deliver speaks_ntfy]; try by left.
  - unfold Ntfy.deliver. destruct (Ntfy.validate_message _) as [|[]] eqn:Hv; cbn; auto.
    destruct network as [| | |peer]; cbn; try done.
    destruct (peer _) as [|reads]; cbn; [done|].
    destruct (Ntfy.response [] reads) as [[[status b]|]|]; cbn; try done.
    unfold Ntfy.classify. destruct (within 200 299 status).
    + destruct (value ← _; _) as [ack|]; [|by right].
      destruct (valid_acknowledgement ack) eqn:Ha; [done|by right].
    + destruct (status =? 429); [done|]. destruct (_ || _); [done|].
      by destruct (within 400 499 status).
  - unfold Whatsapp.deliver. destruct (Whatsapp.request_body _ _) as [b|[]] eqn:Hb; cbn; auto.
    { destruct network as [| | |peer]; cbn; try done. destruct (peer _) as [|reads]; cbn; [done|].
      unfold Whatsapp.classify_response. destruct (Whatsapp.read_response [] reads) as [resp|]; [|done].
      destruct (position CRLFCRLF resp); [|done]. cbv zeta. destruct (negb _); [done|].
      destruct (Whatsapp.response_status _) as [status|]; [|done]. destruct (status =? 200).
      - destruct (Whatsapp.acknowledgement_of _) as [ack|]; [|done].
        by destruct (valid_acknowledgement ack) eqn:Ha.
      - destruct (_ || _); [done|]. destruct (status =? 429); [done|].
        by destruct (within 400 499 status). }
Qed.

(** The status of what was heard, as either driver reads it. *)
Definition ntfy_status (reads : Reads) : option Z :=
  match Ntfy.response [] reads with Ok (Some (status, _)) => Some status | _ => None end.
Definition whatsapp_status (reads : Reads) : option Z :=
  response ← Whatsapp.read_response [] reads;
  separator ← position CRLFCRLF response;
  Whatsapp.response_status (take separator response).

(** The provider answered the whole request with this status. *)
Definition answered (a : Attempt) (status : Z) : Prop :=
  exists reads, heard a = Some reads
    /\ (ntfy_status reads = Some status \/ whatsapp_status reads = Some status).

(** What has to have happened for an attempt to end the way it did. *)
Definition borne_out (a : Attempt) : Prop :=
  match exit a with
  | Returned (Ok Transient) => written a = None
  | Returned (Ok RateLimited) => answered a 429
  | Returned (Ok Permanent) | Returned (Ok AuthOrConfig) =>
    exists status, answered a status /\ 400 <= status <= 499 /\ status <> 429
  | Returned (Err _) => written a = None \/ exists status, answered a status /\ 200 <= status <= 299
  | _ => True
  end.

Lemma ntfy_borne_out `{Serde} w reads status body :
  Ntfy.response [] reads = Ok (Some (status, body)) ->
  borne_out (mkAttempt w (Some reads) (Returned (Ntfy.classify status body))).
Proof.
  intros Hr. assert (answered (mkAttempt w (Some reads) (Returned (Ntfy.classify status body))) status) as Ha.
  { exists reads. split; [done|]. left. unfold ntfy_status. by rewrite Hr. }
  revert Ha. unfold Ntfy.classify, borne_out.
  destruct (within 200 299 status) eqn:H2.
  { apply within_spec in H2. intros Ha. destruct (value ← _; _) as [ack|]; [|right; by exists status].
    destruct (valid_acknowledgement ack); [done|]. right. by exists status. }
  destruct (Z.eqb_spec status 429) as [->|Hne]; [done|].
  destruct ((status =? 401) || (status =? 403) || (status =? 404)) eqn:Hs.
  { intros Ha. exists status. split; [done|]. b2p. lia. }
  destruct (within 400 499 status) eqn:H4; [|done]. apply within_spec in H4. intros Ha. by exists status.
Qed.

Lemma whatsapp_borne_out `{Serde} w reads :
  borne_out (mkAttempt w (Some reads)
    (Returned (Ok (Whatsapp.classify_response (Whatsapp.read_response [] reads))))).
Proof.
  unfold Whatsapp.classify_response. destruct (Whatsapp.read_response [] reads) as [response|] eqn:Hr; [|done].
  destruct (position CRLFCRLF response) as [n|] eqn:Hn; [|done]. cbv zeta.
  destruct (negb (is_utf8 (take n response))); [done|].
  destruct (Whatsapp.response_status (take n response)) as [status|] eqn:Hs; [|done].
  assert (forall o, answered (mkAttempt w (Some reads) o) status) as Ha.
  { intros o. exists reads. split; [done|]. right. unfold whatsapp_status. rewrite Hr. cbn. rewrite Hn. exact Hs. }
  destruct (status =? 200).
  { destruct (Whatsapp.acknowledgement_of _) as [ack|]; [|done]. by destruct (valid_acknowledgement ack). }
  destruct ((status =? 401) || (status =? 403) || (status =? 404)) eqn:Hx.
  { exists status. split; [apply Ha|]. b2p. lia. }
  destruct (Z.eqb_spec status 429) as [->|Hne]; [apply Ha|].
  destruct (within 400 499 status) eqn:H4; [|done]. apply within_spec in H4. by exists status.
Qed.

Lemma deliver_borne_out `{Serde} driver delivery network : borne_out (deliver driver delivery network).
Proof.
  destruct driver as [endpoint|driver], delivery as [topic title body|r t l ps]; cbn [deliver]; try by left.
  - unfold Ntfy.deliver. destruct (Ntfy.validate_message _) as [|e]; [|by left].
    destruct network as [| | |peer]; cbn; try done. destruct (peer _) as [|reads]; [done|].
    destruct (Ntfy.response [] reads) as [[[status b]|]|] eqn:Hr; [|done..]. by apply ntfy_borne_out.
  - unfold Whatsapp.deliver. destruct (Whatsapp.request_body _ _) as [b|e]; [|by left].
    destruct network as [| | |peer]; cbn; try done; try by left. destruct (peer _) as [|reads]; [done|].
    apply whatsapp_borne_out.
Qed.

(** An ntfy response that is read is exactly the bytes received: one status
    line, one declared length, and that many bytes after the first blank line. *)
Theorem ntfy_response_exact reads status body :
  Ntfy.response [] reads = Ok (Some (status, body)) -> framed_response reads [] status body.
Proof. by apply response_sound. Qed.

(** A publication the ntfy server answered with success, but without an
    acknowledgement the store takes, is reported as a refused delivery, the error
    of a delivery that was never attempted: it was written, and may be repeated. *)
Theorem ntfy_success_reported_invalid `{Serde} endpoint message peer reads status body :
  Ntfy.validate_message message = Ok tt ->
  peer (Ntfy.request_bytes endpoint message) = Exchanged reads ->
  Ntfy.response [] reads = Ok (Some (status, body)) -> 200 <= status < 300 ->
  (forall ack, (value ← from_slice body; id ← get value "id"; as_str id) = Some ack ->
     valid_acknowledgement ack = false) ->
  Ntfy.deliver endpoint message (Connected peer)
  = mkAttempt (Some (Ntfy.request_bytes endpoint message)) (Some reads) (Returned (Err InvalidDelivery)).
Proof.
  intros Hv Hp Hr Hs Hack. unfold Ntfy.deliver. rewrite Hv. cbv zeta. rewrite Hp, Hr.
  unfold Ntfy.classify. rewrite (proj2 (within_spec 200 299 status)) by lia.
  destruct (value ← _; _) as [ack|]; [|done]. by rewrite (Hack ack eq_refl).
Qed.

(** An ntfy server whose response head ends beyond the response limit makes the
    driver subtract below zero: the service panics with the message in flight. *)
Theorem ntfy_response_panics `{Serde} endpoint message peer chunks c extra head line n tail rest status m :
  Ntfy.validate_message message = Ok tt ->
  peer (Ntfy.request_bytes endpoint message) = Exchanged (delivers (chunks ++ [c]) extra) ->
  Forall (fun c => c <> []) chunks -> c <> [] ->
  len (concat chunks) < Ntfy.MAX_RESPONSE_HEADERS ->
  position CRLFCRLF (concat chunks) = None ->
  concat chunks ++ c = head ++ CRLFCRLF ++ tail ->
  position CRLFCRLF (head ++ CRLFCRLF ++ tail) = Some (length head) ->
  position CRLF (head ++ CRLFCRLF ++ tail) = Some n ->
  take n (head ++ CRLFCRLF ++ tail) = line ->
  drop (n + 2) (take (length head + 4) (head ++ CRLFCRLF ++ tail)) = rest ->
  Ntfy.response_status line = Some status -> Ntfy.response_lengths rest = Some [m] ->
  Ntfy.MAX_RESPONSE_HEADERS < len head + 4 ->
  Ntfy.deliver endpoint message (Connected peer)
  = mkAttempt (Some (Ntfy.request_bytes endpoint message)) (Some (delivers (chunks ++ [c]) extra)) Panicked.
Proof.
  intros Hv Hp Hne Hc Hmax Hnone Heq Hpos Hl Hline Hrest Hst Hlen Hover.
  unfold Ntfy.deliver. rewrite Hv. cbv zeta. rewrite Hp. f_equal.
  enough (Ntfy.response [] (delivers (chunks ++ [c]) extra) = Err tt) as -> by done.
  assert (forall chunks l, Forall (fun c => c <> []) chunks ->
    len (l ++ concat chunks) < Ntfy.MAX_RESPONSE_HEADERS ->
    position CRLFCRLF (l ++ concat chunks) = None ->
    Ntfy.response l (delivers (chunks ++ [c]) extra)
    = Ntfy.response (l ++ concat chunks) (delivers [c] extra)) as Hstep.
  { clear - Hc. induction chunks as [|x chunks IH]; intros l Hne Hmax Hnone; [by rewrite app_nil_r|].
    apply Forall_cons in Hne as [Hx Hne]. cbn [concat] in *. rewrite app_assoc in *.
    unfold delivers. cbn [app map]. cbn [Ntfy.response]. cbv zeta.
    destruct (Z.leb_spec Ntfy.MAX_RESPONSE_HEADERS (len l)); [rewrite !len_app in Hmax; unfold len in *; lia|].
    destruct x as [|b x]; [done|]. rewrite (position_prefix_None _ _ _ Hnone). by apply IH. }
  rewrite (Hstep chunks []) by done. cbn [app]. unfold delivers. cbn [map app Ntfy.response].
  cbv zeta. destruct (Z.leb_spec Ntfy.MAX_RESPONSE_HEADERS (len (concat chunks))); [lia|].
  destruct c as [|b c]; [done|]. rewrite Heq, Hpos. unfold Ntfy.response_after_head. cbv zeta.
  rewrite Hl, Hline, Hst, Hrest, Hlen. unfold checked, is_u64, within.
  replace (0 <=? Ntfy.MAX_RESPONSE_HEADERS - (Z.of_nat (length head) + 4)) with false; [done|].
  symmetry. b2p. unfold len in Hover. lia.
Qed.

(** ** Witnesses *)

Definition sample_message : Ntfy.NtfyMessage :=
  Ntfy.mkNtfyMessage (as_bytes "alerts") (Some (as_bytes "Title: x")) (as_bytes "GET / HTTP/1.1").
Definition sample_endpoint : Ntfy.NtfyEndpoint :=
  Ntfy.mkNtfyEndpoint (as_bytes "127.0.0.1") 2586 (as_bytes "/push").

Lemma ntfy_request_framed_witness :
  exists head,
    Ntfy.request_bytes sample_endpoint sample_message
      = head ++ CRLFCRLF ++ Ntfy.body sample_message
    /\ position CRLFCRLF (Ntfy.request_bytes sample_endpoint sample_message) = Some (length head)
    /\ split_crlf head = ntfy_lines sample_endpoint sample_message.
Proof.
  apply (ntfy_request_framed (as_bytes "http://127.0.0.1:2586/push/")); vm_compute; reflexivity.
Defined.

#[local] Instance any_anchor : TrustAnchors := fun _ => true.

Definition sample_registration : Whatsapp.TemplateRegistration :=
  Whatsapp.mkTemplateRegistration (as_bytes "delivery_notice") (as_bytes "en_US") 1.
Definition sample_driver : Whatsapp.WhatsappDriver :=
  Whatsapp.mkWhatsappDriver
    (Whatsapp.mkWhatsappEndpoint (as_bytes "graph.example") 443 (as_bytes "v19.0") (as_bytes "12345"))
    (as_bytes "secret") sample_registration None.

Lemma whatsapp_request_framed_witness :
  exists head,
    Whatsapp.request sample_driver (as_bytes "{}") = head ++ CRLFCRLF ++ as_bytes "{}"
    /\ position CRLFCRLF (Whatsapp.request sample_driver (as_bytes "{}")) = Some (length head)
    /\ split_crlf head = whatsapp_lines sample_driver (as_bytes "{}").
Proof.
  apply (whatsapp_request_framed (as_bytes "https://graph.example/v19.0") (as_bytes "12345")
    (as_bytes "secret") sample_registration None (Whatsapp.endpoint sample_driver));
    vm_compute; reflexivity.
Defined.

Definition response_line : bytes := as_bytes "HTTP/1.1 200 OK".
Definition response_head : bytes :=
  response_line ++ CRLF ++ as_bytes "Content-Length: 2".

Lemma ntfy_response_exact_witness :
  framed_response (delivers [take 20 response_head; drop 20 response_head ++ CRLFCRLF; as_bytes "{}"] [])
    [] 200 (as_bytes "{}").
Proof. apply ntfy_response_exact. vm_compute. reflexivity. Defined.

#[local] Instance no_json : Serde := {| from_slice := fun _ => None; to_vec := fun _ => None |}.

Lemma ntfy_success_reported_invalid_witness :
  Ntfy.deliver sample_endpoint sample_message
    (Connected (fun _ => Exchanged (delivers [response_head ++ CRLFCRLF ++ as_bytes "{}"] [])))
  = mkAttempt (Some (Ntfy.request_bytes sample_endpoint sample_message))
      (Some (delivers [response_head ++ CRLFCRLF ++ as_bytes "{}"] [])) (Returned (Err InvalidDelivery)).
Proof.
  apply (ntfy_success_reported_invalid _ _ _
    (delivers [response_head ++ CRLFCRLF ++ as_bytes "{}"] []) 200 (as_bytes "{}"));
    [vm_compute; reflexivity|reflexivity|vm_compute; reflexivity|lia|done].
Defined.

(** Seventeen reads of at most 1,024 bytes whose head is too long. *)
Definition long_response : bytes :=
  response_head ++ CRLF ++ as_bytes "X: " ++ repeat 97 16400.
Definition long_chunks : list bytes :=
  map (fun i => take 1000 (drop (1000 * i) long_response)) (seq 0 16).

Lemma ntfy_response_panics_witness :
  Ntfy.deliver sample_endpoint sample_message
    (Connected (fun _ => Exchanged
       (delivers (long_chunks ++ [drop 16000 long_response ++ CRLFCRLF]) [])))
  = mkAttempt (Some (Ntfy.request_bytes sample_endpoint sample_message))
      (Some (delivers (long_chunks ++ [drop 16000 long_response ++ CRLFCRLF]) [])) Panicked.
Proof.
  apply (ntfy_response_panics _ _ _ long_chunks (drop 16000 long_response ++ CRLFCRLF) []
    long_response response_line 15 []
    (as_bytes "Content-Length: 2" ++ CRLF ++ as_bytes "X: " ++ repeat 97 16400 ++ CRLFCRLF) 200 2);
    [vm_compute; reflexivity|reflexivity| | |vm_compute; reflexivity..].
  - apply Forall_forall. intros c (i & -> & Hi)%list_elem_of_fmap. apply elem_of_seq in Hi.
    do 16 (destruct i as [|i]; [vm_compute; discriminate|]). lia.
  - vm_compute. discriminate.
Defined.
