(* ===== verification/RetryAfter.v ===== *)
(** * Provider [Retry-After] header ([crates/msgriver-connectors/src/retry_after.rs])

    Only delta-seconds and strict IMF-fixdates are accepted. The date arithmetic
    is the source's March-based era formula; it is proved to number the days of
    the Gregorian calendar one by one. *)

From S2P Require Import Prelude Bytes Codec.

#[local] Open Scope Z_scope.

Inductive ConnectorsFrontier : Type := ParseRetryAfter.

Definition frontier_label (f : ConnectorsFrontier) : string := "connectors_retry_after_parse".

Inductive ConnectorsError : Type := Scaffold (frontier : ConnectorsFrontier).

Definition scaffold_frontier (e : ConnectorsError) : option ConnectorsFrontier :=
  match e with Scaffold frontier => Some frontier end.

Definition digits_value (l : bytes) : option Z :=
  match l with
  | [] => None
  | _ =>
    if negb (forallb is_ascii_digit l) then None
    else foldl (fun acc byte =>
      value ← acc;
      let digit := byte - 48 in
      tens ← checked_mul_i64 value 10;
      checked_add_i64 tens digit) (Some 0) l
  end.

Definition weekday_index (l : bytes) : option Z :=
  if bool_decide (l = as_bytes "Mon") then Some 0
  else if bool_decide (l = as_bytes "Tue") then Some 1
  else if bool_decide (l = as_bytes "Wed") then Some 2
  else if bool_decide (l = as_bytes "Thu") then Some 3
  else if bool_decide (l = as_bytes "Fri") then Some 4
  else if bool_decide (l = as_bytes "Sat") then Some 5
  else if bool_decide (l = as_bytes "Sun") then Some 6
  else None.

Definition month_number (l : bytes) : option Z :=
  if bool_decide (l = as_bytes "Jan") then Some 1
  else if bool_decide (l = as_bytes "Feb") then Some 2
  else if bool_decide (l = as_bytes "Mar") then Some 3
  else if bool_decide (l = as_bytes "Apr") then Some 4
  else if bool_decide (l = as_bytes "May") then Some 5
  else if bool_decide (l = as_bytes "Jun") then Some 6
  else if bool_decide (l = as_bytes "Jul") then Some 7
  else if bool_decide (l = as_bytes "Aug") then Some 8
  else if bool_decide (l = as_bytes "Sep") then Some 9
  else if bool_decide (l = as_bytes "Oct") then Some 10
  else if bool_decide (l = as_bytes "Nov") then Some 11
  else if bool_decide (l = as_bytes "Dec") then Some 12
  else None.

Definition is_leap_year (year : Z) : bool :=
  (Z.rem year 4 =? 0) && (negb (Z.rem year 100 =? 0) || (Z.rem year 400 =? 0)).

Definition days_in_month (year month : Z) : Z :=
  match month with
  | 1 | 3 | 5 | 7 | 8 | 10 | 12 => 31
  | 4 | 6 | 9 | 11 => 30
  | 2 => if is_leap_year year then 29 else 28
  | _ => 0
  end.

(** The [let]s of [epoch_millis] up to [days]. *)
Definition epoch_days (year month day : Z) : Z :=
  let y := year - (if month <=? 2 then 1 else 0) in
  let era := Z.quot (if 0 <=? y then y else y - 399) 400 in
  let year_of_era := y - era * 400 in
  let month_from_march := if 2 <? month then month - 3 else month + 9 in
  let day_of_year := Z.quot (153 * month_from_march + 2) 5 + day - 1 in
  let day_of_era :=
    year_of_era * 365 + Z.quot year_of_era 4 - Z.quot year_of_era 100 + day_of_year in
  era * 146097 + day_of_era - 719468.

Definition epoch_millis (year month day hour minute second expected_weekday : Z)
    : option Z :=
  let days := epoch_days year month day in
  if negb ((days + 3) mod 7 =? expected_weekday) then None
  else
    seconds ← checked_mul_i64 days 86400;
    total ← checked_add_i64 seconds (hour * 3600 + minute * 60 + second);
    checked_mul_i64 total 1000.

(** Every index below is under the length 29 that [future_date_millis] checks
    first. *)
Definition future_date_millis (header : string) (safe_now_millis : Z) : option Z :=
  let l := as_bytes header in
  if negb (len l =? 29) || negb (bool_decide (slice l 3 5 = as_bytes ", ")) then None
  else
    weekday ← weekday_index (slice l 0 3);
    day ← digits_value (slice l 5 7);
    month ← month_number (slice l 8 11);
    year ← digits_value (slice l 12 16);
    hour ← digits_value (slice l 17 19);
    minute ← digits_value (slice l 20 22);
    second ← digits_value (slice l 23 25);
    if negb (at_ l 7 =? 32) || negb (at_ l 11 =? 32) || negb (at_ l 16 =? 32) then None
    else if negb (at_ l 19 =? 58) || negb (at_ l 22 =? 58) || negb (at_ l 25 =? 32)
            || negb (bool_decide (drop 26 l = as_bytes "GMT")) then None
    else if (23 <? hour) || (59 <? minute) || (60 <? second)
            || (days_in_month year month <? day) || (day =? 0) then None
    else
      instant ← epoch_millis year month day hour minute second weekday;
      delay ← checked_sub_i64 instant safe_now_millis;
      if 0 <? delay then Some delay else None.

Definition delta_millis (header : string) : option Z :=
  value ← digits_value (as_bytes header);
  checked_mul_i64 value 1000.

Definition parse_retry_after (header_value : string) (safe_now_millis : Z)
    : result ConnectorsError (option Z) :=
  let millis :=
    match delta_millis header_value with
    | Some delay => Some delay
    | None => future_date_millis header_value safe_now_millis
    end in
  Ok ((fun delay => wrap 32 (Z.min (Z.max delay 1000) 3600000)) <$> millis).

Example parse_delta : parse_retry_after "120" 0 = Ok (Some 120000).
Proof. vm_compute. reflexivity. Qed.
Example parse_date :
  parse_retry_after "Sun, 06 Nov 1994 08:49:38 GMT" 784111777500 = Ok (Some 1000).
Proof. vm_compute. reflexivity. Qed.
Example parse_wrong_weekday :
  parse_retry_after "Mon, 06 Nov 1994 08:49:38 GMT" 784111777500 = Ok None.
Proof. vm_compute. reflexivity. Qed.

(** ** Decimal values *)

Definition decimal (l : bytes) : Z := foldl (fun acc b => acc * 10 + (b - 48)) 0 l.

Definition digit_step (acc : option Z) (byte : Z) : option Z :=
  value ← acc;
  tens ← checked_mul_i64 value 10;
  checked_add_i64 tens (byte - 48).

Lemma digit_fold_None l : foldl digit_step None l = None.
Proof. induction l; simpl; auto. Qed.

Lemma decimal_from_mono l a :
  forallb is_ascii_digit l = true -> 0 <= a ->
  a <= foldl (fun acc b => acc * 10 + (b - 48)) a l.
Proof.
  revert a. induction l as [|b l IH]; intros a Hl Ha; simpl in *; [lia|].
  apply andb_true_iff in Hl as [Hb Hl]. apply (within_spec 48 57) in Hb.
  etrans; [|apply IH; [done|lia]]. lia.
Qed.

Lemma digit_step_Some a b :
  0 <= a -> is_ascii_digit b = true ->
  digit_step (Some a) b = checked is_i64 (a * 10 + (b - 48)).
Proof.
  intros Ha Hb%(within_spec 48 57). unfold digit_step.
  cbn [mbind option_bind]. unfold checked_mul_i64, checked_add_i64.
  destruct (checked is_i64 (a * 10)) as [v|] eqn:E; [by apply checked_Some in E as [-> _]|].
  symmetry. apply checked_None in E. apply checked_None.
  unfold is_i64, within, i64_min in *. b2p. lia.
Qed.

Lemma digit_fold_exact l a :
  forallb is_ascii_digit l = true -> 0 <= a <= i64_max ->
  foldl digit_step (Some a) l =
  checked is_i64 (foldl (fun acc b => acc * 10 + (b - 48)) a l).
Proof.
  revert a. induction l as [|b l IH]; intros a Hl Ha; cbn [foldl].
  { symmetry. apply checked_Some. split; [done|]. unfold is_i64. apply within_spec.
    unfold i64_min. lia. }
  cbn [forallb] in Hl. apply andb_true_iff in Hl as [Hb Hl].
  rewrite digit_step_Some by (done || lia). apply (within_spec 48 57) in Hb.
  set (n := a * 10 + (b - 48)).
  destruct (checked is_i64 n) as [v|] eqn:E.
  - apply checked_Some in E as [-> E]. apply (within_spec i64_min) in E.
    apply IH; [done|]. lia.
  - rewrite digit_fold_None. symmetry. apply checked_None in E. apply checked_None.
    pose proof (decimal_from_mono l n Hl ltac:(lia)).
    unfold is_i64, within, i64_min in *. b2p. lia.
Qed.

(** A digit run has exactly its decimal value, or is refused when that value
    leaves [i64]; an empty run or any other byte is refused. *)
Theorem digits_value_exact l v :
  digits_value l = Some v <->
  l <> [] /\ Forall (fun b => 48 <= b <= 57) l /\ v = decimal l /\ v <= i64_max.
Proof.
  assert (Forall (fun b => 48 <= b <= 57) l <-> forallb is_ascii_digit l = true) as ->.
  { rewrite forallb_Forall. apply Forall_iff. intros b.
    unfold is_ascii_digit. by rewrite within_spec. }
  destruct l as [|b l]; [split; [done|by intros [? _]]|].
  unfold digits_value. destruct (forallb is_ascii_digit (b :: l)) eqn:Hd; cbn [negb];
    [|split; [done|by intros (_ & ? & _)]].
  change (foldl digit_step (Some 0) (b :: l) = Some v <->
    b :: l <> [] /\ true = true /\ v = decimal (b :: l) /\ v <= i64_max).
  rewrite digit_fold_exact, checked_Some by (done || (unfold i64_max; lia)).
  pose proof (decimal_from_mono (b :: l) 0 Hd ltac:(lia)) as Hpos.
  unfold is_i64, decimal. rewrite within_spec. unfold i64_min.
  intuition (subst; try done; lia).
Qed.

(** ** The calendar *)

Definition valid_date (year month day : Z) : bool :=
  within 0 9999 year && within 1 12 month && within 1 (days_in_month year month) day.

(** The calendar's own definition of the day after. *)
Definition next_day (year month day : Z) : Z * Z * Z :=
  if day <? days_in_month year month then (year, month, day + 1)
  else if month <? 12 then (year, month + 1, 1) else (year + 1, 1, 1).

(** Linear arithmetic with division by constants. *)
Ltac div_lia := Z.to_euclidean_division_equations; lia.

Lemma epoch_days_closed year month day :
  0 <= year -> 1 <= month ->
  let y := if month <=? 2 then year - 1 else year in
  let m := if month <=? 2 then month + 9 else month - 3 in
  epoch_days year month day =
  365 * y + y / 4 - y / 100 + y / 400 + (153 * m + 2) / 5 + day - 1 - 719468.
Proof.
  intros Hy Hm. unfold epoch_days. set (y := year - _). set (era := Z.quot _ 400).
  assert (era = y / 400) as Hera.
  { unfold era. destruct (Z.leb_spec 0 y) as [H|H]; [by apply Z.quot_div_nonneg|].
    replace y with (-1) by (subst y; destruct (month <=? 2); lia). done. }
  clearbody era. subst era.
  replace (if month <=? 2 then year - 1 else year) with y by (subst y; destruct (month <=? 2); lia).
  replace (2 <? month) with (negb (month <=? 2)) by (symmetry; apply Z.ltb_antisym).
  clearbody y. rewrite !(Z.quot_div_nonneg (y - y / 400 * 400)) by div_lia.
  destruct (Z.leb_spec month 2); cbn [negb];
    rewrite Z.quot_div_nonneg by lia; div_lia.
Qed.

Lemma is_leap_year_exact year :
  0 <= year ->
  is_leap_year year = true <->
  year mod 4 = 0 /\ (year mod 100 <> 0 \/ year mod 400 = 0).
Proof. intros H. unfold is_leap_year. rewrite !Z.rem_mod_nonneg by lia. b2p. tauto. Qed.

(** [day_of_year] differences across a month end are the lengths of the months. *)
Lemma month_end_step year month :
  0 <= year -> 1 <= month <= 12 ->
  let '(year', month', day') := next_day year month (days_in_month year month) in
  epoch_days year' month' day' = epoch_days year month (days_in_month year month) + 1.
Proof.
  intros Hy Hm. unfold next_day. rewrite Z.ltb_irrefl.
  pose proof (is_leap_year_exact year Hy) as Hleap.
  assert (month = 1 \/ month = 2 \/ month = 3 \/ month = 4 \/ month = 5 \/ month = 6
    \/ month = 7 \/ month = 8 \/ month = 9 \/ month = 10 \/ month = 11 \/ month = 12)
    as Hcases by lia.
  clear Hm. destruct_or! Hcases; subst month;
    cbn [Z.ltb Z.compare Pos.compare Pos.compare_cont days_in_month];
    rewrite !epoch_days_closed by lia;
    repeat match goal with
    | |- context [?a <=? 2] =>
      let b := eval vm_compute in (a <=? 2) in change (a <=? 2) with b
    | |- context [if is_leap_year year then _ else _] => destruct (is_leap_year year)
    end; cbn iota; div_lia.
Qed.

(** [epoch_days] numbers the days of the Gregorian calendar: the day after a
    date has the next number, and 1970-01-01 has number 0. *)
Theorem epoch_days_successor year month day :
  valid_date year month day = true ->
  let '(year', month', day') := next_day year month day in
  epoch_days year' month' day' = epoch_days year month day + 1 /\ epoch_days 1970 1 1 = 0.
Proof.
  unfold valid_date. b2p. intros [[Hy Hm] Hd].
  destruct (Z.eq_dec day (days_in_month year month)) as [->|Hne].
  - pose proof (month_end_step year month ltac:(lia) ltac:(lia)) as H.
    destruct (next_day _ _ _) as [[y' m'] d']. done.
  - unfold next_day. destruct (Z.ltb_spec day (days_in_month year month)); [|lia].
    rewrite !epoch_days_closed by lia. split; [|done].
    destruct (month <=? 2); lia.
Qed.

(** ** Printing an IMF-fixdate *)

Definition weekday_name (w : Z) : bytes :=
  nth (Z.to_nat w) (map as_bytes ["Mon"; "Tue"; "Wed"; "Thu"; "Fri"; "Sat"; "Sun"]) [].

Definition month_name (m : Z) : bytes :=
  nth (Z.to_nat (m - 1))
    (map as_bytes ["Jan"; "Feb"; "Mar"; "Apr"; "May"; "Jun"; "Jul"; "Aug"; "Sep"; "Oct";
                   "Nov"; "Dec"]) [].

Fixpoint decimal_digits (n : nat) (z : Z) : bytes :=
  match n with O => [] | S n' => decimal_digits n' (z / 10) ++ [48 + z mod 10] end.

Definition fixdate_layout (wd day mon year hour minute second : bytes) : bytes :=
  wd ++ [44; 32] ++ day ++ [32] ++ mon ++ [32] ++ year ++ [32] ++ hour ++ [58] ++ minute
  ++ [58] ++ second ++ [32; 71; 77; 84].

Definition imf_fixdate (year month day hour minute second : Z) : string :=
  of_bytes (fixdate_layout (weekday_name ((epoch_days year month day + 3) mod 7))
    (decimal_digits 2 day) (month_name month) (decimal_digits 4 year)
    (decimal_digits 2 hour) (decimal_digits 2 minute) (decimal_digits 2 second)).

Lemma fixdate_parse wd day mon year hour minute second w d m y h mi s now :
  length wd = 3%nat -> length day = 2%nat -> length mon = 3%nat -> length year = 4%nat ->
  length hour = 2%nat -> length minute = 2%nat -> length second = 2%nat ->
  weekday_index wd = Some w -> digits_value day = Some d -> month_number mon = Some m ->
  digits_value year = Some y -> digits_value hour = Some h ->
  digits_value minute = Some mi -> digits_value second = Some s ->
  h <= 23 -> mi <= 59 -> s <= 60 -> 1 <= d <= days_in_month y m ->
  forall header, as_bytes header = fixdate_layout wd day mon year hour minute second ->
  future_date_millis header now =
    instant ← epoch_millis y m d h mi s w;
    delay ← checked_sub_i64 instant now;
    if 0 <? delay then Some delay else None.
Proof.
  intros ??????? Hw Hd Hm Hy Hh Hmi Hs ???? header Hb. unfold future_date_millis. rewrite Hb.
  do 3 (destruct wd; try done). do 2 (destruct day; try done). do 3 (destruct mon; try done).
  do 4 (destruct year; try done). do 2 (destruct hour; try done).
  do 2 (destruct minute; try done). do 2 (destruct second; try done).
  destruct wd, day, mon, year, hour, minute, second; try done.
  unfold slice, at_.
  cbn [negb fixdate_layout app len length take drop nth Nat.sub Z.of_nat Z.eqb
    Pos.of_succ_nat Pos.succ Pos.eqb].
  rewrite Hw, Hd, Hm, Hy, Hh, Hmi, Hs. cbn [mbind option_bind].
  rewrite !bool_decide_true by done. cbn [negb orb].
  replace (23 <? h) with false by (symmetry; b2p; lia).
  replace (59 <? mi) with false by (symmetry; b2p; lia).
  replace (60 <? s) with false by (symmetry; b2p; lia).
  replace (days_in_month y m <? d) with false by (symmetry; b2p; lia).
  replace (d =? 0) with false by (symmetry; b2p; lia). done.
Qed.

Lemma digits_two z : 0 <= z < 100 -> digits_value (decimal_digits 2 z) = Some z.
Proof.
  intros Hz. apply (bool_decide_eq_true (digits_value _ = _)). by_range 100%nat z.
Qed.

Lemma digits_four z : 0 <= z < 10000 -> digits_value (decimal_digits 4 z) = Some z.
Proof.
  intros Hz. apply (bool_decide_eq_true (digits_value _ = _)). by_range (100 * 100)%nat z.
Qed.

Lemma weekday_name_index w :
  0 <= w < 7 ->
  weekday_index (weekday_name w) = Some w /\ length (weekday_name w) = 3%nat
  /\ is_bytes (weekday_name w) = true
  /\ forall l, delta_millis (of_bytes (weekday_name w ++ l)) = None.
Proof.
  intros Hw. assert (w = 0 \/ w = 1 \/ w = 2 \/ w = 3 \/ w = 4 \/ w = 5 \/ w = 6) as H by lia.
  clear Hw. by destruct_or! H; subst w.
Qed.

Lemma month_name_number m :
  1 <= m <= 12 ->
  month_number (month_name m) = Some m /\ length (month_name m) = 3%nat
  /\ is_bytes (month_name m) = true.
Proof.
  intros Hm. assert (m = 1 \/ m = 2 \/ m = 3 \/ m = 4 \/ m = 5 \/ m = 6 \/ m = 7 \/ m = 8
    \/ m = 9 \/ m = 10 \/ m = 11 \/ m = 12) as H by lia.
  clear Hm. by destruct_or! H; subst m.
Qed.

Lemma decimal_digits_bytes n z :
  length (decimal_digits n z) = n /\ is_bytes (decimal_digits n z) = true.
Proof.
  revert z. induction n as [|n IH]; intros z; [done|]. cbn [decimal_digits].
  destruct (IH (z / 10)) as [Hl Hb]. rewrite length_app, is_bytes_app, Hl, Hb. split; [cbn; lia|].
  cbn. rewrite andb_true_r. apply (within_spec 0 255). pose proof (Z.mod_pos_bound z 10). lia.
Qed.

Lemma days_in_month_le year month : days_in_month year month <= 31.
Proof. unfold days_in_month. repeat case_match; lia. Qed.

Lemma epoch_days_bound year month day :
  valid_date year month day = true -> -800000 <= epoch_days year month day <= 3000000.
Proof.
  unfold valid_date. b2p. intros [[Hy Hm] Hd]. pose proof (days_in_month_le year month).
  rewrite epoch_days_closed by lia. destruct (Z.leb_spec month 2); div_lia.
Qed.

(** Milliseconds since the epoch, without any overflow check. *)
Definition instant (year month day hour minute second : Z) : Z :=
  (epoch_days year month day * 86400 + hour * 3600 + minute * 60 + second) * 1000.

Definition valid_time (hour minute second : Z) : bool :=
  within 0 23 hour && within 0 59 minute && within 0 60 second.

Lemma epoch_millis_exact year month day hour minute second :
  valid_date year month day = true -> valid_time hour minute second = true ->
  epoch_millis year month day hour minute second ((epoch_days year month day + 3) mod 7)
  = Some (instant year month day hour minute second).
Proof.
  intros Hd%epoch_days_bound Ht. unfold valid_time in Ht. b2p.
  unfold epoch_millis, instant. rewrite Z.eqb_refl. cbn [negb].
  unfold checked_mul_i64, checked_add_i64.
  rewrite (proj2 (checked_Some is_i64 _ (epoch_days year month day * 86400))).
  2: split; [done|]; unfold is_i64, i64_min, i64_max; apply within_spec; lia.
  cbn [mbind option_bind].
  erewrite (proj2 (checked_Some is_i64 _ _)).
  2: split; [done|]; unfold is_i64, i64_min, i64_max; apply within_spec; lia.
  cbn [mbind option_bind]. rewrite !Z.add_assoc. apply checked_Some. split; [done|].
  unfold is_i64, i64_min, i64_max. apply within_spec. lia.
Qed.

(** What the header means to the caller: the clamped delay to [target], if any. *)
Definition delay_until (target now : Z) : option Z :=
  if (0 <? target - now) && (target - now <=? i64_max)
  then Some (Z.min (Z.max (target - now) 1000) 3600000) else None.

(** Every well-formed IMF-fixdate printed with its own weekday is read back as
    the delay from now to that instant, clamped to [1 s, 1 h]; a past or present
    instant, or one whose distance leaves [i64], is ignored. *)
Theorem parse_retry_after_fixdate year month day hour minute second now :
  valid_date year month day = true -> valid_time hour minute second = true ->
  is_i64 now = true ->
  parse_retry_after (imf_fixdate year month day hour minute second) now =
  Ok (delay_until (instant year month day hour minute second) now).
Proof.
  intros Hd Ht Hn. pose proof (epoch_millis_exact _ _ _ _ _ _ Hd Ht) as Hepoch.
  pose proof (epoch_days_bound _ _ _ Hd) as Hdays.
  unfold valid_date, valid_time in Hd, Ht. b2p. destruct_and!.
  pose proof (days_in_month_le year month).
  assert (0 <= (epoch_days year month day + 3) mod 7 < 7) as Hw
    by (apply Z.mod_pos_bound; lia).
  destruct (weekday_name_index _ Hw) as (Hwi & Hwl & Hwb & Hwd).
  destruct (month_name_number month) as (Hmi & Hml & Hmb); [lia|].
  unfold parse_retry_after, imf_fixdate. unfold fixdate_layout at 1. rewrite Hwd.
  rewrite (fixdate_parse (weekday_name ((epoch_days year month day + 3) mod 7))
    (decimal_digits 2 day) (month_name month) (decimal_digits 4 year)
    (decimal_digits 2 hour) (decimal_digits 2 minute) (decimal_digits 2 second)
    ((epoch_days year month day + 3) mod 7) day month year hour minute second).
  all: try first [done | apply decimal_digits_bytes | apply digits_two; lia
                 | apply digits_four; lia | lia].
  2: { apply as_bytes_of_bytes. unfold fixdate_layout. rewrite !is_bytes_app.
       by rewrite !(proj2 (decimal_digits_bytes _ _)), Hwb, Hmb. }
  rewrite Hepoch. cbn [mbind option_bind]. unfold delay_until.
  set (t := instant _ _ _ _ _ _).
  assert (- 2 ^ 47 <= t <= 2 ^ 48) as Hbound by (unfold t, instant; lia).
  unfold checked_sub_i64, checked, is_i64, within, i64_min, i64_max, u32_max in *.
  apply (within_spec (- 2 ^ 63)) in Hn.
  destruct (Z.ltb_spec 0 (t - now)); cbn [andb].
  - replace (- 2 ^ 63 <=? t - now) with true by (symmetry; b2p; lia). cbn [andb].
    destruct (t - now <=? 2 ^ 63 - 1); [|done]. cbn [mbind option_bind].
    destruct (Z.ltb_spec 0 (t - now)); [|lia]. cbn. unfold wrap. rewrite Z.mod_small by lia. done.
  - case_match; cbn; [|done]. by destruct (Z.ltb_spec 0 (t - now)); [lia|].
Qed.

(** Whatever the header, the parser answers, and an accepted delay lies in
    [1 s, 1 h]; a run of digits is its own value in seconds, clamped. *)
Theorem parse_retry_after_bounds header now :
  match parse_retry_after header now with
  | Ok (Some delay) => 1000 <= delay <= 3600000
  | Ok None => True
  | Err _ => False
  end /\
  (forall n, digits_value (as_bytes header) = Some n -> n * 1000 <= i64_max ->
   parse_retry_after header now = Ok (Some (Z.min (Z.max (n * 1000) 1000) 3600000))).
Proof.
  unfold parse_retry_after. split.
  - destruct (match delta_millis _ with Some _ => _ | None => _ end); cbn; [|done].
    unfold wrap. rewrite Z.mod_small; lia.
  - intros n Hn Hle. unfold delta_millis. rewrite Hn. cbn [mbind option_bind].
    unfold digits_value in Hn. assert (0 <= n) as Hpos.
    { destruct (as_bytes header) as [|b l]; [done|].
      destruct (forallb is_ascii_digit (b :: l)) eqn:Hd; [|done]. cbn [negb] in Hn.
      change (foldl digit_step (Some 0) (b :: l) = Some n) in Hn.
      rewrite digit_fold_exact in Hn by (done || (unfold i64_max; lia)).
      apply checked_Some in Hn as [-> _]. by apply decimal_from_mono. }
    unfold checked_mul_i64. rewrite (proj2 (checked_Some is_i64 (n * 1000) (n * 1000))).
    2: split; [done|]; unfold is_i64, i64_min; apply within_spec; lia.
    cbn [fmap option_fmap option_map]. unfold wrap. rewrite Z.mod_small by lia. done.
Qed.

(** ** Witnesses *)

Lemma epoch_days_successor_witness :
  valid_date 2024 2 28 = true /\ epoch_days 2024 2 29 = epoch_days 2024 2 28 + 1.
Proof. split; [reflexivity|]. exact (proj1 (epoch_days_successor 2024 2 28 eq_refl)). Defined.

Lemma parse_retry_after_fixdate_witness :
  parse_retry_after (imf_fixdate 1994 11 6 8 49 38) 784111777500 = Ok (Some 1000).
Proof. exact (parse_retry_after_fixdate 1994 11 6 8 49 38 784111777500 eq_refl eq_refl eq_refl). Defined.

Lemma parse_retry_after_bounds_witness :
  parse_retry_after "7" 0 = Ok (Some 7000).
Proof.
  apply (proj2 (parse_retry_after_bounds "7" 0) 7); [reflexivity|vm_compute; discriminate].
Defined.
