(* ===== verification/Jitter.v ===== *)
(** * Host-side retry-jitter source ([jitter_source.rs] of the service)

    The multiplier the retry delay uses is drawn from a key-isolating provider by
    rejection sampling over at most 256 framed inputs. *)

From S2P Require Import Prelude Bytes Ring Sha256 Canon.

#[local] Open Scope Z_scope.

Definition RETRY_JITTER_DOMAIN : bytes := as_bytes "msgriver/retry-jitter/v1" ++ [0].
Definition REJECTION_LIMIT : Z := 4294966676. (* 0xffff_fd94 *)

Record JitterSourceRequest : Type := mkJitterSourceRequest {
  derivation_version : Z;
  key_reference : MacKeyRef;
  message_id : bytes;
  completed_attempt_ordinal : Z
}.

Inductive JitterSourceOutcome : Type :=
| MultiplierMilli (m : Z) | InvalidDerivation | Unavailable.

Inductive JitterSourceError : Type := MissingImplementation.

Definition is_uuid_v7 (message_id : bytes) : bool :=
  (Z.shiftr (nth 6 message_id 0) 4 =? 7) && (Z.shiftr (nth 8 message_id 0) 6 =? 2).

Definition framed_input (request : JitterSourceRequest) (counter : Z) : bytes :=
  RETRY_JITTER_DOMAIN ++ key_id (key_reference request) ++ message_id request
  ++ be_bytes 2 (completed_attempt_ordinal request) ++ [counter].

Definition request_is_valid (request : JitterSourceRequest) : bool :=
  negb (negb (derivation_version request =? 1)
        || negb (within 1 1023 (completed_attempt_ordinal request))
        || negb (bool_decide (purpose (key_reference request) = RetryJitterV1))
        || negb (is_uuid_v7 (message_id request))).

(** [u32::from_be_bytes] of the first four bytes of the 32-byte authenticator. *)
Definition candidate (tag : VersionedTag) : Z := of_be_bytes (take 4 (tag_bytes tag)).

Section source.
Context `{MacProvider P} (provider : P).

(** [for counter in 0..=u8::MAX], over the counters that are left. *)
Fixpoint sample (request : JitterSourceRequest) (counters : list Z) : JitterSourceOutcome :=
  match counters with
  | [] => Unavailable
  | counter :: rest =>
    match authenticate provider (key_reference request) (framed_input request counter) with
    | Ok tag =>
      if bool_decide (tag_key tag = key_reference request) then
        if candidate tag <? REJECTION_LIMIT
        then MultiplierMilli (wrap 16 (500 + candidate tag mod 1001))
        else sample request rest
      else Unavailable
    | Err _ => Unavailable
    end
  end.

Definition derive_retry_jitter (request : JitterSourceRequest)
    : result JitterSourceError JitterSourceOutcome :=
  if negb (request_is_valid request) then Ok InvalidDerivation
  else Ok (sample request (zrange 256)).

(** What one provider call yields: its candidate, or nothing usable. *)
Definition answer (request : JitterSourceRequest) (counter : Z) : option Z :=
  match authenticate provider (key_reference request) (framed_input request counter) with
  | Ok tag => if bool_decide (tag_key tag = key_reference request)
              then Some (candidate tag) else None
  | Err _ => None
  end.

Lemma sample_cons request k rest :
  sample request (k :: rest) =
  match answer request k with
  | Some c => if c <? REJECTION_LIMIT then MultiplierMilli (wrap 16 (500 + c mod 1001))
              else sample request rest
  | None => Unavailable
  end.
Proof.
  unfold answer. cbn [sample]. destruct (authenticate _ _ _); [|done]. by case_bool_decide.
Qed.

Lemma sample_exact request counters m :
  sample request counters = MultiplierMilli m <->
  exists before counter after c,
    counters = before ++ counter :: after
    /\ Forall (fun k => exists c', answer request k = Some c' /\ REJECTION_LIMIT <= c') before
    /\ answer request counter = Some c /\ c < REJECTION_LIMIT
    /\ m = wrap 16 (500 + c mod 1001).
Proof.
  induction counters as [|k rest IH]; [split; [done|intros ([|] & ? & ? & ? & ? & _); done]|].
  rewrite sample_cons. split.
  - destruct (answer request k) as [c|] eqn:Ha; [|done].
    destruct (Z.ltb_spec c REJECTION_LIMIT) as [Hlt|Hge].
    + intros [= <-]. exists [], k, rest, c. by split_and!.
    + intros (before & k' & after & c' & -> & Hb & Hrest)%IH.
      exists (k :: before), k', after, c'. split_and!; try done; [|apply Hrest..].
      constructor; [eauto|done].
  - intros ([|k0 before] & k' & after & c & Hl & Hb & Ha & Hc & ->).
    + injection Hl as -> ->. rewrite Ha. by apply Z.ltb_lt in Hc as ->.
    + injection Hl as -> ->. apply Forall_cons in Hb as [(c' & -> & Hge) Hb].
      apply Z.ltb_ge in Hge as ->. apply IH. exists before, k', after, c. auto.
Qed.

Lemma candidate_bound tag : is_bytes (tag_bytes tag) = true -> 0 <= candidate tag < 2 ^ 32.
Proof.
  unfold candidate. intros Hb.
  assert (is_bytes (take 4 (tag_bytes tag)) = true) as Ht.
  { rewrite <- (take_drop 4 (tag_bytes tag)), is_bytes_app in Hb.
    by apply andb_true_iff in Hb as [Hb _]. }
  pose proof (of_be_bytes_bound _ Ht) as Hbound. split; [lia|].
  eapply Z.lt_le_trans; [apply Hbound|]. change (2 ^ 32) with (256 ^ 4).
  apply Z.pow_le_mono_r; [lia|]. rewrite length_take. lia.
Qed.
End source.

Lemma framed_input_inj r r' counter counter' :
  length (key_id (key_reference r)) = length (key_id (key_reference r')) ->
  length (message_id r) = length (message_id r') ->
  is_u16 (completed_attempt_ordinal r) = true ->
  is_u16 (completed_attempt_ordinal r') = true ->
  framed_input r counter = framed_input r' counter' ->
  key_id (key_reference r) = key_id (key_reference r') /\ message_id r = message_id r'
  /\ completed_attempt_ordinal r = completed_attempt_ordinal r' /\ counter = counter'.
Proof.
  unfold framed_input, is_u16. intros Hk Hm Ho Ho' H. apply app_inv_head in H.
  apply app_inj_length in H as [-> H]; [|done]. apply app_inj_length in H as [-> H]; [|done].
  apply app_be_bytes_inj in H as [H Hc]. injection Hc as ->. split_and!; try done.
  apply within_spec in Ho, Ho'. unfold u16_max in *.
  apply (be_bytes_inj 2); [change (256 ^ Z.of_nat 2) with (2 ^ 16); lia..|done].
Qed.

Lemma zrange_lookup n i : (i < n)%nat -> zrange n !! i = Some (Z.of_nat i).
Proof.
  intros Hi. unfold zrange. change (map Z.of_nat (seq 0 n)) with (Z.of_nat <$> seq 0 n).
  rewrite list_lookup_fmap, lookup_seq_lt by done. done.
Qed.

(** Splitting [0; 1; ...] at an element splits it at that element's value. *)
Lemma zrange_split n before k after :
  zrange n = before ++ k :: after ->
  k = Z.of_nat (length before) /\ (length before < n)%nat /\ before = zrange (length before).
Proof.
  intros H. assert (length before < n)%nat as Hlt.
  { apply (f_equal length) in H. unfold zrange in H.
    rewrite length_map, length_seq, length_app in H. cbn in H. lia. }
  assert (forall i, (i <= length before)%nat -> (before ++ k :: after) !! i = Some (Z.of_nat i))
    as Hl by (intros i Hi; rewrite <- H; apply zrange_lookup; lia).
  split_and!; [|done|].
  - specialize (Hl (length before) ltac:(lia)). rewrite list_lookup_middle in Hl by done.
    by injection Hl.
  - apply list_eq_same_length with (length before); [|done|].
    { unfold zrange. by rewrite length_map, length_seq. }
    intros i x y Hi Hx Hy. rewrite zrange_lookup in Hy by done.
    specialize (Hl i ltac:(lia)). rewrite lookup_app_l in Hl by done. congruence.
Qed.

Lemma zrange_at n k :
  (k < n)%nat -> exists after, zrange n = zrange k ++ Z.of_nat k :: after.
Proof.
  intros Hk. exists (map Z.of_nat (seq (S k) (n - S k))). unfold zrange.
  replace n with (k + S (n - S k))%nat at 1 by lia. by rewrite seq_app, map_app.
Qed.

(** ** Theorems *)

(** A derived multiplier comes from the first counter whose candidate is under
    the rejection limit, all earlier answers being usable but rejected; the
    request was well formed, and the value lies in [500, 1500]. *)
Theorem derive_retry_jitter_exact `{MacProvider P} (p : P) request m :
  derive_retry_jitter p request = Ok (MultiplierMilli m) <->
  request_is_valid request = true /\
  exists counter c,
    0 <= counter <= 255
    /\ (forall k, 0 <= k < counter ->
        exists c', answer p request k = Some c' /\ REJECTION_LIMIT <= c')
    /\ answer p request counter = Some c /\ c < REJECTION_LIMIT
    /\ m = 500 + c mod 1001.
Proof.
  unfold derive_retry_jitter. destruct (request_is_valid request); cbn [negb];
    [|split; [done|by intros [? _]]].
  assert (forall c, wrap 16 (500 + c mod 1001) = 500 + c mod 1001) as Hwrap.
  { intros c. unfold wrap. rewrite Z.mod_small; [done|]. pose proof (Z.mod_pos_bound c 1001). lia. }
  split.
  - intros (before & k & after & c & Hz & Hb & Ha & Hc & ->)%Ok_inj%sample_exact.
    split; [done|]. apply zrange_split in Hz as (-> & Hlt & Hbefore).
    exists (Z.of_nat (length before)), c. rewrite Hwrap. split_and!; try done; [lia..|].
    intros k Hk. rewrite Forall_forall in Hb. apply Hb. rewrite Hbefore.
    apply list_elem_of_lookup. exists (Z.to_nat k). rewrite zrange_lookup by lia. f_equal. lia.
  - intros [_ (k & c & Hk & Hb & Ha & Hc & ->)]. f_equal. apply sample_exact.
    destruct (zrange_at 256 (Z.to_nat k)) as [after Hz]; [lia|].
    exists (zrange (Z.to_nat k)), (Z.of_nat (Z.to_nat k)), after, c.
    rewrite Hwrap, Z2Nat.id by lia. split_and!; try done.
    + rewrite Hz. by rewrite Z2Nat.id by lia.
    + apply Forall_forall. intros j (i & Hi)%list_elem_of_lookup.
      assert (i < Z.to_nat k)%nat as Hlt.
      { apply lookup_lt_Some in Hi. unfold zrange in Hi. by rewrite length_map, length_seq in Hi. }
      rewrite zrange_lookup in Hi by done. injection Hi as <-. apply Hb. lia.
Qed.

(** Rejection sampling is unbiased: every multiplier of [500, 1500] has exactly
    the 4290676 accepted candidates of its residue class, and no other value has
    any. *)
Theorem rejection_sampling_unbiased c m :
  0 <= c < 2 ^ 32 ->
  (c < REJECTION_LIMIT /\ 500 + c mod 1001 = m) <->
  500 <= m <= 1500 /\ exists k, 0 <= k < 4290676 /\ c = (m - 500) + 1001 * k.
Proof.
  unfold REJECTION_LIMIT. intros Hc. split.
  - intros [Hl <-]. pose proof (Z.mod_pos_bound c 1001). split; [lia|].
    exists (c / 1001). pose proof (Z.div_mod c 1001). lia.
  - intros [Hm (k & Hk & ->)]. split; [lia|].
    rewrite Z.mul_comm, Z.mod_add, Z.mod_small; lia.
Qed.

(** ** Witnesses *)

Lemma rejection_sampling_unbiased_witness :
  1000 < REJECTION_LIMIT /\ 500 + 1000 mod 1001 = 1500.
Proof.
  apply (rejection_sampling_unbiased 1000 1500); [lia|]. split; [lia|]. exists 0. lia.
Defined.

(** An accepting provider for the examples: it echoes the requested key. *)
#[local] Instance constant_provider : MacProvider bytes :=
  fun tag key _ => Ok (mkVersionedTag key tag).

Example derive_accepts :
  derive_retry_jitter (repeat 0 32)
    (mkJitterSourceRequest 1 (mkMacKeyRef RetryJitterV1 (repeat 7 40))
      (repeat 0 6 ++ [112; 0; 128] ++ repeat 0 7) 3) = Ok (MultiplierMilli 500).
Proof. vm_compute. reflexivity. Qed.

Example derive_exhausts :
  derive_retry_jitter (repeat 255 32)
    (mkJitterSourceRequest 1 (mkMacKeyRef RetryJitterV1 (repeat 7 40))
      (repeat 0 6 ++ [112; 0; 128] ++ repeat 0 7) 3) = Ok Unavailable.
Proof. vm_compute. reflexivity. Qed.
