(* ===== verification/Store.v ===== *)
(** * Durable delivery store ([crates/msgriver-store/src/lib.rs])

    The SQL the source embeds is translated statement by statement over the
    tables of the migrations ([migration_v3_m2_delivery.sql],
    [migration_v4_driver_queue.sql], [migration_v5_whatsapp_inbound.sql]), CHECK,
    UNIQUE and PRIMARY KEY constraints included. Every call into SQLite may fail:
    [plan] says which do, and the theorems hold for every plan. A transaction
    works on a copy that only [commit] publishes; leaving the operation drops
    the transaction, which rolls back. *)

From S2P Require Import Prelude Bytes Sha256.

#[local] Open Scope Z_scope.

Inductive StoreFrontier : Type := ProfileOpen | MigrationCatalog | SelectedKeySnapshotFrontier.

Inductive StoreError : Type :=
| Scaffold (frontier : StoreFrontier)
| InvalidProfile | RuntimeVersion | Open | Profile | Integrity | Migration
| SelectedKeySnapshot | Delivery.

Definition scaffold_frontier (e : StoreError) : option StoreFrontier :=
  match e with Scaffold frontier => Some frontier | _ => None end.

(** ** Tables *)

Inductive MState : Type :=
| Queued | Sending | RetryScheduled | ProviderAccepted | AmbiguousState | Failed.

#[export] Instance MState_eq_dec : EqDecision MState.
Proof. solve_decision. Defined.

Definition state_text (s : MState) : string :=
  match s with
  | Queued => "queued" | Sending => "sending" | RetryScheduled => "retry_scheduled"
  | ProviderAccepted => "provider_accepted" | AmbiguousState => "ambiguous"
  | Failed => "failed"
  end.

(** A row of [m3_messages]; the primary key is the key of the table's map. *)
Record Row : Type := mkRow {
  idempotency_key : string;
  topic : string;
  title : option string;
  body : string;
  driver : string;
  destination : string;
  payload : string;
  state : MState;
  attempts : Z;
  next_attempt_at : option Z;
  provider_ack : option string;
  last_error : option string;
  created_at : Z;
  updated_at : Z
}.

Record Receipt : Type := mkReceipt {
  receipt_sender : string;
  receipt_verb : string;
  receipt_accepted_at : Z
}.

Record Db : Type := mkDb {
  m3_messages : gmap string Row;
  m4_inbound_control : option Z;
  m4_inbound_receipts : gmap string Receipt;
  m4_notify_rate_events : list (string * Z)
}.

(** SQLite's [length] of a TEXT value: characters before the first NUL. *)
Fixpoint sql_length_bytes (l : bytes) : Z :=
  match l with
  | [] => 0
  | b :: l' => if b =? 0 then 0
               else (if cont b then 0 else 1) + sql_length_bytes l'
  end.
Definition sql_length (s : string) : Z := sql_length_bytes (as_bytes s).

Definition is_due_state (s : MState) : bool :=
  match s with Queued | RetryScheduled => true | _ => false end.

Definition closed_driver (d : string) : bool :=
  bool_decide (d = "ntfy"%string) || bool_decide (d = "whatsapp"%string).

(** The CHECK constraints of [m3_messages]. *)
Definition row_ok (message_id : string) (r : Row) : bool :=
  (sql_length message_id =? 64)
  && within 1 128 (sql_length (idempotency_key r))
  && within 1 64 (sql_length (topic r))
  && within 1 4096 (sql_length (body r))
  && within 0 5 (attempts r)
  && eqb (is_due_state (state r)) (bool_decide (is_Some (next_attempt_at r)))
  && eqb (bool_decide (state r = ProviderAccepted)) (bool_decide (is_Some (provider_ack r)))
  && eqb (bool_decide (state r = AmbiguousState) || bool_decide (state r = Failed))
         (bool_decide (is_Some (last_error r)))
  && closed_driver (driver r).

Definition set_messages (db : Db) (m : gmap string Row) : Db :=
  mkDb m (m4_inbound_control db) (m4_inbound_receipts db) (m4_notify_rate_events db).

(** INSERT INTO m3_messages. *)
Definition insert_message (id : string) (r : Row) (db : Db) : option (Db * Z) :=
  if row_ok id r
     && bool_decide (m3_messages db !! id = None)
     && forallb (fun kr => negb (bool_decide (idempotency_key kr.2 = idempotency_key r)))
          (map_to_list (m3_messages db))
  then Some (set_messages db (<[id := r]> (m3_messages db)), 1) else None.

(** UPDATE m3_messages SET [upd] WHERE [sel]: all selected rows or none. *)
Definition update_messages (sel : string -> Row -> bool) (upd : Row -> Row) (db : Db)
    : option (Db * Z) :=
  let m := m3_messages db in
  if forallb (fun kr => negb (sel kr.1 kr.2) || row_ok kr.1 (upd kr.2)) (map_to_list m)
  then Some (set_messages db
               (map_imap (fun id r => Some (if sel id r then upd r else r)) m),
             Z.of_nat (length (List.filter (fun kr => sel kr.1 kr.2) (map_to_list m))))
  else None.

Definition set_status (r : Row) (st : MState) (att : Z) (next : option Z)
    (ack err : option string) (now : Z) : Row :=
  mkRow (idempotency_key r) (topic r) (title r) (body r) (driver r) (destination r)
    (payload r) st att next ack err (created_at r) now.

(** SELECT ... WHERE idempotency_key = ?1. *)
Definition find_by_key (key : string) (db : Db) : option (string * Row) :=
  head (List.filter (fun kr => bool_decide (idempotency_key kr.2 = key))
          (map_to_list (m3_messages db))).

(** ** The connection *)

Record Conn : Type := mkConn {
  connected : bool;
  durable : Db;
  working : Db;
  plan : list bool
}.

Definition M (A : Type) : Type := Conn -> Conn * result StoreError A.

#[export] Instance M_ret : MRet M := fun A a c => (c, Ok a).
#[export] Instance M_bind : MBind M := fun A B f m c =>
  match m c with
  | (c', Ok a) => f a c'
  | (c', Err e) => (c', Err e)
  end.

Definition fail {A : Type} (e : StoreError) : M A := fun c => (c, Err e).

Definition lift {A : Type} (r : result StoreError A) : M A := fun c => (c, r).

(** One call into SQLite: it fails when the plan says so. *)
Definition sqlite_call : M unit := fun c =>
  match plan c with
  | true :: p => (mkConn (connected c) (durable c) (working c) p, Err Delivery)
  | false :: p => (mkConn (connected c) (durable c) (working c) p, Ok tt)
  | [] => (c, Ok tt)
  end.

(** [self.connection.as_ref().ok_or(StoreError::Delivery)?]. *)
Definition connection : M unit := fun c =>
  if connected c then (c, Ok tt) else (c, Err Delivery).

Definition read_working : M Db := fun c => (c, Ok (working c)).
Definition read_durable : M Db := fun c => (c, Ok (durable c)).
Definition set_working (db : Db) : M unit := fun c =>
  (mkConn (connected c) (durable c) db (plan c), Ok tt).
Definition set_durable (db : Db) : M unit := fun c =>
  (mkConn (connected c) db (working c) (plan c), Ok tt).

Definition query {A : Type} (f : Db -> A) : M A :=
  sqlite_call ;; db ← read_working; mret (f db).

(** [query_row] without [optional]: no row is an error. *)
Definition query_row {A : Type} (f : Db -> option A) : M A :=
  o ← query f; lift (ok_or o Delivery).

(** [execute] inside a transaction: a violated constraint is an error. *)
Definition execute (f : Db -> option (Db * Z)) : M Z :=
  sqlite_call ;;
  db ← read_working;
  match f db with
  | Some (db', changed) => set_working db' ;; mret changed
  | None => fail Delivery
  end.

Definition begin_immediate : M unit :=
  sqlite_call ;; db ← read_durable; set_working db.

Definition commit : M unit :=
  sqlite_call ;; db ← read_working; set_durable db.

(** The transaction is dropped when its scope ends. *)
Definition in_transaction {A : Type} (m : M A) : M A := fun c =>
  let '(c', r) := (begin_immediate ;; m) c in
  (mkConn (connected c') (durable c') (durable c') (plan c'), r).

(** Outside a transaction a statement commits by itself. *)
Definition execute_auto (f : Db -> option (Db * Z)) : M Z :=
  sqlite_call ;;
  db ← read_durable;
  match f db with
  | Some (db', changed) => set_durable db' ;; mret changed
  | None => fail Delivery
  end.

Definition query_auto {A : Type} (f : Db -> A) : M A :=
  sqlite_call ;; db ← read_durable; mret (f db).

(** ** Input validation *)

Definition contains_byte (b : Z) (s : string) : bool :=
  existsb (fun x => x =? b) (as_bytes s).

Definition valid_text (value : string) (maximum : Z) : bool :=
  negb (str_len value =? 0) && (str_len value <=? maximum) && negb (contains_byte 0 value).

Definition valid_idempotency_key (value : string) : bool :=
  valid_text value 128
  && forallb (fun b => is_ascii_alphanumeric b || (b =? 45) || (b =? 95) || (b =? 46))
       (as_bytes value).

Definition valid_message_id (value : string) : bool :=
  (str_len value =? 64)
  && forallb (fun b => is_ascii_digit b || within 97 102 b) (as_bytes value).

Definition valid_topic (value : string) : bool :=
  valid_text value 64
  && forallb (fun b => is_ascii_alphanumeric b || (b =? 45) || (b =? 95)) (as_bytes value).

Definition valid_phone_sender (value : string) : bool :=
  within 7 20 (str_len value) && forallb is_ascii_digit (as_bytes value).

Record M2Submission : Type := mkM2Submission {
  m2_idempotency_key : string;
  m2_topic : string;
  m2_title : option string;
  m2_body : string
}.

Record M3Submission : Type := mkM3Submission {
  m3_idempotency_key : string;
  m3_driver : string;
  m3_destination : string;
  m3_payload : string
}.

Record M4InboundSubmission : Type := mkM4InboundSubmission {
  provider_message_id : string;
  sender : string;
  verb : string;
  m4_driver : string;
  m4_destination : string;
  m4_payload : string
}.

Definition validate_m2_submission (submission : M2Submission) : result StoreError unit :=
  if negb (valid_idempotency_key (m2_idempotency_key submission))
     || negb (valid_topic (m2_topic submission))
     || negb (valid_text (m2_body submission) 4096)
     || match m2_title submission with
        | Some title => negb (valid_text title 256) || contains_byte 13 title
                        || contains_byte 10 title
        | None => false
        end
  then Err Delivery else Ok tt.

(** ** Message identities *)

Definition id_field (field : string) : bytes :=
  be_bytes 8 (str_len field) ++ as_bytes field.

Definition digest_to_hex (l : bytes) : string := of_bytes (hex_bytes l).

Definition m2_fields (submission : M2Submission) : list string :=
  [m2_idempotency_key submission; m2_topic submission;
   default ""%string (m2_title submission); m2_body submission].

Definition m2_message_id (submission : M2Submission) : string :=
  digest_to_hex (sha256 (concat (map id_field (m2_fields submission)))).

Definition m3_fields (submission : M3Submission) : list string :=
  [m3_idempotency_key submission; m3_driver submission;
   m3_destination submission; m3_payload submission].

Definition m3_message_id (submission : M3Submission) : string :=
  digest_to_hex (sha256 (concat (map id_field (m3_fields submission)))).

(** ** Admission *)

Inductive M2Accepted : Type := New (message_id : string) | Existing (message_id : string).

Inductive M4InboundDisposition : Type := Accepted | Disabled | Replayed | RateLimited.

Definition m2_submit (submission : M2Submission) (now_unix_ms : Z) : M M2Accepted :=
  lift (validate_m2_submission submission) ;;
  connection ;;
  in_transaction (
    existing ← query (find_by_key (m2_idempotency_key submission));
    match existing with
    | Some (message_id, r) =>
      if bool_decide (topic r = m2_topic submission)
         && bool_decide (title r = m2_title submission)
         && bool_decide (body r = m2_body submission)
      then commit ;; mret (Existing message_id)
      else fail Delivery
    | None =>
      let message_id := m2_message_id submission in
      execute (insert_message message_id
        (mkRow (m2_idempotency_key submission) (m2_topic submission) (m2_title submission)
           (m2_body submission) "ntfy" (m2_topic submission) "" Queued 0 (Some now_unix_ms)
           None None now_unix_ms now_unix_ms)) ;;
      commit ;;
      mret (New message_id)
    end).

Definition m3_submit (submission : M3Submission) (now_unix_ms : Z) : M M2Accepted :=
  lift (if negb (valid_idempotency_key (m3_idempotency_key submission))
           || negb (closed_driver (m3_driver submission))
           || negb (valid_text (m3_destination submission) 256)
           || negb (valid_text (m3_payload submission) 4096)
        then Err Delivery else Ok tt) ;;
  connection ;;
  in_transaction (
    existing ← query (find_by_key (m3_idempotency_key submission));
    match existing with
    | Some (message_id, r) =>
      if bool_decide (driver r = m3_driver submission)
         && bool_decide (destination r = m3_destination submission)
         && bool_decide (payload r = m3_payload submission)
      then commit ;; mret (Existing message_id)
      else fail Delivery
    | None =>
      let message_id := m3_message_id submission in
      execute (insert_message message_id
        (mkRow (m3_idempotency_key submission) (m3_driver submission) None
           (m3_payload submission) (m3_driver submission) (m3_destination submission)
           (m3_payload submission) Queued 0 (Some now_unix_ms)
           None None now_unix_ms now_unix_ms)) ;;
      commit ;;
      mret (New message_id)
    end).

Definition set_inbound_control (enabled : Z) (db : Db) : option (Db * Z) :=
  match m4_inbound_control db with
  | Some _ => Some (mkDb (m3_messages db) (Some enabled) (m4_inbound_receipts db)
                      (m4_notify_rate_events db), 1)
  | None => Some (db, 0)
  end.

Definition m4_set_inbound_enabled (enabled : bool) : M unit :=
  connection ;;
  changed ← execute_auto (set_inbound_control (if enabled then 1 else 0));
  if changed =? 1 then mret tt else fail Delivery.

Definition insert_receipt (id : string) (r : Receipt) (db : Db) : option (Db * Z) :=
  if bool_decide (m4_inbound_receipts db !! id = None)
     && (bool_decide (receipt_verb r = "notify"%string)
         || bool_decide (receipt_verb r = "status"%string))
  then Some (mkDb (m3_messages db) (m4_inbound_control db)
               (<[id := r]> (m4_inbound_receipts db)) (m4_notify_rate_events db), 1)
  else None.

Definition insert_rate_event (sender : string) (at_ms : Z) (db : Db) : option (Db * Z) :=
  Some (mkDb (m3_messages db) (m4_inbound_control db) (m4_inbound_receipts db)
          (m4_notify_rate_events db ++ [(sender, at_ms)]), 1).

(** SELECT COUNT ... WHERE sender = ?1 AND accepted_at_unix_ms > ?2. *)
Definition rate_count (sender : string) (start : Z) (db : Db) : Z :=
  Z.of_nat (length (List.filter
    (fun e => bool_decide (e.1 = sender) && (start <? e.2)) (m4_notify_rate_events db))).

Definition is_notify (submission : M4InboundSubmission) : bool :=
  bool_decide (verb submission = "notify"%string).

(** From [let key = ...] to the end of [m4_submit_inbound]. *)
Definition m4_record (submission : M4InboundSubmission) (now_unix_ms : Z)
    : M M4InboundDisposition :=
  let key := String.append "m4-" (provider_message_id submission) in
  if negb (valid_idempotency_key key) then fail Delivery
  else
    let message_id := m3_message_id
      (mkM3Submission key (m4_driver submission) (m4_destination submission)
         (m4_payload submission)) in
    execute (insert_message message_id
      (mkRow key (m4_destination submission) None (m4_payload submission)
         (m4_driver submission) (m4_destination submission) (m4_payload submission)
         Queued 0 (Some now_unix_ms) None None now_unix_ms now_unix_ms)) ;;
    execute (insert_receipt (provider_message_id submission)
      (mkReceipt (sender submission) (verb submission) now_unix_ms)) ;;
    (if is_notify submission
     then execute (insert_rate_event (sender submission) now_unix_ms) ;; mret tt
     else mret tt) ;;
    commit ;;
    mret Accepted.

Definition m4_submit_inbound (submission : M4InboundSubmission) (now_unix_ms : Z)
    : M M4InboundDisposition :=
  lift (if negb (valid_idempotency_key (provider_message_id submission))
           || negb (valid_phone_sender (sender submission))
           || negb (bool_decide (verb submission = "notify"%string)
                    || bool_decide (verb submission = "status"%string))
           || negb (closed_driver (m4_driver submission))
           || negb (valid_text (m4_destination submission) 256)
           || negb (valid_text (m4_payload submission) 4096)
        then Err Delivery else Ok tt) ;;
  connection ;;
  in_transaction (
    enabled ← query_row m4_inbound_control;
    if negb (enabled =? 1) then commit ;; mret Disabled
    else
      replayed ← query (fun db => m4_inbound_receipts db !! provider_message_id submission);
      match replayed with
      | Some _ => commit ;; mret Replayed
      | None =>
        if is_notify submission then
          start ← lift (ok_or (checked_sub_i64 now_unix_ms 600000) Delivery);
          count ← query (rate_count (sender submission) start);
          if 4 <=? count then commit ;; mret RateLimited
          else m4_record submission now_unix_ms
        else m4_record submission now_unix_ms
      end).

(** ** Dispatch *)

Record M2Delivery : Type := mkM2Delivery {
  d_message_id : string;
  d_driver : string;
  d_destination : string;
  d_payload : string;
  d_topic : string;
  d_title : option string;
  d_body : string;
  d_attempt : Z
}.

(** ORDER BY created_at_unix_ms, message_id. *)
Definition claim_before (x y : string * Row) : bool :=
  match created_at x.2 ?= created_at y.2 with
  | Lt => true
  | Gt => false
  | Eq => match bytes_cmp (as_bytes x.1) (as_bytes y.1) with Gt => false | _ => true end
  end.

Definition least (l : list (string * Row)) : option (string * Row) :=
  foldr (fun x acc =>
    match acc with
    | None => Some x
    | Some y => if claim_before x y then Some x else Some y
    end) None l.

Definition is_due (now : Z) (r : Row) : bool :=
  is_due_state (state r)
  && match next_attempt_at r with Some next => next <=? now | None => false end.

Definition due_candidate (now : Z) (db : Db) : option (string * Row) :=
  least (List.filter (fun kr => is_due now kr.2) (map_to_list (m3_messages db))).

Definition m2_claim_due (now_unix_ms : Z) : M (option M2Delivery) :=
  connection ;;
  in_transaction (
    candidate ← query (due_candidate now_unix_ms);
    match candidate with
    | None => commit ;; mret None
    | Some (message_id, r) =>
      changed ← execute (update_messages
        (fun id r => bool_decide (id = message_id) && is_due_state (state r))
        (fun r => set_status r Sending (attempts r + 1) None (provider_ack r)
                    (last_error r) now_unix_ms));
      if negb (changed =? 1) then fail Delivery
      else
        attempt ← lift (ok_or (checked is_u8 (attempts r + 1)) Delivery);
        commit ;;
        mret (Some (mkM2Delivery message_id (driver r) (destination r) (payload r)
                      (topic r) (title r) (body r) attempt))
    end).

(** WHERE message_id = ?1 AND state = 'sending'. *)
Definition sending_row (message_id : string) (id : string) (r : Row) : bool :=
  bool_decide (id = message_id) && bool_decide (state r = Sending).

Definition m2_transition_sending (message_id : string) (upd : Row -> Row) : M unit :=
  connection ;;
  changed ← execute_auto (update_messages (sending_row message_id) upd);
  if changed =? 1 then mret tt else fail Delivery.

Definition m2_mark_accepted (message_id ack : string) (now_unix_ms : Z) : M unit :=
  if negb (valid_text ack 256) then fail Delivery
  else m2_transition_sending message_id (fun r =>
    set_status r ProviderAccepted (attempts r) (next_attempt_at r) (Some ack)
      (last_error r) now_unix_ms).

Definition m2_mark_failed (message_id reason : string) (now_unix_ms : Z) : M unit :=
  if negb (valid_text reason 256) then fail Delivery
  else m2_transition_sending message_id (fun r =>
    set_status r Failed (attempts r) (next_attempt_at r) (provider_ack r)
      (Some reason) now_unix_ms).

Definition m2_mark_ambiguous (message_id reason : string) (now_unix_ms : Z) : M unit :=
  if negb (valid_text reason 256) then fail Delivery
  else m2_transition_sending message_id (fun r =>
    set_status r AmbiguousState (attempts r) (next_attempt_at r) (provider_ack r)
      (Some reason) now_unix_ms).

Definition sending_attempts (message_id : string) (db : Db) : option Z :=
  r ← m3_messages db !! message_id;
  if bool_decide (state r = Sending) then Some (attempts r) else None.

Definition m2_mark_retry (message_id reason : string) (delay_ms now_unix_ms : Z) : M unit :=
  if negb (valid_text reason 256) || negb (within 1000 3600000 delay_ms) then fail Delivery
  else
    connection ;;
    in_transaction (
      att ← query_row (sending_attempts message_id);
      changed ←
        (if 5 <=? att then
           execute (update_messages (sending_row message_id) (fun r =>
             set_status r Failed (attempts r) (next_attempt_at r) (provider_ack r)
               (Some reason) now_unix_ms))
         else
           next ← lift (ok_or (checked_add_i64 now_unix_ms delay_ms) Delivery);
           execute (update_messages (sending_row message_id) (fun r =>
             set_status r RetryScheduled (attempts r) (Some next) (provider_ack r)
               None now_unix_ms)));
      if negb (changed =? 1) then fail Delivery else commit).

Definition INTERRUPTED : string := "interrupted external delivery may have occurred".

Definition m2_recover_interrupted (now_unix_ms : Z) : M Z :=
  connection ;;
  changed ← execute_auto (update_messages
    (fun _ r => bool_decide (state r = Sending))
    (fun r => set_status r AmbiguousState (attempts r) (next_attempt_at r)
                (provider_ack r) (Some INTERRUPTED) now_unix_ms));
  mret changed. (* [u64::try_from] of a [usize]: always representable *)

(** ** Operator surface *)

Definition m2_state (message_id : string) : M (option string) :=
  connection ;;
  query_auto (fun db => (fun r => state_text (state r)) <$> m3_messages db !! message_id).

Record M6QueueSummary : Type := mkM6QueueSummary {
  queued : Z; retry_scheduled : Z; sending : Z; provider_accepted : Z; failed : Z;
  ambiguous : Z
}.

Definition state_count (s : MState) (db : Db) : Z :=
  Z.of_nat (length (List.filter (fun kr => bool_decide (state kr.2 = s))
                      (map_to_list (m3_messages db)))).

Definition m6_state_count (s : MState) : M Z :=
  count ← query_auto (state_count s);
  lift (ok_or (checked is_u64 count) Delivery).

Definition m6_queue_summary : M M6QueueSummary :=
  connection ;;
  queued ← m6_state_count Queued;
  retry_scheduled ← m6_state_count RetryScheduled;
  sending ← m6_state_count Sending;
  provider_accepted ← m6_state_count ProviderAccepted;
  failed ← m6_state_count Failed;
  ambiguous ← m6_state_count AmbiguousState;
  mret (mkM6QueueSummary queued retry_scheduled sending provider_accepted failed ambiguous).

Record M6MessageStatus : Type := mkM6MessageStatus {
  status_state : string;
  status_attempts : Z
}.

Definition m6_message_status (message_id : string) : M (option M6MessageStatus) :=
  if negb (valid_message_id message_id) then fail Delivery
  else
    connection ;;
    row ← query_auto (fun db => m3_messages db !! message_id);
    match row with
    | None => mret None
    | Some r =>
      att ← lift (ok_or (checked is_u64 (attempts r)) Delivery);
      mret (Some (mkM6MessageStatus (state_text (state r)) att))
    end.

Definition m6_requeue_failed (message_id : string) (now_unix_ms : Z) : M (option bool) :=
  if negb (valid_message_id message_id) then fail Delivery
  else
    connection ;;
    in_transaction (
      found ← query (fun db => state <$> m3_messages db !! message_id);
      match found with
      | None => commit ;; mret None
      | Some s =>
        if negb (bool_decide (s = Failed)) then commit ;; mret (Some false)
        else
          changed ← execute (update_messages
            (fun id r => bool_decide (id = message_id) && bool_decide (state r = Failed))
            (fun r => set_status r Queued (attempts r) (Some now_unix_ms)
                        (provider_ack r) None now_unix_ms));
          if negb (changed =? 1) then fail Delivery
          else commit ;; mret (Some true)
      end).
