(* ===== verification/StoreSpec.v ===== *)
(** * Atomic specification of the store

    [spec] gives each operation of [Store] as one pure function of the tables:
    no transaction, no SQL, no engine failure. The refinement theorem says that
    on well-formed tables an operation of the store either fails and changes
    nothing or does exactly what [spec] says, and that it does so whenever the
    engine does not fail. *)

From S2P Require Import Prelude Bytes Store.

#[local] Open Scope Z_scope.

(** ** The well-formed tables *)

Definition unique_keys (m : gmap string Row) : Prop :=
  forall id id' r r', m !! id = Some r -> m !! id' = Some r' ->
  idempotency_key r = idempotency_key r' -> id = id'.

Record wf (db : Db) : Prop := mkWf {
  wf_rows : forall id r, m3_messages db !! id = Some r -> row_ok id r = true;
  wf_keys : unique_keys (m3_messages db);
  wf_control : m4_inbound_control db = Some 0 \/ m4_inbound_control db = Some 1
}.

(** ** Lists of rows *)

Lemma filter_perm {A : Type} (f : A -> bool) l k :
  l ≡ₚ k -> List.filter f l ≡ₚ List.filter f k.
Proof.
  induction 1 as [|x l k _ IH|x y l|l k j _ IH1 _ IH2]; simpl; [done| | |by rewrite IH1].
  - destruct (f x); [by rewrite IH|done].
  - destruct (f x), (f y); try done. apply Permutation_swap.
Qed.

Lemma filter_none {A : Type} (f : A -> bool) l :
  (forall x, x ∈ l -> f x = false) -> List.filter f l = [].
Proof.
  induction l as [|x l IH]; intros H; [done|]. simpl.
  rewrite (H x) by (rewrite elem_of_cons; auto). apply IH. intros y Hy. apply H.
  rewrite elem_of_cons; auto.
Qed.

Lemma elem_of_lfilter {A : Type} (f : A -> bool) l x :
  x ∈ List.filter f l <-> f x = true /\ x ∈ l.
Proof. rewrite !list_elem_of_In, filter_In. tauto. Qed.

Lemma forallb_rows (f : string * Row -> bool) (m : gmap string Row) :
  forallb f (map_to_list m) = true <-> forall id r, m !! id = Some r -> f (id, r) = true.
Proof.
  rewrite forallb_Forall, Forall_forall. split.
  - intros H id r Hr. apply H. by apply elem_of_map_to_list.
  - intros H [id r] Hr. apply H. by apply elem_of_map_to_list.
Qed.

Lemma set_messages_id db : set_messages db (m3_messages db) = db.
Proof. by destruct db. Qed.

(** ** Single-row statements *)

Definition at_row (mid : string) (p : Row -> bool) (id : string) (r : Row) : bool :=
  bool_decide (id = mid) && p r.

Lemma filter_single (m : gmap string Row) mid (p : Row -> bool) :
  List.filter (fun kr => at_row mid p kr.1 kr.2) (map_to_list m) =
  match m !! mid with Some r => if p r then [(mid, r)] else [] | None => [] end.
Proof.
  unfold at_row. destruct (m !! mid) as [r|] eqn:E.
  - rewrite <- (insert_delete_id m mid r) at 1 by done.
    pose proof (map_to_list_insert (delete mid m) mid r (lookup_delete_eq m mid)) as Hp.
    apply (filter_perm (fun kr => bool_decide (kr.1 = mid) && p kr.2)) in Hp.
    cbn [List.filter fst snd] in Hp. rewrite bool_decide_true in Hp by done. cbn [andb] in Hp.
    rewrite (filter_none _ (map_to_list (delete mid m))) in Hp.
    + destruct (p r); [by apply Permutation_singleton_r in Hp|by apply Permutation_nil_r in Hp].
    + intros [id r'] Hin%elem_of_map_to_list. cbn. rewrite bool_decide_false; [done|].
      intros ->. by rewrite lookup_delete_eq in Hin.
  - apply filter_none. intros [id r] Hin%elem_of_map_to_list. cbn.
    rewrite bool_decide_false; [done|]. intros ->. congruence.
Qed.

Lemma map_imap_single (m : gmap string Row) mid (p : Row -> bool) (upd : Row -> Row) :
  map_imap (fun id r => Some (if at_row mid p id r then upd r else r)) m =
  match m !! mid with
  | Some r => if p r then <[mid := upd r]> m else m
  | None => m
  end.
Proof.
  apply map_eq. intros id. rewrite map_lookup_imap. unfold at_row.
  destruct (decide (id = mid)) as [->|Hne].
  - destruct (m !! mid) as [r|] eqn:E; cbn; [|by rewrite E].
    rewrite bool_decide_true by done. cbn. destruct (p r); [by rewrite lookup_insert_eq|by rewrite E].
  - rewrite bool_decide_false by done. cbn.
    destruct (m !! mid) as [r|]; [destruct (p r)|]; rewrite ?lookup_insert_ne by done;
      by destruct (m !! id).
Qed.

(** An UPDATE of one row by its primary key. *)
Lemma update_single mid p upd db :
  update_messages (at_row mid p) upd db =
  match m3_messages db !! mid with
  | Some r =>
    if p r then
      if row_ok mid (upd r)
      then Some (set_messages db (<[mid := upd r]> (m3_messages db)), 1) else None
    else Some (db, 0)
  | None => Some (db, 0)
  end.
Proof.
  unfold update_messages. rewrite map_imap_single, filter_single.
  assert (forallb (fun kr => negb (at_row mid p kr.1 kr.2) || row_ok kr.1 (upd kr.2))
            (map_to_list (m3_messages db)) =
          match m3_messages db !! mid with
          | Some r => if p r then row_ok mid (upd r) else true | None => true end) as ->.
  { apply eq_true_iff_eq. rewrite forallb_rows. unfold at_row. cbn. split.
    - intros H. destruct (m3_messages db !! mid) as [r|] eqn:E; [|done].
      specialize (H mid r E). rewrite bool_decide_true in H by done. cbn in H.
      by destruct (p r).
    - intros H id r Hr. case_bool_decide; subst; [|done]. rewrite Hr in H. cbn.
      by destruct (p r). }
  destruct (m3_messages db !! mid) as [r|]; [|by rewrite set_messages_id].
  destruct (p r); [|by rewrite set_messages_id]. by destruct (row_ok mid (upd r)).
Qed.

(** ** What holds of every computation of the store *)

Definition faultless (c : Conn) : Conn := mkConn (connected c) (durable c) (working c) [].

(** Success under a failing plan is success, with the same answer and the same
    tables, under the plan without failures. *)
Definition tame {A : Type} (m : M A) : Prop :=
  forall c c' a, m c = (c', Ok a) -> m (faultless c) = (faultless c', Ok a).

(** The computation publishes nothing. *)
Definition silent {A : Type} (m : M A) : Prop :=
  forall c, durable (m c).1 = durable c.

(** An error publishes nothing. *)
Definition atomic {A : Type} (m : M A) : Prop :=
  forall c c' e, m c = (c', Err e) -> durable c' = durable c.

(** The computation cannot fail. *)
Definition total {A : Type} (m : M A) : Prop := forall c, exists c' a, m c = (c', Ok a).

Create HintDb store.

Section tameness.
Context {A : Type}.

Lemma tame_ret (a : A) : tame (mret a).
Proof. intros c c' a' [= <- <-]. done. Qed.

Lemma tame_fail e : tame (fail (A:=A) e).
Proof. intros c c' a. done. Qed.

Lemma tame_lift (r : result StoreError A) : tame (lift r).
Proof. intros c c' a [= <- ->]. done. Qed.

Lemma tame_bind {B : Type} (m : M A) (f : A -> M B) :
  tame m -> (forall a, tame (f a)) -> tame (m ≫= f).
Proof.
  intros Hm Hf c c' b. unfold mbind, M_bind.
  destruct (m c) as [c1 [a|e]] eqn:E; [|done].
  apply Hm in E as ->. apply Hf.
Qed.
End tameness.

Lemma tame_sqlite_call : tame sqlite_call.
Proof.
  intros c c' a. unfold sqlite_call. cbn.
  destruct (plan c) as [|[|] p] eqn:E; intros [= <- <-]; unfold faultless; cbn; done.
Qed.

Lemma tame_connection : tame connection.
Proof. intros c c' a. unfold connection. cbn. destruct (connected c); [|done]. by intros [= <- <-]. Qed.

Lemma tame_read_working : tame read_working.
Proof. by intros c c' a [= <- <-]. Qed.

Lemma tame_read_durable : tame read_durable.
Proof. by intros c c' a [= <- <-]. Qed.

Lemma tame_set_working db : tame (set_working db).
Proof. by intros c c' a [= <- <-]. Qed.

Lemma tame_set_durable db : tame (set_durable db).
Proof. by intros c c' a [= <- <-]. Qed.

#[export] Hint Resolve tame_ret tame_fail tame_lift tame_sqlite_call tame_connection
  tame_read_working tame_read_durable tame_set_working tame_set_durable : store.

(** Structural proof that a computation is tame. *)
Ltac tame_tac :=
  repeat first [ solve [eauto with store nocore] | apply tame_bind
               | match goal with |- forall _, _ => intro end | case_match ].

Lemma tame_query {A : Type} (f : Db -> A) : tame (query f).
Proof. unfold query. tame_tac. Qed.

Lemma tame_query_auto {A : Type} (f : Db -> A) : tame (query_auto f).
Proof. unfold query_auto. tame_tac. Qed.

Lemma tame_query_row {A : Type} (f : Db -> option A) : tame (query_row f).
Proof. unfold query_row. apply tame_bind; [apply tame_query|]. tame_tac. Qed.

Lemma tame_execute f : tame (execute f).
Proof. unfold execute. tame_tac. Qed.

Lemma tame_execute_auto f : tame (execute_auto f).
Proof. unfold execute_auto. tame_tac. Qed.

Lemma tame_commit : tame commit.
Proof. unfold commit. tame_tac. Qed.

Lemma tame_begin : tame begin_immediate.
Proof. unfold begin_immediate. tame_tac. Qed.

#[export] Hint Resolve tame_query tame_query_auto tame_query_row tame_execute
  tame_execute_auto tame_commit tame_begin : store.

Lemma tame_in_transaction {A : Type} (m : M A) : tame m -> tame (in_transaction m).
Proof.
  intros Hm c c' a. unfold in_transaction.
  destruct ((begin_immediate ;; m) c) as [c1 r] eqn:E. intros [= <- ->].
  assert (tame (begin_immediate ;; m)) as Ht by (apply tame_bind; [apply tame_begin|done]).
  apply Ht in E as ->. done.
Qed.

(** ** Silence and atomicity *)

Lemma silent_bind {A B : Type} (m : M A) (f : A -> M B) :
  silent m -> (forall a, silent (f a)) -> silent (m ≫= f).
Proof.
  intros Hm Hf c. unfold mbind, M_bind. specialize (Hm c).
  destruct (m c) as [c1 [a|e]]; cbn in *; [|done]. by rewrite Hf.
Qed.

Lemma silent_ret {A : Type} (a : A) : silent (mret a).
Proof. by intros c. Qed.

Lemma silent_fail {A : Type} e : silent (fail (A:=A) e).
Proof. by intros c. Qed.

Lemma silent_lift {A : Type} (r : result StoreError A) : silent (lift r).
Proof. by intros c. Qed.

Lemma silent_sqlite_call : silent sqlite_call.
Proof. intros c. unfold sqlite_call. by destruct (plan c) as [|[|] p]. Qed.

Lemma silent_connection : silent connection.
Proof. intros c. unfold connection. by destruct (connected c). Qed.

Lemma silent_read_working : silent read_working.
Proof. by intros c. Qed.

Lemma silent_read_durable : silent read_durable.
Proof. by intros c. Qed.

Lemma silent_set_working db : silent (set_working db).
Proof. by intros c. Qed.

#[export] Hint Resolve silent_ret silent_fail silent_lift silent_sqlite_call
  silent_connection silent_read_working silent_read_durable silent_set_working : store.

Ltac silent_tac :=
  repeat first [ solve [eauto with store nocore] | apply silent_bind
               | match goal with |- forall _, _ => intro end | case_match ].

Lemma silent_query {A : Type} (f : Db -> A) : silent (query f).
Proof. unfold query. silent_tac. Qed.

Lemma silent_query_auto {A : Type} (f : Db -> A) : silent (query_auto f).
Proof. unfold query_auto. silent_tac. Qed.

Lemma silent_query_row {A : Type} (f : Db -> option A) : silent (query_row f).
Proof. unfold query_row. apply silent_bind; [apply silent_query|]. silent_tac. Qed.

Lemma silent_execute f : silent (execute f).
Proof. unfold execute. silent_tac. Qed.

Lemma silent_begin : silent begin_immediate.
Proof. unfold begin_immediate. silent_tac. Qed.

#[export] Hint Resolve silent_query silent_query_auto silent_query_row silent_execute
  silent_begin : store.

Lemma atomic_silent {A : Type} (m : M A) : silent m -> atomic m.
Proof. intros Hm c c' e E. specialize (Hm c). by rewrite E in Hm. Qed.

Lemma atomic_bind {A B : Type} (m : M A) (f : A -> M B) :
  silent m -> (forall a, atomic (f a)) -> atomic (m ≫= f).
Proof.
  intros Hm Hf c c' e. unfold mbind, M_bind. specialize (Hm c).
  destruct (m c) as [c1 [a|e']]; cbn in *; [|by intros [= <- <-]].
  intros E. apply Hf in E. congruence.
Qed.

Lemma atomic_then {A B : Type} (m : M A) (b : A -> B) :
  atomic m -> atomic (a ← m; mret (b a)).
Proof.
  intros Hm c c' e. unfold mbind, M_bind. destruct (m c) as [c1 [a|e']] eqn:E; [done|].
  intros [= <- <-]. by eapply Hm.
Qed.

Lemma atomic_commit : atomic commit.
Proof.
  intros c c' e. unfold commit, mbind, M_bind, sqlite_call, read_working, set_durable.
  destruct (plan c) as [|[|] p]; [done| |done]. by intros [= <- <-].
Qed.

Lemma atomic_commit_ret {A : Type} (a : A) : atomic (commit ;; mret a).
Proof. apply (atomic_then commit (fun _ => a)), atomic_commit. Qed.

Lemma atomic_execute_auto f : atomic (execute_auto f).
Proof.
  intros c c' e. unfold execute_auto, mbind, M_bind, sqlite_call, read_durable, set_durable.
  destruct (plan c) as [|[|] p]; cbn; [|by intros [= <- <-]|];
    destruct (f (durable c)) as [[db n]|]; cbn; try done; by intros [= <- <-].
Qed.

#[export] Hint Resolve atomic_silent atomic_commit atomic_commit_ret atomic_execute_auto : store.

Lemma atomic_in_transaction {A : Type} (m : M A) : atomic m -> atomic (in_transaction m).
Proof.
  intros Hm c c' e. unfold in_transaction.
  destruct ((begin_immediate ;; m) c) as [c1 r] eqn:E. intros [= <- ->]. cbn.
  assert (atomic (begin_immediate ;; m)) as Ha
    by (apply atomic_bind; [apply silent_begin|done]).
  by apply Ha in E.
Qed.

(** Structural proof that a computation publishes nothing when it fails. *)
Ltac atomic_tac :=
  repeat first
    [ solve [eauto with store nocore]
    | apply atomic_bind; [solve [silent_tac]|]
    | apply atomic_in_transaction
    | match goal with |- forall _, _ => intro end | case_match ].

(** ** Operations *)

Inductive Op : Type :=
| OpM2Submit (submission : M2Submission) (now : Z)
| OpM3Submit (submission : M3Submission) (now : Z)
| OpSetInbound (enabled : bool)
| OpInbound (submission : M4InboundSubmission) (now : Z)
| OpClaim (now : Z)
| OpAccept (id ack : string) (now : Z)
| OpFail (id reason : string) (now : Z)
| OpAmbiguous (id reason : string) (now : Z)
| OpRetry (id reason : string) (delay_ms now : Z)
| OpRecover (now : Z)
| OpRequeue (id : string) (now : Z)
| OpState (id : string)
| OpStatus (id : string)
| OpSummary.

Inductive Resp : Type :=
| RDone
| RSubmitted (a : M2Accepted)
| RInbound (d : M4InboundDisposition)
| RClaimed (d : option M2Delivery)
| RCount (n : Z)
| RRequeued (b : option bool)
| RState (s : option string)
| RStatus (s : option M6MessageStatus)
| RSummary (s : M6QueueSummary).

Definition exec (op : Op) : M Resp :=
  match op with
  | OpM2Submit s now => a ← m2_submit s now; mret (RSubmitted a)
  | OpM3Submit s now => a ← m3_submit s now; mret (RSubmitted a)
  | OpSetInbound b => a ← m4_set_inbound_enabled b; mret ((fun _ => RDone) a)
  | OpInbound s now => d ← m4_submit_inbound s now; mret (RInbound d)
  | OpClaim now => d ← m2_claim_due now; mret (RClaimed d)
  | OpAccept id ack now => a ← m2_mark_accepted id ack now; mret ((fun _ => RDone) a)
  | OpFail id reason now => a ← m2_mark_failed id reason now; mret ((fun _ => RDone) a)
  | OpAmbiguous id reason now => a ← m2_mark_ambiguous id reason now; mret ((fun _ => RDone) a)
  | OpRetry id reason delay now =>
    a ← m2_mark_retry id reason delay now; mret ((fun _ => RDone) a)
  | OpRecover now => n ← m2_recover_interrupted now; mret (RCount n)
  | OpRequeue id now => b ← m6_requeue_failed id now; mret (RRequeued b)
  | OpState id => s ← m2_state id; mret (RState s)
  | OpStatus id => s ← m6_message_status id; mret (RStatus s)
  | OpSummary => s ← m6_queue_summary; mret (RSummary s)
  end.

(** ** The specification *)

Definition put (id : string) (r : Row) (db : Db) : Db :=
  set_messages db (<[id := r]> (m3_messages db)).

Definition spec_admit (id key : string) (same : Row -> bool) (r : Row) (db : Db)
    : result StoreError (Db * M2Accepted) :=
  match find_by_key key db with
  | Some (id', r') => if same r' then Ok (db, Existing id') else Err Delivery
  | None =>
    if row_ok id r && bool_decide (m3_messages db !! id = None)
    then Ok (put id r db, New id) else Err Delivery
  end.

(** A fresh row: queued, never attempted, due at once. *)
Definition fresh_row (key topic : string) (title : option string)
    (body driver destination payload : string) (now : Z) : Row :=
  mkRow key topic title body driver destination payload Queued 0 (Some now) None None now now.

Definition m2_row (s : M2Submission) (now : Z) : Row :=
  fresh_row (m2_idempotency_key s) (m2_topic s) (m2_title s) (m2_body s)
    "ntfy" (m2_topic s) "" now.

Definition m2_same (s : M2Submission) (r : Row) : bool :=
  bool_decide (topic r = m2_topic s) && bool_decide (title r = m2_title s)
  && bool_decide (body r = m2_body s).

Definition valid_m3 (s : M3Submission) : bool :=
  valid_idempotency_key (m3_idempotency_key s) && closed_driver (m3_driver s)
  && valid_text (m3_destination s) 256 && valid_text (m3_payload s) 4096.

Definition m3_row (s : M3Submission) (now : Z) : Row :=
  fresh_row (m3_idempotency_key s) (m3_driver s) None (m3_payload s)
    (m3_driver s) (m3_destination s) (m3_payload s) now.

Definition m3_same (s : M3Submission) (r : Row) : bool :=
  bool_decide (driver r = m3_driver s) && bool_decide (destination r = m3_destination s)
  && bool_decide (payload r = m3_payload s).

Definition valid_m4 (s : M4InboundSubmission) : bool :=
  valid_idempotency_key (provider_message_id s) && valid_phone_sender (sender s)
  && (bool_decide (verb s = "notify"%string) || bool_decide (verb s = "status"%string))
  && closed_driver (m4_driver s) && valid_text (m4_destination s) 256
  && valid_text (m4_payload s) 4096.

Definition m4_key (s : M4InboundSubmission) : string :=
  String.append "m4-" (provider_message_id s).

Definition m4_id (s : M4InboundSubmission) : string :=
  m3_message_id (mkM3Submission (m4_key s) (m4_driver s) (m4_destination s) (m4_payload s)).

Definition m4_row (s : M4InboundSubmission) (now : Z) : Row :=
  fresh_row (m4_key s) (m4_destination s) None (m4_payload s)
    (m4_driver s) (m4_destination s) (m4_payload s) now.

Definition record_inbound (s : M4InboundSubmission) (now : Z) (db : Db) : Db :=
  mkDb (<[m4_id s := m4_row s now]> (m3_messages db)) (m4_inbound_control db)
    (<[provider_message_id s := mkReceipt (sender s) (verb s) now]> (m4_inbound_receipts db))
    (m4_notify_rate_events db ++ (if is_notify s then [(sender s, now)] else [])).

Definition spec_inbound (s : M4InboundSubmission) (now : Z) (db : Db)
    : result StoreError (Db * M4InboundDisposition) :=
  if negb (valid_m4 s) then Err Delivery
  else if negb (bool_decide (m4_inbound_control db = Some 1)) then Ok (db, Disabled)
  else if bool_decide (is_Some (m4_inbound_receipts db !! provider_message_id s))
  then Ok (db, Replayed)
  else if is_notify s && (now - 600000 <? i64_min) then Err Delivery
  else if is_notify s && (4 <=? rate_count (sender s) (now - 600000) db)
  then Ok (db, RateLimited)
  else if valid_idempotency_key (m4_key s) && row_ok (m4_id s) (m4_row s now)
          && bool_decide (m3_messages db !! m4_id s = None)
          && bool_decide (find_by_key (m4_key s) db = None)
  then Ok (record_inbound s now db, Accepted)
  else Err Delivery.

Definition delivery_of (id : string) (r : Row) : M2Delivery :=
  mkM2Delivery id (driver r) (destination r) (payload r) (topic r) (title r) (body r)
    (attempts r + 1).

Definition spec_claim (now : Z) (db : Db) : result StoreError (Db * option M2Delivery) :=
  match due_candidate now db with
  | None => Ok (db, None)
  | Some (id, r) =>
    if attempts r <? 5
    then Ok (put id (set_status r Sending (attempts r + 1) None None None now) db,
             Some (delivery_of id r))
    else Err Delivery
  end.

(** A definite outcome of a row in [Sending]. *)
Definition spec_mark (id text : string) (st : MState) (ack err : option string) (now : Z)
    (db : Db) : result StoreError (Db * unit) :=
  if negb (valid_text text 256) then Err Delivery
  else match m3_messages db !! id with
  | Some r =>
    if bool_decide (state r = Sending)
    then Ok (put id (set_status r st (attempts r) None ack err now) db, tt)
    else Err Delivery
  | None => Err Delivery
  end.

Definition spec_retry (id reason : string) (delay now : Z) (db : Db)
    : result StoreError (Db * unit) :=
  if negb (valid_text reason 256) || negb (within 1000 3600000 delay) then Err Delivery
  else match m3_messages db !! id with
  | Some r =>
    if negb (bool_decide (state r = Sending)) then Err Delivery
    else if 5 <=? attempts r
    then Ok (put id (set_status r Failed (attempts r) None None (Some reason) now) db, tt)
    else if is_i64 (now + delay)
    then Ok (put id (set_status r RetryScheduled (attempts r) (Some (now + delay))
                       None None now) db, tt)
    else Err Delivery
  | None => Err Delivery
  end.

Definition spec_recover (now : Z) (db : Db) : Db :=
  set_messages db ((fun r =>
    if bool_decide (state r = Sending)
    then set_status r AmbiguousState (attempts r) None None (Some INTERRUPTED) now
    else r) <$> m3_messages db).

Definition spec_requeue (id : string) (now : Z) (db : Db)
    : result StoreError (Db * option bool) :=
  if negb (valid_message_id id) then Err Delivery
  else match m3_messages db !! id with
  | None => Ok (db, None)
  | Some r =>
    if bool_decide (state r = Failed)
    then Ok (put id (set_status r Queued (attempts r) (Some now) None None now) db, Some true)
    else Ok (db, Some false)
  end.

Definition spec_summary (db : Db) : result StoreError M6QueueSummary :=
  let count s := ok_or (checked is_u64 (state_count s db)) Delivery in
  queued ← count Queued;
  retry ← count RetryScheduled;
  sending ← count Sending;
  accepted ← count ProviderAccepted;
  failed ← count Failed;
  ambiguous ← count AmbiguousState;
  Ok (mkM6QueueSummary queued retry sending accepted failed ambiguous).

(** Attach an answer constructor, or an unchanged table, to a result. *)
Definition answer {A : Type} (f : A -> Resp) (r : result StoreError (Db * A))
    : result StoreError (Db * Resp) :=
  match r with Ok (db, a) => Ok (db, f a) | Err e => Err e end.

Definition spec (op : Op) (db : Db) : result StoreError (Db * Resp) :=
  match op with
  | OpM2Submit s now =>
    match validate_m2_submission s with
    | Err e => Err e
    | Ok _ => answer RSubmitted
        (spec_admit (m2_message_id s) (m2_idempotency_key s) (m2_same s) (m2_row s now) db)
    end
  | OpM3Submit s now =>
    if negb (valid_m3 s) then Err Delivery
    else answer RSubmitted
      (spec_admit (m3_message_id s) (m3_idempotency_key s) (m3_same s) (m3_row s now) db)
  | OpSetInbound b =>
    Ok (mkDb (m3_messages db) (Some (if b then 1 else 0)) (m4_inbound_receipts db)
          (m4_notify_rate_events db), RDone)
  | OpInbound s now => answer RInbound (spec_inbound s now db)
  | OpClaim now => answer RClaimed (spec_claim now db)
  | OpAccept id ack now =>
    answer (fun _ => RDone) (spec_mark id ack ProviderAccepted (Some ack) None now db)
  | OpFail id reason now =>
    answer (fun _ => RDone) (spec_mark id reason Failed None (Some reason) now db)
  | OpAmbiguous id reason now =>
    answer (fun _ => RDone) (spec_mark id reason AmbiguousState None (Some reason) now db)
  | OpRetry id reason delay now =>
    answer (fun _ => RDone) (spec_retry id reason delay now db)
  | OpRecover now => Ok (spec_recover now db, RCount (state_count Sending db))
  | OpRequeue id now => answer RRequeued (spec_requeue id now db)
  | OpState id => Ok (db, RState ((fun r => state_text (state r)) <$> m3_messages db !! id))
  | OpStatus id =>
    if negb (valid_message_id id) then Err Delivery
    else match m3_messages db !! id with
    | None => Ok (db, RStatus None)
    | Some r => Ok (db, RStatus (Some (mkM6MessageStatus (state_text (state r)) (attempts r))))
    end
  | OpSummary =>
    match spec_summary db with Ok s => Ok (db, RSummary s) | Err e => Err e end
  end.

(** ** Columns of a well-formed row *)

Lemma row_ok_columns id r :
  row_ok id r = true ->
  0 <= attempts r <= 5
  /\ is_due_state (state r) = bool_decide (is_Some (next_attempt_at r))
  /\ bool_decide (state r = ProviderAccepted) = bool_decide (is_Some (provider_ack r))
  /\ bool_decide (state r = AmbiguousState) || bool_decide (state r = Failed)
     = bool_decide (is_Some (last_error r)).
Proof.
  unfold row_ok. rewrite !andb_true_iff. intros H. destruct_and!.
  repeat match goal with H : eqb _ _ = true |- _ => apply eqb_prop in H end.
  split_and!; try done; by apply (within_spec 0 5).
Qed.

Lemma row_ok_set_status id r st att next ack err now :
  row_ok id r = true ->
  row_ok id (set_status r st att next ack err now) =
  within 0 5 att && eqb (is_due_state st) (bool_decide (is_Some next))
  && eqb (bool_decide (st = ProviderAccepted)) (bool_decide (is_Some ack))
  && eqb (bool_decide (st = AmbiguousState) || bool_decide (st = Failed))
         (bool_decide (is_Some err)).
Proof.
  unfold row_ok, set_status. cbn [idempotency_key topic body driver state attempts
    next_attempt_at provider_ack last_error].
  rewrite !andb_true_iff. intros H. destruct_and!.
  repeat match goal with H : ?b = true |- context [?b] => rewrite H; clear H end.
  cbn [andb]. by rewrite !andb_true_r.
Qed.

(** No pending time, acknowledgement or error stays on a row being sent. *)
Lemma row_ok_sending id r :
  row_ok id r = true -> state r = Sending ->
  next_attempt_at r = None /\ provider_ack r = None /\ last_error r = None.
Proof.
  intros (_ & H1 & H2 & H3)%row_ok_columns Hs. rewrite Hs in H1, H2, H3.
  by destruct (next_attempt_at r), (provider_ack r), (last_error r).
Qed.

Lemma row_ok_due id r :
  row_ok id r = true -> is_due_state (state r) = true ->
  provider_ack r = None /\ last_error r = None.
Proof.
  intros (_ & H1 & H2 & H3)%row_ok_columns Hs.
  by destruct (state r), (provider_ack r), (last_error r).
Qed.

(** Once failed, only the error text is left. *)
Lemma row_ok_failed id r :
  row_ok id r = true -> state r = Failed ->
  next_attempt_at r = None /\ provider_ack r = None.
Proof.
  intros (_ & H1 & H2 & _)%row_ok_columns Hs. rewrite Hs in H1, H2.
  by destruct (next_attempt_at r), (provider_ack r).
Qed.

(** ** Choosing the next message *)

Lemma claim_before_total x y : claim_before x y = true \/ claim_before y x = true.
Proof.
  unfold claim_before. rewrite (Z.compare_antisym (created_at x.2)), (bytes_cmp_antisym (as_bytes x.1)).
  destruct (created_at x.2 ?= created_at y.2), (bytes_cmp (as_bytes x.1) (as_bytes y.1));
    cbn; auto.
Qed.

Lemma claim_before_trans x y z :
  claim_before x y = true -> claim_before y z = true -> claim_before x z = true.
Proof.
  unfold claim_before.
  destruct (Z.compare_spec (created_at x.2) (created_at y.2)),
    (Z.compare_spec (created_at y.2) (created_at z.2)),
    (Z.compare_spec (created_at x.2) (created_at z.2)); try done; try lia.
  pose proof (bytes_le_trans (as_bytes x.1) (as_bytes y.1) (as_bytes z.1)) as H'.
  unfold bytes_le in H'. repeat case_match; try done; intros _ _; exfalso; apply H'; done.
Qed.

Lemma least_spec l :
  match least l with
  | None => l = []
  | Some x => x ∈ l /\ forall y, y ∈ l -> claim_before x y = true
  end.
Proof.
  induction l as [|a l IH]; [done|]. cbn [least foldr]. fold (least l).
  destruct (least l) as [x|].
  - destruct IH as [Hin Hmin]. destruct (claim_before a x) eqn:E.
    + split; [rewrite elem_of_cons; auto|]. intros y [->|Hy]%elem_of_cons.
      * by destruct (claim_before_total a a).
      * eapply claim_before_trans; [exact E|auto].
    + split; [rewrite elem_of_cons; auto|]. intros y [->|Hy]%elem_of_cons; [|auto].
      destruct (claim_before_total a x); [congruence|done].
  - subst. split; [by rewrite elem_of_cons; left|].
    intros y [->|Hy]%elem_of_cons; [|by apply not_elem_of_nil in Hy].
    by destruct (claim_before_total a a).
Qed.

Lemma due_candidate_spec now db :
  match due_candidate now db with
  | None => forall id r, m3_messages db !! id = Some r -> is_due now r = false
  | Some (id, r) =>
    m3_messages db !! id = Some r /\ is_due now r = true
    /\ forall id' r', m3_messages db !! id' = Some r' -> is_due now r' = true ->
       claim_before (id, r) (id', r') = true
  end.
Proof.
  unfold due_candidate. set (l := List.filter _ _). pose proof (least_spec l) as H.
  assert (forall id r, (id, r) ∈ l <-> is_due now r = true /\ m3_messages db !! id = Some r) as Hl
    by (intros id r; unfold l; by rewrite elem_of_lfilter, elem_of_map_to_list).
  destruct (least l) as [[id r]|].
  - destruct H as [[Hd Hm]%Hl Hmin]. split_and!; [done|done|].
    intros id' r' Hm' Hd'. apply Hmin, Hl. done.
  - intros id r Hm. destruct (is_due now r) eqn:Hd; [|done].
    assert ((id, r) ∈ l) as Hin by (by apply Hl). rewrite H in Hin.
    by apply not_elem_of_nil in Hin.
Qed.

(** ** Lookup by idempotency key *)

Lemma find_by_key_None key db :
  find_by_key key db = None <->
  forall id r, m3_messages db !! id = Some r -> idempotency_key r <> key.
Proof.
  unfold find_by_key. set (l := List.filter _ _).
  assert (forall id r, (id, r) ∈ l <-> idempotency_key r = key /\ m3_messages db !! id = Some r)
    as Hl by (intros id r; unfold l; rewrite elem_of_lfilter, elem_of_map_to_list; cbn;
              by rewrite bool_decide_eq_true).
  destruct l as [|[id r] l']; cbn.
  - split; [|done]. intros _ id r Hm Hk.
    assert ((id, r) ∈ (@nil (string * Row))) as Hin by (by apply Hl).
    by apply not_elem_of_nil in Hin.
  - split; [done|]. intros H. destruct (proj1 (Hl id r)) as [Hk Hm]; [by rewrite elem_of_cons; left|].
    by destruct (H id r Hm).
Qed.

Lemma find_by_key_Some key db id r :
  unique_keys (m3_messages db) ->
  find_by_key key db = Some (id, r) <->
  m3_messages db !! id = Some r /\ idempotency_key r = key.
Proof.
  intros Hu. unfold find_by_key. set (l := List.filter _ _).
  assert (forall id r, (id, r) ∈ l <-> idempotency_key r = key /\ m3_messages db !! id = Some r)
    as Hl by (intros id' r'; unfold l; rewrite elem_of_lfilter, elem_of_map_to_list; cbn;
              by rewrite bool_decide_eq_true).
  destruct l as [|[id' r'] l']; cbn.
  - split; [done|]. intros [Hm Hk].
    assert ((id, r) ∈ (@nil (string * Row))) as Hin by (by apply Hl).
    by apply not_elem_of_nil in Hin.
  - destruct (proj1 (Hl id' r')) as [Hk' Hm']; [by rewrite elem_of_cons; left|]. split.
    + intros [= -> ->]. done.
    + intros [Hm Hk]. assert (id' = id) as -> by (eapply Hu; [done..|congruence]). congruence.
Qed.

Lemma insert_message_fresh id r db :
  find_by_key (idempotency_key r) db = None ->
  insert_message id r db =
  if row_ok id r && bool_decide (m3_messages db !! id = None)
  then Some (put id r db, 1) else None.
Proof.
  intros Hf. unfold insert_message.
  replace (forallb _ (map_to_list (m3_messages db))) with true; [by rewrite andb_true_r|].
  symmetry. apply forallb_rows. intros id' r' Hm. cbn.
  rewrite bool_decide_false; [done|]. by eapply find_by_key_None.
Qed.

Lemma insert_message_taken id r db :
  find_by_key (idempotency_key r) db <> None -> insert_message id r db = None.
Proof.
  intros Hf. unfold insert_message. case_match eqn:E; [|done]. exfalso. apply Hf.
  apply andb_true_iff in E as [_ E]. apply find_by_key_None. intros id' r' Hm Hk.
  rewrite forallb_rows in E. specialize (E id' r' Hm). cbn in E.
  by rewrite bool_decide_true in E.
Qed.

(** ** Runs without engine failures *)

Definition observe {A : Type} (p : Conn * result StoreError A) : Db * result StoreError A :=
  (durable p.1, p.2).

Definition outcome {A : Type} (db : Db) (s : result StoreError (Db * A))
    : Db * result StoreError A :=
  match s with Ok (db', a) => (db', Ok a) | Err e => (db, Err e) end.

Definition steady (db w : Db) : Conn := mkConn true db w [].

Lemma observe_answer {A : Type} (m : M A) (f : A -> Resp) c db s :
  observe (m c) = outcome db s ->
  observe ((a ← m; mret (f a)) c) = outcome db (answer f s).
Proof.
  unfold observe, outcome, mbind, M_bind. destruct (m c) as [c' r]. cbn.
  destruct s as [[db' a]|e]; cbn; intros H; injection H as Hd Hr; subst; done.
Qed.

Ltac steady_tac := cbn [connected durable working plan fst snd].

(** Unfold the store's primitives on a connection whose plan is empty. *)
Ltac run_steady :=
  unfold in_transaction, begin_immediate, commit, execute, execute_auto, query_row, query,
    query_auto, steady, connection, fail, lift, read_working, read_durable, set_working,
    set_durable, sqlite_call, mbind, M_bind, mret, M_ret; steady_tac.

Lemma claim_spec now db w :
  wf db -> observe (m2_claim_due now (steady db w)) = outcome db (spec_claim now db).
Proof.
  intros Hwf. unfold m2_claim_due, spec_claim. run_steady.
  pose proof (due_candidate_spec now db) as Hdue.
  destruct (due_candidate now db) as [[id r]|]; [|done].
  destruct Hdue as (Hm & Hd & _). pose proof (wf_rows db Hwf id r Hm) as Hok.
  unfold is_due in Hd. apply andb_true_iff in Hd as [Hd _].
  destruct (row_ok_due id r Hok Hd) as [Hack Herr].
  destruct (row_ok_columns id r Hok) as [Hatt _].
  change (fun id0 r0 => bool_decide (id0 = id) && is_due_state (state r0))
    with (at_row id (fun r0 => is_due_state (state r0))).
  steady_tac. rewrite update_single, Hm, Hd, row_ok_set_status, Hack, Herr by done.
  unfold within. destruct (Z.ltb_spec (attempts r) 5).
  - replace (0 <=? attempts r + 1) with true by (symmetry; b2p; lia).
    replace (attempts r + 1 <=? 5) with true by (symmetry; b2p; lia).
    cbn.
    unfold checked, is_u8, within, u8_max.
    replace (0 <=? attempts r + 1) with true by (symmetry; b2p; lia).
    replace (attempts r + 1 <=? 2 ^ 8 - 1) with true by (symmetry; b2p; lia).
    done.
  - replace (attempts r + 1 <=? 5) with false by (symmetry; b2p; lia).
    rewrite andb_false_r. done.
Qed.

Lemma sending_row_at id : sending_row id = at_row id (fun r => bool_decide (state r = Sending)).
Proof. done. Qed.

Lemma row_ok_leave_sending id r st next ack err now :
  row_ok id r = true ->
  eqb (is_due_state st) (bool_decide (is_Some next))
  && eqb (bool_decide (st = ProviderAccepted)) (bool_decide (is_Some ack))
  && eqb (bool_decide (st = AmbiguousState) || bool_decide (st = Failed))
         (bool_decide (is_Some err)) = true ->
  row_ok id (set_status r st (attempts r) next ack err now) = true.
Proof.
  intros Hok H. rewrite row_ok_set_status by done.
  apply row_ok_columns in Hok as [Hatt _].
  rewrite (proj2 (within_spec 0 5 (attempts r)) Hatt). exact H.
Qed.

Lemma mark_spec db w id text st ack err now upd :
  wf db ->
  (forall r, row_ok id r = true -> state r = Sending ->
     upd r = set_status r st (attempts r) None ack err now) ->
  eqb (is_due_state st) false
  && eqb (bool_decide (st = ProviderAccepted)) (bool_decide (is_Some ack))
  && eqb (bool_decide (st = AmbiguousState) || bool_decide (st = Failed))
         (bool_decide (is_Some err)) = true ->
  observe ((if negb (valid_text text 256) then fail Delivery
            else m2_transition_sending id upd) (steady db w))
  = outcome db (spec_mark id text st ack err now db).
Proof.
  intros Hwf Hupd Hst. unfold spec_mark. destruct (valid_text text 256); [|done]. cbn [negb].
  unfold m2_transition_sending. run_steady. rewrite sending_row_at, update_single.
  destruct (m3_messages db !! id) as [r|] eqn:E; [|done]. cbv beta.
  destruct (bool_decide_reflect (state r = Sending)) as [Hs|Hs]; [|done]. pose proof (wf_rows db Hwf id r E) as Hok.
  rewrite Hupd, row_ok_leave_sending by done. done.
Qed.

Lemma accept_spec id ack now db w :
  wf db -> observe (m2_mark_accepted id ack now (steady db w))
           = outcome db (spec_mark id ack ProviderAccepted (Some ack) None now db).
Proof.
  intros Hwf. apply mark_spec; [done| |done]. intros r Hok Hs.
  destruct (row_ok_sending id r Hok Hs) as (Hn & Ha & He). by rewrite ?Hn, ?Ha, ?He.
Qed.

Lemma fail_spec id reason now db w :
  wf db -> observe (m2_mark_failed id reason now (steady db w))
           = outcome db (spec_mark id reason Failed None (Some reason) now db).
Proof.
  intros Hwf. apply mark_spec; [done| |done]. intros r Hok Hs.
  destruct (row_ok_sending id r Hok Hs) as (Hn & Ha & He). by rewrite ?Hn, ?Ha, ?He.
Qed.

Lemma ambiguous_spec id reason now db w :
  wf db -> observe (m2_mark_ambiguous id reason now (steady db w))
           = outcome db (spec_mark id reason AmbiguousState None (Some reason) now db).
Proof.
  intros Hwf. apply mark_spec; [done| |done]. intros r Hok Hs.
  destruct (row_ok_sending id r Hok Hs) as (Hn & Ha & He). by rewrite ?Hn, ?Ha, ?He.
Qed.

Lemma retry_spec id reason delay now db w :
  wf db -> observe (m2_mark_retry id reason delay now (steady db w))
           = outcome db (spec_retry id reason delay now db).
Proof.
  intros Hwf. unfold m2_mark_retry, spec_retry.
  destruct (negb (valid_text reason 256) || negb (within 1000 3600000 delay)); [done|].
  run_steady. unfold sending_attempts.
  destruct (m3_messages db !! id) as [r|] eqn:E; [|done]. cbn [mbind option_bind].
  case_bool_decide as Hs; [|done]. cbn [negb ok_or].
  pose proof (wf_rows db Hwf id r E) as Hok.
  destruct (row_ok_sending id r Hok Hs) as (Hn & Ha & He). rewrite sending_row_at.
  destruct (5 <=? attempts r).
  - steady_tac. rewrite update_single, E, bool_decide_true, Hn, Ha, row_ok_leave_sending by done.
    done.
  - unfold checked_add_i64, checked. destruct (is_i64 (now + delay)); [|done].
    cbn [ok_or]. steady_tac.
    rewrite update_single, E, bool_decide_true, Ha, row_ok_leave_sending by done. done.
Qed.

Lemma requeue_spec id now db w :
  wf db -> observe (m6_requeue_failed id now (steady db w))
           = outcome db (spec_requeue id now db).
Proof.
  intros Hwf. unfold m6_requeue_failed, spec_requeue.
  destruct (valid_message_id id); [|done]. cbn [negb]. run_steady.
  destruct (m3_messages db !! id) as [r|] eqn:E; [|done].
  cbn [fmap option_fmap option_map]. case_bool_decide as Hs; [|done]. cbn [negb].
  pose proof (wf_rows db Hwf id r E) as Hok.
  destruct (row_ok_failed id r Hok Hs) as (Hn & Ha).
  change (fun id0 r0 => bool_decide (id0 = id) && bool_decide (state r0 = Failed))
    with (at_row id (fun r0 => bool_decide (state r0 = Failed))).
  steady_tac. rewrite update_single, E, bool_decide_true, Ha, row_ok_leave_sending by done.
  done.
Qed.

Lemma recover_spec now db w :
  wf db -> observe (m2_recover_interrupted now (steady db w))
           = outcome db (Ok (spec_recover now db, state_count Sending db)).
Proof.
  intros Hwf. unfold m2_recover_interrupted. run_steady. unfold update_messages.
  replace (forallb _ (map_to_list (m3_messages db))) with true.
  - steady_tac. unfold observe, outcome, spec_recover. cbn [fst snd durable]. do 2 f_equal.
    apply map_eq. intros id. rewrite map_lookup_imap, lookup_fmap.
    destruct (m3_messages db !! id) as [r|] eqn:E; [|done]. cbn. f_equal.
    case_bool_decide as Hs; [|done].
    by destruct (row_ok_sending id r (wf_rows db Hwf id r E) Hs) as (-> & -> & _).
  - symmetry. apply forallb_rows. intros id r Hm. cbn [fst snd].
    pose proof (wf_rows db Hwf id r Hm) as Hok. case_bool_decide as Hs; [|done].
    destruct (row_ok_sending id r Hok Hs) as (-> & -> & _). cbn [negb orb].
    by apply row_ok_leave_sending.
Qed.

Lemma admit_spec id key (same : Row -> bool) r db w :
  idempotency_key r = key ->
  observe (in_transaction (
    existing ← query (find_by_key key);
    match existing with
    | Some (message_id, r') =>
      if same r' then commit ;; mret (Existing message_id) else fail Delivery
    | None => execute (insert_message id r) ;; commit ;; mret (New id)
    end) (steady db w)) = outcome db (spec_admit id key same r db).
Proof.
  intros Hk. unfold spec_admit. run_steady.
  destruct (find_by_key key db) as [[id' r']|] eqn:E.
  - by destruct (same r').
  - steady_tac. rewrite insert_message_fresh by congruence.
    by destruct (row_ok id r && bool_decide (m3_messages db !! id = None)).
Qed.

Lemma m2_submit_spec s now db w :
  observe (m2_submit s now (steady db w)) =
  outcome db (match validate_m2_submission s with
              | Err e => Err e
              | Ok _ => spec_admit (m2_message_id s) (m2_idempotency_key s) (m2_same s)
                          (m2_row s now) db
              end).
Proof.
  unfold m2_submit. destruct (validate_m2_submission s) as [u|e]; [|done].
  exact (admit_spec (m2_message_id s) (m2_idempotency_key s) (m2_same s) (m2_row s now) db w eq_refl).
Qed.

Lemma m3_submit_spec s now db w :
  observe (m3_submit s now (steady db w)) =
  outcome db (if negb (valid_m3 s) then Err Delivery
              else spec_admit (m3_message_id s) (m3_idempotency_key s) (m3_same s)
                     (m3_row s now) db).
Proof.
  unfold m3_submit, valid_m3. rewrite !negb_andb.
  destruct (negb _ || negb _ || negb _ || negb _); [done|].
  exact (admit_spec (m3_message_id s) (m3_idempotency_key s) (m3_same s) (m3_row s now) db w eq_refl).
Qed.

Lemma set_inbound_spec b db w :
  wf db ->
  observe (m4_set_inbound_enabled b (steady db w)) =
  outcome db (Ok (mkDb (m3_messages db) (Some (if b then 1 else 0)) (m4_inbound_receipts db)
                    (m4_notify_rate_events db), tt)).
Proof.
  intros [_ _ Hc]. unfold m4_set_inbound_enabled. run_steady. unfold set_inbound_control.
  by destruct Hc as [-> | ->].
Qed.

(** Only what was committed survives the end of a transaction. *)
Lemma observe_in_transaction {A : Type} (m : M A) db w :
  observe (in_transaction m (steady db w)) = observe (m (steady db db)).
Proof.
  unfold in_transaction, begin_immediate, observe, mbind, M_bind, steady, sqlite_call,
    read_durable, set_working. cbn [connected durable working plan].
  destruct (m _) as [c r]. done.
Qed.

Lemma m4_record_spec s now db :
  valid_m4 s = true -> m4_inbound_receipts db !! provider_message_id s = None ->
  observe (m4_record s now (steady db db)) =
  outcome db
    (if valid_idempotency_key (m4_key s) && row_ok (m4_id s) (m4_row s now)
        && bool_decide (m3_messages db !! m4_id s = None)
        && bool_decide (find_by_key (m4_key s) db = None)
     then Ok (record_inbound s now db, Accepted) else Err Delivery).
Proof.
  intros Hv Hr. unfold m4_record. fold (m4_key s).
  destruct (valid_idempotency_key (m4_key s)); [|done]. cbn [negb andb].
  fold (m4_id s). run_steady.
  change (mkRow (m4_key s) _ _ _ _ _ _ _ _ _ _ _ _ _) with (m4_row s now).
  destruct (bool_decide_reflect (find_by_key (m4_key s) db = None)) as [Hf|Hf].
  - rewrite insert_message_fresh by exact Hf. rewrite andb_true_r.
    destruct (row_ok (m4_id s) (m4_row s now) && _); [|done]. steady_tac.
    unfold insert_receipt, put, set_messages.
    cbn [m3_messages m4_inbound_control m4_inbound_receipts m4_notify_rate_events].
    rewrite Hr. rewrite bool_decide_true by done. cbn [andb receipt_verb].
    replace (bool_decide (verb s = "notify"%string) || bool_decide (verb s = "status"%string))
      with true by (symmetry; unfold valid_m4 in Hv; rewrite !andb_true_iff in Hv; tauto).
    steady_tac. unfold record_inbound, insert_rate_event.
    destruct (is_notify s); steady_tac; [done|]. by rewrite app_nil_r.
  - rewrite insert_message_taken by exact Hf. by rewrite andb_false_r.
Qed.

Lemma checked_sub_window now :
  is_i64 now = true ->
  checked_sub_i64 now 600000 = if now - 600000 <? i64_min then None else Some (now - 600000).
Proof.
  unfold is_i64, checked_sub_i64, checked, is_i64. rewrite within_spec. intros H.
  unfold within. destruct (Z.ltb_spec (now - 600000) i64_min).
  - replace (i64_min <=? now - 600000) with false by (symmetry; b2p; lia). done.
  - replace (i64_min <=? now - 600000) with true by (symmetry; b2p; lia).
    replace (now - 600000 <=? i64_max) with true by (symmetry; b2p; lia). done.
Qed.

Lemma inbound_spec s now db w :
  wf db -> is_i64 now = true ->
  observe (m4_submit_inbound s now (steady db w)) = outcome db (spec_inbound s now db).
Proof.
  intros Hwf Hnow. unfold m4_submit_inbound, spec_inbound.
  replace (negb (valid_idempotency_key (provider_message_id s)) || _ || _ || _ || _ || _)
    with (negb (valid_m4 s)) by (unfold valid_m4; by rewrite !negb_andb).
  destruct (valid_m4 s) eqn:Hv; [|done]. cbn [negb].
  change (observe (in_transaction (
    enabled ← query_row m4_inbound_control;
    if negb (enabled =? 1) then commit ;; mret Disabled
    else
      replayed ← query (fun db => m4_inbound_receipts db !! provider_message_id s);
      match replayed with
      | Some _ => commit ;; mret Replayed
      | None =>
        if is_notify s then
          start ← lift (ok_or (checked_sub_i64 now 600000) Delivery);
          count ← query (rate_count (sender s) start);
          if 4 <=? count then commit ;; mret RateLimited else m4_record s now
        else m4_record s now
      end) (steady db w)) = outcome db (
    if negb (bool_decide (m4_inbound_control db = Some 1)) then Ok (db, Disabled)
    else if bool_decide (is_Some (m4_inbound_receipts db !! provider_message_id s))
    then Ok (db, Replayed)
    else if is_notify s && (now - 600000 <? i64_min) then Err Delivery
    else if is_notify s && (4 <=? rate_count (sender s) (now - 600000) db)
    then Ok (db, RateLimited)
    else if valid_idempotency_key (m4_key s) && row_ok (m4_id s) (m4_row s now)
          && bool_decide (m3_messages db !! m4_id s = None)
          && bool_decide (find_by_key (m4_key s) db = None)
    then Ok (record_inbound s now db, Accepted) else Err Delivery)).
  rewrite observe_in_transaction.
  pose proof (m4_record_spec s now db Hv) as Hrec.
  destruct (wf_control db Hwf) as [Hc|Hc]; run_steady; rewrite Hc; [done|].
  cbn [ok_or negb Z.eqb Pos.eqb]. steady_tac.
  destruct (m4_inbound_receipts db !! provider_message_id s) as [rc|] eqn:Hr; [done|].
  rewrite (bool_decide_true (Some 1 = Some 1)), bool_decide_false by (done || by inversion 1).
  cbn [negb].
  specialize (Hrec eq_refl). rewrite checked_sub_window by done.
  destruct (is_notify s); cbn [andb]; [|exact Hrec].
  destruct (now - 600000 <? i64_min); [done|]. cbn [ok_or]. steady_tac.
  destruct (4 <=? rate_count _ _ db); [done|exact Hrec].
Qed.

Lemma summary_spec db w :
  observe (m6_queue_summary (steady db w)) =
  outcome db (match spec_summary db with Ok s => Ok (db, s) | Err e => Err e end).
Proof.
  unfold m6_queue_summary, spec_summary, m6_state_count. run_steady.
  repeat (match goal with
          | |- context [ok_or (checked is_u64 (state_count ?s db)) Delivery] =>
            destruct (checked is_u64 (state_count s db))
          end; cbn [ok_or]; steady_tac; try done).
Qed.

Lemma status_spec id db w :
  wf db ->
  observe (m6_message_status id (steady db w)) =
  outcome db (if negb (valid_message_id id) then Err Delivery
    else match m3_messages db !! id with
    | None => Ok (db, None)
    | Some r => Ok (db, Some (mkM6MessageStatus (state_text (state r)) (attempts r)))
    end).
Proof.
  intros Hwf. unfold m6_message_status. destruct (valid_message_id id); [|done].
  cbn [negb]. run_steady. destruct (m3_messages db !! id) as [r|] eqn:E; [|done].
  steady_tac. destruct (row_ok_columns id r (wf_rows db Hwf id r E)) as [Ha _].
  rewrite (proj2 (checked_Some is_u64 (attempts r) (attempts r))); [done|].
  split; [done|]. unfold is_u64, u64_max. apply within_spec. lia.
Qed.

(** ** All operations *)

(** Times are [i64] values. *)
Definition op_now (op : Op) : option Z :=
  match op with
  | OpM2Submit _ now | OpM3Submit _ now | OpInbound _ now | OpClaim now
  | OpAccept _ _ now | OpFail _ _ now | OpAmbiguous _ _ now | OpRetry _ _ _ now
  | OpRecover now | OpRequeue _ now => Some now
  | OpSetInbound _ | OpState _ | OpStatus _ | OpSummary => None
  end.

Definition typed (op : Op) : bool :=
  match op_now op with Some now => is_i64 now | None => true end.

Lemma exec_steady op db w :
  wf db -> typed op = true -> observe (exec op (steady db w)) = outcome db (spec op db).
Proof.
  intros Hwf Ht. destruct op; cbn [exec spec].
  - rewrite (observe_answer _ RSubmitted _ db _ (m2_submit_spec submission now db w)).
    by destruct (validate_m2_submission submission).
  - rewrite (observe_answer _ RSubmitted _ db _ (m3_submit_spec submission now db w)).
    by destruct (negb (valid_m3 submission)).
  - by rewrite (observe_answer _ (fun _ => RDone) _ db _ (set_inbound_spec enabled db w Hwf)).
  - exact (observe_answer _ RInbound _ db _ (inbound_spec submission now db w Hwf Ht)).
  - exact (observe_answer _ RClaimed _ db _ (claim_spec now db w Hwf)).
  - exact (observe_answer _ (fun _ => RDone) _ db _ (accept_spec id ack now db w Hwf)).
  - exact (observe_answer _ (fun _ => RDone) _ db _ (fail_spec id reason now db w Hwf)).
  - exact (observe_answer _ (fun _ => RDone) _ db _ (ambiguous_spec id reason now db w Hwf)).
  - exact (observe_answer _ (fun _ => RDone) _ db _ (retry_spec id reason delay_ms now db w Hwf)).
  - exact (observe_answer _ RCount _ db _ (recover_spec now db w Hwf)).
  - exact (observe_answer _ RRequeued _ db _ (requeue_spec id now db w Hwf)).
  - reflexivity.
  - rewrite (observe_answer _ RStatus _ db _ (status_spec id db w Hwf)).
    destruct (negb (valid_message_id id)); [done|]. by destruct (m3_messages db !! id).
  - rewrite (observe_answer _ RSummary _ db _ (summary_spec db w)).
    by destruct (spec_summary db).
Qed.

#[export] Hint Resolve tame_in_transaction : store.

Lemma tame_exec op : tame (exec op).
Proof.
  destruct op; cbn [exec]; apply tame_bind; try (intros; apply tame_ret);
    unfold m2_submit, m3_submit, m4_set_inbound_enabled, m4_submit_inbound, m4_record,
      m2_claim_due, m2_mark_accepted, m2_mark_failed, m2_mark_ambiguous, m2_mark_retry,
      m2_recover_interrupted, m6_requeue_failed, m2_state, m6_message_status,
      m6_queue_summary, m6_state_count, m2_transition_sending;
    repeat first [ solve [eauto with store nocore] | apply tame_bind
                 | apply tame_in_transaction
                 | match goal with |- forall _, _ => intro end | case_match ].
Qed.

Lemma atomic_auto_one f :
  (forall db db' n, f db = Some (db', n) -> n <> 1 -> db' = db) ->
  atomic (changed ← execute_auto f; if changed =? 1 then mret tt else fail Delivery).
Proof.
  intros Hf c c' e. unfold execute_auto, mbind, M_bind, sqlite_call, read_durable, set_durable,
    mret, M_ret, fail.
  destruct (plan c) as [|[|] p]; cbn [durable connected working plan];
    [|by intros [= <- <-]|];
    (destruct (f (durable c)) as [[db n]|] eqn:E; [|by intros [= <- <-]];
     destruct (Z.eqb_spec n 1); [done|]; intros [= <- <-]; cbn; by eapply Hf).
Qed.

Lemma atomic_transition id upd : atomic (m2_transition_sending id upd).
Proof.
  unfold m2_transition_sending. apply atomic_bind; [apply silent_connection|]. intros _.
  apply atomic_auto_one. intros db db' n. rewrite sending_row_at, update_single.
  destruct (m3_messages db !! id) as [r|]; [|by intros [= <- <-]].
  destruct (bool_decide _); [|by intros [= <- <-]].
  destruct (row_ok id (upd r)); [|done]. by intros [= <- <-].
Qed.

Lemma atomic_set_inbound b : atomic (m4_set_inbound_enabled b).
Proof.
  unfold m4_set_inbound_enabled. apply atomic_bind; [apply silent_connection|]. intros _.
  apply atomic_auto_one. intros db db' n. unfold set_inbound_control.
  destruct (m4_inbound_control db); by intros [= <- <-].
Qed.

#[export] Hint Resolve atomic_transition atomic_set_inbound : store.

Lemma atomic_exec op : atomic (exec op).
Proof.
  destruct op; cbn [exec]; apply atomic_then; try solve [eauto with store nocore];
    unfold m2_submit, m3_submit, m4_submit_inbound, m4_record, m2_claim_due, m2_mark_accepted,
      m2_mark_failed, m2_mark_ambiguous, m2_mark_retry, m2_recover_interrupted,
      m6_requeue_failed, m2_state, m6_message_status, m6_queue_summary, m6_state_count;
    atomic_tac.
  apply (atomic_then (execute_auto _) (fun n => n)), atomic_execute_auto.
Qed.

Lemma disconnected_fails {A : Type} (m : M A) c :
  connected c = false -> exists c' e, (connection ;; m) c = (c', Err e).
Proof. intros H. exists c, Delivery. unfold connection, mbind, M_bind. by rewrite H. Qed.

Lemma exec_connected op c c' v : exec op c = (c', Ok v) -> connected c = true.
Proof.
  intros E. destruct (connected c) eqn:Hc; [done|]. exfalso. revert E.
  destruct op; cbn [exec];
    unfold m2_submit, m3_submit, m4_set_inbound_enabled, m4_submit_inbound, m2_claim_due,
      m2_mark_accepted, m2_mark_failed, m2_mark_ambiguous, m2_mark_retry,
      m2_recover_interrupted, m6_requeue_failed, m2_state, m6_message_status,
      m6_queue_summary, m2_transition_sending;
    unfold lift, mbind, M_bind, connection, fail; rewrite ?Hc;
    repeat (case_match; try done; simplify_eq); discriminate.
Qed.

Lemma exec_Ok op c c' v :
  wf (durable c) -> typed op = true -> exec op c = (c', Ok v) ->
  spec op (durable c) = Ok (durable c', v).
Proof.
  intros Hwf Ht E. pose proof (exec_connected _ _ _ _ E) as Hc.
  apply tame_exec in E. unfold faultless in E. rewrite Hc in E.
  pose proof (exec_steady op (durable c) (working c) Hwf Ht) as H.
  unfold steady in H. rewrite E in H. unfold observe, outcome in H. cbn in H.
  destruct (spec op (durable c)) as [[db' v']|e]; injection H as Hd Hv; by subst.
Qed.

Lemma exec_Err op c c' e : exec op c = (c', Err e) -> durable c' = durable c.
Proof. apply atomic_exec. Qed.

(** ** Theorems *)

(** C3: on well-formed tables, whatever calls into the engine fail, an operation
    that answers did to the durable tables exactly what the atomic specification
    says, and an operation that fails left them untouched; on a live connection
    whose engine does not fail, every operation answers as specified. *)
Theorem store_refines_spec op c :
  wf (durable c) -> typed op = true ->
  let '(c', r) := exec op c in
  match r with
  | Ok v => spec op (durable c) = Ok (durable c', v)
  | Err _ => durable c' = durable c
  end
  /\ (connected c = true -> plan c = [] ->
      (durable c', r) = outcome (durable c) (spec op (durable c))).
Proof.
  intros Hwf Ht. destruct (exec op c) as [c' r] eqn:E. split.
  - destruct r as [v|e]; [by apply (exec_Ok op c)|by apply (exec_Err op c _ e)].
  - intros Hc Hp. pose proof (exec_steady op (durable c) (working c) Hwf Ht) as H.
    unfold steady in H. rewrite <- Hc, <- Hp in H. destruct c. cbn in *. by rewrite E in H.
Qed.
