(* ===== verification/StoreSafety.v ===== *)
(** * Safety of the store over its whole life

    Histories of calls, failed calls and reopenings. The theorems follow from the
    atomic specification by induction on the answered calls. *)

From S2P Require Import Prelude Bytes Store StoreSpec.

#[local] Open Scope Z_scope.

(** ** Histories *)

(** A call, or the process reopening the database with a new failure plan; a
    crash inside a call is a call all of whose remaining engine calls fail,
    followed by a reopening. *)
Inductive Action : Type :=
| Call (op : Op)
| Reopen (plan : list bool).

Definition act (a : Action) (c : Conn) : Conn * list (Op * Resp) :=
  match a with
  | Call op => match exec op c with
               | (c', Ok v) => (c', [(op, v)])
               | (c', Err _) => (c', [])
               end
  | Reopen plan => (mkConn true (durable c) (durable c) plan, [])
  end.

(** The connection after the actions, and the answered calls in order. *)
Fixpoint run (acts : list Action) (c : Conn) : Conn * list (Op * Resp) :=
  match acts with
  | [] => (c, [])
  | a :: rest =>
    let '(c1, h1) := act a c in
    let '(c2, h2) := run rest c1 in
    (c2, h1 ++ h2)
  end.

Definition typed_action (a : Action) : bool :=
  match a with Call op => typed op | Reopen _ => true end.

(** The answered calls as steps of the specification. *)
Inductive trace : Db -> list (Op * Resp) -> Db -> Prop :=
| trace_nil db : trace db [] db
| trace_cons db op v db1 h db2 :
    spec op db = Ok (db1, v) -> trace db1 h db2 -> trace db ((op, v) :: h) db2.

(** ** How one answered call changes one row *)

(** The answer hands message [id] to the dispatcher. *)
Definition claims (id : string) (v : Resp) : bool :=
  match v with RClaimed (Some d) => bool_decide (d_message_id d = id) | _ => false end.

(** The call schedules another attempt of message [id]. *)
Definition reschedules (id : string) (e : Op * Resp) : bool :=
  match e with
  | (OpRetry id' _ _ _, RDone) => bool_decide (id' = id)
  | (OpRequeue id' _, RRequeued (Some true)) => bool_decide (id' = id)
  | _ => false
  end.

(** The call admits message [id]. *)
Definition admits (id : string) (e : Op * Resp) : bool :=
  match e.2 with
  | RSubmitted (New id') => bool_decide (id' = id)
  | RInbound Accepted => match e.1 with OpInbound s _ => bool_decide (m4_id s = id)
                         | _ => false end
  | _ => false
  end.

(** The call, when it settles message [id], leaves it in state [st]. *)
Definition settles (id : string) (op : Op) (st : MState) : bool :=
  match op, st with
  | OpAccept id' _ _, ProviderAccepted | OpFail id' _ _, Failed
  | OpAmbiguous id' _ _, AmbiguousState | OpRetry id' _ _ _, Failed => bool_decide (id' = id)
  | OpRecover _, AmbiguousState => true
  | _, _ => false
  end.

Inductive row_change (op : Op) (v : Resp) (id : string) : option Row -> option Row -> Prop :=
| change_none o : claims id v = false -> row_change op v id o o
| change_admit r :
    claims id v = false -> admits id (op, v) = true ->
    state r = Queued -> attempts r = 0 -> row_ok id r = true ->
    row_change op v id None (Some r)
| change_claim r now :
    op = OpClaim now -> v = RClaimed (Some (delivery_of id r)) ->
    is_due now r = true -> attempts r < 5 ->
    row_change op v id (Some r) (Some (set_status r Sending (attempts r + 1) None None None now))
| change_settle r st ack err now :
    claims id v = false -> state r = Sending ->
    row_ok id (set_status r st (attempts r) None ack err now) = true ->
    st = ProviderAccepted \/ st = AmbiguousState \/ st = Failed ->
    settles id op st = true ->
    row_change op v id (Some r) (Some (set_status r st (attempts r) None ack err now))
| change_reschedule r st next now :
    claims id v = false -> reschedules id (op, v) = true ->
    (state r = Sending /\ attempts r < 5 /\ st = RetryScheduled
     /\ exists reason delay at_ms, op = OpRetry id reason delay at_ms)
    \/ (state r = Failed /\ st = Queued) ->
    row_change op v id (Some r) (Some (set_status r st (attempts r) (Some next) None None now)).

Lemma lookup_put id r db id' :
  m3_messages (put id r db) !! id' = if bool_decide (id' = id) then Some r else m3_messages db !! id'.
Proof.
  unfold put, set_messages. cbn [m3_messages]. case_bool_decide; subst.
  - by rewrite lookup_insert_eq.
  - by rewrite lookup_insert_ne.
Qed.

Lemma spec_mark_rows db db' id0 text st ack err now id op u :
  wf db -> spec_mark id0 text st ack err now db = Ok (db', u) ->
  st = ProviderAccepted \/ st = AmbiguousState \/ st = Failed -> settles id0 op st = true ->
  eqb (is_due_state st) false
  && eqb (bool_decide (st = ProviderAccepted)) (bool_decide (is_Some ack))
  && eqb (bool_decide (st = AmbiguousState) || bool_decide (st = Failed))
         (bool_decide (is_Some err)) = true ->
  row_change op RDone id (m3_messages db !! id) (m3_messages db' !! id).
Proof.
  intros Hwf H Hst Hset Hcol. unfold spec_mark in H. destruct (valid_text text 256); [|done].
  cbn [negb] in H. destruct (m3_messages db !! id0) as [r|] eqn:E; [|done].
  destruct (bool_decide_reflect (state r = Sending)) as [Hs|]; [|done].
  injection H as <- _. rewrite lookup_put.
  destruct (bool_decide_reflect (id = id0)); subst; [|by constructor].
  rewrite E. apply change_settle; [done|done| |done|done].
  apply row_ok_leave_sending; [by apply (wf_rows db Hwf)|done].
Qed.

Lemma spec_admit_rows op db db' id0 key same r a id :
  spec_admit id0 key same r db = Ok (db', a) -> state r = Queued -> attempts r = 0 ->
  row_change op (RSubmitted a) id (m3_messages db !! id) (m3_messages db' !! id).
Proof.
  unfold spec_admit. intros H Hs Ha.
  destruct (find_by_key key db) as [[id' r']|].
  - destruct (same r'); [|done]. injection H as <- <-. by constructor.
  - destruct (row_ok id0 r) eqn:Hok; [|done]. cbn [andb] in H.
    destruct (bool_decide_reflect (m3_messages db !! id0 = None)) as [Hn|]; [|done].
    injection H as <- <-. rewrite lookup_put.
    destruct (bool_decide_reflect (id = id0)); subst; [|by constructor].
    rewrite Hn. apply change_admit; try done. cbn. by rewrite bool_decide_true.
Qed.

(** What an inbound call can do, one case per disposition. *)
Lemma spec_inbound_cases s now db db' d :
  spec_inbound s now db = Ok (db', d) ->
  match d with
  | Accepted =>
    db' = record_inbound s now db
    /\ m4_inbound_receipts db !! provider_message_id s = None
    /\ (is_notify s = true -> rate_count (sender s) (now - 600000) db < 4)
    /\ row_ok (m4_id s) (m4_row s now) = true
    /\ m3_messages db !! m4_id s = None
    /\ find_by_key (m4_key s) db = None
  | _ => db' = db
  end.
Proof.
  unfold spec_inbound. intros H.
  destruct (valid_m4 s); [|done]. cbn [negb] in H.
  destruct (bool_decide (m4_inbound_control db = Some 1)); cbn [negb] in H;
    [|by injection H as <- <-].
  destruct (bool_decide_reflect (is_Some (m4_inbound_receipts db !! provider_message_id s)))
    as [|Hr]; [by injection H as <- <-|]. apply eq_None_not_Some in Hr.
  destruct (is_notify s && (now - 600000 <? i64_min)); [done|].
  destruct (is_notify s && (4 <=? rate_count (sender s) (now - 600000) db)) eqn:Hrate;
    [by injection H as <- <-|].
  destruct (valid_idempotency_key (m4_key s)); [|done].
  destruct (row_ok (m4_id s) (m4_row s now)) eqn:Hok; [|done].
  destruct (bool_decide_reflect (m3_messages db !! m4_id s = None)) as [Hm|]; [|done].
  destruct (bool_decide_reflect (find_by_key (m4_key s) db = None)) as [Hk|]; [|done].
  injection H as <- <-. split_and!; try done. intros Hn. rewrite Hn in Hrate.
  cbn [andb] in Hrate. by apply Z.leb_gt in Hrate.
Qed.

Lemma spec_inbound_rows s now db db' d id :
  spec_inbound s now db = Ok (db', d) ->
  row_change (OpInbound s now) (RInbound d) id (m3_messages db !! id) (m3_messages db' !! id).
Proof.
  intros H%spec_inbound_cases. destruct d; [|subst; by constructor..].
  destruct H as (-> & _ & _ & Hok & Hm & _). unfold record_inbound. cbn [m3_messages].
  destruct (decide (id = m4_id s)) as [->|Hne].
  - rewrite lookup_insert_eq, Hm. apply change_admit; try done. cbn. by rewrite bool_decide_true.
  - rewrite lookup_insert_ne by done. by constructor.
Qed.

Lemma spec_retry_rows id0 reason delay now db db' u id :
  wf db -> spec_retry id0 reason delay now db = Ok (db', u) ->
  row_change (OpRetry id0 reason delay now) RDone id
    (m3_messages db !! id) (m3_messages db' !! id).
Proof.
  intros Hwf H. unfold spec_retry in H.
  destruct (negb (valid_text reason 256) || negb (within 1000 3600000 delay)); [done|].
  destruct (m3_messages db !! id0) as [r|] eqn:E; [|done].
  destruct (bool_decide_reflect (state r = Sending)) as [Hs|]; [|done]. cbn [negb] in H.
  destruct (Z.leb_spec 5 (attempts r)).
  - injection H as <- _. rewrite lookup_put.
    destruct (bool_decide_reflect (id = id0)); subst; [|by constructor].
    rewrite E. apply change_settle; [done|done| |auto|cbn; by apply bool_decide_true].
    apply row_ok_leave_sending; [by apply (wf_rows db Hwf)|done].
  - destruct (is_i64 (now + delay)); [|done]. injection H as <- _. rewrite lookup_put.
    destruct (bool_decide_reflect (id = id0)); subst; [|by constructor].
    rewrite E. apply change_reschedule; [done| |left; split_and!; eauto]. cbn. by rewrite bool_decide_true.
Qed.

Lemma spec_requeue_rows id0 now db db' b id :
  spec_requeue id0 now db = Ok (db', b) ->
  row_change (OpRequeue id0 now) (RRequeued b) id
    (m3_messages db !! id) (m3_messages db' !! id).
Proof.
  unfold spec_requeue. intros H. destruct (valid_message_id id0); [|done]. cbn [negb] in H.
  destruct (m3_messages db !! id0) as [r|] eqn:E; [|injection H as <- _; by constructor].
  destruct (bool_decide_reflect (state r = Failed)) as [Hs|];
    [|injection H as <- _; by constructor].
  injection H as <- <-. rewrite lookup_put.
  destruct (bool_decide_reflect (id = id0)); subst; [|by constructor].
  rewrite E. apply change_reschedule; [done| |auto]. cbn. by rewrite bool_decide_true.
Qed.

Lemma spec_rows op db db' v id :
  wf db -> spec op db = Ok (db', v) ->
  row_change op v id (m3_messages db !! id) (m3_messages db' !! id).
Proof.
  intros Hwf H. destruct op; cbn [spec] in H.
  - destruct (validate_m2_submission submission); [|done].
    destruct (spec_admit _ _ _ _ db) as [[d x]|] eqn:E; [|done].
    injection H as <- <-. eapply spec_admit_rows; [exact E|done|done].
  - destruct (valid_m3 submission); [|done]. cbn [negb] in H.
    destruct (spec_admit _ _ _ _ db) as [[d x]|] eqn:E; [|done].
    injection H as <- <-. eapply spec_admit_rows; [exact E|done|done].
  - injection H as <- <-. by constructor.
  - destruct (spec_inbound submission now db) as [[d x]|] eqn:E; [|done].
    injection H as <- <-. by apply spec_inbound_rows.
  - destruct (spec_claim now db) as [[d x]|] eqn:E; [|done]. injection H as <- <-.
    unfold spec_claim in E. pose proof (due_candidate_spec now db) as Hd.
    destruct (due_candidate now db) as [[id0 r]|]; [|injection E as <- <-; by constructor].
    destruct Hd as (Hm & Hdue & _). destruct (Z.ltb_spec (attempts r) 5); [|done].
    injection E as <- <-. rewrite lookup_put.
    destruct (bool_decide_reflect (id = id0)) as [->|Hne]; subst.
    + rewrite Hm. by apply change_claim with (now := now).
    + constructor. cbn. by apply bool_decide_false.
  - destruct (spec_mark _ _ _ _ _ _ db) as [[d x]|] eqn:E; [|done]. injection H as <- <-.
    eapply spec_mark_rows; [done|done|auto|cbn; by apply bool_decide_true|done].
  - destruct (spec_mark _ _ _ _ _ _ db) as [[d x]|] eqn:E; [|done]. injection H as <- <-.
    eapply spec_mark_rows; [done|done|auto|cbn; by apply bool_decide_true|done].
  - destruct (spec_mark _ _ _ _ _ _ db) as [[d x]|] eqn:E; [|done]. injection H as <- <-.
    eapply spec_mark_rows; [done|done|auto|cbn; by apply bool_decide_true|done].
  - destruct (spec_retry _ _ _ _ db) as [[d x]|] eqn:E; [|done]. injection H as <- <-.
    by eapply spec_retry_rows.
  - injection H as <- <-. unfold spec_recover. cbn [m3_messages set_messages].
    rewrite lookup_fmap. destruct (m3_messages db !! id) as [r|] eqn:E; [|by constructor].
    cbn. destruct (bool_decide_reflect (state r = Sending)) as [Hs|]; [|by constructor].
    apply change_settle; [done|done| |auto|done]. apply row_ok_leave_sending; [|done].
    by apply (wf_rows db Hwf).
  - destruct (spec_requeue _ _ db) as [[d x]|] eqn:E; [|done]. injection H as <- <-.
    by apply spec_requeue_rows.
  - injection H as <- <-. by constructor.
  - destruct (valid_message_id id0); [|done]. cbn [negb] in H.
    destruct (m3_messages db !! id0); injection H as <- <-; by constructor.
  - destruct (spec_summary db); [|done]. injection H as <- <-. by constructor.
Qed.

(** ** Well-formedness is preserved *)

(** The columns no call ever rewrites. *)
Definition content (r : Row) : string * string * option string * string * string * string * string * Z :=
  (idempotency_key r, topic r, title r, body r, driver r, destination r, payload r, created_at r).

Lemma row_change_content op v id r o' :
  row_change op v id (Some r) o' -> exists r', o' = Some r' /\ content r' = content r.
Proof. intros H; inversion H; subst; eauto. Qed.

Lemma row_change_ok op v id o r' :
  row_change op v id o (Some r') ->
  (forall r, o = Some r -> row_ok id r = true) -> row_ok id r' = true.
Proof.
  intros H Hok. inversion H; subst; auto.
  - specialize (Hok r eq_refl). rewrite row_ok_set_status by done.
    apply row_ok_columns in Hok as [Hatt _].
    rewrite (proj2 (within_spec 0 5 (attempts r + 1))) by lia. done.
  - specialize (Hok r eq_refl). rewrite row_ok_set_status by done.
    apply row_ok_columns in Hok as [Hatt _].
    rewrite (proj2 (within_spec 0 5 (attempts r))) by lia.
    match goal with H : _ \/ _ |- _ => destruct H as [(_ & _ & -> & _)|[_ ->]] end; done.
Qed.

Lemma unique_keys_insert m id r :
  unique_keys m -> (forall id' r', m !! id' = Some r' -> idempotency_key r' <> idempotency_key r) ->
  unique_keys (<[id := r]> m).
Proof.
  intros Hu Hf i j a b. rewrite !lookup_insert_Some.
  intros [[<- <-]|[Hi Ha]] [[<- <-]|[Hj Hb]] Hk; [done| | |].
  - by destruct (Hf j b Hb).
  - by destruct (Hf i a Ha).
  - by eapply Hu.
Qed.

(** At most one row is new, and then under an unused idempotency key. *)
Definition keys_grow (db db' : Db) : Prop :=
  (exists id r, m3_messages db' = <[id := r]> (m3_messages db)
                /\ find_by_key (idempotency_key r) db = None)
  \/ forall id, idempotency_key <$> m3_messages db' !! id
               = idempotency_key <$> m3_messages db !! id.

Lemma row_change_keys op v id o o' :
  row_change op v id o o' -> admits id (op, v) = false ->
  idempotency_key <$> o' = idempotency_key <$> o.
Proof. intros H Ha; inversion H; subst; try done. congruence. Qed.

Lemma spec_admit_keys id key same r db db' a :
  idempotency_key r = key -> spec_admit id key same r db = Ok (db', a) -> keys_grow db db'.
Proof.
  unfold spec_admit. intros Hk H.
  destruct (find_by_key key db) as [[id' r']|] eqn:E.
  - destruct (same r'); [|done]. injection H as <- <-. by right.
  - destruct (_ && _); [|done]. injection H as <- <-. left. exists id, r.
    split; [done|congruence].
Qed.

Lemma spec_keys op db db' v :
  wf db -> spec op db = Ok (db', v) -> keys_grow db db'.
Proof.
  intros Hwf H. assert ((forall id, admits id (op, v) = false) -> keys_grow db db') as Hother.
  { intros Ha. right. intros id. by eapply row_change_keys; [apply (spec_rows _ _ _ _ id Hwf H)|]. }
  destruct op; try (apply Hother; intros id'; cbn [spec] in H;
    unfold answer in H; simplify_eq; try done; repeat (case_match; simplify_eq; try done); fail); cbn [spec] in H.
  - destruct (validate_m2_submission submission); [|done].
    destruct (spec_admit _ _ _ _ db) as [[d x]|] eqn:E; [|done].
    injection H as <- <-. by eapply spec_admit_keys; [|exact E].
  - destruct (valid_m3 submission); [|done]. cbn [negb] in H.
    destruct (spec_admit _ _ _ _ db) as [[d x]|] eqn:E; [|done].
    injection H as <- <-. by eapply spec_admit_keys; [|exact E].
  - destruct (spec_inbound submission now db) as [[d x]|] eqn:E; [|done].
    injection H as <- <-. apply spec_inbound_cases in E.
    destruct x; [|subst; by right..]. destruct E as (-> & _ & _ & _ & _ & Hk).
    left. exists (m4_id submission), (m4_row submission now). done.
Qed.

(** Only inbound calls touch the receipts and the rate events. *)
Lemma spec_frame op db db' v :
  spec op db = Ok (db', v) ->
  match op with
  | OpInbound _ _ => True
  | OpSetInbound b => m4_inbound_control db' = Some (if b then 1 else 0)
  | _ => m4_inbound_control db' = m4_inbound_control db
  end
  /\ match op with
     | OpInbound _ _ => m4_inbound_control db' = m4_inbound_control db
     | _ => m4_inbound_receipts db' = m4_inbound_receipts db
            /\ m4_notify_rate_events db' = m4_notify_rate_events db
     end.
Proof.
  intros H. destruct op; cbn [spec] in H;
    try (unfold answer, spec_admit, spec_claim, spec_mark, spec_retry, spec_requeue in H;
         simplify_eq; try done; repeat (case_match; simplify_eq; try done); fail).
  destruct (spec_inbound submission now db) as [[d x]|] eqn:E; [|done].
  injection H as <- <-. apply spec_inbound_cases in E.
  split; [done|]. by destruct x; [destruct E as (-> & _)|subst..].
Qed.

Lemma spec_wf op db db' v : wf db -> spec op db = Ok (db', v) -> wf db'.
Proof.
  intros Hwf H. split.
  - intros id r' Hr'. pose proof (spec_rows _ _ _ _ id Hwf H) as Hch. rewrite Hr' in Hch.
    eapply row_change_ok; [exact Hch|]. apply (wf_rows db Hwf).
  - destruct (spec_keys _ _ _ _ Hwf H) as [(id & r & -> & Hk)|Hsame].
    + apply unique_keys_insert; [apply (wf_keys db Hwf)|]. by apply find_by_key_None.
    + intros i j a b Ha Hb Hk. pose proof (Hsame i) as Hi. pose proof (Hsame j) as Hj.
      rewrite Ha in Hi. rewrite Hb in Hj.
      destruct (m3_messages db !! i) as [a0|] eqn:Ea; [|done].
      destruct (m3_messages db !! j) as [b0|] eqn:Eb; [|done].
      injection Hi as Hi. injection Hj as Hj. eapply (wf_keys db Hwf); [done..|congruence].
  - pose proof (wf_control db Hwf) as Hc. apply spec_frame in H as [H1 H2].
    destruct op; try (by rewrite H1); [rewrite H1; destruct enabled; auto|by rewrite H2].
Qed.

(** ** From connections to traces *)

Lemma trace_app db1 h1 db2 h2 db3 :
  trace db1 h1 db2 -> trace db2 h2 db3 -> trace db1 (h1 ++ h2) db3.
Proof. induction 1; cbn; [done|]. intros. by econstructor; [|auto]. Qed.

Lemma trace_wf db h db' : trace db h db' -> wf db -> wf db'.
Proof. induction 1; [done|]. intros Hwf. by apply IHtrace, (spec_wf op db db1 v). Qed.

Lemma act_trace a c :
  wf (durable c) -> typed_action a = true ->
  trace (durable c) (act a c).2 (durable (act a c).1).
Proof.
  intros Hwf Ht. destruct a as [op|p]; cbn [act]; [|apply trace_nil].
  destruct (exec op c) as [c' [v|e]] eqn:E; cbn.
  - apply (trace_cons _ op v (durable c')); [by apply exec_Ok|apply trace_nil].
  - rewrite (exec_Err _ _ _ _ E). apply trace_nil.
Qed.

Lemma run_trace acts c :
  wf (durable c) -> forallb typed_action acts = true ->
  trace (durable c) (run acts c).2 (durable (run acts c).1).
Proof.
  revert c. induction acts as [|a acts IH]; intros c Hwf Ht; [apply trace_nil|].
  cbn [forallb] in Ht. apply andb_true_iff in Ht as [Ha Ht].
  pose proof (act_trace a c Hwf Ha) as Hact. cbn [run].
  destruct (act a c) as [c1 h1]. cbn in Hact.
  specialize (IH c1 (trace_wf _ _ _ Hact Hwf) Ht).
  destruct (run acts c1) as [c2 h2]. cbn in *. by eapply trace_app.
Qed.

(** Follow one quantity of a row along a trace. *)
Lemma trace_row_ind (id : string) (Q : option Row -> list (Op * Resp) -> option Row -> Prop) :
  (forall o, Q o [] o) ->
  (forall op v h o1 o2 o3, row_change op v id o1 o2 -> Q o2 h o3 -> Q o1 ((op, v) :: h) o3) ->
  forall db h db', wf db -> trace db h db' -> Q (m3_messages db !! id) h (m3_messages db' !! id).
Proof.
  intros Hnil Hcons db h db' Hwf Htr. induction Htr as [|db op v db1 h db2 Hs Htr IH]; [done|].
  eapply Hcons; [by apply spec_rows|]. apply IH. by eapply spec_wf.
Qed.

(** ** Counting along a history *)

Definition count_where (f : Op * Resp -> bool) (h : list (Op * Resp)) : Z :=
  Z.of_nat (length (List.filter f h)).

Lemma count_where_cons f e h :
  count_where f (e :: h) = (if f e then 1 else 0) + count_where f h.
Proof. unfold count_where. cbn. destruct (f e); cbn [length]; lia. Qed.

Lemma count_where_nonneg f h : 0 <= count_where f h.
Proof. unfold count_where. lia. Qed.

Definition dispatches (id : string) (h : list (Op * Resp)) : Z :=
  count_where (fun e => claims id e.2) h.
Definition reschedulings (id : string) (h : list (Op * Resp)) : Z :=
  count_where (reschedules id) h.

Definition attempts_of (o : option Row) : Z :=
  match o with Some r => attempts r | None => 0 end.

Definition due_of (o : option Row) : Z :=
  match o with Some r => if is_due_state (state r) then 1 else 0 | None => 0 end.

Lemma claims_delivery id r : claims id (RClaimed (Some (delivery_of id r))) = true.
Proof. cbn. by apply bool_decide_true. Qed.

Lemma row_change_attempts op v id o o' :
  row_change op v id o o' ->
  attempts_of o' = attempts_of o + (if claims id v then 1 else 0).
Proof.
  intros H; inversion H; subst; cbn [attempts_of set_status attempts];
    rewrite ?claims_delivery; try match goal with H : claims _ _ = false |- _ => rewrite H end; lia.
Qed.

Lemma row_change_due op v id o o' :
  row_change op v id o o' -> is_Some o ->
  (if claims id v then 1 else 0) + due_of o' <= due_of o + (if reschedules id (op, v) then 1 else 0).
Proof.
  intros H Ho; inversion H; subst; cbn [due_of set_status state];
    rewrite ?claims_delivery; try match goal with H : claims _ _ = false |- _ => rewrite H end.
  - destruct (reschedules id (op, v)); cbn; lia.
  - by destruct Ho.
  - match goal with H : is_due _ _ = true |- _ => unfold is_due in H;
      apply andb_true_iff in H as [-> _] end. cbn. lia.
  - match goal with H : state r = Sending |- _ => rewrite H end.
    match goal with H : st = _ \/ _ |- _ => destruct H as [->|[-> | ->]] end;
      destruct (reschedules id (op, v)); cbn; lia.
  - match goal with H : reschedules _ _ = true |- _ => rewrite H end.
    destruct (is_due_state st), (is_due_state (state r)); cbn; lia.
Qed.

Lemma row_change_Some op v id r o' : row_change op v id (Some r) o' -> is_Some o'.
Proof. intros H; inversion H; eauto. Qed.

Lemma trace_attempts id db h db' :
  wf db -> trace db h db' ->
  attempts_of (m3_messages db' !! id) = attempts_of (m3_messages db !! id) + dispatches id h.
Proof.
  revert db h db'. apply (trace_row_ind id (fun o h o' => attempts_of o' = attempts_of o + dispatches id h)).
  - intros o. unfold dispatches, count_where. cbn. lia.
  - intros op v h o1 o2 o3 Hch IH. unfold dispatches in *. rewrite count_where_cons. cbn [snd].
    apply row_change_attempts in Hch. lia.
Qed.

Lemma trace_due id db h db' :
  wf db -> trace db h db' -> is_Some (m3_messages db !! id) ->
  dispatches id h <= due_of (m3_messages db !! id) + reschedulings id h.
Proof.
  revert db h db'.
  apply (trace_row_ind id (fun o h o' => is_Some o -> dispatches id h <= due_of o + reschedulings id h)).
  - intros o _. unfold dispatches, reschedulings, count_where. cbn.
    destruct o as [r|]; cbn; [destruct (is_due_state _)|]; lia.
  - intros op v h o1 o2 o3 Hch IH Ho. unfold dispatches, reschedulings in *.
    rewrite !count_where_cons. cbn [snd].
    assert (is_Some o2) as Ho2 by (destruct Ho as [r ->]; by eapply row_change_Some).
    pose proof (row_change_due _ _ _ _ _ Hch Ho). specialize (IH Ho2).
    destruct o2 as [r2|]; [|by destruct Ho2]. lia.
Qed.

(** ** Inbound accounting *)

(** The call accepted the callback with provider id [pid]. *)
Definition accepts (pid : string) (e : Op * Resp) : bool :=
  match e with
  | (OpInbound s _, RInbound Accepted) => bool_decide (provider_message_id s = pid)
  | _ => false
  end.

Definition receipt_of (pid : string) (db : Db) : Z :=
  if bool_decide (is_Some (m4_inbound_receipts db !! pid)) then 1 else 0.

(** Accepted notifications of [s] in the ten minutes up to and including [t]. *)
Definition window_count (s : string) (t : Z) (db : Db) : Z :=
  Z.of_nat (length (List.filter
    (fun e => bool_decide (e.1 = s) && (t - 600000 <? e.2) && (e.2 <=? t))
    (m4_notify_rate_events db))).

Definition rate_limited (db : Db) : Prop := forall s t, window_count s t db <= 4.

Lemma spec_receipts pid op db db' v :
  spec op db = Ok (db', v) ->
  receipt_of pid db' = receipt_of pid db + (if accepts pid (op, v) then 1 else 0).
Proof.
  intros H. pose proof (spec_frame _ _ _ _ H) as [_ Hframe].
  destruct op; try (destruct Hframe as [Hf _]; unfold receipt_of; rewrite Hf; cbn; lia).
  cbn [spec] in H. destruct (spec_inbound submission now db) as [[d x]|] eqn:E; [|done].
  injection H as <- <-. apply spec_inbound_cases in E.
  destruct x; [|subst; cbn; lia..]. destruct E as (-> & Hr & _). cbn [accepts].
  unfold receipt_of, record_inbound. cbn [m4_inbound_receipts].
  destruct (bool_decide_reflect (provider_message_id submission = pid)) as [<-|Hne].
  - rewrite lookup_insert_eq, Hr. done.
  - rewrite lookup_insert_ne by done. lia.
Qed.

Lemma trace_receipts pid db h db' :
  trace db h db' -> receipt_of pid db' = receipt_of pid db + count_where (accepts pid) h.
Proof.
  induction 1 as [|db op v db1 h db2 Hs Htr IH]; [unfold count_where; cbn; lia|].
  rewrite count_where_cons. apply (spec_receipts pid) in Hs. lia.
Qed.

Lemma filter_length_le {A : Type} (f g : A -> bool) l :
  (forall x, f x = true -> g x = true) ->
  (length (List.filter f l) <= length (List.filter g l))%nat.
Proof.
  intros H. induction l as [|x l IH]; [done|]. cbn. specialize (H x).
  destruct (f x); [rewrite H by done; cbn; lia|]. destruct (g x); cbn; lia.
Qed.

(** Every later window is inside the window the acceptance was checked on. *)
Lemma spec_rate op db db' v :
  rate_limited db -> spec op db = Ok (db', v) -> rate_limited db'.
Proof.
  intros Hl H. pose proof (spec_frame _ _ _ _ H) as [_ Hframe].
  destruct op; try (destruct Hframe as [_ Hf]; intros s t; unfold window_count; rewrite Hf; apply Hl).
  cbn [spec] in H. destruct (spec_inbound submission now db) as [[d x]|] eqn:E; [|done].
  injection H as <- <-. apply spec_inbound_cases in E.
  destruct x; [|by subst..]. destruct E as (-> & _ & Hrate & _). intros s t.
  specialize (Hl s t). unfold window_count, record_inbound in *. cbn [m4_notify_rate_events].
  destruct (is_notify submission) eqn:Hn; [|by rewrite app_nil_r].
  specialize (Hrate eq_refl). rewrite List.filter_app, length_app. cbn [List.filter fst snd].
  destruct (bool_decide_reflect (sender submission = s)) as [<-|]; cbn [andb length]; [|lia].
  destruct (Z.ltb_spec (t - 600000) now), (Z.leb_spec now t); cbn [andb length]; try lia.
  unfold rate_count in Hrate.
  pose proof (filter_length_le
    (fun e => bool_decide (e.1 = sender submission) && (t - 600000 <? e.2) && (e.2 <=? t))
    (fun e => bool_decide (e.1 = sender submission) && (now - 600000 <? e.2))
    (m4_notify_rate_events db)) as Hle.
  assert (forall x : string * Z,
    bool_decide (x.1 = sender submission) && (t - 600000 <? x.2) && (x.2 <=? t) = true ->
    bool_decide (x.1 = sender submission) && (now - 600000 <? x.2) = true) as Hsub.
  { intros x. rewrite !andb_true_iff, !Z.ltb_lt. intros [[? ?] _]. split; [done|lia]. }
  specialize (Hle Hsub). lia.
Qed.

Lemma trace_rate db h db' : trace db h db' -> rate_limited db -> rate_limited db'.
Proof. induction 1; [done|]. intros Hl. eapply IHtrace, spec_rate; done. Qed.

(** The call accepted a notification of [s], and the clock then read a time in the ten
    minutes up to and including [t]. *)
Definition notified (s : string) (t : Z) (e : Op * Resp) : bool :=
  match e with
  | (OpInbound x now, RInbound Accepted) =>
    bool_decide (verb x = "notify"%string) && bool_decide (sender x = s)
    && (t - 600000 <? now) && (now <=? t)
  | _ => false
  end.

(** Every acceptance leaves its event, and nothing takes one away. *)
Lemma spec_window s t op db db' v :
  spec op db = Ok (db', v) ->
  window_count s t db' = window_count s t db + (if notified s t (op, v) then 1 else 0).
Proof.
  intros H. pose proof (spec_frame _ _ _ _ H) as [_ Hframe].
  destruct op; try (destruct Hframe as [_ Hf]; unfold window_count; rewrite Hf; cbn; lia).
  cbn [spec] in H. destruct (spec_inbound submission now db) as [[d x]|] eqn:E; [|done].
  injection H as <- <-. apply spec_inbound_cases in E.
  destruct x; [|subst; cbn [notified]; lia..]. destruct E as (-> & _). cbn [notified].
  unfold window_count, record_inbound, is_notify. cbn [m4_notify_rate_events].
  destruct (bool_decide (verb submission = "notify"%string)); cbn [andb]; [|rewrite app_nil_r; lia].
  rewrite List.filter_app, length_app. cbn [List.filter fst snd].
  destruct (_ && _ && _); cbn [length]; lia.
Qed.

Lemma trace_window s t db h db' :
  trace db h db' -> window_count s t db' = window_count s t db + count_where (notified s t) h.
Proof.
  induction 1 as [|db op v db1 h db2 Hs Htr IH]; [unfold count_where; cbn; lia|].
  rewrite count_where_cons. apply (spec_window s t) in Hs. lia.
Qed.

(** ** Theorems: whole histories *)

(** Whatever is called, fails or is reopened, the tables stay well formed:
    every row satisfies its CHECK constraints and idempotency keys stay unique. *)
Theorem run_preserves_wf acts c :
  wf (durable c) -> forallb typed_action acts = true -> wf (durable (run acts c).1).
Proof. intros Hwf Ht. by eapply trace_wf; [apply run_trace|]. Qed.

(** C11: an acknowledged message and a message of unknown outcome are final: no
    call, operator action, failure or reopening changes their row in any way. *)
Theorem run_final_rows acts c id r :
  wf (durable c) -> forallb typed_action acts = true ->
  m3_messages (durable c) !! id = Some r ->
  state r = ProviderAccepted \/ state r = AmbiguousState ->
  m3_messages (durable (run acts c).1) !! id = Some r.
Proof.
  intros Hwf Ht Hr Hs. pose proof (run_trace acts c Hwf Ht) as Htr. revert Hr Hs.
  revert Hwf Htr. generalize (durable c), (run acts c).2, (durable (run acts c).1).
  intros db h db' Hwf Htr Hr Hs. revert Hr.
  apply (trace_row_ind id (fun o _ o' => o = Some r -> o' = Some r)) with (h := h); [done| |done|done].
  intros op v h0 o1 o2 o3 Hch IH ->. apply IH.
  inversion Hch as [| |? ? ? ? Hd|? ? ? ? ? ? Hst|? ? ? ? ? ? Hst]; subst; try done.
  - unfold is_due in Hd. destruct Hs as [Hs|Hs]; rewrite Hs in Hd; done.
  - destruct Hs; congruence.
  - destruct Hs, Hst as [(? & _)|(? & _)]; congruence.
Qed.

(** A message is handed to its driver at most five times in its life, and its
    [attempts] column counts exactly those times. *)
Theorem run_bounded_dispatches acts c id :
  wf (durable c) -> forallb typed_action acts = true ->
  let '(c', h) := run acts c in
  attempts_of (m3_messages (durable c') !! id)
    = attempts_of (m3_messages (durable c) !! id) + dispatches id h
  /\ dispatches id h <= 5.
Proof.
  intros Hwf Ht. pose proof (run_trace acts c Hwf Ht) as Htr.
  destruct (run acts c) as [c' h]. cbn in Htr.
  pose proof (trace_attempts id _ _ _ Hwf Htr) as Hatt. split; [done|].
  pose proof (trace_wf _ _ _ Htr Hwf) as Hwf'.
  assert (forall db, wf db -> 0 <= attempts_of (m3_messages db !! id) <= 5) as Hb.
  { intros db Hdb. destruct (m3_messages db !! id) as [r|] eqn:E; cbn; [|lia].
    by apply (wf_rows db Hdb), row_ok_columns in E as [? _]. }
  pose proof (Hb _ Hwf). pose proof (Hb _ Hwf'). lia.
Qed.

(** Once handed to its driver, a message is handed over again only after a
    recorded retry or an operator's requeue: never because of a crash, a failed
    call or a repeated submission. *)
Theorem run_no_blind_resend acts c id r :
  wf (durable c) -> forallb typed_action acts = true ->
  m3_messages (durable c) !! id = Some r -> is_due_state (state r) = false ->
  dispatches id (run acts c).2 <= reschedulings id (run acts c).2.
Proof.
  intros Hwf Ht Hr Hs. pose proof (run_trace acts c Hwf Ht) as Htr.
  pose proof (trace_due id _ _ _ Hwf Htr) as H. rewrite Hr in H. cbn [due_of] in H.
  rewrite Hs in H. apply H. eauto.
Qed.

(** What was submitted is what is stored: a row is never deleted, and none of
    its content, identity or creation time is ever rewritten. *)
Theorem run_content_immutable acts c id r :
  wf (durable c) -> forallb typed_action acts = true ->
  m3_messages (durable c) !! id = Some r ->
  exists r', m3_messages (durable (run acts c).1) !! id = Some r' /\ content r' = content r.
Proof.
  intros Hwf Ht. pose proof (run_trace acts c Hwf Ht) as Htr.
  revert r. apply (trace_row_ind id (fun o _ o' => forall r, o = Some r ->
    exists r', o' = Some r' /\ content r' = content r)) with (h := (run acts c).2);
    [eauto| |done|done].
  intros op v h0 o1 o2 o3 Hch IH r ->. apply row_change_content in Hch as (r1 & -> & Hc).
  destruct (IH r1 eq_refl) as (r2 & -> & Hc2). exists r2. split; [done|congruence].
Qed.

(** C17: an inbound callback is accepted at most once, in any interleaving with
    other calls, failures and reopenings; never again once its receipt exists. *)
Theorem run_inbound_once acts c pid :
  wf (durable c) -> forallb typed_action acts = true ->
  count_where (accepts pid) (run acts c).2 <= 1 - receipt_of pid (durable c).
Proof.
  intros Hwf Ht. pose proof (trace_receipts pid _ _ _ (run_trace acts c Hwf Ht)) as H.
  unfold receipt_of at 1 in H. case_bool_decide; lia.
Qed.

(** C18: no sender ever has more than four notifications accepted in any ten-minute
    window, the events of the window that were there at the start counted: whatever is
    called, fails or is reopened, and whatever the clock readings and their order. *)
Theorem run_rate_limited acts c s t :
  wf (durable c) -> forallb typed_action acts = true -> rate_limited (durable c) ->
  window_count s t (durable c) + count_where (notified s t) (run acts c).2 <= 4.
Proof.
  intros Hwf Ht Hl. pose proof (run_trace acts c Hwf Ht) as Htr.
  rewrite <- (trace_window s t _ _ _ Htr). by eapply trace_rate.
Qed.

(** ** Concrete histories *)

Definition empty_db : Db := mkDb ∅ (Some 0) ∅ [].
Definition live (db : Db) : Conn := mkConn true db db [].

Lemma wf_empty : wf empty_db.
Proof. split; [done|done|by left]. Qed.

Lemma wf_after acts :
  forallb typed_action acts = true -> wf (durable (run acts (live empty_db)).1).
Proof. intros Ht. by eapply trace_wf; [apply run_trace; [apply wf_empty|]|apply wf_empty]. Qed.

Definition sample_submission : M2Submission :=
  mkM2Submission "key-1" "alerts" (Some "title") "hello".

Definition sample_id : string := m2_message_id sample_submission.

Definition sample_inbound (pid : string) : M4InboundSubmission :=
  mkM4InboundSubmission pid "15551234567" "notify" "ntfy" "alerts" "hello".

(** A message admitted, claimed, retried, claimed again and acknowledged, with a
    failing engine call and a reopening in between. *)
Definition sample_acts : list Action :=
  [Call (OpM2Submit sample_submission 1000); Call (OpClaim 1000);
   Call (OpRetry sample_id "timeout" 1000 1500); Reopen [false; true];
   Call (OpClaim 3000); Call (OpClaim 3000); Call (OpAccept sample_id "ack" 3100)].

Definition sample_conn : Conn := (run sample_acts (live empty_db)).1.

Example sample_dispatches : dispatches sample_id (run sample_acts (live empty_db)).2 = 2.
Proof. vm_compute. reflexivity. Qed.

Example sample_state :
  (fun r => state_text (state r)) <$> m3_messages (durable sample_conn) !! sample_id
  = Some "provider_accepted"%string.
Proof. vm_compute. reflexivity. Qed.

(** ** Witnesses *)

Lemma run_preserves_wf_witness : wf (durable (run sample_acts (live empty_db)).1).
Proof. apply (run_preserves_wf sample_acts (live empty_db)); [exact wf_empty|vm_compute; reflexivity]. Defined.

Definition sample_row : Row :=
  set_status (m2_row sample_submission 1000) ProviderAccepted 2 None (Some "ack"%string) None 3100.

Lemma run_final_rows_witness :
  m3_messages (durable (run [Call (OpRecover 5000); Call (OpRequeue sample_id 5000)]
                          sample_conn).1) !! sample_id = Some sample_row.
Proof.
  apply (run_final_rows [Call (OpRecover 5000); Call (OpRequeue sample_id 5000)] sample_conn).
  - apply wf_after. vm_compute. reflexivity.
  - vm_compute. reflexivity.
  - vm_compute. reflexivity.
  - left. reflexivity.
Defined.

Lemma run_bounded_dispatches_witness :
  dispatches sample_id (run sample_acts (live empty_db)).2 <= 5.
Proof.
  pose proof (run_bounded_dispatches sample_acts (live empty_db) sample_id wf_empty
    ltac:(vm_compute; reflexivity)) as H.
  destruct (run sample_acts (live empty_db)) as [c' h]. exact (proj2 H).
Defined.

Definition claimed_conn : Conn :=
  (run [Call (OpM2Submit sample_submission 1000); Call (OpClaim 1000)] (live empty_db)).1.

Definition claimed_row : Row :=
  set_status (m2_row sample_submission 1000) Sending 1 None None None 1000.

Lemma run_no_blind_resend_witness :
  dispatches sample_id (run [Call (OpClaim 9000)] claimed_conn).2
  <= reschedulings sample_id (run [Call (OpClaim 9000)] claimed_conn).2.
Proof.
  apply (run_no_blind_resend [Call (OpClaim 9000)] claimed_conn sample_id claimed_row).
  - apply wf_after. vm_compute. reflexivity.
  - vm_compute. reflexivity.
  - vm_compute. reflexivity.
  - reflexivity.
Defined.

Lemma run_content_immutable_witness :
  exists r', m3_messages (durable (run [Call (OpRecover 9000)] claimed_conn).1) !! sample_id = Some r'
             /\ content r' = content claimed_row.
Proof.
  apply (run_content_immutable [Call (OpRecover 9000)] claimed_conn sample_id claimed_row).
  - apply wf_after. vm_compute. reflexivity.
  - vm_compute. reflexivity.
  - vm_compute. reflexivity.
Defined.

Definition inbound_acts : list Action :=
  [Call (OpSetInbound true); Call (OpInbound (sample_inbound "p1") 1000);
   Call (OpInbound (sample_inbound "p1") 1001); Call (OpInbound (sample_inbound "p2") 1002);
   Call (OpInbound (sample_inbound "p3") 1003); Call (OpInbound (sample_inbound "p4") 1004);
   Call (OpInbound (sample_inbound "p5") 1005)].

Example inbound_answers :
  map snd (run inbound_acts (live empty_db)).2 =
  [RDone; RInbound Accepted; RInbound Replayed; RInbound Accepted; RInbound Accepted;
   RInbound Accepted; RInbound RateLimited].
Proof. vm_compute. reflexivity. Qed.

Lemma run_inbound_once_witness :
  count_where (accepts "p1") (run inbound_acts (live empty_db)).2 <= 1.
Proof.
  apply (run_inbound_once inbound_acts (live empty_db) "p1"); [exact wf_empty|vm_compute; reflexivity].
Defined.

Lemma run_rate_limited_witness :
  window_count "15551234567" 1005 empty_db
  + count_where (notified "15551234567" 1005) (run inbound_acts (live empty_db)).2 <= 4.
Proof.
  apply (run_rate_limited inbound_acts (live empty_db)); [exact wf_empty|vm_compute; reflexivity|].
  intros s t. vm_compute. discriminate.
Defined.

(** All four of them are accepted. *)
Example inbound_notified :
  count_where (notified "15551234567" 1005) (run inbound_acts (live empty_db)).2 = 4.
Proof. vm_compute. reflexivity. Qed.

Lemma store_refines_spec_witness :
  spec (OpM2Submit sample_submission 1000) empty_db =
  Ok (durable (exec (OpM2Submit sample_submission 1000) (live empty_db)).1,
      RSubmitted (New sample_id)).
Proof.
  pose proof (store_refines_spec (OpM2Submit sample_submission 1000) (live empty_db) wf_empty
    eq_refl) as H.
  assert ((exec (OpM2Submit sample_submission 1000) (live empty_db)).2
          = Ok (RSubmitted (New sample_id))) as Hr by (vm_compute; reflexivity).
  destruct (exec (OpM2Submit sample_submission 1000) (live empty_db)) as [c' r].
  cbn [fst snd] in *. rewrite Hr in H. exact (proj1 H).
Defined.
