(* ===== verification/StoreOps.v ===== *)
(** * Operation by operation

    What a caller of the store can rely on: which message is claimed, what
    recovery leaves behind, that submission is idempotent and can succeed, that
    message identities do not collide, and where the retry budget and the
    operator's requeue disagree. *)

From S2P Require Import Prelude Bytes Sha256 Generation Store StoreSpec StoreSafety.

#[local] Open Scope Z_scope.

(** ** Message identities *)

Lemma id_field_app_inj a b x y :
  str_len a <= u64_max -> str_len b <= u64_max ->
  id_field a ++ x = id_field b ++ y -> a = b /\ x = y.
Proof.
  unfold id_field, str_len. intros Ha Hb H. rewrite <- !app_assoc in H.
  apply app_be_bytes_inj in H as [Hl H].
  apply be_bytes_inj in Hl; [|change (256 ^ Z.of_nat 8) with (2 ^ 64); unfold u64_max in *; lia..].
  apply app_inj_length in H as [H ->]; [|rewrite !length_as_bytes; lia].
  by apply as_bytes_inj in H as ->.
Qed.

Lemma id_fields_inj l k :
  Forall (fun s => str_len s <= u64_max) l -> Forall (fun s => str_len s <= u64_max) k ->
  length l = length k -> concat (map id_field l) = concat (map id_field k) -> l = k.
Proof.
  intros Hl. revert k. induction Hl as [|a l Ha Hl IH]; intros [|b k] Hk Hlen H; try done.
  apply Forall_cons in Hk as [Hb Hk]. cbn [map concat] in H.
  apply id_field_app_inj in H as [-> H]; [|done..]. f_equal. apply IH; [done|by injection Hlen|done].
Qed.

(** The bytes hashed into a message identity. *)
Definition hashed (s : M2Submission) : bytes := concat (map id_field (m2_fields s)).

Lemma digest_to_hex_inj x y :
  digest_to_hex (sha256 x) = digest_to_hex (sha256 y) -> sha256 x = sha256 y.
Proof.
  unfold digest_to_hex. intros H. apply (f_equal as_bytes) in H.
  rewrite !as_bytes_of_bytes in H by apply is_bytes_hex, is_bytes_sha256.
  by apply hex_bytes_inj in H; [|apply is_bytes_sha256..].
Qed.

Lemma valid_text_len s n : valid_text s n = true -> 1 <= str_len s <= n.
Proof.
  unfold valid_text. b2p. intros [[H1 H2] _]. split; [|done]. unfold str_len in *. lia.
Qed.

Lemma valid_key_len s : valid_idempotency_key s = true -> 1 <= str_len s <= 128.
Proof. unfold valid_idempotency_key. intros [H _]%andb_true_iff. by apply valid_text_len. Qed.

Lemma valid_topic_len s : valid_topic s = true -> 1 <= str_len s <= 64.
Proof. unfold valid_topic. intros [H _]%andb_true_iff. by apply valid_text_len. Qed.

Lemma validate_m2_Ok s u :
  validate_m2_submission s = Ok u ->
  valid_idempotency_key (m2_idempotency_key s) = true /\ valid_topic (m2_topic s) = true
  /\ valid_text (m2_body s) 4096 = true
  /\ match m2_title s with Some t => valid_text t 256 = true | None => True end.
Proof.
  unfold validate_m2_submission. intros H.
  destruct (valid_idempotency_key (m2_idempotency_key s)); [|done].
  destruct (valid_topic (m2_topic s)); [|done].
  destruct (valid_text (m2_body s) 4096); [|done]. split_and!; try done.
  destruct (m2_title s) as [t|]; [|done]. by destruct (valid_text t 256).
Qed.

Lemma m2_fields_bounded s u :
  validate_m2_submission s = Ok u -> Forall (fun f => str_len f <= u64_max) (m2_fields s).
Proof.
  intros (Hk & Ht & Hb & Hti)%validate_m2_Ok. unfold u64_max, m2_fields.
  apply valid_key_len in Hk. apply valid_topic_len in Ht. apply valid_text_len in Hb.
  repeat constructor; try lia. destruct (m2_title s) as [t|]; cbn; [|done].
  apply valid_text_len in Hti. lia.
Qed.

(** Distinct valid submissions have distinct message identities, unless what is
    hashed for the two of them is a SHA-256 collision: the length-prefixed fields,
    an absent title included, are read back from the hashed bytes. *)
Theorem m2_message_id_injective s t u v :
  validate_m2_submission s = Ok u -> validate_m2_submission t = Ok v ->
  m2_message_id s = m2_message_id t ->
  s = t \/ (hashed s <> hashed t /\ sha256 (hashed s) = sha256 (hashed t)).
Proof.
  intros Hs Ht H. pose proof (m2_fields_bounded _ _ Hs). pose proof (m2_fields_bounded _ _ Ht).
  unfold m2_message_id in H. apply digest_to_hex_inj in H.
  destruct (decide (hashed s = hashed t)) as [Heq|Hne]; [|by right].
  left. clear H. apply id_fields_inj in Heq; [|done..]. injection Heq as Hk Hto Hti Hb.
  apply validate_m2_Ok in Hs as (_ & _ & _ & Hs). apply validate_m2_Ok in Ht as (_ & _ & _ & Ht).
  destruct s as [k to ti b], t as [k' to' ti' b'].
  cbn [m2_idempotency_key m2_topic m2_title m2_body] in *. subst. f_equal.
  destruct ti as [a|], ti' as [a'|]; cbn in Hti; subst; try done;
    exfalso; first [by apply valid_text_len in Hs as [? _]|by apply valid_text_len in Ht as [? _]].
Qed.

(** ** Valid submissions satisfy the table constraints *)

Lemma sql_length_bounds l : 0 <= sql_length_bytes l <= len l.
Proof.
  induction l as [|b l IH]; [done|]. cbn [sql_length_bytes]. unfold len in *. cbn [length].
  destruct (b =? 0), (cont b); lia.
Qed.

Lemma sql_length_ascii l :
  forallb (within 1 127) l = true -> sql_length_bytes l = len l.
Proof.
  induction l as [|b l IH]; [done|]. cbn [forallb sql_length_bytes].
  intros [Hb Hl]%andb_true_iff. rewrite IH by done. apply within_spec in Hb.
  replace (b =? 0) with false by (symmetry; b2p; lia).
  replace (cont b) with false by (symmetry; unfold cont, within; b2p; lia).
  unfold len. cbn [length]. lia.
Qed.

Lemma sql_length_pos b l :
  is_utf8 (b :: l) = true -> b <> 0 -> 1 <= sql_length_bytes (b :: l).
Proof.
  intros Hu Hb. cbn [sql_length_bytes]. pose proof (sql_length_bounds l).
  replace (b =? 0) with false by (symmetry; b2p; lia).
  replace (cont b) with false; [lia|]. symmetry. destruct (cont b) eqn:Hc; [|done].
  exfalso. unfold cont in Hc. apply within_spec in Hc. revert Hu. unfold is_utf8.
  cbn [utf8_chars]. unfold within.
  replace (b <=? 127) with false by (symmetry; b2p; lia).
  replace (194 <=? b) with false by (symmetry; b2p; lia).
  replace (224 <=? b) with false by (symmetry; b2p; lia).
  replace (240 <=? b) with false by (symmetry; b2p; lia).
  rewrite andb_false_r. cbn [andb]. by repeat case_match.
Qed.

Lemma sql_length_le s : sql_length s <= str_len s.
Proof.
  unfold sql_length, str_len. pose proof (sql_length_bounds (as_bytes s)).
  unfold len in *. rewrite length_as_bytes in *. lia.
Qed.

Lemma valid_text_sql s n :
  valid_text s n = true -> is_utf8 (as_bytes s) = true -> 1 <= sql_length s <= n.
Proof.
  intros Hv Hu. pose proof (valid_text_len s n Hv). pose proof (sql_length_le s).
  split; [|lia]. unfold sql_length. destruct (as_bytes s) as [|b l] eqn:E.
  - pose proof (length_as_bytes s) as Hl. rewrite E in Hl. unfold str_len in *.
    cbn in Hl. lia.
  - apply sql_length_pos; [done|]. intros ->. unfold valid_text, contains_byte in Hv.
    rewrite E in Hv. cbn in Hv. by rewrite andb_false_r in Hv.
Qed.

Lemma ascii_sql (f : Z -> bool) s n :
  (forall b, f b = true -> within 1 127 b = true) ->
  valid_text s n = true -> forallb f (as_bytes s) = true -> 1 <= sql_length s <= n.
Proof.
  intros Hf Hv Hs. pose proof (valid_text_len s n Hv). unfold sql_length.
  rewrite sql_length_ascii.
  - unfold len, str_len in *. rewrite length_as_bytes. lia.
  - rewrite forallb_Forall in Hs |- *. eapply Forall_impl; [exact Hs|]. exact Hf.
Qed.

Lemma key_sql s : valid_idempotency_key s = true -> 1 <= sql_length s <= 128.
Proof.
  unfold valid_idempotency_key. intros [Hv Hs]%andb_true_iff. eapply ascii_sql; [|done|exact Hs].
  intros b. unfold is_ascii_alphanumeric, is_ascii_digit, is_ascii_uppercase, is_ascii_lowercase,
    within. b2p. lia.
Qed.

Lemma topic_sql s : valid_topic s = true -> 1 <= sql_length s <= 64.
Proof.
  unfold valid_topic. intros [Hv Hs]%andb_true_iff. eapply ascii_sql; [|done|exact Hs].
  intros b. unfold is_ascii_alphanumeric, is_ascii_digit, is_ascii_uppercase, is_ascii_lowercase,
    within. b2p. lia.
Qed.

Lemma digest_sql data : sql_length (digest_to_hex (sha256 data)) = 64.
Proof.
  unfold digest_to_hex, sql_length.
  rewrite as_bytes_of_bytes by apply is_bytes_hex, is_bytes_sha256.
  rewrite sql_length_ascii.
  - unfold len. by rewrite length_hex_bytes, length_sha256.
  - pose proof (hex_bytes_lower _ (is_bytes_sha256 data)) as H.
    rewrite forallb_Forall in H |- *. eapply Forall_impl; [exact H|].
    intros b. unfold is_hex_lower, within. b2p. lia.
Qed.

Lemma m2_row_ok s u now :
  validate_m2_submission s = Ok u -> is_utf8 (as_bytes (m2_body s)) = true ->
  row_ok (m2_message_id s) (m2_row s now) = true.
Proof.
  intros (Hk & Ht & Hb & _)%validate_m2_Ok Hu. unfold row_ok, m2_row, fresh_row.
  cbn [idempotency_key topic body attempts state next_attempt_at provider_ack last_error driver].
  unfold m2_message_id. rewrite digest_sql. cbn [Z.eqb Pos.eqb andb].
  rewrite (proj2 (within_spec _ _ _) (key_sql _ Hk)), (proj2 (within_spec _ _ _) (topic_sql _ Ht)),
    (proj2 (within_spec _ _ _) (valid_text_sql _ _ Hb Hu)). done.
Qed.

(** ** Shared facts on answered calls *)

Lemma answer_Ok {A : Type} (f : A -> Resp) s db v :
  answer f s = Ok (db, v) -> exists a, s = Ok (db, a) /\ v = f a.
Proof. unfold answer. destruct s as [[d a]|]; [|done]. intros [= <- <-]. eauto. Qed.

Lemma steady_exec op c db' v :
  wf (durable c) -> typed op = true -> connected c = true -> plan c = [] ->
  spec op (durable c) = Ok (db', v) ->
  exists c', exec op c = (c', Ok v) /\ durable c' = db'.
Proof.
  intros Hwf Ht Hc Hp Hs. pose proof (exec_steady op (durable c) (working c) Hwf Ht) as H.
  unfold steady in H. rewrite <- Hc, <- Hp in H. destruct c as [con dur wor pl]. cbn in *.
  rewrite Hs in H. destruct (exec op _) as [c' r]. unfold observe, outcome in H. cbn in H.
  injection H as Hd Hr. subst r. eauto.
Qed.

Lemma m2_submit_new s now db db' id :
  spec (OpM2Submit s now) db = Ok (db', RSubmitted (New id)) ->
  id = m2_message_id s /\ m3_messages db' !! id = Some (m2_row s now)
  /\ exists u, validate_m2_submission s = Ok u.
Proof.
  cbn [spec]. destruct (validate_m2_submission s) as [u|] eqn:Hv; [|done].
  intros ([|] & H & [=])%answer_Ok; subst. unfold spec_admit in H.
  destruct (find_by_key _ db) as [[i' x]|]; [by destruct (m2_same s x)|].
  destruct (_ && _); [|done]. injection H as <- <-. split_and!; [done| |eauto].
  unfold put, set_messages. cbn [m3_messages]. by rewrite lookup_insert_eq.
Qed.

Lemma m2_same_row s now t r :
  content r = content (m2_row s now) -> m2_idempotency_key t = m2_idempotency_key s ->
  m2_same t r = true <-> t = s.
Proof.
  intros [= Hk Hto Hti Hb _ _ _ _] Hkt. unfold m2_same. rewrite Hto, Hti, Hb.
  rewrite !andb_true_iff, !bool_decide_eq_true. destruct s, t. cbn in *. split.
  - intros [[-> ->] ->]. by subst.
  - by intros [= -> -> -> ->].
Qed.

(** ** Theorems *)

(** A valid submission under an unused key is accepted, and what is stored is
    one queued row, never attempted, due at once, with exactly its content. *)
Theorem m2_submit_accepts s now u c :
  wf (durable c) -> connected c = true -> plan c = [] -> is_i64 now = true ->
  validate_m2_submission s = Ok u -> is_utf8 (as_bytes (m2_body s)) = true ->
  find_by_key (m2_idempotency_key s) (durable c) = None ->
  m3_messages (durable c) !! m2_message_id s = None ->
  exists c', exec (OpM2Submit s now) c = (c', Ok (RSubmitted (New (m2_message_id s))))
    /\ durable c' = put (m2_message_id s) (m2_row s now) (durable c).
Proof.
  intros Hwf Hc Hp Hn Hv Hu Hk Hm. apply steady_exec; try done.
  cbn [spec]. rewrite Hv. unfold spec_admit. rewrite Hk, (m2_row_ok s u now) by done.
  by rewrite bool_decide_true.
Qed.

(** C21: submission is idempotent for ever: after a submission created a message,
    whatever happens next, every submission under the same key that answers has
    the same content, names the same message and changes nothing; and repeating
    the submission on a live connection does answer. *)
Theorem m2_submit_idempotent s now c c1 id acts now' :
  wf (durable c) -> is_i64 now = true -> is_i64 now' = true ->
  forallb typed_action acts = true ->
  exec (OpM2Submit s now) c = (c1, Ok (RSubmitted (New id))) ->
  let c2 := (run acts c1).1 in
  (forall t c3 v, m2_idempotency_key t = m2_idempotency_key s ->
     exec (OpM2Submit t now') c2 = (c3, Ok v) ->
     t = s /\ v = RSubmitted (Existing id) /\ durable c3 = durable c2)
  /\ (connected c2 = true -> plan c2 = [] ->
      exists c3, exec (OpM2Submit s now') c2 = (c3, Ok (RSubmitted (Existing id)))).
Proof.
  intros Hwf Hn Hn' Ht E. pose proof (exec_Ok (OpM2Submit s now) c c1 _ Hwf Hn E) as Hs.
  pose proof (spec_wf _ _ _ _ Hwf Hs) as Hwf1.
  apply m2_submit_new in Hs as (_ & Hr & u & Hv).
  pose proof (run_trace acts c1 Hwf1 Ht) as Htr.
  pose proof (trace_wf _ _ _ Htr Hwf1) as Hwf2.
  assert (exists r, m3_messages (durable (run acts c1).1) !! id = Some r
                    /\ content r = content (m2_row s now)) as (r & Hr2 & Hcont).
  { revert Hr. apply (trace_row_ind id (fun o _ o' => forall r, o = Some r ->
      exists r', o' = Some r' /\ content r' = content r)) with (h := (run acts c1).2); try done;
      [eauto|]. intros op v h o1 o2 o3 Hch IH r ->.
    apply row_change_content in Hch as (r1 & -> & Hc1).
    destruct (IH r1 eq_refl) as (r2 & -> & Hc2). exists r2. split; [done|congruence]. }
  cbv zeta. set (c2 := (run acts c1).1) in *.
  assert (find_by_key (m2_idempotency_key s) (durable c2) = Some (id, r)) as Hf.
  { apply find_by_key_Some; [apply (wf_keys _ Hwf2)|]. split; [done|]. by injection Hcont. }
  split.
  - intros t c3 v Hkt E3. apply exec_Ok in E3; [|done|done]. cbn [spec] in E3.
    destruct (validate_m2_submission t); [|done].
    apply answer_Ok in E3 as (x & E3 & ->). unfold spec_admit in E3.
    rewrite Hkt, Hf in E3. destruct (m2_same t r) eqn:Hsame; [|done].
    injection E3 as <- <-. apply (m2_same_row s now t r Hcont Hkt) in Hsame. done.
  - intros Hc Hp. destruct (steady_exec (OpM2Submit s now') c2 (durable c2)
      (RSubmitted (Existing id)) Hwf2 Hn' Hc Hp) as (c3 & E3 & _); [|eauto].
    cbn [spec]. rewrite Hv. unfold spec_admit. rewrite Hf.
    by rewrite (proj2 (m2_same_row s now s r Hcont eq_refl)).
Qed.

(** A claim hands over the oldest due message (ties by identity) with its
    stored content, after durably marking it as being sent; it answers that there
    is none only when no message is due. *)
Theorem m2_claim_due_exact now c c' d :
  wf (durable c) -> is_i64 now = true -> exec (OpClaim now) c = (c', Ok (RClaimed d)) ->
  match d with
  | None => durable c' = durable c
            /\ forall id r, m3_messages (durable c) !! id = Some r -> is_due now r = false
  | Some d =>
    exists r, m3_messages (durable c) !! d_message_id d = Some r
      /\ is_due now r = true /\ d = delivery_of (d_message_id d) r
      /\ m3_messages (durable c') !! d_message_id d
         = Some (set_status r Sending (d_attempt d) None None None now)
      /\ 1 <= d_attempt d <= 5
      /\ forall id r', m3_messages (durable c) !! id = Some r' -> is_due now r' = true ->
         claim_before (d_message_id d, r) (id, r') = true
  end.
Proof.
  intros Hwf Hn E. apply exec_Ok in E; [|done|done]. cbn [spec] in E.
  apply answer_Ok in E as (x & E & [= ->]). unfold spec_claim in E.
  pose proof (due_candidate_spec now (durable c)) as Hd.
  destruct (due_candidate now (durable c)) as [[id r]|]; [|injection E as <- <-; done].
  destruct Hd as (Hm & Hdue & Hmin). destruct (Z.ltb_spec (attempts r) 5); [|done].
  injection E as <- <-. cbn [d_message_id d_attempt delivery_of]. exists r.
  pose proof (row_ok_columns id r (wf_rows _ Hwf id r Hm)) as [Hatt _].
  split_and!; try done; try lia. rewrite lookup_put. by rewrite bool_decide_true.
Qed.

(** Recovery after a crash leaves no message being sent: each one becomes
    ambiguous, for an operator to decide, none is retried, and no other row
    changes. *)
Theorem m2_recover_interrupted_exact now c c' n :
  wf (durable c) -> is_i64 now = true -> exec (OpRecover now) c = (c', Ok (RCount n)) ->
  n = state_count Sending (durable c)
  /\ (forall id r, m3_messages (durable c') !! id = Some r -> state r <> Sending)
  /\ forall id r, m3_messages (durable c) !! id = Some r ->
     m3_messages (durable c') !! id =
     Some (if bool_decide (state r = Sending)
           then set_status r AmbiguousState (attempts r) None None (Some INTERRUPTED) now
           else r).
Proof.
  intros Hwf Hn E. apply exec_Ok in E; [|done|done]. cbn [spec] in E. injection E as <- ->.
  unfold spec_recover. cbn [m3_messages set_messages]. split_and!; [done| |].
  - intros id r. rewrite lookup_fmap. destruct (m3_messages (durable c) !! id); [|done].
    intros [= <-]. by case_bool_decide.
  - intros id r Hr. by rewrite lookup_fmap, Hr.
Qed.

(** A queued row whose attempts are used up stays as it is, whatever is called. *)
Lemma stalled_row_change op v id q o :
  state q = Queued -> attempts q = 5 -> row_change op v id (Some q) o -> o = Some q.
Proof.
  intros Hs Ha Hch. inversion Hch as [| |? ? ? ? ? Hlt|? ? ? ? ? Hst|? ? ? ? ? ? Hst]; subst; [done|lia|congruence|].
  destruct Hst as [(? & _)|(? & _)]; congruence.
Qed.

Lemma stalled_run acts c id q :
  wf (durable c) -> forallb typed_action acts = true ->
  m3_messages (durable c) !! id = Some q -> state q = Queued -> attempts q = 5 ->
  m3_messages (durable (run acts c).1) !! id = Some q.
Proof.
  intros Hwf Ht Hq Hs Ha. pose proof (run_trace acts c Hwf Ht) as Htr. revert Hq.
  apply (trace_row_ind id (fun o _ o' => o = Some q -> o' = Some q)) with (h := (run acts c).2); [done| |done|done].
  intros op v h0 o1 o2 o3 Hch IH ->. apply IH. by eapply stalled_row_change.
Qed.

(** C25: an operator's requeue of a failed message whose five attempts are used up is
    accepted, and the message is then in the way of the dispatcher for good: whatever is
    called, fails or is reopened afterwards its row stays queued with five attempts, and
    from then on no claim hands it over, none answers that nothing is due, and none hands
    over a message that was created after it; a claim that no older due message comes
    before fails and changes nothing. *)
Theorem m6_requeue_exhausted_stalls id now c r :
  wf (durable c) -> is_i64 now = true -> connected c = true -> plan c = [] ->
  valid_message_id id = true -> m3_messages (durable c) !! id = Some r ->
  state r = Failed -> attempts r = 5 ->
  let q := set_status r Queued 5 (Some now) None None now in
  exists c1, exec (OpRequeue id now) c = (c1, Ok (RRequeued (Some true)))
  /\ forall acts, forallb typed_action acts = true ->
     let db := durable (run acts c1).1 in
     m3_messages db !! id = Some q
     /\ forall t c3 v, is_i64 t = true -> now <= t -> exec (OpClaim t) (run acts c1).1 = (c3, v) ->
        match v with
        | Ok (RClaimed (Some d)) =>
          d_message_id d <> id
          /\ exists r', m3_messages db !! d_message_id d = Some r'
               /\ claim_before (d_message_id d, r') (id, q) = true
        | Ok _ => False
        | Err _ => durable c3 = db
        end
        /\ ((forall id' r', m3_messages db !! id' = Some r' -> is_due t r' = true ->
              claim_before (id', r') (id, q) = true -> id' = id) ->
            is_ok v = false).
Proof.
  intros Hwf Hn Hc Hp Hv Hr Hs Ha q.
  destruct (steady_exec (OpRequeue id now) c (put id q (durable c)) (RRequeued (Some true)) Hwf Hn Hc Hp)
    as (c1 & E1 & Hd1).
  { cbn [spec]. unfold spec_requeue. rewrite Hv, Hr, Hs, Ha. reflexivity. }
  exists c1. split; [done|]. intros acts Hacts db.
  assert (wf (durable c1)) as Hwf1 by (eapply spec_wf; [exact Hwf|by eapply (exec_Ok (OpRequeue id now))]).
  assert (m3_messages db !! id = Some q) as Hq.
  { apply stalled_run; try done. rewrite Hd1, lookup_put. by rewrite bool_decide_true. }
  assert (wf db) as Hwf2 by (by eapply trace_wf; [apply run_trace|]).
  split; [done|]. intros t c3 v Ht Hle E. pose proof (due_candidate_spec t db) as Hdue.
  assert (is_due t q = true) as Hqd by (cbn; by apply Z.leb_le).
  destruct v as [v|e]; [|split; [by eapply exec_Err|done]].
  pose proof (exec_Ok (OpClaim t) _ _ _ Hwf2 Ht E) as Hspec. cbn [spec] in Hspec.
  apply answer_Ok in Hspec as (x & Hspec & [= ->]). unfold spec_claim in Hspec. fold db in Hspec.
  destruct (due_candidate t db) as [[id' r']|]; [|by rewrite (Hdue id q Hq) in Hqd].
  destruct Hdue as (Hm & Hd & Hmin). destruct (Z.ltb_spec (attempts r') 5) as [Hlt|]; [|done].
  injection Hspec as _ <-. cbn [d_message_id delivery_of].
  assert (id' <> id) as Hne by (intros ->; rewrite Hq in Hm; injection Hm as <-; cbn in Hlt; lia).
  split; [split; [done|]; exists r'; split; [done|by apply Hmin]|].
  intros Hfirst. destruct Hne. by apply (Hfirst id' r'); [..|apply Hmin].
Qed.

(** ** Witnesses *)

Lemma m2_message_id_injective_witness :
  sample_submission = sample_submission
  \/ (hashed sample_submission <> hashed sample_submission
      /\ sha256 (hashed sample_submission) = sha256 (hashed sample_submission)).
Proof.
  apply (m2_message_id_injective sample_submission sample_submission tt tt);
    [vm_compute; reflexivity..].
Defined.

Lemma m2_submit_accepts_witness :
  exists c', exec (OpM2Submit sample_submission 1000) (live empty_db)
             = (c', Ok (RSubmitted (New sample_id)))
    /\ durable c' = put sample_id (m2_row sample_submission 1000) empty_db.
Proof.
  apply (m2_submit_accepts sample_submission 1000 tt (live empty_db));
    [exact wf_empty|reflexivity|reflexivity|vm_compute; reflexivity..].
Defined.

Lemma m2_submit_idempotent_witness :
  exists c3, exec (OpM2Submit sample_submission 9000)
    (run [Call (OpClaim 2000)] (exec (OpM2Submit sample_submission 1000) (live empty_db)).1).1
    = (c3, Ok (RSubmitted (Existing sample_id))).
Proof.
  apply (m2_submit_idempotent sample_submission 1000 (live empty_db)
    (exec (OpM2Submit sample_submission 1000) (live empty_db)).1 sample_id
    [Call (OpClaim 2000)] 9000); [exact wf_empty|vm_compute; reflexivity..].
Defined.

Lemma m2_claim_due_exact_witness :
  exists r, m3_messages (durable (run [Call (OpM2Submit sample_submission 1000)]
                                   (live empty_db)).1) !! sample_id = Some r
            /\ is_due 1000 r = true.
Proof.
  pose proof (m2_claim_due_exact 1000
    (run [Call (OpM2Submit sample_submission 1000)] (live empty_db)).1 claimed_conn
    (Some (delivery_of sample_id (m2_row sample_submission 1000)))
    (wf_after [Call (OpM2Submit sample_submission 1000)] eq_refl) eq_refl
    ltac:(vm_compute; reflexivity)) as (r & Hr & Hd & _).
  exists r. split; [exact Hr|exact Hd].
Defined.

Lemma m2_recover_interrupted_exact_witness :
  m3_messages (durable (exec (OpRecover 5000) claimed_conn).1) !! sample_id
  = Some (set_status claimed_row AmbiguousState 1 None None (Some INTERRUPTED) 5000).
Proof.
  apply (proj2 (proj2 (m2_recover_interrupted_exact 5000 claimed_conn
    (exec (OpRecover 5000) claimed_conn).1 1
    (wf_after [Call (OpM2Submit sample_submission 1000); Call (OpClaim 1000)] eq_refl)
    eq_refl ltac:(vm_compute; reflexivity))) sample_id claimed_row).
  vm_compute. reflexivity.
Defined.

(** Five attempts, each timing out: the fifth makes the message fail. *)
Definition exhausting_acts : list Action :=
  Call (OpM2Submit sample_submission 1000) ::
  flat_map (fun t => [Call (OpClaim t); Call (OpRetry sample_id "timeout" 1000 t)])
    [2000; 4000; 6000; 8000; 10000].

Definition exhausted_conn : Conn := (run exhausting_acts (live empty_db)).1.

Definition exhausted_row : Row :=
  set_status (m2_row sample_submission 1000) Failed 5 None None (Some "timeout"%string) 10000.

Lemma requeued_rows :
  m3_messages (durable (exec (OpRequeue sample_id 20000) exhausted_conn).1)
  = {[ sample_id := set_status exhausted_row Queued 5 (Some 20000) None None 20000 ]}.
Proof. vm_compute. reflexivity. Qed.

Lemma m6_requeue_exhausted_stalls_witness :
  exists c1, exec (OpRequeue sample_id 20000) exhausted_conn = (c1, Ok (RRequeued (Some true)))
    /\ m3_messages (durable (run [Call (OpRecover 30000); Reopen []] c1).1) !! sample_id
       = Some (set_status exhausted_row Queued 5 (Some 20000) None None 20000)
    /\ is_ok (exec (OpClaim 40000) c1).2 = false.
Proof.
  destruct (m6_requeue_exhausted_stalls sample_id 20000 exhausted_conn exhausted_row
    (wf_after exhausting_acts eq_refl) eq_refl ltac:(vm_compute; reflexivity) ltac:(vm_compute; reflexivity)
    ltac:(vm_compute; reflexivity) ltac:(vm_compute; reflexivity) eq_refl eq_refl) as (c1 & E & Hall).
  exists c1. split; [exact E|]. split; [exact (proj1 (Hall [Call (OpRecover 30000); Reopen []] eq_refl))|].
  destruct (Hall [] eq_refl) as [Hq Ht]. destruct (exec (OpClaim 40000) c1) as [c3 v] eqn:Ec.
  apply (Ht 40000 c3 v eq_refl ltac:(lia) Ec). intros id' r' Hr _ _.
  cbn [run fst] in Hr. replace c1 with (exec (OpRequeue sample_id 20000) exhausted_conn).1 in Hr by (rewrite E; reflexivity).
  rewrite requeued_rows in Hr. destruct (decide (id' = sample_id)) as [He|Hne]; [exact He|].
  rewrite lookup_singleton_ne in Hr; [discriminate|congruence].
Defined.
