(* ===== verification/Service.v ===== *)
(** * The service ([crates/msgriver/src/main.rs])

    The daemon's handlers and its loop, composed over the store, the request
    readers and the drivers as the source composes them. A [World] is the process
    and its surroundings: the store connection, what the clock, the network and
    the peers will answer, how many effects remain before the process is killed,
    and the log of what the outside can tell: store calls answered, provider
    attempts, responses written. *)

From S2P Require Import Prelude Bytes Text Sha256 Json Http Store StoreSpec Connectors.

#[local] Open Scope Z_scope.

(** ** Configuration *)

Record InboundConfig : Type := mkInboundConfig {
  app_secret : bytes;
  verify_token : bytes;
  policy : list (bytes * bytes);
  inbound_ntfy_topic : bytes;
  waba_id : bytes;
  inbound_phone_id : bytes
}.

Record WhatsappConfig : Type := mkWhatsappConfig {
  wa_driver : Driver;
  wa_template : bytes;
  wa_locale : bytes;
  wa_parameter_count : Z
}.

(** The paths and the listener address, used once at start, are left out. *)
Record ServiceConfig : Type := mkServiceConfig {
  ntfy_url : bytes;
  ntfy_topic : bytes;
  whatsapp : option WhatsappConfig;
  inbound : option InboundConfig
}.

(** ** Requests *)

Record IncomingMessage : Type := mkIncomingMessage {
  in_idempotency_key : bytes;
  in_body : bytes;
  in_title : option bytes
}.

Record IncomingWhatsappMessage : Type := mkIncomingWhatsappMessage {
  wa_idempotency_key : bytes;
  wa_recipient : bytes;
  wa_request_template : bytes;
  wa_request_locale : bytes;
  wa_parameters : list bytes
}.

Inductive IncomingRequest : Type :=
| IncomingNtfy (m : IncomingMessage)
| IncomingWhatsapp (m : IncomingWhatsappMessage)
| InboundControl (enabled : bool)
| IncomingStatus
| IncomingMessageStatus (message_id : bytes)
| IncomingMessageRetry (message_id : bytes).

Definition parse_ntfy_request (object : list (bytes * Json)) : option IncomingMessage :=
  if negb (Z.of_nat (length object) =? 3) || negb (contains_key object (as_bytes "title"))
  then None
  else
    key ← field object (as_bytes "idempotency_key") ≫= as_str;
    body ← field object (as_bytes "body") ≫= as_str;
    title ← field object (as_bytes "title");
    title ← match title with
            | JNull => Some None
            | value => text ← as_str value; Some (Some text)
            end;
    Some (mkIncomingMessage key body title).

Definition string_items (v : Json) : option (list bytes) :=
  items ← as_array v; collect (map as_str items).

Definition parse_whatsapp_request (object : list (bytes * Json))
    : option IncomingWhatsappMessage :=
  if negb (Z.of_nat (length object) =? 5)
     || negb (forallb (fun key => contains_key object (as_bytes key))
                ["idempotency_key"; "to"; "template"; "locale"; "params"]%string)
  then None
  else
    parameters ← field object (as_bytes "params") ≫= string_items;
    key ← field object (as_bytes "idempotency_key") ≫= as_str;
    recipient ← field object (as_bytes "to") ≫= as_str;
    template ← field object (as_bytes "template") ≫= as_str;
    locale ← field object (as_bytes "locale") ≫= as_str;
    Some (mkIncomingWhatsappMessage key recipient template locale parameters).

(** From the route on in [read_request]; the body is as long as its declared length. *)
Definition incoming_request `{Serde} (route : LocalRoute) (body : bytes)
    : option IncomingRequest :=
  let control (r : IncomingRequest) := if bool_decide (body = []) then Some r else None in
  match route with
  | RouteInboundEnable => control (InboundControl true)
  | RouteInboundDisable => control (InboundControl false)
  | RouteStatus => control IncomingStatus
  | RouteMessageStatus message_id => control (IncomingMessageStatus message_id)
  | RouteMessageRetry message_id => control (IncomingMessageRetry message_id)
  | RouteNtfy =>
    value ← from_slice body; object ← as_object value;
    IncomingNtfy <$> parse_ntfy_request object
  | RouteWhatsapp =>
    value ← from_slice body; object ← as_object value;
    IncomingWhatsapp <$> parse_whatsapp_request object
  end.

Definition read_request `{Serde} (reads : Reads) : result string (option IncomingRequest) :=
  framed ← read_framed [] reads;
  Ok ('(route, body) ← framed; incoming_request route body).

(** ** The canonical WhatsApp payload *)

Record CanonicalWhatsappPayload : Type := mkCanonical {
  c_template : bytes;
  c_locale : bytes;
  c_parameters : list bytes
}.

(** The value [json!] builds; the keys in order. *)
Definition payload_json (c : CanonicalWhatsappPayload) : Json :=
  JObject [(as_bytes "locale", JString (c_locale c));
           (as_bytes "params", JArray (map JString (c_parameters c)));
           (as_bytes "template", JString (c_template c))].

Definition canonical_whatsapp_payload `{Serde} (request : IncomingWhatsappMessage)
    : result string bytes :=
  ok_or (to_vec (payload_json (mkCanonical (wa_request_template request)
                                 (wa_request_locale request) (wa_parameters request))))
    "payload encoding failed"%string.

Definition parse_canonical_whatsapp_payload `{Serde} (payload : bytes)
    : option CanonicalWhatsappPayload :=
  value ← from_slice payload;
  object ← as_object value;
  if negb (Z.of_nat (length object) =? 3)
     || negb (forallb (fun key => contains_key object (as_bytes key))
                ["template"; "locale"; "params"]%string)
  then None
  else
    parameters ← field object (as_bytes "params") ≫= string_items;
    template ← field object (as_bytes "template") ≫= as_str;
    locale ← field object (as_bytes "locale") ≫= as_str;
    reconstructed ← to_vec (payload_json (mkCanonical template locale parameters));
    if bool_decide (reconstructed = payload)
    then Some (mkCanonical template locale parameters) else None.

(** ** The process and its surroundings *)

Inductive Event : Type :=
| Answered (op : Op) (v : Resp)
| Attempted (message_id : string) (a : Attempt)
| Responded (status : Z) (body wire : bytes).

Record World : Type := mkWorld {
  store : Conn;
  clock : list (option Z);     (* milliseconds since the epoch; [None] is before it *)
  networks : list Network;
  writes : list bool;          (* whether writing a response fails *)
  life : nat;                  (* effects left before the process is killed *)
  log : list Event
}.

(** How a computation of the process ends: a panic and a kill both end it. *)
Inductive Ending (A : Type) : Type :=
| Done (a : A)
| Failure (message : string)
| Dead.
Arguments Done {A} a.
Arguments Failure {A} message.
Arguments Dead {A}.

Definition Proc (A : Type) : Type := World -> World * Ending A.

#[export] Instance Proc_ret : MRet Proc := fun A a w => (w, Done a).
#[export] Instance Proc_bind : MBind Proc := fun A B f m w =>
  match m w with
  | (w', Done a) => f a w'
  | (w', Failure message) => (w', Failure message)
  | (w', Dead) => (w', Dead)
  end.

(** [map_err(|_| message)?] and [map_err(...)] of a pure result. *)
Definition expect {E A : Type} (message : string) (r : result E A) : Proc A := fun w =>
  match r with Ok a => (w, Done a) | Err _ => (w, Failure message) end.
Definition propagate {A : Type} (r : result string A) : Proc A := fun w =>
  match r with Ok a => (w, Done a) | Err message => (w, Failure message) end.

(** [.ok()] of a computation. *)
Definition attempt {A : Type} (m : Proc A) : Proc (option A) := fun w =>
  match m w with
  | (w', Done a) => (w', Done (Some a))
  | (w', Failure _) => (w', Done None)
  | (w', Dead) => (w', Dead)
  end.

(** Every effect starts here: a killed process performs none. *)
Definition effect {A : Type} (f : World -> World * Ending A) : Proc A := fun w =>
  match life w with
  | O => (w, Dead)
  | S n => f (mkWorld (store w) (clock w) (networks w) (writes w) n (log w))
  end.

Definition now_unix_ms : Proc Z :=
  effect (fun w =>
    let w' := mkWorld (store w) (tail (clock w)) (networks w) (writes w) (life w) (log w) in
    match head (clock w) with
    | Some (Some ms) =>
      if within 0 i64_max ms then (w', Done ms) else (w', Failure "clock failed")
    | _ => (w', Failure "clock failed")
    end).

(** A call of the store: [m] is the operation [op], answering through [wrap]. *)
Definition store_call {A : Type} (op : Op) (m : M A) (wrap : A -> Resp)
    : Proc (result StoreError A) :=
  effect (fun w =>
    let '(c, r) := m (store w) in
    let entry := match r with Ok a => [Answered op (wrap a)] | Err _ => [] end in
    (mkWorld c (clock w) (networks w) (writes w) (life w) (log w ++ entry), Done r)).

Definition call_m2_submit (s : M2Submission) (now : Z) : Proc (result StoreError M2Accepted) :=
  store_call (OpM2Submit s now) (m2_submit s now) RSubmitted.
Definition call_m3_submit (s : M3Submission) (now : Z) : Proc (result StoreError M2Accepted) :=
  store_call (OpM3Submit s now) (m3_submit s now) RSubmitted.
Definition call_set_inbound (b : bool) : Proc (result StoreError unit) :=
  store_call (OpSetInbound b) (m4_set_inbound_enabled b) (fun _ => RDone).
Definition call_inbound (s : M4InboundSubmission) (now : Z)
    : Proc (result StoreError M4InboundDisposition) :=
  store_call (OpInbound s now) (m4_submit_inbound s now) RInbound.
Definition call_claim (now : Z) : Proc (result StoreError (option M2Delivery)) :=
  store_call (OpClaim now) (m2_claim_due now) RClaimed.
Definition call_accept (id ack : string) (now : Z) : Proc (result StoreError unit) :=
  store_call (OpAccept id ack now) (m2_mark_accepted id ack now) (fun _ => RDone).
Definition call_fail (id reason : string) (now : Z) : Proc (result StoreError unit) :=
  store_call (OpFail id reason now) (m2_mark_failed id reason now) (fun _ => RDone).
Definition call_ambiguous (id reason : string) (now : Z) : Proc (result StoreError unit) :=
  store_call (OpAmbiguous id reason now) (m2_mark_ambiguous id reason now) (fun _ => RDone).
Definition call_retry (id reason : string) (delay now : Z) : Proc (result StoreError unit) :=
  store_call (OpRetry id reason delay now) (m2_mark_retry id reason delay now) (fun _ => RDone).
Definition call_recover (now : Z) : Proc (result StoreError Z) :=
  store_call (OpRecover now) (m2_recover_interrupted now) RCount.
Definition call_requeue (id : string) (now : Z) : Proc (result StoreError (option bool)) :=
  store_call (OpRequeue id now) (m6_requeue_failed id now) RRequeued.
Definition call_status (id : string) : Proc (result StoreError (option M6MessageStatus)) :=
  store_call (OpStatus id) (m6_message_status id) RStatus.
Definition call_summary : Proc (result StoreError M6QueueSummary) :=
  store_call OpSummary m6_queue_summary RSummary.

(** One provider attempt on behalf of message [message_id]. *)
Definition attempt_delivery `{Serde} (message_id : string) (driver : Driver)
    (delivery : Delivery) : Proc (result DriverError DeliveryOutcome) :=
  effect (fun w =>
    let a := deliver driver delivery (default NoConnection (head (networks w))) in
    let w' := mkWorld (store w) (clock w) (tail (networks w)) (writes w) (life w)
                (log w ++ [Attempted message_id a]) in
    match exit a with
    | Returned r => (w', Done r)
    | Panicked => (w', Dead)
    end).

(** An attempt refused before any driver is asked. *)
Definition no_delivery (message_id : string) : Proc (result DriverError DeliveryOutcome) :=
  effect (fun w =>
    (mkWorld (store w) (clock w) (networks w) (writes w) (life w)
       (log w ++ [Attempted message_id (mkAttempt None None (Returned (Err InvalidDelivery)))]),
     Done (Err InvalidDelivery))).

(** ** Responses *)

Definition quoted (s : bytes) : bytes := [34] ++ s ++ [34].

Definition json_bool (b : bool) : bytes := if b then as_bytes "true" else as_bytes "false".

Definition json_members (members : list (bytes * bytes)) : bytes :=
  [123]
  ++ match members with
     | [] => []
     | (k, v) :: rest =>
       quoted k ++ [58] ++ v ++ flat_map (fun '(k, v) => [44] ++ quoted k ++ [58] ++ v) rest
     end
  ++ [125].

Definition json_result (message_id : bytes) (deduplicated : bool) : bytes :=
  json_members [(as_bytes "message_id", quoted message_id);
                (as_bytes "deduplicated", json_bool deduplicated)].

Definition json_queue_summary (s : M6QueueSummary) : bytes :=
  json_members [(as_bytes "counts", json_members [
    (as_bytes "queued", decimal (queued s));
    (as_bytes "retry_scheduled", decimal (retry_scheduled s));
    (as_bytes "sending", decimal (sending s));
    (as_bytes "provider_accepted", decimal (provider_accepted s));
    (as_bytes "failed", decimal (failed s));
    (as_bytes "ambiguous", decimal (ambiguous s))])].

Definition json_message_status (message_id : bytes) (status : M6MessageStatus) : bytes :=
  let recovery :=
    if bool_decide (status_state status = "failed"%string)
    then as_bytes "retry_after_configuration_check"
    else if bool_decide (status_state status = "ambiguous"%string)
    then as_bytes "manual_resolution_required"
    else as_bytes "none" in
  json_members [(as_bytes "message_id", quoted message_id);
                (as_bytes "state", quoted (as_bytes (status_state status)));
                (as_bytes "attempts", decimal (status_attempts status));
                (as_bytes "recovery", quoted recovery)].

Definition json_retry (message_id : bytes) (requeued : bool) : bytes :=
  json_members [(as_bytes "message_id", quoted message_id);
                (as_bytes "requeued", json_bool requeued)].

Definition json_error (text : string) : bytes :=
  json_members [(as_bytes "error", quoted (as_bytes text))].

Definition json_enabled (enabled : bool) : bytes :=
  json_members [(as_bytes "enabled", json_bool enabled)].

(** [write_all] and [flush] of a response. *)
Definition write_wire (status : Z) (body wire : bytes) (message : string) : Proc unit :=
  effect (fun w =>
    let w' := mkWorld (store w) (clock w) (networks w) (tail (writes w)) (life w)
                (log w ++ [Responded status body wire]) in
    if default false (head (writes w)) then (w', Failure message) else (w', Done tt)).

Definition response_wire (status : Z) (body : bytes) : bytes :=
  let reason :=
    if status =? 200 then "OK" else if status =? 202 then "Accepted"
    else if status =? 400 then "Bad Request" else if status =? 404 then "Not Found"
    else if status =? 409 then "Conflict" else "Error" in
  as_bytes "HTTP/1.1 " ++ decimal status ++ [32] ++ as_bytes reason ++ CRLF
  ++ as_bytes "Content-Type: application/json" ++ CRLF
  ++ as_bytes "Content-Length: " ++ decimal (len body) ++ CRLF
  ++ as_bytes "Connection: close" ++ CRLF ++ CRLF ++ body.

Definition write_response (status : Z) (body : bytes) : Proc unit :=
  write_wire status body (response_wire status body) "socket write failed".

Definition write_tcp_response (status : Z) (body : bytes) : Proc unit :=
  let reason :=
    if status =? 200 then "OK" else if status =? 400 then "Bad Request"
    else if status =? 401 then "Unauthorized" else if status =? 404 then "Not Found"
    else "Error" in
  write_wire status body
    (as_bytes "HTTP/1.1 " ++ decimal status ++ [32] ++ as_bytes reason ++ CRLF
     ++ as_bytes "Content-Length: " ++ decimal (len body) ++ CRLF
     ++ as_bytes "Connection: close" ++ CRLF ++ CRLF ++ body)
    "webhook write failed".

(** ** Handlers *)

(** The answer to an admission, at the end of [handle_request]. *)
Definition respond_accepted (accepted : result StoreError M2Accepted) : Proc unit :=
  match accepted with
  | Ok (New message_id) => write_response 202 (json_result (as_bytes message_id) false)
  | Ok (Existing message_id) => write_response 200 (json_result (as_bytes message_id) true)
  | Err _ => write_response 409 (json_error "request refused")
  end.

Definition handle_ntfy (config : ServiceConfig) (m : IncomingMessage) : Proc unit :=
  now ← now_unix_ms;
  accepted ← call_m2_submit
    (mkM2Submission (of_bytes (in_idempotency_key m)) (of_bytes (ntfy_topic config))
       (of_bytes <$> in_title m) (of_bytes (in_body m))) now;
  respond_accepted accepted.

Definition handle_whatsapp `{Serde} (config : ServiceConfig) (m : IncomingWhatsappMessage)
    : Proc unit :=
  match whatsapp config with
  | None => write_response 404 (json_error "not found")
  | Some whatsapp =>
    if negb (is_ok (Whatsapp.request_body
         (Whatsapp.mkTemplateRegistration (wa_template whatsapp) (wa_locale whatsapp)
            (wa_parameter_count whatsapp))
         (Whatsapp.mkWhatsappMessage (wa_recipient m) (wa_request_template m)
            (wa_request_locale m) (wa_parameters m))))
    then write_response 400 (json_error "invalid request")
    else
      payload ← propagate (canonical_whatsapp_payload m);
      now ← now_unix_ms;
      accepted ← call_m3_submit
        (mkM3Submission (of_bytes (wa_idempotency_key m)) "whatsapp"
           (of_bytes (wa_recipient m)) (of_bytes payload)) now;
      respond_accepted accepted
  end.

Definition handle_inbound_control (config : ServiceConfig) (enabled : bool) : Proc unit :=
  match inbound config with
  | None => write_response 404 (json_error "not found")
  | Some _ =>
    done ← call_set_inbound enabled;
    match done with
    | Ok _ => write_response 200 (json_enabled enabled)
    | Err _ => write_response 409 (json_error "request refused")
    end
  end.

Definition handle_status : Proc unit :=
  summary ← call_summary;
  match summary with
  | Ok summary => write_response 200 (json_queue_summary summary)
  | Err _ => write_response 409 (json_error "request refused")
  end.

Definition handle_message_status (message_id : bytes) : Proc unit :=
  status ← call_status (of_bytes message_id);
  match status with
  | Ok (Some status) => write_response 200 (json_message_status message_id status)
  | Ok None => write_response 404 (json_error "not found")
  | Err _ => write_response 409 (json_error "request refused")
  end.

Definition handle_message_retry (message_id : bytes) : Proc unit :=
  now ← now_unix_ms;
  requeued ← call_requeue (of_bytes message_id) now;
  match requeued with
  | Ok (Some true) => write_response 202 (json_retry message_id true)
  | Ok (Some false) => write_response 409 (json_retry message_id false)
  | Ok None => write_response 404 (json_error "not found")
  | Err _ => write_response 409 (json_error "request refused")
  end.

Definition handle_request `{Serde} (config : ServiceConfig) (stream : Reads) : Proc unit :=
  request ← propagate (read_request stream);
  match request with
  | Some (IncomingNtfy m) => handle_ntfy config m
  | Some (IncomingWhatsapp m) => handle_whatsapp config m
  | Some (InboundControl enabled) => handle_inbound_control config enabled
  | Some IncomingStatus => handle_status
  | Some (IncomingMessageStatus message_id) => handle_message_status message_id
  | Some (IncomingMessageRetry message_id) => handle_message_retry message_id
  | None => write_response 400 (json_error "invalid request")
  end.

(** ** Inbound callbacks *)

Definition valid_identifier (value : bytes) (maximum : Z) : bool :=
  negb (bool_decide (value = [])) && (len value <=? maximum)
  && forallb (fun b => is_ascii_alphanumeric b || (b =? 45) || (b =? 95) || (b =? 46)) value.

Definition text_is (o : option Json) (expected : bytes) : bool :=
  bool_decide (o ≫= as_str = Some expected).

(** The only element of an array, under a key. *)
Definition only_item (v : Json) (key : string) : option Json :=
  items ← get v key ≫= as_array;
  match items with [item] => Some item | _ => None end.

(** The fields [parse_callback] reads before the clock: sender, message id, verb
    and timestamp of the one message of the one change of the one entry. *)
Definition callback_fields `{Serde} (body : bytes) (config : InboundConfig)
    : option (bytes * bytes * bytes * Z) :=
  value ← from_slice body;
  entry ← only_item value "entry";
  if negb (text_is (get entry "id") (waba_id config)) then None
  else
    change ← only_item entry "changes";
    if negb (text_is (get change "field") (as_bytes "messages")) then None
    else
      item ← get change "value";
      metadata ← get item "metadata";
      if negb (text_is (get metadata "phone_number_id") (inbound_phone_id config)) then None
      else
        message ← only_item item "messages";
        sender ← get message "from" ≫= as_str;
        message_id ← get message "id" ≫= as_str;
        text ← get message "text";
        verb ← get text "body" ≫= as_str;
        timestamp ← (get message "timestamp" ≫= as_str) ≫= parse_i64;
        Some (sender, message_id, verb, timestamp).

Definition callback_ok (now_ms : Z) (f : bytes * bytes * bytes * Z) : bool :=
  let '(sender, message_id, verb, timestamp) := f in
  (Z.abs (Z.quot now_ms 1000 - timestamp) <=? 600)
  && within 7 20 (len sender) && forallb is_ascii_digit sender
  && valid_identifier message_id 120
  && (bool_decide (verb = as_bytes "notify") || bool_decide (verb = as_bytes "status")).

Definition parse_callback `{Serde} (body : bytes) (config : InboundConfig)
    : Proc (option (bytes * bytes * bytes)) :=
  match callback_fields body config with
  | None => mret None
  | Some f =>
    now ← attempt now_unix_ms;
    match now with
    | None => mret None
    | Some now =>
      let '(sender, message_id, verb, _) := f in
      mret (if callback_ok now f then Some (sender, message_id, verb) else None)
    end
  end.

(** Driver, destination and payload of an accepted command; [None] answers 200. *)
Definition inbound_delivery `{Serde} (config : ServiceConfig) (inbound : InboundConfig)
    (sender verb : bytes) : result string (option (string * bytes * bytes)) :=
  if bool_decide (verb = as_bytes "notify") then
    Ok (Some ("ntfy"%string, inbound_ntfy_topic inbound,
              as_bytes "WhatsApp notify request accepted"))
  else
    match whatsapp config with
    | None => Ok None
    | Some whatsapp =>
      payload ← canonical_whatsapp_payload
        (mkIncomingWhatsappMessage (as_bytes "m4-status") sender (wa_template whatsapp)
           (wa_locale whatsapp) [as_bytes "ready"]);
      Ok (Some ("whatsapp"%string, 43 :: sender, payload))
    end.

(** From the verified callback on. *)
Definition handle_callback `{Serde} (config : ServiceConfig) (inbound : InboundConfig)
    (body : bytes) : Proc unit :=
  command ← parse_callback body inbound;
  match command with
  | None => write_tcp_response 200 []
  | Some (sender, message_id, verb) =>
    if negb (bool_decide ((sender, verb) ∈ policy inbound)) then write_tcp_response 200 []
    else
      delivery ← propagate (inbound_delivery config inbound sender verb);
      match delivery with
      | None => write_tcp_response 200 []
      | Some (driver, destination, payload) =>
        now ← now_unix_ms;
        disposition ← call_inbound
          (mkM4InboundSubmission (of_bytes message_id) (of_bytes sender) (of_bytes verb)
             driver (of_bytes destination) (of_bytes payload)) now;
        expect "inbound store failed" disposition ;;
        write_tcp_response 200 []
      end
  end.

Definition read_webhook (stream : Reads) : Proc (option (bytes * bytes)) := fun w =>
  match read_http_request [] stream with
  | Ok request => (w, Done request)
  | Err (Refused message) => (w, Failure message)
  | Err Panic => (w, Dead)
  end.

Definition webhook_query (request_line : bytes) : option bytes :=
  rest ← strip_prefix WEBHOOK_GET request_line; strip_suffix (as_bytes " HTTP/1.1") rest.

Definition handle_inbound_request `{Serde} `{HmacSha256} (config : ServiceConfig)
    (stream : Reads) : Proc unit :=
  match inbound config with
  | None => mret tt
  | Some inbound =>
    request ← read_webhook stream;
    match request with
    | None => write_tcp_response 400 []
    | Some (head, body) =>
      let request_line := default [] (hd_error (split_crlf head)) in
      if starts_with WEBHOOK_GET request_line then
        query ← propagate (ok_or (webhook_query request_line) "webhook request failed"%string);
        let '(status, challenge) := handle_subscription query (verify_token inbound) in
        write_tcp_response status challenge
      else if negb (bool_decide (request_line = as_bytes "POST /v1/whatsapp/webhook HTTP/1.1"))
      then write_tcp_response 404 []
      else
        match header_once head (as_bytes "x-hub-signature-256") with
        | None => write_tcp_response 401 []
        | Some signature =>
          if negb (bool_decide (header_once head (as_bytes "content-type")
                                = Some (as_bytes "application/json")))
             || negb (verify_signature (app_secret inbound) body signature)
          then write_tcp_response 401 []
          else handle_callback config inbound body
        end
    end
  end.

(** ** Dispatch *)

Definition whatsapp_delivery `{Serde} (whatsapp : option WhatsappConfig) (delivery : M2Delivery)
    : Proc (result DriverError DeliveryOutcome) :=
  match whatsapp with
  | None => no_delivery (d_message_id delivery)
  | Some whatsapp =>
    match parse_canonical_whatsapp_payload (as_bytes (d_payload delivery)) with
    | None => no_delivery (d_message_id delivery)
    | Some payload =>
      attempt_delivery (d_message_id delivery) (wa_driver whatsapp)
        (DeliverWhatsapp (as_bytes (d_destination delivery)) (c_template payload)
           (c_locale payload) (c_parameters payload))
    end
  end.

Definition deliver_due `{Serde} (ntfy_driver : Driver) (whatsapp : option WhatsappConfig)
    (delivery : M2Delivery) : Proc (result DriverError DeliveryOutcome) :=
  if bool_decide (d_driver delivery = "ntfy"%string) then
    attempt_delivery (d_message_id delivery) ntfy_driver
      (DeliverNtfy (as_bytes (d_topic delivery)) (as_bytes <$> d_title delivery)
         (as_bytes (d_body delivery)))
  else if bool_decide (d_driver delivery = "whatsapp"%string)
  then whatsapp_delivery whatsapp delivery
  else no_delivery (d_message_id delivery).

Definition record_outcome (message_id : string) (outcome : result DriverError DeliveryOutcome)
    : Proc (result StoreError unit) :=
  now ← now_unix_ms;
  match outcome with
  | Ok (Connectors.Accepted acknowledgement) => call_accept message_id (of_bytes acknowledgement) now
  | Ok Connectors.RateLimited | Ok Transient =>
    call_retry message_id "ntfy temporary failure" 1000 now
  | Ok Ambiguous => call_ambiguous message_id "ntfy response uncertain" now
  | Ok Permanent | Ok AuthOrConfig => call_fail message_id "ntfy rejected request" now
  | Err _ => call_fail message_id "ntfy request invalid" now
  end.

Definition dispatch_due `{Serde} (ntfy_driver : Driver) (whatsapp : option WhatsappConfig)
    : Proc unit :=
  now ← now_unix_ms;
  claimed ← call_claim now;
  claimed ← expect "store claim failed" claimed;
  match claimed with
  | None => mret tt
  | Some delivery =>
    outcome ← deliver_due ntfy_driver whatsapp delivery;
    recorded ← record_outcome (d_message_id delivery) outcome;
    expect "store outcome failed" recorded
  end.

(** ** The loop *)

(** What the two listeners accepted before one iteration. *)
Record Arrival : Type := mkArrival {
  local_connection : option Reads;
  inbound_connection : option Reads
}.

(** [let _ = handler(...)]. *)
Definition ignore (m : Proc unit) : Proc unit := attempt m ;; mret tt.

Definition serve_iteration `{Serde} `{HmacSha256} (config : ServiceConfig) (ntfy_driver : Driver)
    (a : Arrival) : Proc unit :=
  match local_connection a with
  | Some stream => ignore (handle_request config stream)
  | None => mret tt
  end ;;
  match inbound config, inbound_connection a with
  | Some _, Some stream => ignore (handle_inbound_request config stream)
  | _, _ => mret tt
  end ;;
  dispatch_due ntfy_driver (whatsapp config).

Fixpoint serve_loop `{Serde} `{HmacSha256} (config : ServiceConfig) (ntfy_driver : Driver)
    (arrivals : list Arrival) : Proc unit :=
  match arrivals with
  | [] => mret tt
  | a :: rest =>
    serve_iteration config ntfy_driver a ;; serve_loop config ntfy_driver rest
  end.

(** [serve] over an opened and migrated store, until [arrivals] end. *)
Definition serve `{Serde} `{HmacSha256} (config : ServiceConfig) (arrivals : list Arrival)
    : Proc unit :=
  now ← now_unix_ms;
  recovered ← call_recover now;
  expect "store recovery failed" recovered ;;
  endpoint ← expect "invalid ntfy endpoint" (Ntfy.parse (ntfy_url config));
  serve_loop config (DriverNtfy endpoint) arrivals.

(** ** Lives of the service *)

(** One process: what its store engine, clock, network and peers do, when it is
    killed at the latest, and what arrives. *)
Record Boot : Type := mkBoot {
  boot_plan : list bool;
  boot_clock : list (option Z);
  boot_networks : list Network;
  boot_writes : list bool;
  boot_life : nat;
  boot_config : ServiceConfig;
  boot_arrivals : list Arrival
}.

Definition boot_world (b : Boot) (db : Db) (history : list Event) : World :=
  mkWorld (mkConn true db db (boot_plan b)) (boot_clock b) (boot_networks b) (boot_writes b)
    (boot_life b) history.

(** The durable tables and the whole history after successive processes. *)
Fixpoint lives `{Serde} `{HmacSha256} (boots : list Boot) (db : Db) (history : list Event)
    : Db * list Event :=
  match boots with
  | [] => (db, history)
  | b :: rest =>
    let w := (serve (boot_config b) (boot_arrivals b) (boot_world b db history)).1 in
    lives rest (durable (store w)) (log w)
  end.
