(* ===== verification/ServiceSafety.v ===== *)
(** * Safety of the service over all its lives

    An invariant of every state the service can reach, across requests, callbacks,
    provider outcomes, failing store calls, panics, kills and restarts, and what
    follows from it for the messages: how often and when the service hands one to
    a provider. *)

From S2P Require Import Prelude Bytes Text Sha256 Json Http.
From S2P Require Import Store StoreSpec StoreSafety Connectors Service.

#[local] Open Scope Z_scope.

(** ** What the history says about one message *)

(** The store calls answered, in order. *)
Definition answers (l : list Event) : list (Op * Resp) :=
  omap (fun e => match e with Answered op v => Some (op, v) | _ => None end) l.

Definition attempt_of (id : string) (e : Event) : bool :=
  match e with Attempted id' _ => bool_decide (id' = id) | _ => false end.

(** How many times message [id] was handed to a provider driver. *)
Definition attempts_made (id : string) (l : list Event) : Z :=
  Z.of_nat (length (List.filter (attempt_of id) l)).

(** The operator's requeue of message [id], granted. *)
Definition requeue_of (id : string) (e : Event) : bool :=
  match e with
  | Answered (OpRequeue id' _) (RRequeued (Some true)) => bool_decide (id' = id)
  | _ => false
  end.

(** The provider was not reached, or asked for a later retry. *)
Definition retryable (a : Attempt) : bool :=
  match exit a with
  | Returned (Ok Connectors.RateLimited) | Returned (Ok Transient) => true
  | _ => false
  end.

(** The provider, or the driver before it, refused the message. *)
Definition refused (a : Attempt) : bool :=
  match exit a with
  | Returned (Ok Permanent) | Returned (Ok AuthOrConfig) | Returned (Err _) => true
  | _ => false
  end.

(** Whether a message may be handed over again: [Free]; only after an operator's
    requeue: [Held]; never: [Closed]. *)
Inductive Phase : Type := Free | Held | Closed.

Definition after (a : Attempt) : Phase :=
  if retryable a then Free else if refused a then Held else Closed.

Definition phase_step (id : string) (p : Phase) (e : Event) : Phase :=
  match e with
  | Attempted id' a => if bool_decide (id' = id) then after a else p
  | _ => if requeue_of id e then match p with Held => Free | _ => p end else p
  end.

Definition phase (id : string) (l : list Event) : Phase := foldl (phase_step id) Free l.

Lemma phase_snoc id l e : phase id (l ++ [e]) = phase_step id (phase id l) e.
Proof. unfold phase. by rewrite foldl_app. Qed.

Lemma answers_app l k : answers (l ++ k) = answers l ++ answers k.
Proof. apply omap_app. Qed.

Lemma answers_silent l e :
  match e with Answered _ _ => False | _ => True end -> answers (l ++ [e]) = answers l.
Proof. intros He. rewrite answers_app. destruct e; [done|..]; apply app_nil_r. Qed.

Lemma attempts_made_snoc id l e :
  attempts_made id (l ++ [e]) = attempts_made id l + (if attempt_of id e then 1 else 0).
Proof.
  unfold attempts_made. rewrite List.filter_app, length_app. cbn. destruct (attempt_of id e); cbn; lia.
Qed.

(** Every attempt of the history was made in phase [Free]. *)
Inductive legal : list Event -> Prop :=
| legal_nil : legal []
| legal_snoc l e :
    legal l -> (forall id, attempt_of id e = true -> phase id l = Free) -> legal (l ++ [e]).

(** What the phase of a message says about its row. *)
Definition row_fits (p : Phase) (o : option Row) : Prop :=
  match p with
  | Free => True
  | Held => exists r, o = Some r /\ is_due_state (state r) = false
  | Closed => exists r, o = Some r
      /\ (state r = Sending \/ state r = ProviderAccepted \/ state r = AmbiguousState)
  end.

(** The attempts of the history ended as what happened on the wire bears out. *)
Definition attempts_borne_out (l : list Event) : Prop :=
  forall id a, Attempted id a ∈ l -> borne_out a.

Lemma attempts_borne_out_snoc l e :
  attempts_borne_out l -> (forall id a, e = Attempted id a -> borne_out a) -> attempts_borne_out (l ++ [e]).
Proof.
  intros Hl He id a [Hin|Hin%list_elem_of_singleton]%elem_of_app; [by eapply Hl|]. by eapply He.
Qed.

Section invariant.
Context (db0 : Db) (wf_db0 : wf db0).

Record inv (w : World) : Prop := mkInv {
  inv_trace : trace db0 (answers (log w)) (durable (store w));
  inv_rows : forall id, row_fits (phase id (log w)) (m3_messages (durable (store w)) !! id);
  inv_legal : legal (log w);
  inv_borne_out : attempts_borne_out (log w);
  inv_count : forall id, attempts_made id (log w) <= dispatches id (answers (log w))
}.

Lemma inv_wf w : inv w -> wf (durable (store w)).
Proof. intros H. eapply trace_wf; [by apply inv_trace|done]. Qed.

(** The invariant only sees the durable tables and the history. *)
Lemma inv_same w w' :
  inv w -> log w' = log w -> durable (store w') = durable (store w) -> inv w'.
Proof. intros [Ht Hr Hl Hb Hc] Hlog Hdb. split; rewrite ?Hlog, ?Hdb; done. Qed.

(** Calls that are only allowed in some phases. *)
Definition op_allowed (l : list Event) (op : Op) : Prop :=
  match op with
  | OpFail id _ _ => phase id l <> Closed
  | OpRetry id _ _ _ => phase id l = Free
  | _ => True
  end.

Lemma reschedules_requeue id op v :
  reschedules id (op, v) = true ->
  requeue_of id (Answered op v) = true \/ exists reason delay now, op = OpRetry id reason delay now.
Proof.
  destruct op, v as [| | | | |[[]|]| | |]; cbn; try done; intros H; auto.
  apply bool_decide_eq_true in H as ->. eauto.
Qed.

Lemma held_step id l op v o o' :
  phase id l = Held -> op_allowed l op -> requeue_of id (Answered op v) = false ->
  row_change op v id o o' -> row_fits Held o -> row_fits Held o'.
Proof.
  intros Hph Hop Hreq Hch (r & -> & Hs). cbn.
  inversion Hch as [| |? ? Ho Hv Hd|? st ? ? ? ? Hst Hok Hor Hset|? st ? ? Hcl Hre Hst]; subst.
  - by exists r.
  - unfold is_due in Hd. by rewrite Hs in Hd.
  - eexists. split; [done|]. cbn. by destruct Hor as [->|[-> | ->]].
  - apply reschedules_requeue in Hre as [Hre|(? & ? & ? & ->)]; [congruence|].
    cbn in Hop. congruence.
Qed.

Lemma closed_step id l op v o o' :
  phase id l = Closed -> op_allowed l op ->
  row_change op v id o o' -> row_fits Closed o -> row_fits Closed o'.
Proof.
  intros Hph Hop Hch (r & -> & Hs). cbn.
  inversion Hch as [| |? ? Ho Hv Hd|? st ? ? ? ? Hst Hok Hor Hset|? st ? ? Hcl Hre Hst]; subst.
  - by exists r.
  - unfold is_due in Hd. by destruct Hs as [Hs|[Hs|Hs]]; rewrite Hs in Hd.
  - eexists. split; [done|]. cbn. destruct op; try done; destruct st; try done; auto;
      cbn in Hset; apply bool_decide_eq_true in Hset; subst; cbn in Hop; congruence.
  - destruct Hst as [(_ & _ & _ & ? & ? & ? & ->)|[Hst _]].
    + cbn in Hop. congruence.
    + destruct Hs as [Hs|[Hs|Hs]]; congruence.
Qed.

Lemma row_fits_step id l op v o o' :
  op_allowed l op -> row_change op v id o o' -> row_fits (phase id l) o ->
  row_fits (phase id (l ++ [Answered op v])) o'.
Proof.
  intros Hop Hch Hfit. rewrite phase_snoc. cbn [phase_step].
  destruct (phase id l) eqn:Hph, (requeue_of id (Answered op v)) eqn:Hreq; try done;
    [by eapply held_step|by eapply closed_step|by eapply closed_step].
Qed.

(** An answered call that was allowed keeps the invariant. *)
Lemma inv_answer w db' op v w' :
  inv w -> op_allowed (log w) op -> spec op (durable (store w)) = Ok (db', v) ->
  durable (store w') = db' -> log w' = log w ++ [Answered op v] -> inv w'.
Proof.
  intros H Hop Hs Hdb Hlog. pose proof (inv_wf w H) as Hwf. destruct H as [Ht Hr Hl Hb Hc]. split.
  - rewrite Hlog, Hdb, answers_app. eapply trace_app; [done|]. cbn.
    eapply trace_cons; [done|constructor].
  - intros id. rewrite Hlog, Hdb. eapply row_fits_step; [done|by apply spec_rows|done].
  - rewrite Hlog. by constructor.
  - rewrite Hlog. by apply attempts_borne_out_snoc.
  - intros id. rewrite Hlog, attempts_made_snoc, answers_app. specialize (Hc id). cbn.
    unfold dispatches, count_where in *. rewrite List.filter_app, length_app. lia.
Qed.

(** ** Computations that keep the invariant *)

Definition triple (P : World -> Prop) {A : Type} (m : Proc A) (Q : A -> World -> Prop) : Prop :=
  forall w, inv w -> P w ->
  let '(w', e) := m w in inv w' /\ match e with Done a => Q a w' | _ => True end.

Definition keeps {A : Type} (m : Proc A) : Prop := triple (fun _ => True) m (fun _ _ => True).

Lemma triple_bind P A B (m : Proc A) (f : A -> Proc B) Q R :
  triple P m Q -> (forall a, triple (Q a) (f a) R) -> triple P (m ≫= f) R.
Proof.
  intros Hm Hf w Hi HP. specialize (Hm w Hi HP). unfold mbind, Proc_bind.
  destruct (m w) as [w1 [a|msg|]]; [|by destruct Hm..].
  destruct Hm as [Hi1 HQ]. by apply Hf.
Qed.

Lemma triple_ret P A (a : A) (Q : A -> World -> Prop) :
  (forall w, P w -> Q a w) -> triple P (mret a) Q.
Proof. intros H w Hi HP. split; [done|]. by apply H. Qed.

Lemma triple_weaken P P' A (m : Proc A) Q Q' :
  triple P' m Q' -> (forall w, P w -> P' w) -> (forall a w, Q' a w -> Q a w) -> triple P m Q.
Proof.
  intros Hm HP HQ w Hi Hw. specialize (Hm w Hi (HP w Hw)). destruct (m w) as [w' [a|msg|]]; naive_solver.
Qed.

Lemma keeps_bind A B (m : Proc A) (f : A -> Proc B) :
  keeps m -> (forall a, keeps (f a)) -> keeps (m ≫= f).
Proof. intros Hm Hf. eapply triple_bind; [exact Hm|]. exact Hf. Qed.

Lemma keeps_ret A (a : A) : keeps (mret a).
Proof. by apply triple_ret. Qed.

Lemma keeps_attempt A (m : Proc A) : keeps m -> keeps (attempt m).
Proof.
  intros Hm w Hi HP. specialize (Hm w Hi HP). unfold attempt.
  by destruct (m w) as [w' [a|msg|]]; destruct Hm.
Qed.

Lemma keeps_expect E A msg (r : result E A) : keeps (expect msg r).
Proof. intros w Hi _. unfold expect. by destruct r. Qed.

Lemma keeps_propagate A (r : result string A) : keeps (propagate r).
Proof. intros w Hi _. unfold propagate. by destruct r. Qed.

(** What a property of the tables and the history keeps through the clock. *)
Lemma triple_now (P : Conn -> list Event -> Prop) :
  triple (fun w => P (store w) (log w)) now_unix_ms
    (fun now w => is_i64 now = true /\ P (store w) (log w)).
Proof.
  intros w Hi HP. unfold now_unix_ms, effect. destruct (life w); [done|]. cbn.
  destruct (clock w) as [|[ms|] rest]; cbn; [by split; [eapply inv_same|]| |by split; [eapply inv_same|]].
  destruct (within 0 i64_max ms) eqn:E; cbn; split; try (by eapply inv_same); [|done].
  split; [|done]. unfold is_i64. b2p. unfold i64_min. lia.
Qed.

Lemma keeps_now : keeps now_unix_ms.
Proof. eapply triple_weaken; [apply (triple_now (fun _ _ => True))|done|done]. Qed.

Lemma keeps_write status body wire msg : keeps (write_wire status body wire msg).
Proof.
  intros w Hi _. unfold write_wire, effect. destruct (life w); [done|]. cbn.
  assert (inv (mkWorld (store w) (clock w) (networks w) (tail (writes w)) n
                 (log w ++ [Responded status body wire]))) as H.
  { destruct Hi as [Ht Hr Hl Hb Hc]. split; cbn [log store].
    - by rewrite answers_silent.
    - intros id. rewrite phase_snoc. apply Hr.
    - by constructor.
    - by apply attempts_borne_out_snoc.
    - intros id. rewrite attempts_made_snoc, answers_silent by done. cbn [attempt_of].
      specialize (Hc id). lia. }
  by destruct (default false (head (writes w))).
Qed.

(** A call: when it answers, it did what the specification says. *)
Lemma triple_call A (op : Op) (m : M A) (wrap : A -> Resp) (P : Conn -> list Event -> Prop) :
  exec op = (a ← m; mret (wrap a)) -> typed op = true ->
  (forall c l, P c l -> op_allowed l op) ->
  triple (fun w => P (store w) (log w)) (store_call op m wrap)
    (fun r w' => match r with
       | Err _ => True
       | Ok a => exists w0, inv w0 /\ P (store w0) (log w0)
           /\ spec op (durable (store w0)) = Ok (durable (store w'), wrap a)
           /\ log w' = log w0 ++ [Answered op (wrap a)]
       end).
Proof.
  intros Hexec Hty Hall w Hi HP. unfold store_call, effect. destruct (life w) as [|n]; [done|].
  cbn. destruct (m (store w)) as [c r] eqn:E.
  assert (exec op (store w) = (c, match r with Ok a => Ok (wrap a) | Err e => Err e end)) as Hx.
  { rewrite Hexec. unfold mbind, M_bind, mret, M_ret. rewrite E. by destruct r. }
  destruct r as [a|e].
  - apply exec_Ok in Hx; [|by apply inv_wf|done]. split.
    + eapply inv_answer; [exact Hi|by eapply Hall|exact Hx|done|done].
    + by exists w.
  - apply exec_Err in Hx. split; [|done]. eapply inv_same; [exact Hi|cbn; by rewrite app_nil_r|done].
Qed.

Lemma keeps_call A (op : Op) (m : M A) (wrap : A -> Resp) :
  exec op = (a ← m; mret (wrap a)) -> typed op = true ->
  (forall l, op_allowed l op) -> keeps (store_call op m wrap).
Proof.
  intros He Ht Ha. eapply triple_weaken;
    [by apply (triple_call A op m wrap (fun _ _ => True)); [| |intros]|done|done].
Qed.

(** ** One dispatch *)

(** The message is claimed and not yet handed over. *)
Definition claimed (id : string) (c : Conn) (l : list Event) : Prop :=
  (exists r, m3_messages (durable c) !! id = Some r /\ state r = Sending)
  /\ phase id l = Free /\ attempts_made id l + 1 <= dispatches id (answers l).

(** The message was handed over, with this outcome. *)
Definition handed (id : string) (outcome : result DriverError DeliveryOutcome)
    (_ : Conn) (l : list Event) : Prop :=
  exists a, exit a = Returned outcome /\ phase id l = after a.

Lemma claim_claims w0 w' now d :
  inv w0 -> spec (OpClaim now) (durable (store w0)) = Ok (durable (store w'), RClaimed (Some d)) ->
  log w' = log w0 ++ [Answered (OpClaim now) (RClaimed (Some d))] ->
  claimed (d_message_id d) (store w') (log w').
Proof.
  intros Hi Hs Hlog. set (id := d_message_id d).
  assert (claims id (RClaimed (Some d)) = true) as Hcl by by apply bool_decide_true.
  pose proof (spec_rows _ _ _ _ id (inv_wf _ Hi) Hs) as Hch. pose proof (inv_rows _ Hi id) as Hfit.
  inversion Hch as [? Hn|? Hn|r now' Ho Hv Hd Hatt Hr Hr'|? ? ? ? ? Hn|? ? ? ? Hn]; try congruence.
  assert (phase id (log w0) = Free) as Hfree.
  { destruct (phase id (log w0)); [done|..]; rewrite <- Hr in Hfit; destruct Hfit as (r2 & [= <-] & Hs2);
      unfold is_due in Hd; [by rewrite Hs2 in Hd|].
    by destruct Hs2 as [Hs2|[Hs2|Hs2]]; rewrite Hs2 in Hd. }
  split; [by eexists|]. split.
  - rewrite Hlog, phase_snoc. cbn [phase_step]. by rewrite Hfree.
  - rewrite Hlog, attempts_made_snoc, answers_app. unfold dispatches, count_where.
    rewrite List.filter_app, length_app. cbn [answers omap list_omap List.filter snd attempt_of].
    rewrite Hcl. cbn [length]. pose proof (inv_count _ Hi id) as Hc.
    unfold dispatches, count_where in Hc. lia.
Qed.

Lemma triple_claim now :
  is_i64 now = true ->
  triple (fun _ => True) (call_claim now)
    (fun r w => match r with
                | Ok (Some d) => claimed (d_message_id d) (store w) (log w)
                | _ => True
                end).
Proof.
  intros Hnow. eapply triple_weaken;
    [by apply (triple_call _ (OpClaim now) (m2_claim_due now) RClaimed (fun _ _ => True))|done|].
  intros [[d|]|e] w H; try done. destruct H as (w0 & Hi & _ & Hs & Hlog).
  by eapply claim_claims.
Qed.

Lemma inv_attempted w w' id a :
  inv w -> claimed id (store w) (log w) -> borne_out a -> store w' = store w ->
  log w' = log w ++ [Attempted id a] -> inv w' /\ phase id (log w') = after a.
Proof.
  intros [Ht Hr Hl Hb Hc] ((r & Hrow & Hs) & Hfree & Hn) Hba Hst Hlog. split.
  - split; rewrite ?Hlog, ?Hst.
    + by rewrite answers_silent.
    + intros id'. rewrite phase_snoc. cbn [phase_step].
      destruct (bool_decide_reflect (id = id')) as [<-|Hne]; [|apply Hr].
      rewrite Hrow. unfold after. destruct (retryable a); [done|].
      destruct (refused a); cbn; exists r; rewrite Hs; auto.
    + constructor; [done|]. cbn. intros id' ->%bool_decide_eq_true. done.
    + apply attempts_borne_out_snoc; [done|]. by intros ? ? [= _ <-].
    + intros id'. rewrite attempts_made_snoc, answers_silent by done. cbn [attempt_of].
      destruct (bool_decide_reflect (id = id')) as [<-|Hne]; [lia|]. specialize (Hc id'). lia.
  - rewrite Hlog, phase_snoc. cbn [phase_step]. by rewrite bool_decide_true.
Qed.

Lemma triple_attempt `{Serde} id driver delivery :
  triple (fun w => claimed id (store w) (log w)) (attempt_delivery id driver delivery)
    (fun o w => handed id o (store w) (log w)).
Proof.
  intros w Hi Hcl. unfold attempt_delivery, effect. destruct (life w) as [|n]; [done|]. cbv zeta.
  cbn [store log networks clock writes life].
  set (a := deliver driver delivery _). set (w' := mkWorld _ _ _ _ _ _).
  destruct (inv_attempted w w' id a Hi Hcl (deliver_borne_out _ _ _) eq_refl eq_refl) as [Hi' Hph].
  destruct (exit a) as [r|] eqn:E; split; try done. by exists a.
Qed.

Lemma triple_no_delivery id :
  triple (fun w => claimed id (store w) (log w)) (no_delivery id)
    (fun o w => handed id o (store w) (log w)).
Proof.
  intros w Hi Hcl. unfold no_delivery, effect. destruct (life w) as [|n]; [done|].
  cbn [store log networks clock writes life].
  set (a := mkAttempt None None (Returned (Err InvalidDelivery))). set (w' := mkWorld _ _ _ _ _ _).
  destruct (inv_attempted w w' id a Hi Hcl (or_introl eq_refl) eq_refl eq_refl) as [Hi' Hph].
  split; [done|]. by exists a.
Qed.

Lemma triple_deliver_due `{Serde} driver wa d :
  triple (fun w => claimed (d_message_id d) (store w) (log w)) (deliver_due driver wa d)
    (fun o w => handed (d_message_id d) o (store w) (log w)).
Proof.
  unfold deliver_due, whatsapp_delivery.
  destruct (bool_decide _); [apply triple_attempt|].
  destruct (bool_decide _); [|apply triple_no_delivery].
  destruct wa as [wa|]; [|apply triple_no_delivery].
  destruct (parse_canonical_whatsapp_payload _); [apply triple_attempt|apply triple_no_delivery].
Qed.

Lemma triple_record A (op : Op) (m : M A) (wrap : A -> Resp) P :
  exec op = (a ← m; mret (wrap a)) -> typed op = true ->
  (forall c l, P c l -> op_allowed l op) ->
  triple (fun w => P (store w) (log w)) (store_call op m wrap) (fun _ _ => True).
Proof. intros. by eapply triple_weaken; [by apply (triple_call A op m wrap P)|..]. Qed.

Lemma triple_record_outcome id o :
  triple (fun w => handed id o (store w) (log w)) (record_outcome id o) (fun _ _ => True).
Proof.
  eapply triple_bind; [apply (triple_now (handed id o))|]. intros now w Hi [Hnow Hh].
  revert w Hi Hh. fold (triple (fun w => handed id o (store w) (log w))
    match o with
    | Ok (Connectors.Accepted ack) => call_accept id (of_bytes ack) now
    | Ok Connectors.RateLimited | Ok Transient => call_retry id "ntfy temporary failure" 1000 now
    | Ok Ambiguous => call_ambiguous id "ntfy response uncertain" now
    | Ok Permanent | Ok AuthOrConfig => call_fail id "ntfy rejected request" now
    | Err _ => call_fail id "ntfy request invalid" now
    end (fun _ _ => True)).
  destruct o as [[ack| | | | |]|e]; apply triple_record; try done;
    intros c l (a & Ha & Hph); cbn; rewrite Hph; unfold after, retryable, refused; by rewrite Ha.
Qed.

Lemma triple_expect E A msg (r : result E A) (P : A -> World -> Prop) :
  triple (fun w => match r with Ok a => P a w | Err _ => True end) (expect msg r) P.
Proof. intros w Hi HP. unfold expect. by destruct r. Qed.

(** What holds whatever the clock said. *)
Lemma keeps_after_now A (f : Z -> Proc A) :
  (forall now, is_i64 now = true -> keeps (f now)) -> keeps (now ← now_unix_ms; f now).
Proof.
  intros Hf. eapply triple_bind; [apply (triple_now (fun _ _ => True))|].
  intros now w Hi [Hnow _]. by apply (Hf now Hnow w Hi).
Qed.

Definition claimed_delivery (o : option M2Delivery) (w : World) : Prop :=
  match o with Some d => claimed (d_message_id d) (store w) (log w) | None => True end.

Lemma keeps_dispatch `{Serde} driver wa : keeps (dispatch_due driver wa).
Proof.
  apply keeps_after_now. intros now Hnow. eapply triple_bind; [by apply triple_claim|].
  intros r. eapply triple_bind with (Q := claimed_delivery).
  - eapply triple_weaken; [apply (triple_expect _ _ _ r claimed_delivery)| |done].
    intros w. by destruct r as [[d|]|].
  - intros [d|]; [|by apply triple_ret]. cbn [claimed_delivery].
    eapply triple_bind; [apply triple_deliver_due|]. intros o.
    eapply triple_bind; [apply triple_record_outcome|]. intros recorded. apply keeps_expect.
Qed.

(** ** The handlers and the loop *)

Lemma keeps_webhook stream : keeps (read_webhook stream).
Proof. intros w Hi _. unfold read_webhook. by destruct (read_http_request [] stream) as [|[]]. Qed.

Ltac keeps_step :=
  first
    [ apply keeps_dispatch | apply keeps_webhook | apply keeps_write
    | apply keeps_after_now; intros ? ?
    | apply keeps_bind; [|intros ?]
    | apply keeps_ret | apply keeps_expect | apply keeps_propagate
    | apply keeps_attempt | apply keeps_now
    | apply keeps_call; [reflexivity|done|done]
    | case_match ].

Lemma keeps_handle_request `{Serde} config stream : keeps (handle_request config stream).
Proof.
  unfold handle_request, handle_ntfy, handle_whatsapp, handle_inbound_control, handle_status,
    handle_message_status, handle_message_retry, respond_accepted, write_response.
  repeat keeps_step.
Qed.

Lemma keeps_handle_inbound `{Serde} `{HmacSha256} config stream :
  keeps (handle_inbound_request config stream).
Proof.
  unfold handle_inbound_request, handle_callback, parse_callback, write_tcp_response.
  repeat keeps_step.
Qed.

Lemma keeps_serve_loop `{Serde} `{HmacSha256} config driver arrivals :
  keeps (serve_loop config driver arrivals).
Proof.
  induction arrivals as [|a rest IH]; cbn [serve_loop]; [apply keeps_ret|].
  apply keeps_bind; [|done]. unfold serve_iteration, ignore.
  repeat (apply keeps_handle_request || apply keeps_handle_inbound || keeps_step).
Qed.

Lemma keeps_serve `{Serde} `{HmacSha256} config arrivals : keeps (serve config arrivals).
Proof.
  unfold serve. repeat (apply keeps_serve_loop || keeps_step).
Qed.

(** The invariant across processes. *)
Lemma lives_inv `{Serde} `{HmacSha256} boots w :
  inv w -> exists w', inv w'
    /\ lives boots (durable (store w)) (log w) = (durable (store w'), log w').
Proof.
  revert w. induction boots as [|b boots IH]; intros w Hi; [by exists w|]. cbn [lives].
  set (start := boot_world b (durable (store w)) (log w)).
  assert (inv start) as Hstart by by eapply inv_same.
  pose proof (keeps_serve (boot_config b) (boot_arrivals b) start Hstart I) as Hs.
  destruct (serve (boot_config b) (boot_arrivals b) start) as [w1 e]. destruct Hs as [H1 _].
  apply (IH w1 H1).
Qed.

Lemma inv_initial : inv (mkWorld (mkConn true db0 db0 []) [] [] [] 0 []).
Proof. split; cbn; [constructor|done|constructor| |done]. by intros id a Hin%elem_of_nil. Qed.

Lemma lives_reached `{Serde} `{HmacSha256} boots :
  exists w, inv w /\ lives boots db0 [] = (durable (store w), log w).
Proof. apply (lives_inv boots _ inv_initial). Qed.
End invariant.

(** ** Reading a history *)

Lemma legal_prefix l k : legal (l ++ k) -> legal l.
Proof.
  induction k as [|e k IH] using rev_ind; [by rewrite app_nil_r|].
  rewrite app_assoc. intros H. apply IH. inversion H as [Hn|l' e' Hl Hf Heq].
  - by destruct (l ++ k).
  - by apply app_inj_tail in Heq as [-> _].
Qed.

Lemma legal_attempt l id a k : legal (l ++ Attempted id a :: k) -> phase id l = Free.
Proof.
  intros H. replace (l ++ Attempted id a :: k) with ((l ++ [Attempted id a]) ++ k) in H
    by (by rewrite <- app_assoc). apply legal_prefix in H.
  inversion H as [Hn|l' e' Hl Hf Heq]; [by destruct l|].
  apply app_inj_tail in Heq as [-> ->]. apply Hf. cbn. by apply bool_decide_true.
Qed.

(** Between an attempt and a time when the message may be handed over again. *)
Lemma phase_freed id l p k :
  legal (l ++ k) -> phase id l = p -> phase id (l ++ k) = Free ->
  p = Free \/ (p = Held /\ existsb (requeue_of id) k = true).
Proof.
  revert l p. induction k as [|e k IH]; intros l p Hl Hp Hf; [rewrite app_nil_r in Hf; left; congruence|].
  replace (l ++ e :: k) with ((l ++ [e]) ++ k) in * by (by rewrite <- app_assoc).
  destruct (attempt_of id e) eqn:Ha.
  { left. subst p. apply legal_prefix in Hl. inversion Hl as [Hn|l' e' Hl' Hfree Heq]; [by destruct l|].
    apply app_inj_tail in Heq as [-> ->]. by apply Hfree. }
  assert (phase id (l ++ [e]) = if requeue_of id e then match p with Held => Free | _ => p end else p) as Hstep.
  { rewrite phase_snoc, Hp. destruct e as [op v|id' a|]; [done| |done]. cbn in *. by rewrite Ha. }
  specialize (IH (l ++ [e]) _ Hl Hstep Hf). cbn [existsb].
  destruct (requeue_of id e); cbn [orb]; [|done].
  destruct p; [by left|by right|by destruct IH as [|[]]].
Qed.

Lemma dispatches_bound db h db' id :
  wf db -> trace db h db' -> dispatches id h <= 5.
Proof.
  intros Hwf Ht. pose proof (trace_attempts id _ _ _ Hwf Ht) as Ha.
  assert (forall db, wf db -> 0 <= attempts_of (m3_messages db !! id) <= 5) as Hb.
  { intros d Hd. destruct (m3_messages d !! id) as [r|] eqn:E; cbn; [|lia].
    by apply (wf_rows d Hd), row_ok_columns in E as [? _]. }
  pose proof (Hb _ Hwf). pose proof (Hb _ (trace_wf _ _ _ Ht Hwf)). lia.
Qed.

(** ** Theorems *)

(** C1: over all lives of the service, through requests, callbacks, provider
    outcomes, failing store calls, panics, kills and restarts, a message is handed to a
    provider again only in these cases. The attempt before wrote nothing and found no
    connection, or was answered in full with status 429. Or an operator has requeued the
    message since, and the attempt before was answered with another status from 400 to
    499, or was refused by the driver: then it wrote nothing, or (the one case where the
    provider may have published) it was answered with a status from 200 to 299 and the
    driver took no acknowledgement from it. Never after an acknowledgement, an unknown
    outcome or a panic. *)
Theorem service_resend_justified `{Serde} `{HmacSha256} boots db id l1 a1 l2 a2 l3 :
  wf db ->
  (lives boots db []).2 = l1 ++ Attempted id a1 :: l2 ++ Attempted id a2 :: l3 ->
  match exit a1 with
  | Returned (Ok Transient) => written a1 = None
  | Returned (Ok Connectors.RateLimited) => answered a1 429
  | Returned (Ok Permanent) | Returned (Ok AuthOrConfig) =>
    existsb (requeue_of id) l2 = true
    /\ exists status, answered a1 status /\ 400 <= status <= 499 /\ status <> 429
  | Returned (Err _) =>
    existsb (requeue_of id) l2 = true
    /\ (written a1 = None \/ exists status, answered a1 status /\ 200 <= status <= 299)
  | Returned (Ok (Connectors.Accepted _)) | Returned (Ok Ambiguous) | Connectors.Panicked => False
  end.
Proof.
  intros Hwf Hlog. destruct (lives_reached db Hwf boots) as (w & Hi & Hw).
  rewrite Hw in Hlog. cbn [snd] in Hlog. pose proof (inv_legal _ _ Hi) as Hl. rewrite Hlog in Hl.
  assert (borne_out a1) as Hb.
  { apply (inv_borne_out _ _ Hi id). rewrite Hlog. apply elem_of_app. right. by left. }
  replace (l1 ++ Attempted id a1 :: l2 ++ Attempted id a2 :: l3)
    with (((l1 ++ [Attempted id a1]) ++ l2) ++ Attempted id a2 :: l3) in Hl
    by (by rewrite <- !app_assoc).
  pose proof (legal_attempt _ _ _ _ Hl) as Hfree. apply legal_prefix in Hl.
  assert (phase id (l1 ++ [Attempted id a1]) = after a1) as Hph
    by (rewrite phase_snoc; cbn [phase_step]; by rewrite bool_decide_true).
  pose proof (phase_freed id _ _ _ Hl Hph Hfree) as Hf. unfold after, retryable, refused in Hf.
  unfold borne_out in Hb. destruct (exit a1) as [[[| | | | |]|]|]; naive_solver.
Qed.

(** C2: over all lives of the service a message is handed to a provider at most
    five times, and no more often than the store's durable count says. *)
Theorem service_attempts_bounded `{Serde} `{HmacSha256} boots db id :
  wf db ->
  let '(db', history) := lives boots db [] in
  attempts_made id history <= 5
  /\ attempts_of (m3_messages db !! id) + attempts_made id history
     <= attempts_of (m3_messages db' !! id).
Proof.
  intros Hwf. destruct (lives_reached db Hwf boots) as (w & Hi & Hw). rewrite Hw.
  pose proof (inv_count _ _ Hi id) as Hc.
  pose proof (dispatches_bound _ _ _ id Hwf (inv_trace _ _ Hi)).
  pose proof (trace_attempts id _ _ _ Hwf (inv_trace _ _ Hi)). lia.
Qed.

(** ** A concrete life *)

#[local] Instance no_reader : Serde := {| from_slice := fun _ => None; to_vec := fun _ => None |}.
#[local] Instance no_mac : HmacSha256 := fun _ _ => [].

Definition plain_config : ServiceConfig :=
  mkServiceConfig (as_bytes "http://127.0.0.1") (as_bytes "alerts") None None.

(** One submitted message, due at time 0. *)
Definition sample_acts : list Action := [Call (OpM2Submit (mkM2Submission "k" "alerts" None "hello") 0)].
Definition sample_db : Db := durable (run sample_acts (live empty_db)).1.
Definition sample_id : string := m2_message_id (mkM2Submission "k" "alerts" None "hello").

(** A process that meets a server which answers "too many requests", then one that
    accepts the connection and drops it, then restarts. *)
Definition refusal : bytes :=
  as_bytes "HTTP/1.1 429 Busy" ++ CRLF ++ as_bytes "Content-Length: 0" ++ CRLFCRLF.

Definition sample_boot (networks : list Network) : Boot :=
  mkBoot [] (map Some [10; 2000; 2000; 4000; 4000; 6000; 6000]) networks [] 100 plain_config
    [mkArrival None None; mkArrival None None; mkArrival None None].

Definition sample_boots : list Boot :=
  [sample_boot [Connected (fun _ => Exchanged (delivers [refusal] []));
                Connected (fun _ => Exchanged [None])];
   sample_boot [NoConnection]].

Definition sample_attempts : list (string * Exit) :=
  omap (fun e => match e with Attempted id a => Some (id, exit a) | _ => None end)
    (lives sample_boots sample_db []).2.

(** Two attempts: one refused for now, one uncertain, and none after that. *)
Example sample_life :
  sample_attempts = [(sample_id, Returned (Ok Connectors.RateLimited));
                     (sample_id, Returned (Ok Ambiguous))].
Proof. vm_compute. reflexivity. Qed.

Definition sample_log : list Event := (lives sample_boots sample_db []).2.

(** The attempts are the third and the sixth event. *)
Definition sample_attempt (i : nat) : Attempt :=
  match sample_log !! i with Some (Attempted _ a) => a | _ => mkAttempt None None Panicked end.

Lemma service_resend_justified_witness : answered (sample_attempt 2) 429.
Proof.
  exact (service_resend_justified sample_boots sample_db sample_id (take 2 sample_log)
    (sample_attempt 2) (take 2 (drop 3 sample_log)) (sample_attempt 5) (drop 6 sample_log)
    (wf_after sample_acts eq_refl) ltac:(vm_compute; reflexivity)).
Defined.

Lemma service_attempts_bounded_witness :
  let '(db', history) := lives sample_boots sample_db [] in
  attempts_made sample_id history <= 5
  /\ attempts_of (m3_messages sample_db !! sample_id) + attempts_made sample_id history
     <= attempts_of (m3_messages db' !! sample_id).
Proof. apply service_attempts_bounded. apply wf_after. reflexivity. Defined.
