(* ===== verification/ServiceOps.v ===== *)
(** * What one step of the service does

    The functional behaviour of the dispatcher on every provider outcome, of an
    acknowledged submission, and of the webhook handler. *)

From S2P Require Import Prelude Bytes Text Sha256 Json Http.
From S2P Require Import Store StoreSpec StoreSafety Connectors Service.

#[local] Open Scope Z_scope.

(** ** The connection stays open *)

Definition linked {A : Type} (m : M A) : Prop := forall c, connected (m c).1 = connected c.

Lemma linked_bind {A B : Type} (m : M A) (f : A -> M B) :
  linked m -> (forall a, linked (f a)) -> linked (m ≫= f).
Proof.
  intros Hm Hf c. unfold mbind, M_bind. specialize (Hm c).
  destruct (m c) as [c' [a|e]]; cbn in *; [|done]. by rewrite Hf.
Qed.

Lemma linked_in_transaction {A : Type} (m : M A) : linked m -> linked (in_transaction m).
Proof.
  intros Hm c. unfold in_transaction.
  assert (linked (begin_immediate ;; m)) as H.
  { apply linked_bind; [|done]. unfold begin_immediate. repeat (apply linked_bind; intros); intros c1;
      unfold sqlite_call, read_durable, set_working; try done. by destruct (plan c1) as [|[|] ?]. }
  specialize (H c). destruct ((begin_immediate ;; m) c) as [c' r]. done.
Qed.

Lemma linked_claim now : linked (m2_claim_due now).
Proof.
  assert (linked sqlite_call) as Hs
    by (intros c; unfold sqlite_call; by destruct (plan c) as [|[|] ?]).
  assert (linked connection) as Hcn by (intros c; unfold connection; by destruct (connected c) eqn:E).
  unfold m2_claim_due. apply linked_bind; [done|]. intros _. apply linked_in_transaction.
  unfold query, execute, commit.
  repeat first [apply linked_bind; [|intros ?] | exact Hs | by intros c | case_match].
Qed.

(** ** Calls on a healthy store *)

(** A process whose store does not fail. *)
Definition healthy (w : World) : Prop := connected (store w) = true /\ plan (store w) = [].

Lemma healthy_steady w : healthy w -> store w = steady (durable (store w)) (working (store w)).
Proof. intros [Hc Hp]. unfold steady. rewrite <- Hc, <- Hp. by destruct (store w). Qed.

Lemma call_run A (op : Op) (m : M A) (wrap : A -> Resp) w n db' a :
  (forall a b, wrap a = wrap b -> a = b) ->
  exec op = (x ← m; mret (wrap x)) -> wf (durable (store w)) -> typed op = true ->
  healthy w -> life w = S n -> spec op (durable (store w)) = Ok (db', wrap a) ->
  exists w', store_call op m wrap w = (w', Done (Ok a))
    /\ durable (store w') = db' /\ plan (store w') = [] /\ life w' = n /\ clock w' = clock w
    /\ networks w' = networks w /\ (linked m -> healthy w').
Proof.
  intros Hinj Hexec Hwf Hty Hh Hn Hs.
  pose proof (exec_steady op _ (working (store w)) Hwf Hty) as Hx. rewrite <- (healthy_steady w Hh) in Hx.
  rewrite Hs in Hx. unfold observe, StoreSpec.outcome in Hx. unfold store_call, effect. rewrite Hn. cbn [store].
  rewrite Hexec in Hx. unfold mbind, M_bind, mret, M_ret in Hx.
  assert (tame (exec op)) as Ht by apply tame_exec.
  destruct (m (store w)) as [c' [x|e]] eqn:E; cbn in Hx; [|discriminate].
  injection Hx as Hdb Hv. apply Hinj in Hv as ->. eexists. split; [done|]. cbn.
  assert (plan c' = []) as Hp.
  { specialize (Ht (store w) c' (wrap a)). rewrite Hexec in Ht. unfold mbind, M_bind, mret, M_ret in Ht.
    rewrite E in Ht. specialize (Ht eq_refl).
    replace (faultless (store w)) with (store w) in Ht
      by (destruct Hh as [Hc Hpl]; unfold faultless; rewrite <- Hpl; by destruct (store w)).
    rewrite E in Ht. injection Ht as Ht. by rewrite Ht. }
  split_and!; try done. intros Hl. split; [|done]. cbn.
  specialize (Hl (store w)). rewrite E in Hl. destruct Hh as [Hc _]. cbn in Hl. congruence.
Qed.

Lemma now_run w ms rest n :
  clock w = Some ms :: rest -> within 0 i64_max ms = true -> life w = S n ->
  now_unix_ms w = (mkWorld (store w) rest (networks w) (writes w) n (log w), Done ms).
Proof. intros Hc Hms Hn. unfold now_unix_ms, effect. rewrite Hn. cbn. rewrite Hc. cbn. by rewrite Hms. Qed.

(** ** The attempt a claimed message leads to *)

Definition due_attempt `{Serde} (ntfy_driver : Driver) (whatsapp : option WhatsappConfig)
    (delivery : M2Delivery) (network : Network) : Attempt :=
  let unsent := mkAttempt None None (Returned (Err InvalidDelivery)) in
  if bool_decide (d_driver delivery = "ntfy"%string) then
    deliver ntfy_driver (DeliverNtfy (as_bytes (d_topic delivery)) (as_bytes <$> d_title delivery)
                           (as_bytes (d_body delivery))) network
  else if bool_decide (d_driver delivery = "whatsapp"%string) then
    match whatsapp, parse_canonical_whatsapp_payload (as_bytes (d_payload delivery)) with
    | Some whatsapp, Some payload =>
      deliver (wa_driver whatsapp)
        (DeliverWhatsapp (as_bytes (d_destination delivery)) (c_template payload)
           (c_locale payload) (c_parameters payload)) network
    | _, _ => unsent
    end
  else unsent.

(** The effect of an attempt on the process. *)
Definition attempted (w w' : World) (n : nat) (id : string) (a : Attempt) : Prop :=
  store w' = store w /\ clock w' = clock w /\ life w' = n
  /\ log w' = log w ++ [Attempted id a].

Lemma attempt_run `{Serde} id driver delivery w n :
  life w = S n ->
  let a := deliver driver delivery (default NoConnection (head (networks w))) in
  exists w', attempted w w' n id a
    /\ attempt_delivery id driver delivery w
       = (w', match exit a with Returned r => Done r | Panicked => Dead end).
Proof.
  intros Hn. cbv zeta. unfold attempt_delivery, effect. rewrite Hn.
  cbn [store clock networks writes life log]. set (a := deliver _ _ _).
  exists (mkWorld (store w) (clock w) (tail (networks w)) (writes w) n (log w ++ [Attempted id a])).
  split; [done|]. by destruct (exit a).
Qed.

Lemma no_delivery_run id w n :
  life w = S n ->
  exists w', attempted w w' n id (mkAttempt None None (Returned (Err InvalidDelivery)))
    /\ no_delivery id w = (w', Done (Err InvalidDelivery)).
Proof. intros Hn. unfold no_delivery, effect. rewrite Hn. eexists. split; [|reflexivity]. done. Qed.

Lemma deliver_due_run `{Serde} driver wa d w n :
  life w = S n ->
  let a := due_attempt driver wa d (default NoConnection (head (networks w))) in
  exists w', attempted w w' n (d_message_id d) a
    /\ deliver_due driver wa d w
       = (w', match exit a with Returned r => Done r | Panicked => Dead end).
Proof.
  intros Hn. cbv zeta. unfold deliver_due, due_attempt, whatsapp_delivery.
  destruct (bool_decide (d_driver d = "ntfy"%string)); [by apply attempt_run|].
  destruct (bool_decide (d_driver d = "whatsapp"%string)); [|by apply no_delivery_run].
  destruct wa as [wa|]; [|by apply no_delivery_run].
  destruct (parse_canonical_whatsapp_payload _); [by apply attempt_run|by apply no_delivery_run].
Qed.

(** The row after the outcome has been recorded. *)
Definition settled (r : Row) (now : Z) (x : Exit) : Row :=
  let final st ack err := set_status r st (attempts r) None ack err now in
  match x with
  | Panicked => r
  | Returned (Ok (Connectors.Accepted ack)) => final ProviderAccepted (Some (of_bytes ack)) None
  | Returned (Ok Connectors.RateLimited) | Returned (Ok Transient) =>
    if 5 <=? attempts r then final Failed None (Some "ntfy temporary failure"%string)
    else set_status r RetryScheduled (attempts r) (Some (now + 1000)) None None now
  | Returned (Ok Ambiguous) => final AmbiguousState None (Some "ntfy response uncertain"%string)
  | Returned (Ok Permanent) | Returned (Ok AuthOrConfig) =>
    final Failed None (Some "ntfy rejected request"%string)
  | Returned (Err _) => final Failed None (Some "ntfy request invalid"%string)
  end.

Lemma valid_text_of_bytes ack :
  is_bytes ack = true -> valid_acknowledgement ack = true -> valid_text (of_bytes ack) 256 = true.
Proof.
  intros Hb Ha. unfold valid_acknowledgement in Ha. rewrite !andb_true_iff in Ha.
  destruct Ha as [[Hne Hlen] Hnul]. unfold valid_text, contains_byte, str_len.
  rewrite <- length_as_bytes, as_bytes_of_bytes by done. unfold len in Hlen.
  rewrite !andb_true_iff. split_and!; [|done|].
  - apply negb_true_iff, Z.eqb_neq. destruct ack; [done|]. cbn. lia.
  - apply negb_true_iff in Hnul. apply contains_any_false in Hnul.
    apply negb_true_iff, not_true_iff_false. rewrite existsb_exists. intros (x & Hin & Hx%Z.eqb_eq).
    rewrite Forall_forall in Hnul. apply (Hnul x); [by apply list_elem_of_In|]. subst. by left.
Qed.

Lemma spec_mark_sending id text st ack err now db r :
  m3_messages db !! id = Some r -> state r = Sending -> valid_text text 256 = true ->
  spec_mark id text st ack err now db
  = Ok (put id (set_status r st (attempts r) None ack err now) db, tt).
Proof. intros Hr Hs Ht. unfold spec_mark. rewrite Ht, Hr, bool_decide_true by done. done. Qed.

(** Recording an outcome of a message in [Sending] on a healthy store. *)
Lemma record_run id o w now rest n r :
  wf (durable (store w)) -> healthy w -> clock w = Some now :: rest ->
  within 0 i64_max now = true -> is_i64 (now + 1000) = true -> life w = S (S n) ->
  m3_messages (durable (store w)) !! id = Some r -> state r = Sending ->
  (forall ack, o = Ok (Connectors.Accepted ack) -> valid_text (of_bytes ack) 256 = true) ->
  exists w', record_outcome id o w = (w', Done (Ok tt))
    /\ durable (store w') = put id (settled r now (Returned o)) (durable (store w)).
Proof.
  intros Hwf Hh Hc Hnow Hnext Hl Hr Hs Hack.
  unfold record_outcome. unfold mbind, Proc_bind. rewrite (now_run w now rest (S n)) by done.
  set (w1 := mkWorld (store w) rest (networks w) (writes w) (S n) (log w)).
  assert (is_i64 now = true) as Hty by (unfold is_i64 in *; b2p; unfold i64_min in *; lia).
  assert (forall op m db', exec op = (x ← m; mret ((fun _ : unit => RDone) x)) ->
    typed op = true -> spec op (durable (store w)) = Ok (db', RDone) ->
    exists w', store_call op m (fun _ => RDone) w1 = (w', Done (Ok tt)) /\ durable (store w') = db') as Hcall.
  { intros op m db' Hop Htop Hsp.
    destruct (call_run unit op m (fun _ => RDone) w1 n db' tt) as (w' & Hrun & Hdb & _); try done;
      [by intros [] []|by exists w']. }
  destruct o as [[ack| | | | |]|e]; apply Hcall; try done; cbn [spec settled].
  - by rewrite (spec_mark_sending _ _ _ _ _ _ _ _ Hr Hs (Hack ack eq_refl)).
  - unfold spec_retry. rewrite Hr, bool_decide_true, Hnext by done. cbn.
    by destruct (5 <=? attempts r).
  - unfold spec_retry. rewrite Hr, bool_decide_true, Hnext by done. cbn.
    by destruct (5 <=? attempts r).
  - by rewrite (spec_mark_sending _ _ _ _ _ _ _ _ Hr Hs).
  - by rewrite (spec_mark_sending _ _ _ _ _ _ _ _ Hr Hs).
  - by rewrite (spec_mark_sending _ _ _ _ _ _ _ _ Hr Hs).
  - by rewrite (spec_mark_sending _ _ _ _ _ _ _ _ Hr Hs).
Qed.

(** ** Lemmas: durable answers *)

(** The responses written, in order. *)
Definition responses (l : list Event) : list (Z * bytes) :=
  omap (fun e => match e with Responded status body _ => Some (status, body) | _ => None end) l.

(** Exactly this response was written between [w] and [w']. *)
Definition responds (w w' : World) (status : Z) (body : bytes) : Prop :=
  responses (log w') = responses (log w) ++ [(status, body)].

Definition quiet (w w' : World) : Prop := responses (log w') = responses (log w).

Lemma quiet_responds w w' status body : quiet w w' -> ~ responds w w' status body.
Proof.
  unfold quiet, responds. intros -> H. rewrite <- (app_nil_r (responses (log w))) in H at 1.
  by apply app_inv_head in H.
Qed.

Lemma store_call_answer A op (m : M A) wrap w w' x :
  exec op = (a ← m; mret (wrap a)) -> wf (durable (store w)) -> typed op = true ->
  store_call op m wrap w = (w', Done x) ->
  match x with
  | Ok a => spec op (durable (store w)) = Ok (durable (store w'), wrap a)
            /\ log w' = log w ++ [Answered op (wrap a)]
  | Err _ => log w' = log w
  end.
Proof.
  intros Hexec Hwf Hty. unfold store_call, effect. destruct (life w) as [|n]; [done|]. cbn.
  destruct (m (store w)) as [c r] eqn:E. intros [= <- <-]. destruct r as [a|e]; cbn.
  - split; [|done]. apply exec_Ok; [done|done|]. rewrite Hexec. unfold mbind, M_bind, mret, M_ret.
    by rewrite E.
  - by rewrite app_nil_r.
Qed.

Lemma store_call_quiet A op (m : M A) wrap w : quiet w (store_call op m wrap w).1.
Proof.
  unfold store_call, effect, quiet, responses. destruct (life w) as [|n]; [done|]. cbn [store].
  destruct (m (store w)) as [c [a|e]]; cbn [fst log]; rewrite omap_app; apply app_nil_r.
Qed.

Lemma now_same w :
  let '(w', e) := now_unix_ms w in
  store w' = store w /\ log w' = log w
  /\ match e with Done ms => is_i64 ms = true | _ => True end.
Proof.
  unfold now_unix_ms, effect. destruct (life w); [done|]. cbn.
  destruct (clock w) as [|[ms|] rest]; cbn; [done| |done].
  destruct (within 0 i64_max ms) eqn:E; split_and!; try done. unfold is_i64. b2p. unfold i64_min. lia.
Qed.

Lemma write_response_effect status body w :
  let '(w', _) := write_response status body w in
  store w' = store w /\ (quiet w w' \/ responds w w' status body).
Proof.
  unfold write_response, write_wire, effect. destruct (life w); [split; [done|by left]|].
  cbn [store log writes life clock networks]. destruct (default false (head (writes w))); split; try done;
    right; unfold responds, responses; cbn [log]; by rewrite omap_app.
Qed.

Lemma spec_admit_stored id key same r db db' a :
  unique_keys (m3_messages db) ->
  spec_admit id key same r db = Ok (db', a) ->
  match a with
  | New i => i = id /\ m3_messages db' !! i = Some r
  | Existing i => exists r', m3_messages db' !! i = Some r' /\ idempotency_key r' = key
                             /\ same r' = true /\ db' = db
  end.
Proof.
  intros Hu. unfold spec_admit. destruct (find_by_key key db) as [[i r']|] eqn:E.
  - destruct (same r') eqn:Hs; [|done]. intros [= <- <-].
    apply find_by_key_Some in E as [Hm Hk]; [|done]. by exists r'.
  - destruct (_ && _); [|done]. intros [= <- <-]. split; [done|].
    unfold put, set_messages. cbn [m3_messages]. by rewrite lookup_insert_eq.
Qed.

(** ** Theorems *)

(** C8: on a healthy store, dispatching hands over the oldest due message once and
    records its outcome, for every driver, every payload and every outcome: the
    table afterwards differs exactly in that message's row, which is [settled], or
    still "sending" when the driver panicked. *)
Theorem dispatch_due_settles `{Serde} driver wa w now1 now2 rest n id r :
  wf (durable (store w)) -> healthy w ->
  clock w = Some now1 :: Some now2 :: rest -> within 0 i64_max now1 = true ->
  within 0 i64_max now2 = true -> is_i64 (now2 + 1000) = true ->
  life w = S (S (S (S (S n)))) ->
  due_candidate now1 (durable (store w)) = Some (id, r) -> attempts r < 5 ->
  let a := due_attempt driver wa (delivery_of id r) (default NoConnection (head (networks w))) in
  (forall ack, exit a = Returned (Ok (Connectors.Accepted ack)) ->
     is_bytes ack = true /\ valid_acknowledgement ack = true) ->
  let '(w', e) := dispatch_due driver wa w in
  durable (store w')
    = put id (settled (set_status r Sending (attempts r + 1) None None None now1) now2 (exit a))
        (durable (store w))
  /\ e = match exit a with Returned _ => Done tt | Panicked => Dead end.
Proof.
  intros Hwf Hh Hc H1 H2 Hnext Hl Hdue Hatt a Hack.
  set (db := durable (store w)) in *. set (r1 := set_status r Sending (attempts r + 1) None None None now1).
  assert (spec (OpClaim now1) db = Ok (put id r1 db, RClaimed (Some (delivery_of id r)))) as Hsp.
  { cbn [spec]. unfold spec_claim. rewrite Hdue. by destruct (Z.ltb_spec (attempts r) 5); [|lia]. }
  assert (is_i64 now1 = true) as Hty by (unfold is_i64 in *; b2p; unfold i64_min in *; lia).
  unfold dispatch_due, mbind, Proc_bind.
  rewrite (now_run w now1 (Some now2 :: rest) (S (S (S (S n))))) by done.
  set (w1 := mkWorld (store w) (Some now2 :: rest) _ _ _ _).
  destruct (call_run _ (OpClaim now1) (m2_claim_due now1) RClaimed w1 (S (S (S n)))
    (put id r1 db) (Some (delivery_of id r))) as (w2 & Hrun & Hdb2 & _ & Hl2 & Hc2 & Hn2 & Hh2);
    try done; [by intros ?? [= ->]|].
  specialize (Hh2 (linked_claim now1)). unfold call_claim. rewrite Hrun. cbn [expect].
  destruct (deliver_due_run driver wa (delivery_of id r) w2 (S (S n)) Hl2)
    as (w3 & (Hs3 & Hc3 & Hl3 & _) & ->).
  rewrite Hn2. change (networks w1) with (networks w). fold a.
  assert (m3_messages (durable (store w3)) !! id = Some r1) as Hr1
    by (rewrite Hs3, Hdb2; unfold put, set_messages; cbn [m3_messages]; apply lookup_insert_eq).
  assert (wf (durable (store w3))) as Hwf3 by (rewrite Hs3, Hdb2; by eapply spec_wf).
  destruct (exit a) as [o|] eqn:Ea.
  - destruct (record_run id o w3 now2 rest n r1) as (w4 & Hrec & Hdb4); try done.
    + unfold healthy. by rewrite Hs3.
    + by rewrite Hc3, Hc2.
    + intros ack ->. destruct (Hack ack eq_refl) as [Hb Hv]. by apply valid_text_of_bytes.
    + cbn [delivery_of d_message_id]. rewrite Hrec. cbn [expect]. split; [|done].
      rewrite Hdb4, Hs3, Hdb2. unfold put, set_messages. cbn. by rewrite insert_insert_eq.
  - split; [|done]. by rewrite Hs3, Hdb2.
Qed.

(** What the answer to an admission says is what the store answered. *)
Lemma respond_accepted_effect accepted w status body :
  status = 200 \/ status = 202 ->
  let '(w', _) := respond_accepted accepted w in
  store w' = store w
  /\ (quiet w w' \/ (responds w w' status body ->
        exists id dup, body = json_result (as_bytes id) dup
          /\ accepted = Ok (if dup then Existing id else New id))).
Proof.
  intros Hst. unfold respond_accepted.
  assert (forall st b (P : Prop), (st = status -> b = body -> P) ->
    let '(w', _) := write_response st b w in
    store w' = store w /\ (quiet w w' \/ (responds w w' status body -> P))) as Hw.
  { intros st b P HP. pose proof (write_response_effect st b w) as H.
    destruct (write_response st b w) as [w' e]. destruct H as [Hs [Hq|Hr]]; split; auto.
    right. unfold responds in *. rewrite Hr. intros [_ [= -> ->]]%app_inj_tail. by apply HP. }
  destruct accepted as [[id|id]|err]; apply Hw; [intros _ <-; by exists id, false|
    intros _ <-; by exists id, true|intros <-; by destruct Hst].
Qed.

Lemma quiet_trans w w1 w' status body :
  quiet w w1 -> responds w w' status body -> responds w1 w' status body.
Proof. unfold quiet, responds. by intros ->. Qed.

(** An admission that is answered with success stored, or found, a message with
    property [P]. *)
Lemma admission_durable op m w status body (P : Row -> Prop) :
  exec op = (a ← m; mret (RSubmitted a)) -> typed op = true -> wf (durable (store w)) ->
  (forall db db' v, wf db -> spec op db = Ok (db', v) ->
     exists a, v = RSubmitted a
       /\ exists r, m3_messages db' !! (match a with New id | Existing id => id end) = Some r /\ P r) ->
  status = 200 \/ status = 202 ->
  let w' := (accepted ← store_call op m RSubmitted; respond_accepted accepted) w in
  responds w w'.1 status body ->
  exists id r dup, body = json_result (as_bytes id) dup
    /\ m3_messages (durable (store w'.1)) !! id = Some r /\ P r.
Proof.
  intros Hexec Hty Hwf Hspec Hst. unfold mbind, Proc_bind.
  pose proof (store_call_quiet _ op m RSubmitted w) as Hq.
  destruct (store_call op m RSubmitted w) as [w1 [accepted|msg|]] eqn:Ecall; cbn [fst] in *;
    [|intros H; by destruct (quiet_responds _ _ _ _ Hq H)..].
  pose proof (respond_accepted_effect accepted w1 status body Hst) as Hr.
  destruct (respond_accepted accepted w1) as [w2 e2]. cbn [fst]. destruct Hr as [Hs2 Hr].
  intros Hresp. pose proof (quiet_trans _ _ _ _ _ Hq Hresp) as Hresp1.
  destruct Hr as [Hq2|Hr]; [by destruct (quiet_responds _ _ _ _ Hq2 Hresp1)|].
  destruct (Hr Hresp1) as (id & dup & -> & ->).
  apply (store_call_answer _ _ _ _ _ _ _ Hexec Hwf Hty) in Ecall as [Hsp _].
  destruct (Hspec _ _ _ Hwf Hsp) as (a & [= <-] & r & Hm & HP). rewrite Hs2.
  exists id, r, dup. split_and!; try done. by destruct dup.
Qed.

(** The same after reading the clock. *)
Lemma after_now_durable (f : Z -> Proc unit) w status body (Q : World -> Prop) :
  (forall now w1, is_i64 now = true -> store w1 = store w -> responds w1 (f now w1).1 status body ->
     Q (f now w1).1) ->
  responds w ((now ← now_unix_ms; f now) w).1 status body ->
  Q ((now ← now_unix_ms; f now) w).1.
Proof.
  intros Hf. unfold mbind, Proc_bind. pose proof (now_same w) as Hn.
  destruct (now_unix_ms w) as [w1 [now|msg|]]; destruct Hn as (Hs & Hl & Hms);
    assert (quiet w w1) as Hq by (unfold quiet; by rewrite Hl).
  - intros Hr. apply Hf; [done|done|]. by apply (quiet_trans w).
  - intros Hr. by destruct (quiet_responds _ _ _ _ Hq Hr).
  - intros Hr. by destruct (quiet_responds _ _ _ _ Hq Hr).
Qed.

(** ** Theorems: what an answer promises *)

(** C9: a local client that is told its message was accepted, or is already known,
    is told so after the message is in the durable tables under the returned
    identity with the submitted key, title and body, whatever calls of the store
    failed on the way. *)
Theorem handle_ntfy_durable config m w status body :
  wf (durable (store w)) -> status = 200 \/ status = 202 ->
  let w' := (handle_ntfy config m w).1 in
  responds w w' status body ->
  exists id r dup, body = json_result (as_bytes id) dup
    /\ m3_messages (durable (store w')) !! id = Some r
    /\ idempotency_key r = of_bytes (in_idempotency_key m)
    /\ Store.topic r = of_bytes (ntfy_topic config)
    /\ Store.title r = of_bytes <$> in_title m /\ Store.body r = of_bytes (in_body m).
Proof.
  intros Hwf Hst w' Hr. pattern w'. eapply after_now_durable; [|exact Hr].
  clear w' Hr. intros now w1 Hnow Hs.
  apply admission_durable; [done|done|by rewrite Hs| |done].
  intros db db' v Hdb Hsp. cbn [spec] in Hsp. set (s := mkM2Submission _ _ _ _) in *.
  destruct (validate_m2_submission s) as [[]|]; [|done].
  destruct (spec_admit _ _ _ _ db) as [[db1 a]|] eqn:Ea; [|done]. injection Hsp as <- <-.
  exists a. split; [done|]. apply spec_admit_stored in Ea; [|by apply wf_keys].
  destruct a as [id|id].
  - destruct Ea as [_ Hr]. by exists (m2_row s now).
  - destruct Ea as (r & Hr & Hk & Hsame & _). exists r. split; [done|].
    unfold m2_same in Hsame. b2p. by destruct Hsame as [[? ?] ?].
Qed.

(** Likewise for a WhatsApp template message: what is stored is the requested
    recipient and the canonical payload of a request the configured template
    accepts. *)
Theorem handle_whatsapp_durable `{Serde} config m w status body :
  wf (durable (store w)) -> status = 200 \/ status = 202 ->
  let w' := (handle_whatsapp config m w).1 in
  responds w w' status body ->
  exists wa payload id r dup, whatsapp config = Some wa
    /\ is_ok (Whatsapp.request_body
         (Whatsapp.mkTemplateRegistration (wa_template wa) (wa_locale wa) (wa_parameter_count wa))
         (Whatsapp.mkWhatsappMessage (wa_recipient m) (wa_request_template m)
            (wa_request_locale m) (wa_parameters m))) = true
    /\ canonical_whatsapp_payload m = Ok payload
    /\ body = json_result (as_bytes id) dup
    /\ m3_messages (durable (store w')) !! id = Some r
    /\ idempotency_key r = of_bytes (wa_idempotency_key m) /\ Store.driver r = "whatsapp"%string
    /\ Store.destination r = of_bytes (wa_recipient m) /\ Store.payload r = of_bytes payload.
Proof.
  intros Hwf Hst. unfold handle_whatsapp. cbv zeta.
  assert (forall st b, st <> 200 -> st <> 202 -> ~ responds w (write_response st b w).1 status body) as Hno.
  { intros st b H1 H2 Hr. pose proof (write_response_effect st b w) as He.
    destruct (write_response st b w) as [w' e]. destruct He as [_ [Hq|Hr']];
      [by apply (quiet_responds w w' status body Hq)|]. unfold responds in *. cbn [fst] in Hr.
    rewrite Hr' in Hr. apply app_inj_tail in Hr as [_ Hr]. simplify_eq. by destruct Hst. }
  destruct (whatsapp config) as [wa|]; [|intros Hr; by destruct (Hno 404 _ ltac:(lia) ltac:(lia) Hr)].
  destruct (is_ok _) eqn:Hok; cbn [negb]; [|intros Hr; by destruct (Hno 400 _ ltac:(lia) ltac:(lia) Hr)].
  destruct (canonical_whatsapp_payload m) as [payload|msg] eqn:Hp.
  2: { intros Hr. by destruct (quiet_responds w w status body eq_refl Hr). }
  intros Hr. exists wa, payload.
  match goal with |- context [store (fst (?m w))] => set (w' := fst (m w)) in * end.
  enough (exists id r dup, body = json_result (as_bytes id) dup
    /\ m3_messages (durable (store w')) !! id = Some r
    /\ idempotency_key r = of_bytes (wa_idempotency_key m) /\ Store.driver r = "whatsapp"%string
    /\ Store.destination r = of_bytes (wa_recipient m) /\ Store.payload r = of_bytes payload)
    as (id & r & dup & ? & ? & ? & ? & ? & ?) by (exists id, r, dup; by split_and!).
  pattern w'. eapply after_now_durable; [|exact Hr]. clear w' Hr. intros now w1 Hnow Hs.
  apply admission_durable; [done|done|by rewrite Hs| |done].
  intros db db' v Hdb Hsp. cbn [spec] in Hsp. set (s := mkM3Submission _ _ _ _) in *.
  destruct (negb (valid_m3 s)); [done|].
  destruct (spec_admit _ _ _ _ db) as [[db1 a]|] eqn:Ea; [|done]. injection Hsp as <- <-.
  exists a. split; [done|]. apply spec_admit_stored in Ea; [|by apply wf_keys].
  destruct a as [id|id].
  - destruct Ea as [_ Hr]. by eexists.
  - destruct Ea as (r & Hr & Hk & Hsame & _). exists r. split; [done|].
    unfold m3_same in Hsame. b2p. by destruct Hsame as [[? ?] ?].
Qed.

(** ** Theorems: the webhook *)

(** The one message of the one change of the one entry of a callback, which is the
    configured account's and phone's. *)
Definition callback_says `{Serde} (inbound : InboundConfig) (body sender message_id verb : bytes)
    (timestamp : Z) : Prop :=
  exists value entry change item metadata message text stamp,
    from_slice body = Some value
    /\ get value "entry" = Some (JArray [entry])
    /\ get entry "id" = Some (JString (waba_id inbound))
    /\ get entry "changes" = Some (JArray [change])
    /\ get change "field" = Some (JString (as_bytes "messages"))
    /\ get change "value" = Some item
    /\ get item "metadata" = Some metadata
    /\ get metadata "phone_number_id" = Some (JString (inbound_phone_id inbound))
    /\ get item "messages" = Some (JArray [message])
    /\ get message "from" = Some (JString sender)
    /\ get message "id" = Some (JString message_id)
    /\ get message "text" = Some text
    /\ get text "body" = Some (JString verb)
    /\ get message "timestamp" = Some (JString stamp)
    /\ parse_i64 stamp = Some timestamp.

(** A request of the provider: the header carries the MAC of the exact body under the
    application's secret, in hexadecimal. *)
Definition signed `{HmacSha256} (inbound : InboundConfig) (head body : bytes) : Prop :=
  exists encoded, header_once head (as_bytes "x-hub-signature-256") = Some (as_bytes "sha256=" ++ encoded)
    /\ len encoded = 64 /\ forallb is_ascii_hexdigit encoded = true
    /\ decode_pairs encoded = hmac (app_secret inbound) body.

Lemma only_item_Some v key item : only_item v key = Some item <-> get v key = Some (JArray [item]).
Proof.
  unfold only_item. destruct (get v key) as [[| | | |items|]|]; cbn; try (by split).
  destruct items as [|x [|y items]]; cbn; split; try done; by intros [= ->].
Qed.

Lemma text_is_true o s : text_is o s = true <-> o = Some (JString s).
Proof. unfold text_is. rewrite bool_decide_eq_true. destruct o as [[]|]; cbn; naive_solver. Qed.

Lemma as_text_Some o s : o ≫= as_str = Some s <-> o = Some (JString s).
Proof. destruct o as [[]|]; cbn; naive_solver. Qed.

Lemma callback_fields_Some `{Serde} body inbound sender message_id verb timestamp :
  callback_fields body inbound = Some (sender, message_id, verb, timestamp) ->
  callback_says inbound body sender message_id verb timestamp.
Proof.
  unfold callback_fields. intros (value & Hv & H1)%bind_Some.
  apply bind_Some in H1 as (entry & He%only_item_Some & H1).
  destruct (text_is (get entry "id") _) eqn:Hid; [|done]. apply text_is_true in Hid. cbn [negb] in H1.
  apply bind_Some in H1 as (change & Hc%only_item_Some & H1).
  destruct (text_is (get change "field") _) eqn:Hf; [|done]. apply text_is_true in Hf. cbn [negb] in H1.
  apply bind_Some in H1 as (item & Hi & H1). apply bind_Some in H1 as (metadata & Hm & H1).
  destruct (text_is (get metadata _) _) eqn:Hp; [|done]. apply text_is_true in Hp. cbn [negb] in H1.
  apply bind_Some in H1 as (message & Hmsg%only_item_Some & H1).
  apply bind_Some in H1 as (s & Hs%as_text_Some & H1). apply bind_Some in H1 as (i & Hmi%as_text_Some & H1).
  apply bind_Some in H1 as (text & Ht & H1). apply bind_Some in H1 as (b & Hb%as_text_Some & H1).
  apply bind_Some in H1 as (t & Hst & [= <- <- <- <-]). apply bind_Some in Hst as (stamp & Hst%as_text_Some & Hp64).
  exists value, entry, change, item, metadata, message, text, stamp. by split_and!.
Qed.

Lemma verify_signature_signed `{HmacSha256} inbound head body signature :
  header_once head (as_bytes "x-hub-signature-256") = Some signature ->
  verify_signature (app_secret inbound) body signature = true -> signed inbound head body.
Proof.
  unfold verify_signature. intros Hh. destruct (strip_prefix _ signature) as [encoded|] eqn:Es; [|done].
  apply strip_prefix_Some in Es as ->.
  destruct (Z.eqb_spec (len encoded) 64); [|done]. destruct (forallb is_ascii_hexdigit encoded) eqn:Hx; [|done].
  cbn. intros Hm%bool_decide_eq_true. by exists encoded.
Qed.

(** A callback with this body reaches the store of [w] as one call: the clock is read
    twice, and by its first reading the message is at most ten minutes old. *)
Definition submitted `{Serde} (inbound : InboundConfig) (body : bytes) (w : World) (c : Conn) : Prop :=
  exists sender message_id verb timestamp now now' submission,
    callback_says inbound body sender message_id verb timestamp
    /\ take 2 (clock w) = [Some now; Some now']
    /\ timestamp - 600 <= now / 1000 <= timestamp + 600
    /\ (verb = as_bytes "notify" \/ verb = as_bytes "status") /\ (sender, verb) ∈ policy inbound
    /\ Store.sender submission = of_bytes sender /\ Store.verb submission = of_bytes verb
    /\ provider_message_id submission = of_bytes message_id
    /\ c = (m4_submit_inbound submission now' (store w)).1.

Lemma write_tcp_same status body w : store (write_tcp_response status body w).1 = store w.
Proof.
  unfold write_tcp_response, write_wire, effect. destruct (life w); [done|].
  cbn [store writes]. by destruct (default false (head (writes w))).
Qed.

Lemma parse_callback_same `{Serde} body inbound w :
  let '(w', e) := parse_callback body inbound w in
  store w' = store w
  /\ match e with
     | Done (Some (sender, message_id, verb)) => exists timestamp now,
         callback_says inbound body sender message_id verb timestamp
         /\ head (clock w) = Some (Some now) /\ timestamp - 600 <= now / 1000 <= timestamp + 600
         /\ (verb = as_bytes "notify" \/ verb = as_bytes "status") /\ clock w' = tail (clock w)
     | _ => True
     end.
Proof.
  unfold parse_callback. destruct (callback_fields body inbound) as [[[[s i] v] t]|] eqn:Ef; [|done].
  unfold mbind, Proc_bind, attempt, now_unix_ms, effect. destruct (life w) as [|n]; [done|].
  cbn -[callback_ok as_bytes].
  destruct (clock w) as [|[ms|] rest]; cbn -[callback_ok as_bytes]; [done| |done].
  destruct (within 0 i64_max ms) eqn:Hms; [|done]. apply within_spec in Hms. split; [done|].
  destruct (callback_ok ms (s, i, v, t)) eqn:E; cbn [mret]; [|done]. exists t, ms.
  split; [by apply callback_fields_Some|]. split; [done|]. unfold callback_ok in E.
  rewrite Z.quot_div_nonneg in E by lia. rewrite !andb_true_iff, orb_true_iff, !bool_decide_eq_true, Z.leb_le in E.
  destruct E as ((((Habs & _) & _) & _) & Hv). split; [lia|]. by split.
Qed.

Lemma now_reads w :
  let '(w', e) := now_unix_ms w in
  store w' = store w /\ match e with Done now => head (clock w) = Some (Some now) | _ => True end.
Proof.
  unfold now_unix_ms, effect. destruct (life w); [done|]. cbn [clock].
  destruct (clock w) as [|[ms|] rest]; [done| |done]. cbn [head]. by destruct (within 0 i64_max ms).
Qed.

Lemma call_inbound_store s now w :
  let '(w', _) := call_inbound s now w in
  store w' = store w \/ store w' = (m4_submit_inbound s now (store w)).1.
Proof.
  unfold call_inbound, store_call, effect. destruct (life w); [by left|]. cbn [store].
  destruct (m4_submit_inbound s now (store w)) as [c r]. by right.
Qed.

(** From the verified callback on, the store sees one call. *)
Lemma handle_callback_store `{Serde} config i body w :
  store (handle_callback config i body w).1 = store w
  \/ submitted i body w (store (handle_callback config i body w).1).
Proof.
  unfold handle_callback, mbind, Proc_bind. pose proof (parse_callback_same body i w) as Hp.
  destruct (parse_callback body i w) as [w1 [[[[s m] v]|]|msg|]]; destruct Hp as [Hs Hf];
    try (by left); [|left; rewrite <- Hs; apply write_tcp_same].
  destruct (bool_decide_reflect ((s, v) ∈ policy i)) as [Hpol|]; cbn [negb];
    [|left; rewrite <- Hs; apply write_tcp_same].
  unfold propagate. destruct (inbound_delivery config i s v) as [[[[driver destination] payload]|]|msg];
    [|left; rewrite <- Hs; apply write_tcp_same|by left].
  destruct Hf as (t & now & Hsay & Hnow & [Hage Hage'] & Hverb & Hclock).
  pose proof (now_reads w1) as Hn. destruct (now_unix_ms w1) as [w2 [now'|msg|]]; destruct Hn as [Hs2 Hn];
    [|left; cbn [fst]; congruence..].
  set (sub := mkM4InboundSubmission _ _ _ _ _ _). pose proof (call_inbound_store sub now' w2) as Hcall.
  destruct (call_inbound sub now' w2) as [w3 e].
  assert (store w3 = store w \/ submitted i body w (store w3)) as Hw3.
  { rewrite Hs2, Hs in Hcall. destruct Hcall as [Hc|Hc]; [by left|right].
    exists s, m, v, t, now, now', sub. split_and!; try done. rewrite Hclock in Hn.
    destruct (clock w) as [|c0 [|c1 rest]]; try done. cbn in Hnow, Hn. injection Hnow as ->. by injection Hn as ->. }
  destruct e as [d|msg|]; [|exact Hw3..]. unfold expect. destruct d as [d|err]; [|exact Hw3].
  by rewrite write_tcp_same.
Qed.

(** C10: the public listener reaches the store only with a request that carries the
    provider's signature over its exact body and says one message of the configured
    account and phone, at most ten minutes away from the time that the clock then reads,
    whose sender is allowed the command it asks for; and what then reaches the store is one
    call that submits that sender's command under the provider's identity of the message.
    Every other request leaves the store connection untouched. *)
Theorem inbound_authenticated `{Serde} `{HmacSha256} config stream w :
  let w' := (handle_inbound_request config stream w).1 in
  store w' = store w
  \/ exists i head body,
       inbound config = Some i
       /\ read_http_request [] stream = Ok (Some (head, body))
       /\ hd_error (split_crlf head) = Some (as_bytes "POST /v1/whatsapp/webhook HTTP/1.1")
       /\ header_once head (as_bytes "content-type") = Some (as_bytes "application/json")
       /\ signed i head body
       /\ submitted i body w (store w').
Proof.
  cbv zeta. unfold handle_inbound_request. destruct (inbound config) as [i|]; [|by left].
  unfold mbind, Proc_bind, read_webhook.
  destruct (read_http_request [] stream) as [[[head body]|]|[]] eqn:Eread; try by left.
  2: { left. apply write_tcp_same. }
  destruct (split_crlf head) as [|line rest] eqn:Eline; cbn [hd_error default].
  { left. apply write_tcp_same. }
  unfold id. destruct (starts_with WEBHOOK_GET line).
  { left. unfold propagate. destruct (webhook_query line) as [q|]; cbn [ok_or]; [|done].
    destruct (handle_subscription q (verify_token i)). apply write_tcp_same. }
  destruct (bool_decide_reflect (line = as_bytes "POST /v1/whatsapp/webhook HTTP/1.1")) as [->|];
    cbn [negb]; [|left; apply write_tcp_same].
  destruct (header_once head (as_bytes "x-hub-signature-256")) as [signature|] eqn:Esig;
    [|left; apply write_tcp_same].
  destruct (bool_decide_reflect (header_once head (as_bytes "content-type")
    = Some (as_bytes "application/json"))) as [Hct|]; cbn [negb orb]; [|left; apply write_tcp_same].
  destruct (verify_signature (app_secret i) body signature) eqn:Ev; cbn [negb];
    [|left; apply write_tcp_same].
  destruct (handle_callback_store config i body w) as [Hs|Hs]; [by left|right].
  exists i, head, body. rewrite Eline. split_and!; try done. by eapply verify_signature_signed.
Qed.

(** ** Theorems: the canonical payload *)

Lemma string_items_strings l : string_items (JArray (map JString l)) = Some l.
Proof.
  unfold string_items. cbn. rewrite map_map. cbn [as_str].
  induction l as [|x l IH]; [done|]. cbn. by rewrite IH.
Qed.

(** The payload stored for a WhatsApp message, read back when the message is
    dispatched, gives the requested template, locale and parameters; and nothing
    else is taken for a payload but the one text the service writes for it. *)
Theorem canonical_payload_roundtrip `{Serde} c payload :
  is_bytes payload = true -> from_slice payload = Some (payload_json c) ->
  (to_vec (payload_json c) = Some payload <->
   parse_canonical_whatsapp_payload (as_bytes (of_bytes payload)) = Some c).
Proof.
  intros Hb Hread. rewrite as_bytes_of_bytes by done. unfold parse_canonical_whatsapp_payload.
  rewrite Hread. destruct c as [template locale params].
  set (object := [(as_bytes "locale", JString locale);
                  (as_bytes "params", JArray (map JString params));
                  (as_bytes "template", JString template)]).
  change (payload_json (mkCanonical template locale params)) with (JObject object).
  assert (field object (as_bytes "params") = Some (JArray (map JString params))) as Hp by reflexivity.
  assert (field object (as_bytes "template") = Some (JString template)) as Ht by reflexivity.
  assert (field object (as_bytes "locale") = Some (JString locale)) as Hl by reflexivity.
  cbn [as_object mbind option_bind]. rewrite Hp, Ht, Hl.
  assert (forallb (fun key => contains_key object (as_bytes key))
    ["template"; "locale"; "params"]%string = true) as -> by reflexivity.
  change (Z.of_nat (length object) =? 3) with true. cbn [negb orb].
  cbn [mbind option_bind]. rewrite string_items_strings. cbn [mbind option_bind as_str].
  change (payload_json (mkCanonical template locale params)) with (JObject object).
  destruct (to_vec (JObject object)) as [p|]; [|done]. cbn [mbind option_bind].
  by destruct (bool_decide_reflect (p = payload)) as [->|]; split; intros; simplify_eq.
Qed.

(** ** Witnesses *)

(** Reads nothing but the object of [sample_payload], and writes only that. *)
Definition sample_canonical : CanonicalWhatsappPayload :=
  mkCanonical (as_bytes "notice") (as_bytes "en_US") [as_bytes "ok"].
Definition sample_payload : bytes := as_bytes "{canonical}".

#[local] Instance sample_serde : Serde :=
  {| from_slice := fun l => if bool_decide (l = sample_payload)
                            then Some (payload_json sample_canonical) else None;
     to_vec := fun _ => Some sample_payload |}.

Lemma canonical_payload_roundtrip_witness :
  parse_canonical_whatsapp_payload (as_bytes (of_bytes sample_payload)) = Some sample_canonical.
Proof.
  apply (canonical_payload_roundtrip sample_canonical sample_payload); vm_compute; reflexivity.
Defined.

Definition sample_world (db : Db) (networks : list Network) : World :=
  mkWorld (mkConn true db db []) (map Some [10; 20; 30]) networks [] 9 [].

Definition one_message : Db :=
  durable (run [Call (OpM2Submit (mkM2Submission "k" "alerts" None "hello") 0)] (live empty_db)).1.
Definition one_row : Row := m2_row (mkM2Submission "k" "alerts" None "hello") 0.
Definition one_id : string := m2_message_id (mkM2Submission "k" "alerts" None "hello").

Definition local_driver : Driver := DriverNtfy (Ntfy.mkNtfyEndpoint (as_bytes "localhost") 80 []).

(** No connection: the message is scheduled again, one second later. *)
Lemma dispatch_due_settles_witness :
  let '(w', e) := dispatch_due local_driver None (sample_world one_message []) in
  durable (store w')
    = put one_id (set_status one_row RetryScheduled 1 (Some 1020) None None 20) one_message
  /\ e = Done tt.
Proof.
  apply (dispatch_due_settles local_driver None (sample_world one_message []) 10 20 [Some 30] 4
    one_id one_row).
  - apply wf_after. reflexivity.
  - split; reflexivity.
  - reflexivity.
  - reflexivity.
  - reflexivity.
  - reflexivity.
  - reflexivity.
  - vm_compute. reflexivity.
  - reflexivity.
  - intros ack. vm_compute. discriminate.
Defined.

Definition local_config : ServiceConfig :=
  mkServiceConfig (as_bytes "http://localhost") (as_bytes "alerts")
    (Some (mkWhatsappConfig local_driver (as_bytes "notice") (as_bytes "en_US") 1)) None.

Lemma handle_ntfy_durable_witness :
  let m := mkIncomingMessage (as_bytes "k") (as_bytes "hello") None in
  let w' := (handle_ntfy local_config m (sample_world empty_db [])).1 in
  exists id r dup, json_result (as_bytes one_id) false = json_result (as_bytes id) dup
    /\ m3_messages (durable (store w')) !! id = Some r
    /\ idempotency_key r = of_bytes (in_idempotency_key m)
    /\ Store.topic r = of_bytes (ntfy_topic local_config)
    /\ Store.title r = of_bytes <$> in_title m /\ Store.body r = of_bytes (in_body m).
Proof.
  apply (handle_ntfy_durable local_config _ _ 202); [exact wf_empty|by right|].
  vm_compute. reflexivity.
Defined.

Definition sample_template : IncomingWhatsappMessage :=
  mkIncomingWhatsappMessage (as_bytes "k") (as_bytes "+15551234567") (as_bytes "notice")
    (as_bytes "en_US") [as_bytes "ok"].
Definition template_id : string :=
  m3_message_id (mkM3Submission "k" "whatsapp" "+15551234567" "{canonical}").

Lemma handle_whatsapp_durable_witness :
  let w' := (handle_whatsapp local_config sample_template (sample_world empty_db [])).1 in
  exists wa payload id r dup, whatsapp local_config = Some wa
    /\ is_ok (Whatsapp.request_body
         (Whatsapp.mkTemplateRegistration (wa_template wa) (wa_locale wa) (wa_parameter_count wa))
         (Whatsapp.mkWhatsappMessage (wa_recipient sample_template)
            (wa_request_template sample_template) (wa_request_locale sample_template)
            (wa_parameters sample_template))) = true
    /\ canonical_whatsapp_payload sample_template = Ok payload
    /\ json_result (as_bytes template_id) false = json_result (as_bytes id) dup
    /\ m3_messages (durable (store w')) !! id = Some r
    /\ idempotency_key r = of_bytes (wa_idempotency_key sample_template)
    /\ Store.driver r = "whatsapp"%string
    /\ Store.destination r = of_bytes (wa_recipient sample_template)
    /\ Store.payload r = of_bytes payload.
Proof.
  apply (handle_whatsapp_durable local_config sample_template _ 202); [exact wf_empty|by right|].
  vm_compute. reflexivity.
Defined.
