(* ===== verification/Client.v ===== *)
(** * The client ([crates/msgriver-client/src/lib.rs])

    The submission the command-line client writes to the service's socket, and how
    it reads the answer; with the theorems that the service reads the one and
    writes the other. *)

From S2P Require Import Prelude Bytes Text Json JsonText Http Service.

#[local] Open Scope Z_scope.

Definition MAX_RESPONSE : Z := 16 * 1024.

Record SubmitRequest : Type := mkSubmitRequest {
  idempotency_key : bytes;
  body : bytes;
  title : option bytes
}.

Record SubmitResponse : Type := mkSubmitResponse {
  message_id : bytes;
  deduplicated : bool
}.

Inductive ClientError : Type := InvalidRequest | Connect | Transport | Rejected | BadResponse.

Definition validate_request (request : SubmitRequest) : result ClientError unit :=
  if bool_decide (idempotency_key request = []) || (128 <? len (idempotency_key request))
     || negb (forallb (fun b => is_ascii_alphanumeric b || (b =? 45) || (b =? 95) || (b =? 46))
                (idempotency_key request))
     || bool_decide (body request = []) || (4096 <? len (body request))
     || contains_any [0] (body request)
     || match title request with
        | Some title => bool_decide (title = []) || (256 <? len title) || contains_any [0] title
        | None => false
        end
  then Err InvalidRequest else Ok tt.

(** [\uXXXX] of a control character; they are all below U+00A0. *)
Definition escape_unicode (code : Z) : bytes :=
  [92; 117; 48; 48; hex_digit (Z.land (Z.shiftr code 4) 15); hex_digit (Z.land code 15)].

(** One ASCII character of the loop of [json_escape]. *)
Definition escape_ascii (b : Z) : bytes :=
  if b =? 34 then [92; 34]
  else if b =? 92 then [92; 92]
  else if b =? 10 then [92; 110]
  else if b =? 13 then [92; 114]
  else if b =? 9 then [92; 116]
  else if is_ascii_control b then escape_unicode b
  else [b].

(** The loop of [json_escape] on the encoded text: the control characters beyond
    ASCII, U+0080 to U+009F, are the sequences of byte 194 and a byte up to 159;
    every other sequence is copied. *)
Fixpoint json_escape (l : bytes) : bytes :=
  match l with
  | [] => []
  | b :: rest =>
    match rest with
    | c :: rest' =>
      if (b =? 194) && within 128 159 c then escape_unicode c ++ json_escape rest'
      else escape_ascii b ++ json_escape rest
    | [] => escape_ascii b
    end
  end.

Definition json_body (request : SubmitRequest) : bytes :=
  [123] ++ quoted (as_bytes "idempotency_key") ++ [58]
  ++ quoted (json_escape (idempotency_key request))
  ++ [44] ++ quoted (as_bytes "body") ++ [58] ++ quoted (json_escape (body request))
  ++ [44] ++ quoted (as_bytes "title") ++ [58]
  ++ match title request with
     | Some title => quoted (json_escape title)
     | None => as_bytes "null"
     end
  ++ [125].

Definition request_head (length : Z) : bytes :=
  as_bytes "POST /v1/messages HTTP/1.1" ++ CRLF ++ as_bytes "Host: local" ++ CRLF
  ++ as_bytes "Content-Type: application/json" ++ CRLF
  ++ as_bytes "Content-Length: " ++ decimal length ++ CRLF
  ++ as_bytes "Connection: close" ++ CRLF ++ CRLF.

Fixpoint read_response (response : bytes) (reads : Reads) : result ClientError bytes :=
  if MAX_RESPONSE <=? len response then Err BadResponse
  else match reads with
  | Some [] :: _ => Ok response
  | Some chunk :: rest => read_response (response ++ chunk) rest
  | _ => Err Transport
  end.

(** [split_once] at a text. *)
Definition split_once_at (needle l : bytes) : option (bytes * bytes) :=
  n ← position needle l; Some (take n l, drop (n + length needle) l).

Definition contains (needle l : bytes) : bool := bool_decide (is_Some (position needle l)).

Definition json_string_field (body key : bytes) : option bytes :=
  '(_, rest) ← split_once_at (quoted key ++ [58; 34]) body;
  '(value, _) ← split_once 34 rest;
  if (len value =? 64) && forallb is_ascii_hexdigit value then Some value else None.

Definition parse_response (response : bytes) : result ClientError SubmitResponse :=
  separator ← ok_or (position CRLFCRLF response) BadResponse;
  let head_bytes := take separator response in
  if negb (is_utf8 head_bytes) then Err BadResponse
  else
    status ← ok_or (line ← head (lines head_bytes); split_ascii_whitespace line !! 1%nat) BadResponse;
    if existsb (fun s => bool_decide (status = as_bytes s)) ["409"; "400"; "401"; "403"]%string
    then Err Rejected
    else if negb (existsb (fun s => bool_decide (status = as_bytes s)) ["202"; "200"]%string)
    then Err BadResponse
    else
      let body := drop (separator + 4) response in
      if negb (is_utf8 body) then Err BadResponse
      else
        id ← ok_or (json_string_field body (as_bytes "message_id")) BadResponse;
        Ok (mkSubmitResponse id
              (contains (quoted (as_bytes "deduplicated") ++ [58] ++ as_bytes "true") body)).

(** What the environment did with the submission: no connection, a failed write,
    or these reads after the request was written. *)
Definition submit (request : SubmitRequest) (connection : option (bytes -> option Reads))
    : result ClientError SubmitResponse :=
  validate_request request ;;
  match connection with
  | None => Err Connect
  | Some service =>
    let body := json_body request in
    match service (request_head (len body) ++ body) with
    | None => Err Transport
    | Some reads => response ← read_response [] reads; parse_response response
    end
  end.

Example escape_example :
  json_escape (as_bytes "a" ++ [34; 10; 1; 194; 133; 195; 169])
  = as_bytes "a" ++ [92; 34; 92; 110] ++ as_bytes "\u0001\u0085" ++ [195; 169].
Proof. vm_compute. reflexivity. Qed.

(** ** Lemmas: escapes *)

Lemma escape_unicode_spec code l :
  0 <= code < 160 ->
  json_unescape (escape_unicode code ++ l) = app (utf8_below_800 code) <$> json_unescape l.
Proof.
  intros Hc. unfold escape_unicode.
  set (h1 := hex_digit (Z.land (Z.shiftr code 4) 15)). set (h0 := hex_digit (Z.land code 15)).
  assert ((117 =? 117) && (48 =? 48) && is_ascii_hexdigit 48 && is_ascii_hexdigit h1 && is_ascii_hexdigit h0
          && ((hexdigit_value 48 * 16 + hexdigit_value h1) * 16 + hexdigit_value h0 <? 2048)
          && ((hexdigit_value 48 * 16 + hexdigit_value h1) * 16 + hexdigit_value h0 =? code) = true) as H.
  { subst h1 h0. by_range 160%nat code. }
  apply andb_true_iff in H as [H He]. apply Z.eqb_eq in He. cbn [app json_unescape].
  change (92 =? 92) with true. change (simple_escape 117) with (@None Z). cbv iota zeta. by rewrite H, He.
Qed.

Lemma escape_ascii_spec b l :
  is_byte b = true -> json_unescape (escape_ascii b ++ l) = cons b <$> json_unescape l.
Proof.
  intros Hb%(within_spec 0 255). unfold escape_ascii.
  destruct (Z.eqb_spec b 34) as [->|H34]; [done|]. destruct (Z.eqb_spec b 92) as [->|H92]; [done|].
  destruct (Z.eqb_spec b 10) as [->|]; [done|]. destruct (Z.eqb_spec b 13) as [->|]; [done|].
  destruct (Z.eqb_spec b 9) as [->|]; [done|].
  destruct (is_ascii_control b) eqn:Hc; unfold is_ascii_control, within in Hc.
  - assert (b < 32 \/ b = 127) as Hr by (b2p; lia).
    rewrite escape_unicode_spec by lia. unfold utf8_below_800.
    by destruct (Z.ltb_spec b 128); [|lia].
  - cbn [app]. rewrite json_unescape_plain by done.
    destruct ((b =? 34) || (b <? 32)) eqn:E; [exfalso; b2p; lia|done].
Qed.

(** ** Lemmas: the request on the wire *)

Definition request_lines (length : Z) : list bytes :=
  [as_bytes "POST /v1/messages HTTP/1.1"; as_bytes "Host: local";
   as_bytes "Content-Type: application/json"; as_bytes "Content-Length: " ++ decimal length;
   as_bytes "Connection: close"].

Lemma request_head_lines n : request_head n = join_crlf (request_lines n) ++ CRLFCRLF.
Proof.
  unfold request_head, request_lines. change CRLFCRLF with (CRLF ++ CRLF). cbn [join_crlf].
  by rewrite <- !app_assoc.
Qed.

Lemma request_lines_ascii n : 0 <= n -> is_utf8 (join_crlf (request_lines n)) = true.
Proof.
  intros Hn. apply ascii_is_utf8. unfold request_lines. cbn [join_crlf].
  rewrite !forallb_app, (digits_ascii _ (decimal_digits n Hn)). reflexivity.
Qed.

Lemma request_lines_plain n : 0 <= n -> Forall (fun l => cr_free l = true /\ l <> []) (request_lines n).
Proof.
  intros Hn. unfold request_lines.
  repeat (apply Forall_cons; split); try (split; [|done]); try done.
  rewrite cr_free_app, (digit_cr_free (decimal n)); [done|]. by apply decimal_digits.
Qed.

Lemma request_content_length n :
  0 <= n <= u64_max -> content_length (join_crlf (request_lines n)) = Some (RouteNtfy, n).
Proof.
  intros Hn. unfold content_length. rewrite split_crlf_join; [|done|].
  2: { apply (Forall_impl _ _ _ (request_lines_plain n ltac:(lia))). by intros ? [? _]. }
  unfold request_lines. change (local_route _) with (Some RouteNtfy).
  cbn [mbind option_bind].
  assert (length_loop [as_bytes "Host: local"; as_bytes "Content-Type: application/json";
    as_bytes "Content-Length: " ++ decimal n; as_bytes "Connection: close"] None
    = Some (parse_usize (trim (32 :: decimal n)))) as -> by reflexivity.
  by rewrite parse_usize_decimal.
Qed.

(** Escaping loses nothing: read as the characters of a JSON string (RFC 8259),
    the escaped text is the original text, whatever its bytes; in particular it
    holds no bare quote or control character that would end the string early. *)
Theorem json_escape_roundtrip l :
  is_bytes l = true -> json_unescape (json_escape l) = Some l.
Proof.
  induction l as [l IH] using (induction_ltof1 _ (@length Z)). unfold ltof in IH.
  intros Hb. destruct l as [|b [|c rest]]; [done| |].
  - cbn [json_escape]. rewrite <- (app_nil_r (escape_ascii b)). cbn in Hb.
    rewrite escape_ascii_spec; [done|]. by destruct (is_byte b).
  - cbn [is_bytes forallb] in Hb. apply andb_true_iff in Hb as [Hbb Hb].
    cbn [json_escape]. destruct ((b =? 194) && within 128 159 c) eqn:E.
    + apply andb_true_iff in E as [Hb194 Hc]. apply Z.eqb_eq in Hb194. subst b.
      apply within_spec in Hc. rewrite escape_unicode_spec by lia. apply andb_true_iff in Hb as [_ Hr].
      rewrite IH; [|cbn; lia|done]. unfold utf8_below_800.
      destruct (Z.ltb_spec c 128); [lia|].
      assert (192 + c / 64 = 194 /\ 128 + c mod 64 = c) as [H1 H2]
        by (Z.to_euclidean_division_equations; lia).
      cbn [fmap option_fmap option_map app]. by rewrite H1, H2.
    + change (json_unescape (escape_ascii b ++ json_escape (c :: rest)) = Some (b :: c :: rest)).
      rewrite escape_ascii_spec by done. rewrite IH; [done|cbn; lia|done].
Qed.

(** ** The body as a JSON text *)

(** A string of Rust. *)
Definition str (s : bytes) : bool := is_bytes s && is_utf8 s.

Definition request_members (request : SubmitRequest) : list (bytes * option bytes) :=
  [(as_bytes "idempotency_key", Some (json_escape (idempotency_key request)));
   (as_bytes "body", Some (json_escape (body request)));
   (as_bytes "title", json_escape <$> title request)].

Definition request_fields (request : SubmitRequest) : list (bytes * Json) :=
  [(as_bytes "idempotency_key", JString (idempotency_key request)); (as_bytes "body", JString (body request));
   (as_bytes "title", match title request with Some title => JString title | None => JNull end)].

Lemma json_body_text request : json_body request = object_text (request_members request).
Proof.
  unfold json_body, object_text, request_members. cbn [members_text]. unfold member_text, quoted, quote. cbn [fst snd].
  destruct (title request); cbn [fmap option_fmap option_map value_text]; unfold quote; rewrite <- !app_assoc; reflexivity.
Qed.

Lemma escape_denotes s : str s = true -> denotes_string (json_escape s) s.
Proof. intros [Hb Hu]%andb_true_iff. split; [by apply json_escape_roundtrip|done]. Qed.

Lemma request_denotes request :
  str (idempotency_key request) = true -> str (body request) = true ->
  (forall title, Client.title request = Some title -> str title = true) ->
  Forall2 denotes_member (request_members request) (request_fields request).
Proof.
  intros Hk Hb Ht. unfold request_members, request_fields. repeat apply Forall2_cons_2; [..|apply Forall2_nil_2].
  - split; [by vm_compute|]. eexists. split; [by apply escape_denotes|done].
  - split; [by vm_compute|]. eexists. split; [by apply escape_denotes|done].
  - split; [by vm_compute|]. cbn [snd]. destruct (title request) as [title|]; [|done]. cbn.
    eexists. split; [by apply escape_denotes, Ht|done].
Qed.

(** The service takes the three fields from any order of them. *)
Lemma parse_request_fields request sorted :
  sorted ≡ₚ request_fields request ->
  parse_ntfy_request sorted
  = Some (mkIncomingMessage (idempotency_key request) (body request) (title request)).
Proof.
  intros Hp. assert (NoDup (map fst (request_fields request))) as Hn
    by (apply (bool_decide_eq_true_1 _); vm_compute; reflexivity).
  unfold parse_ntfy_request. rewrite (Permutation_length Hp).
  rewrite (contains_permutation _ _ (as_bytes "title") _ Hp ltac:(right; right; left)). cbn [negb orb length Z.of_nat].
  change (Z.of_nat (length (request_fields request)) =? 3) with true. cbn [negb orb].
  rewrite (field_permutation _ _ (as_bytes "idempotency_key") _ Hp Hn ltac:(left)).
  rewrite (field_permutation _ _ (as_bytes "body") _ Hp Hn ltac:(right; left)).
  rewrite (field_permutation _ _ (as_bytes "title") _ Hp Hn ltac:(right; right; left)).
  cbn [mbind option_bind as_str]. by destruct (title request).
Qed.

(** C30: what the client writes, the service reads: a submission of any strings whose request
    fits the service's limit arrives, however the socket cuts it, as the key, body and title
    that the client was given, for every JSON parser that reads the text of a flat object, its
    strings escaped as RFC 8259 has it, as that object. *)
Theorem client_request_read (serde : Serde) `{!ReadsObjects serde} request chunks extra :
  str (idempotency_key request) = true -> str (body request) = true ->
  (forall title, Client.title request = Some title -> str title = true) ->
  let text := json_body request in
  len (request_head (len text) ++ text) <= MAX_REQUEST ->
  Forall (fun c => c <> []) chunks -> concat chunks = request_head (len text) ++ text ->
  read_request (delivers chunks extra)
  = Ok (Some (IncomingNtfy (mkIncomingMessage (idempotency_key request) (body request)
                              (title request)))).
Proof.
  intros Hk Hb Ht text Hlen Hne Hchunks. rewrite request_head_lines, <- app_assoc in *.
  assert (0 <= len text) as Hpos by (unfold len; lia).
  assert (len text <= u64_max) as Hmax.
  { rewrite !len_app in Hlen. unfold len, MAX_REQUEST, u64_max in *. lia. }
  unfold read_request. rewrite (read_framed_delivers (join_crlf (request_lines (len text))) text RouteNtfy);
    [|by apply request_lines_ascii|by apply request_content_length|done|done| |done|done].
  2: { apply position_join; [done|by apply request_lines_plain]. }
  cbn [mbind result_bind option_bind incoming_request].
  destruct (reads_object (request_members request) (request_fields request)) as (sorted & Hp & Hread);
    [done|by apply request_denotes|apply (bool_decide_eq_true_1 _); vm_compute; reflexivity|].
  unfold text. rewrite json_body_text, Hread.
  cbn [mbind option_bind as_object]. by rewrite (parse_request_fields request sorted Hp).
Qed.

(** ** Lemmas: the answer on the wire *)

(** Looking for a needle skips bytes that cannot start it. *)
Lemma position_skip c needle x r :
  forallb (fun b => negb (b =? c)) x = true ->
  position (c :: needle) (x ++ r) = (Nat.add (length x)) <$> position (c :: needle) r.
Proof.
  induction x as [|b x IH].
  - intros _. cbn [app]. by destruct (position (c :: needle) r).
  - intros [Hb Hx]%andb_true_iff. cbn [app position]. unfold starts_with. cbn [strip_prefix].
    rewrite Z.eqb_sym. apply negb_true_iff in Hb as ->. rewrite IH by done.
    by destruct (position (c :: needle) r).
Qed.

Lemma split_once_skip c x r :
  forallb (fun b => negb (b =? c)) x = true -> split_once c (x ++ c :: r) = Some (x, r).
Proof.
  induction x as [|b x IH].
  - intros _. cbn [app split_once]. by rewrite Z.eqb_refl.
  - intros [Hb Hx]%andb_true_iff. cbn [app split_once]. apply negb_true_iff in Hb as ->.
    by rewrite IH.
Qed.

Lemma position_next needle b l :
  starts_with needle (b :: l) = false -> position needle (b :: l) = S <$> position needle l.
Proof. intros H. cbn [position]. by rewrite H. Qed.

Definition answer_lines (status : Z) (reason : string) (length : Z) : list bytes :=
  [as_bytes "HTTP/1.1 " ++ decimal status ++ [32] ++ as_bytes reason;
   as_bytes "Content-Type: application/json"; as_bytes "Content-Length: " ++ decimal length;
   as_bytes "Connection: close"].

Definition answer_tail (dup : bool) : bytes :=
  [44] ++ quoted (as_bytes "deduplicated") ++ [58] ++ json_bool dup ++ [125].

Lemma json_result_shape id dup :
  json_result id dup
  = ([123] ++ quoted (as_bytes "message_id") ++ [58; 34]) ++ id ++ 34 :: answer_tail dup.
Proof.
  unfold json_result, json_members, answer_tail, quoted. cbn [flat_map].
  rewrite app_nil_r, <- !app_assoc. cbn [app]. reflexivity.
Qed.

Section answer.
Context (id : bytes) (Hid : len id = 64) (Hhex : forallb is_ascii_hexdigit id = true).

Lemma id_no_quote : forallb (fun b => negb (b =? 34)) id = true.
Proof.
  rewrite forallb_forall in *. intros b Hb. specialize (Hhex b Hb).
  unfold is_ascii_hexdigit, within in Hhex. b2p. lia.
Qed.

Lemma id_ascii : forallb is_ascii id = true.
Proof.
  rewrite forallb_forall in *. intros b Hb. specialize (Hhex b Hb).
  unfold is_ascii_hexdigit, is_ascii, within in *. b2p. lia.
Qed.

Lemma answer_utf8 dup : is_utf8 (json_result id dup) = true.
Proof.
  apply ascii_is_utf8. rewrite json_result_shape, !forallb_app. cbn [forallb].
  rewrite id_ascii. by destruct dup.
Qed.

Lemma answer_id dup : json_string_field (json_result id dup) (as_bytes "message_id") = Some id.
Proof.
  unfold json_string_field, split_once_at. rewrite json_result_shape.
  set (r := id ++ 34 :: answer_tail dup).
  assert (position (quoted (as_bytes "message_id") ++ [58; 34])
            (([123] ++ quoted (as_bytes "message_id") ++ [58; 34]) ++ r) = Some 1%nat) as -> by reflexivity.
  cbn [mbind option_bind]. change (drop _ _) with r. unfold r.
  rewrite split_once_skip by apply id_no_quote.
  cbn [mbind option_bind]. by rewrite Hid, Hhex.
Qed.

(** The text after the identity is where "deduplicated" is looked for. *)
Lemma answer_flag dup :
  contains (quoted (as_bytes "deduplicated") ++ [58] ++ as_bytes "true") (json_result id dup) = dup.
Proof.
  unfold contains. rewrite json_result_shape.
  set (needle := quoted (as_bytes "deduplicated") ++ [58] ++ as_bytes "true").
  assert (starts_with needle (34 :: id ++ 34 :: answer_tail dup) = false) as Hq.
  { unfold starts_with. let n := eval vm_compute in needle in change needle with n.
    destruct id as [|b0 [|b1 [|b2 [|b3 l]]]]; try done.
    cbn [forallb] in Hhex. rewrite !andb_true_iff in Hhex. destruct Hhex as (_ & _ & _ & H3 & _).
    assert ((117 =? b3) = false) as H117 by (apply Z.eqb_neq; by intros <-).
    cbn [app strip_prefix]. rewrite H117.
    change (34 =? 34) with true. cbv iota. by destruct (100 =? b0), (101 =? b1), (100 =? b2). }
  assert (position needle (([123] ++ quoted (as_bytes "message_id") ++ [58; 34])
            ++ id ++ 34 :: answer_tail dup)
          = Nat.add 15 <$> position needle (id ++ 34 :: answer_tail dup)) as ->.
  { cbn [app quoted as_bytes]. do 14 (rewrite position_next by reflexivity).
    rewrite position_next by exact Hq.
    by destruct (position needle (id ++ 34 :: answer_tail dup)). }
  assert (position needle (id ++ 34 :: answer_tail dup)
          = (Nat.add (length id)) <$> position needle (34 :: answer_tail dup)) as ->
    by (apply position_skip, id_no_quote).
  by destruct dup.
Qed.

Lemma answer_length dup :
  len (json_result id dup) = 64 + 33 + len (json_bool dup).
Proof.
  rewrite json_result_shape, !len_app, Hid.
  change (34 :: answer_tail dup) with ([34] ++ answer_tail dup). rewrite len_app.
  by destruct dup.
Qed.

(** The head of the answer is a closed text: its one length is known. *)
Lemma answer_wire (dup : bool) :
  let status := if dup then 200 else 202 in
  let reason := (if dup then "OK" else "Accepted")%string in
  response_wire status (json_result id dup)
  = join_crlf (answer_lines status reason (97 + len (json_bool dup))) ++ CRLFCRLF
    ++ json_result id dup.
Proof.
  cbv zeta. unfold response_wire, answer_lines. rewrite answer_length.
  change CRLFCRLF with (CRLF ++ CRLF). destruct dup; cbn [join_crlf Z.eqb Pos.eqb];
    rewrite <- !app_assoc; reflexivity.
Qed.
End answer.

Lemma drop_head h b : drop (length h + 4) (h ++ CRLFCRLF ++ b) = b.
Proof. rewrite app_assoc. apply drop_app_length'. rewrite length_app. cbn. lia. Qed.

(** What the service answers to an accepted or an already known message, the
    client reads as exactly that identity and that verdict. *)
Theorem client_reads_answer id (dup : bool) :
  len id = 64 -> forallb is_ascii_hexdigit id = true ->
  parse_response (response_wire (if dup then 200 else 202) (json_result id dup))
  = Ok (mkSubmitResponse id dup).
Proof.
  intros Hid Hhex. unfold parse_response. rewrite (answer_wire id Hid dup).
  set (h := join_crlf _).
  assert (position CRLFCRLF (h ++ CRLFCRLF ++ json_result id dup) = Some (length h)) as ->
    by (apply position_join; [done|by destruct dup; repeat constructor]).
  cbn [ok_or mbind result_bind]. cbv zeta. rewrite take_app_length, drop_head.
  assert (is_utf8 h = true) as -> by (subst h; by destruct dup; vm_compute).
  assert ((line ← head (lines h); split_ascii_whitespace line !! 1%nat)
          = Some (if dup then as_bytes "200" else as_bytes "202")) as ->
    by (subst h; by destruct dup; vm_compute).
  rewrite (answer_utf8 id Hhex), (answer_id id Hid Hhex), (answer_flag id Hid Hhex).
  by destruct dup.
Qed.

(** The client's limits are not the service's: a body of 4,096 control
    characters passes the client's checks, and its request is longer than the
    service reads, so it can never be submitted. *)
Theorem client_limit_unreachable :
  let request := mkSubmitRequest (as_bytes "k") (repeat 1 4096) None in
  validate_request request = Ok tt
  /\ MAX_REQUEST < len (request_head (len (json_body request)) ++ json_body request).
Proof. vm_compute. split; reflexivity. Qed.

(** ** Witnesses *)

(** A body with a quote, a line feed, a control character and letters beyond ASCII. *)
Definition sample_request : SubmitRequest :=
  mkSubmitRequest (as_bytes "k-1") (as_bytes "a" ++ [34; 10; 1; 194; 133; 195; 169]) (Some (as_bytes "t\u")).
Definition sample_wire : bytes :=
  request_head (len (json_body sample_request)) ++ json_body sample_request.

Lemma client_request_read_witness :
  read_request (H := flat_reader) (delivers [take 30 sample_wire; drop 30 sample_wire] [None])
  = Ok (Some (IncomingNtfy (mkIncomingMessage (as_bytes "k-1")
      (as_bytes "a" ++ [34; 10; 1; 194; 133; 195; 169]) (Some (as_bytes "t\u"))))).
Proof.
  apply (client_request_read flat_reader sample_request).
  - vm_compute. reflexivity.
  - vm_compute. reflexivity.
  - intros title [= <-]. vm_compute. reflexivity.
  - vm_compute. discriminate.
  - repeat constructor; vm_compute; discriminate.
  - vm_compute. reflexivity.
Defined.

Lemma json_escape_roundtrip_witness :
  json_unescape (json_escape [34; 92; 10; 1; 194; 133; 195; 169; 127]) = Some [34; 92; 10; 1; 194; 133; 195; 169; 127].
Proof. apply json_escape_roundtrip. reflexivity. Defined.

Lemma client_reads_answer_witness :
  parse_response (response_wire 202 (json_result (repeat 100 64) false))
  = Ok (mkSubmitResponse (repeat 100 64) false).
Proof. apply (client_reads_answer (repeat 100 64) false); vm_compute; reflexivity. Defined.
