(* ===== verification/Paths.v ===== *)
(** * Path segments of the protocol ([crates/msgriver-protocol/src/path.rs])

    The three codecs whose grammar is complete: provider identifiers, provider schema
    identifiers in unpadded base64url, and message identifiers. *)

From S2P Require Import Prelude Bytes.

#[local] Open Scope Z_scope.

(** The codecs of the catalog ([None] is here [NoneCodec]). *)
Inductive CodecId : Type :=
| BytesConfigurationActivationV1 | BytesConfigurationCandidateV1 | JsonAdminActionV1 | JsonAdmissionV1
| JsonAdmissionSetV1 | JsonApiKeyIssueV1 | JsonApiKeyPageV1 | JsonApiKeyRevokeResultV1 | JsonApiKeyRotateV1
| JsonApiKeySecretOnceV1 | JsonAttemptPageV1 | JsonAuditPageV1 | JsonBackupCreateV1 | JsonBackupJobV1
| JsonBackupManifestV1 | JsonBackupPageV1 | JsonBootstrapV1 | JsonBootstrapResultV1
| JsonClockAcknowledgementV1 | JsonClockStatusV1 | JsonConfigurationV1 | JsonConfigurationActivationV1
| JsonConfigurationValidationV1 | JsonConnectorPageV1 | JsonConnectorStatusV1 | JsonDeadLetterPageV1
| JsonDeadLetterReplayV1 | JsonDrainV1 | JsonDrainResultV1 | JsonGenerationGuardedActionV1 | JsonGrantV1
| JsonGrantDeleteResultV1 | JsonGrantPageV1 | JsonGrantSetV1 | JsonHealthV1 | JsonKeyRetirementV1
| JsonKeyRetirementResultV1 | JsonMessageAcceptanceV1 | JsonMessageCancelV1 | JsonMessagePageV1
| JsonMessageStatusV1 | JsonMessageSubmitV1 | JsonPayloadPurgeV1 | JsonPayloadPurgeResultV1
| JsonPeerMappingV1 | JsonPeerMappingCreateV1 | JsonPeerMappingDeleteResultV1 | JsonPeerMappingPageV1
| JsonPeerMappingUpdateV1 | JsonPrincipalV1 | JsonPrincipalCreateV1 | JsonPrincipalPageV1
| JsonPrincipalUpdateV1 | JsonProviderV1 | JsonProviderPageV1 | JsonProviderSchemaV1 | JsonQueuePageV1
| JsonReadinessV1 | JsonRecoveryKeyGeneratePhaseV1 | JsonRecoveryKeyGeneratePhaseResultV1
| JsonRecoveryKeyImportV1 | JsonRecoveryKeyMetadataV1 | JsonRecoveryKeyPageV1 | JsonRestoreJobV1
| JsonRestoreReportPageV1 | JsonRestoreResumeV1 | JsonRestoreResumeResultV1 | JsonShutdownV1
| JsonShutdownAcceptedV1 | JsonStateGenerationDeleteV1 | JsonStateGenerationDeleteResultV1
| JsonStateGenerationPageV1 | JsonStateKeyPageV1 | JsonStateKeyRotateV1 | JsonStateKeyRotationV1
| JsonUpgradeActivateV1 | JsonUpgradeMigrateV1 | JsonUpgradePrepareV1 | JsonUpgradeRollbackV1
| JsonUpgradeStatusV1 | NoneCodec | PathBackupIdV1 | PathConnectorIdV1 | PathMessageIdV1
| PathPeerMappingIdV1 | PathPrincipalIdV1 | PathProviderIdV1 | PathProviderSchemaIdV1 | PathRestoreIdV1
| QueryApiKeyListV1 | QueryAuditListV1 | QueryBackupListV1 | QueryConnectorListV1 | QueryDeadLetterListV1
| QueryGrantListV1 | QueryMessageAttemptListV1 | QueryMessageListV1 | QueryPeerMappingListV1
| QueryPrincipalListV1 | QueryProviderListV1 | QueryQueueListV1 | QueryRecoveryKeyListV1
| QueryRestoreReportPageV1 | QueryStateGenerationListV1 | QueryStateKeyListV1 | StreamBackupArtifactV1
| StreamRestoreArtifactV1 | TextMetricsV1.

Inductive PathSegment : Type := ProviderId (s : bytes) | ProviderSchemaId (s : bytes) | MessageId (s : bytes).

Inductive PathReject : Type := InvalidProviderId | NonCanonicalBase64Url | InvalidMessageId.

Inductive PathDecodeResult : Type := Accepted (s : PathSegment) | Rejected (r : PathReject).

Inductive PathFrontier : Type := Decode.

Inductive PathError : Type := Scaffold (frontier : PathFrontier) | UnsupportedCodec (codec : CodecId).

Definition scaffold_frontier (e : PathError) : option PathFrontier :=
  match e with Scaffold frontier => Some frontier | UnsupportedCodec _ => None end.
Definition is_unsupported_codec (e : PathError) : bool :=
  match e with UnsupportedCodec _ => true | Scaffold _ => false end.

(** ** base64url *)

Definition base64url_value (byte : Z) : option Z :=
  if within 65 90 byte then Some (byte - 65)
  else if within 97 122 byte then Some (byte - 97 + 26)
  else if within 48 57 byte then Some (byte - 48 + 52)
  else if byte =? 45 then Some 62
  else if byte =? 95 then Some 63
  else None.

Definition ALPHABET : bytes :=
  as_bytes "ABCDEFGHIJKLMNOPQRSTUVWXYZabcdefghijklmnopqrstuvwxyz0123456789-_"%string.

(** Shifts and unions of [u8]: what a left shift moves out is lost. *)
Definition shl8 (x n : Z) : Z := wrap 8 (Z.shiftl x n).

(** [values.chunks(4)]. *)
Fixpoint decode_chunks (values : list Z) : bytes :=
  match values with
  | v0 :: v1 :: v2 :: v3 :: rest =>
    [Z.lor (shl8 v0 2) (Z.shiftr v1 4); Z.lor (shl8 v1 4) (Z.shiftr v2 2); Z.lor (shl8 v2 6) v3]
    ++ decode_chunks rest
  | [v0; v1; v2] => [Z.lor (shl8 v0 2) (Z.shiftr v1 4); Z.lor (shl8 v1 4) (Z.shiftr v2 2)]
  | [v0; v1] => [Z.lor (shl8 v0 2) (Z.shiftr v1 4)]
  | [v0] => [Z.lor (shl8 v0 2) 0]
  | [] => []
  end.

Definition decode_base64url (segment : bytes) : option bytes :=
  values ← mapM base64url_value segment;
  let trailing := List.last values 0 in
  let n := (length values mod 4)%nat in
  if (n =? 1)%nat then None
  else if ((n =? 2)%nat && negb (Z.land trailing 15 =? 0)) || ((n =? 3)%nat && negb (Z.land trailing 3 =? 0))
  then None
  else Some (decode_chunks values).

(** [ALPHABET[index]]. *)
Definition letter (index : Z) : Z := nth (Z.to_nat index) ALPHABET 0.

(** [bytes.chunks(3)]. *)
Fixpoint encode_base64url (l : bytes) : bytes :=
  match l with
  | a :: b :: c :: rest =>
    [letter (Z.shiftr a 2);
     letter (Z.lor (Z.shiftl (Z.land a 3) 4) (Z.shiftr b 4));
     letter (Z.lor (Z.shiftl (Z.land b 15) 2) (Z.shiftr c 6));
     letter (Z.land c 63)] ++ encode_base64url rest
  | [a; b] =>
    [letter (Z.shiftr a 2);
     letter (Z.lor (Z.shiftl (Z.land a 3) 4) (Z.shiftr b 4));
     letter (Z.lor (Z.shiftl (Z.land b 15) 2) 0)]
  | [a] => [letter (Z.shiftr a 2); letter (Z.lor (Z.shiftl (Z.land a 3) 4) 0)]
  | [] => []
  end.

(** ** The codecs *)

Definition is_identifier_byte (b : Z) : bool :=
  within 97 122 b || within 48 57 b || (b =? 95) || (b =? 45).

Definition provider_id (segment : bytes) : PathDecodeResult :=
  let valid := within 1 64 (len segment)
               && match segment with b :: _ => within 97 122 b | [] => false end
               && forallb is_identifier_byte (drop 1 segment) in
  if valid then Accepted (ProviderId segment) else Rejected InvalidProviderId.

Definition provider_schema_id (segment : bytes) : PathDecodeResult :=
  match decode_base64url segment with
  | None => Rejected NonCanonicalBase64Url
  | Some decoded =>
    if negb (is_utf8 decoded) then Rejected NonCanonicalBase64Url
    else if negb (bool_decide (encode_base64url decoded = segment)) then Rejected NonCanonicalBase64Url
    else Accepted (ProviderSchemaId decoded)
  end.

Definition DASHES : list nat := [8; 13; 18; 23]%nat.

Definition message_id (segment : bytes) : PathDecodeResult :=
  let at_ i := nth i segment 0 in
  let valid := (length segment =? 36)%nat
               && forallb (fun i => at_ i =? 45) DASHES
               && forallb (fun i => existsb (Nat.eqb i) DASHES || within 48 57 (at_ i) || within 97 102 (at_ i))
                    (seq 0 (length segment))
               && (at_ 14%nat =? 55)
               && ((at_ 19%nat =? 56) || (at_ 19%nat =? 57) || (at_ 19%nat =? 97) || (at_ 19%nat =? 98)) in
  if valid then Accepted (MessageId segment) else Rejected InvalidMessageId.

Definition decode_path_segment (codec : CodecId) (segment : bytes) : result PathError PathDecodeResult :=
  match codec with
  | PathProviderIdV1 => Ok (provider_id segment)
  | PathProviderSchemaIdV1 => Ok (provider_schema_id segment)
  | PathMessageIdV1 => Ok (message_id segment)
  | _ => Err (UnsupportedCodec codec)
  end.

Example schema_id_decoded :
  decode_path_segment PathProviderSchemaIdV1 (as_bytes "bnRmeS90ZXh0")
  = Ok (Accepted (ProviderSchemaId (as_bytes "ntfy/text"))).
Proof. vm_compute. reflexivity. Qed.

(** A last letter with bits that are not used is another spelling, and refused. *)
Example schema_id_other_spelling :
  decode_path_segment PathProviderSchemaIdV1 (as_bytes "YR") = Ok (Rejected NonCanonicalBase64Url)
  /\ decode_path_segment PathProviderSchemaIdV1 (as_bytes "YQ") = Ok (Accepted (ProviderSchemaId (as_bytes "a"))).
Proof. vm_compute. split; reflexivity. Qed.

Example message_id_decoded :
  decode_path_segment PathMessageIdV1 (as_bytes "0190f3a2-7c1e-7abc-8def-0123456789ab")
  = Ok (Accepted (MessageId (as_bytes "0190f3a2-7c1e-7abc-8def-0123456789ab"))).
Proof. vm_compute. reflexivity. Qed.

(** ** base64url: letters *)

Definition sextet (v : Z) : Prop := 0 <= v < 64.

Lemma letter_value v : sextet v -> base64url_value (letter v) = Some v.
Proof.
  intros Hv. apply (bool_decide_eq_true (_ = _)). unfold sextet in Hv. by_range 64%nat v.
Qed.

Lemma value_letter c v : base64url_value c = Some v -> letter v = c /\ sextet v.
Proof.
  intros Hc. assert (0 <= c < 128) as Hr.
  { unfold base64url_value in Hc. destruct (within 65 90 c) eqn:H1; [apply within_spec in H1; lia|].
    destruct (within 97 122 c) eqn:H2; [apply within_spec in H2; lia|].
    destruct (within 48 57 c) eqn:H3; [apply within_spec in H3; lia|].
    destruct (Z.eqb_spec c 45); [lia|]. destruct (Z.eqb_spec c 95); [lia|done]. }
  assert (match base64url_value c with Some v => (letter v =? c) && within 0 63 v | None => true end = true) as Hb
    by by_range 128%nat c.
  rewrite Hc in Hb. apply andb_true_iff in Hb as [Hl%Z.eqb_eq Hw%within_spec]. split; [done|]. unfold sextet. lia.
Qed.

Lemma values_letters vs : Forall sextet vs -> mapM base64url_value (map letter vs) = Some vs.
Proof.
  intros Hvs. apply mapM_Some. induction Hvs as [|v vs Hv _ IH]; constructor; [by apply letter_value|done].
Qed.

Lemma letters_values s vs : mapM base64url_value s = Some vs -> map letter vs = s /\ Forall sextet vs.
Proof.
  intros Hm%mapM_Some. induction Hm as [|c v s vs Hc%value_letter _ [IH1 IH2]]; [done|].
  destruct Hc as [Hl Hv]. cbn [map]. rewrite Hl, IH1. split; [done|by constructor].
Qed.

(** ** base64url: chunks *)

(** The indices that the encoder looks up. *)
Fixpoint sextets (l : bytes) : list Z :=
  match l with
  | a :: b :: c :: rest =>
    [Z.shiftr a 2; Z.lor (Z.shiftl (Z.land a 3) 4) (Z.shiftr b 4);
     Z.lor (Z.shiftl (Z.land b 15) 2) (Z.shiftr c 6); Z.land c 63] ++ sextets rest
  | [a; b] => [Z.shiftr a 2; Z.lor (Z.shiftl (Z.land a 3) 4) (Z.shiftr b 4); Z.lor (Z.shiftl (Z.land b 15) 2) 0]
  | [a] => [Z.shiftr a 2; Z.lor (Z.shiftl (Z.land a 3) 4) 0]
  | [] => []
  end.

(** Sextets as the encoder leaves them: no unused bit in the last one. *)
Fixpoint canonical (vs : list Z) : Prop :=
  match vs with
  | _ :: _ :: _ :: _ :: rest => canonical rest
  | [_; _; v] => Z.land v 3 = 0
  | [_; v] => Z.land v 15 = 0
  | [_] => False
  | [] => True
  end.

Lemma chunks4_ind {A : Type} (P : list A -> Prop) :
  P [] -> (forall a, P [a]) -> (forall a b, P [a; b]) -> (forall a b c, P [a; b; c]) ->
  (forall a b c d l, P l -> P (a :: b :: c :: d :: l)) -> forall l, P l.
Proof.
  intros H0 H1 H2 H3 H4. refine (fix go l := _).
  destruct l as [|a [|b [|c [|d l]]]]; [exact H0|apply H1|apply H2|apply H3|apply H4, go].
Qed.

Lemma chunks3_ind {A : Type} (P : list A -> Prop) :
  P [] -> (forall a, P [a]) -> (forall a b, P [a; b]) ->
  (forall a b c l, P l -> P (a :: b :: c :: l)) -> forall l, P l.
Proof.
  intros H0 H1 H2 H3. refine (fix go l := _).
  destruct l as [|a [|b [|c l]]]; [exact H0|apply H1|apply H2|apply H3, go].
Qed.

Lemma encode_sextets l : encode_base64url l = map letter (sextets l).
Proof.
  induction l as [|a|a b|a b c l IH] using chunks3_ind; [done..|]. cbn [encode_base64url sextets app map]. by rewrite IH.
Qed.

(** The checks of the decoder. *)
Lemma checks_canonical vs :
  negb (length vs mod 4 =? 1)%nat
  && negb (((length vs mod 4 =? 2)%nat && negb (Z.land (List.last vs 0) 15 =? 0))
           || ((length vs mod 4 =? 3)%nat && negb (Z.land (List.last vs 0) 3 =? 0))) = true
  <-> canonical vs.
Proof.
  induction vs as [|a|a b|a b c|a b c d vs IH] using chunks4_ind.
  - done.
  - done.
  - cbn. rewrite orb_false_r, negb_involutive. apply Z.eqb_eq.
  - cbn. rewrite negb_involutive. apply Z.eqb_eq.
  - cbn [canonical]. rewrite <- IH. replace (length (a :: b :: c :: d :: vs)) with (length vs + 1 * 4)%nat by (cbn; lia).
    rewrite Nat.Div0.mod_add. destruct vs as [|v vs]; [done|]. done.
Qed.

Lemma decode_Some s l :
  decode_base64url s = Some l <-> exists vs, mapM base64url_value s = Some vs /\ canonical vs /\ l = decode_chunks vs.
Proof.
  unfold decode_base64url. destruct (mapM base64url_value s) as [vs|]; cbn [mbind option_bind].
  2: { split; [done|]. by intros (? & ? & _). }
  transitivity (canonical vs /\ l = decode_chunks vs).
  2: { split; [intros []; by exists vs|]. intros (vs' & [= <-] & ? & ?). by split. }
  rewrite <- checks_canonical. destruct (length vs mod 4 =? 1)%nat; cbn [negb andb].
  - split; [done|]. by intros [? _].
  - destruct (_ || _); cbn [negb]; (split; [try done; intros [= <-]; by split|]); [by intros [? _]|by intros [_ ->]].
Qed.

(** ** base64url: bits *)

(** Each fact is about a few small integers and is evaluated at all of them. *)
Lemma bits_ab p q : 0 <= p < 4 -> 0 <= q < 16 ->
  Z.shiftr (Z.lor (Z.shiftl p 4) q) 4 = p /\ shl8 (Z.lor (Z.shiftl p 4) q) 4 = Z.shiftl q 4
  /\ Z.land (Z.lor (Z.shiftl p 4) q) 15 = q /\ sextet (Z.lor (Z.shiftl p 4) q).
Proof.
  intros Hp Hq.
  assert ((Z.shiftr (Z.lor (Z.shiftl p 4) q) 4 =? p) && (shl8 (Z.lor (Z.shiftl p 4) q) 4 =? Z.shiftl q 4)
    && (Z.land (Z.lor (Z.shiftl p 4) q) 15 =? q) && within 0 63 (Z.lor (Z.shiftl p 4) q) = true) as Hb
    by by_range2 4%nat 16%nat p q.
  rewrite !andb_true_iff, !Z.eqb_eq, within_spec in Hb. unfold sextet. intuition lia.
Qed.

Lemma bits_bc r s : 0 <= r < 16 -> 0 <= s < 4 ->
  Z.shiftr (Z.lor (Z.shiftl r 2) s) 2 = r /\ shl8 (Z.lor (Z.shiftl r 2) s) 6 = Z.shiftl s 6
  /\ Z.land (Z.lor (Z.shiftl r 2) s) 3 = s /\ sextet (Z.lor (Z.shiftl r 2) s).
Proof.
  intros Hr Hs.
  assert ((Z.shiftr (Z.lor (Z.shiftl r 2) s) 2 =? r) && (shl8 (Z.lor (Z.shiftl r 2) s) 6 =? Z.shiftl s 6)
    && (Z.land (Z.lor (Z.shiftl r 2) s) 3 =? s) && within 0 63 (Z.lor (Z.shiftl r 2) s) = true) as Hb
    by by_range2 16%nat 4%nat r s.
  rewrite !andb_true_iff, !Z.eqb_eq, within_spec in Hb. unfold sextet. intuition lia.
Qed.

(** A byte from its parts. *)
Lemma bits_byte b : 0 <= b < 256 ->
  (sextet (Z.shiftr b 2) /\ 0 <= Z.land b 3 < 4 /\ Z.lor (shl8 (Z.shiftr b 2) 2) (Z.land b 3) = b)
  /\ (0 <= Z.shiftr b 4 < 16 /\ 0 <= Z.land b 15 < 16 /\ Z.lor (Z.shiftl (Z.shiftr b 4) 4) (Z.land b 15) = b)
  /\ (0 <= Z.shiftr b 6 < 4 /\ sextet (Z.land b 63) /\ Z.lor (Z.shiftl (Z.shiftr b 6) 6) (Z.land b 63) = b).
Proof.
  intros Hb.
  assert (within 0 63 (Z.shiftr b 2) && within 0 3 (Z.land b 3) && (Z.lor (shl8 (Z.shiftr b 2) 2) (Z.land b 3) =? b)
    && (within 0 15 (Z.shiftr b 4) && within 0 15 (Z.land b 15) && (Z.lor (Z.shiftl (Z.shiftr b 4) 4) (Z.land b 15) =? b))
    && (within 0 3 (Z.shiftr b 6) && within 0 63 (Z.land b 63) && (Z.lor (Z.shiftl (Z.shiftr b 6) 6) (Z.land b 63) =? b))
    = true) as Hx by by_range 256%nat b.
  rewrite !andb_true_iff, !Z.eqb_eq, !within_spec in Hx. unfold sextet. intuition lia.
Qed.

(** The parts of a byte that is put together. *)
Lemma bits_o0 v p : sextet v -> 0 <= p < 4 ->
  is_byte (Z.lor (shl8 v 2) p) = true /\ Z.shiftr (Z.lor (shl8 v 2) p) 2 = v /\ Z.land (Z.lor (shl8 v 2) p) 3 = p.
Proof.
  intros Hv Hp. unfold sextet in Hv.
  assert (is_byte (Z.lor (shl8 v 2) p) && (Z.shiftr (Z.lor (shl8 v 2) p) 2 =? v)
    && (Z.land (Z.lor (shl8 v 2) p) 3 =? p) = true) as Hb by by_range2 64%nat 4%nat v p.
  rewrite !andb_true_iff, !Z.eqb_eq in Hb. tauto.
Qed.

Lemma bits_o1 q r : 0 <= q < 16 -> 0 <= r < 16 ->
  is_byte (Z.lor (Z.shiftl q 4) r) = true /\ Z.shiftr (Z.lor (Z.shiftl q 4) r) 4 = q
  /\ Z.land (Z.lor (Z.shiftl q 4) r) 15 = r.
Proof.
  intros Hq Hr.
  assert (is_byte (Z.lor (Z.shiftl q 4) r) && (Z.shiftr (Z.lor (Z.shiftl q 4) r) 4 =? q)
    && (Z.land (Z.lor (Z.shiftl q 4) r) 15 =? r) = true) as Hb by by_range2 16%nat 16%nat q r.
  rewrite !andb_true_iff, !Z.eqb_eq in Hb. tauto.
Qed.

Lemma bits_o2 s v : 0 <= s < 4 -> sextet v ->
  is_byte (Z.lor (Z.shiftl s 6) v) = true /\ Z.shiftr (Z.lor (Z.shiftl s 6) v) 6 = s
  /\ Z.land (Z.lor (Z.shiftl s 6) v) 63 = v.
Proof.
  intros Hs Hv. unfold sextet in Hv.
  assert (is_byte (Z.lor (Z.shiftl s 6) v) && (Z.shiftr (Z.lor (Z.shiftl s 6) v) 6 =? s)
    && (Z.land (Z.lor (Z.shiftl s 6) v) 63 =? v) = true) as Hb by by_range2 4%nat 64%nat s v.
  rewrite !andb_true_iff, !Z.eqb_eq in Hb. tauto.
Qed.

(** A sextet in two parts, both ways. *)
Lemma sextet_parts v : sextet v ->
  (0 <= Z.shiftr v 4 < 4 /\ 0 <= Z.land v 15 < 16 /\ Z.lor (Z.shiftl (Z.shiftr v 4) 4) (Z.land v 15) = v
   /\ shl8 v 4 = Z.shiftl (Z.land v 15) 4)
  /\ (0 <= Z.shiftr v 2 < 16 /\ 0 <= Z.land v 3 < 4 /\ Z.lor (Z.shiftl (Z.shiftr v 2) 2) (Z.land v 3) = v
      /\ shl8 v 6 = Z.shiftl (Z.land v 3) 6).
Proof.
  intros Hv. unfold sextet in Hv.
  assert (within 0 3 (Z.shiftr v 4) && within 0 15 (Z.land v 15)
    && (Z.lor (Z.shiftl (Z.shiftr v 4) 4) (Z.land v 15) =? v) && (shl8 v 4 =? Z.shiftl (Z.land v 15) 4)
    && (within 0 15 (Z.shiftr v 2) && within 0 3 (Z.land v 3)
        && (Z.lor (Z.shiftl (Z.shiftr v 2) 2) (Z.land v 3) =? v) && (shl8 v 6 =? Z.shiftl (Z.land v 3) 6)) = true) as Hb
    by by_range 64%nat v.
  rewrite !andb_true_iff, !Z.eqb_eq, !within_spec in Hb. intuition lia.
Qed.

(** ** base64url: both directions *)

#[local] Ltac all_sextets := repeat (apply Forall_cons_2; [assumption|]); first [apply Forall_nil_2|assumption].

Lemma sextets_decode l : is_bytes l = true ->
  Forall sextet (sextets l) /\ canonical (sextets l) /\ decode_chunks (sextets l) = l.
Proof.
  assert (forall b, is_byte b = true -> 0 <= b < 256) as Hrange by (intros b Hb%within_spec; lia).
  induction l as [|a|a b|a b c l IH] using chunks3_ind; unfold is_bytes; cbn [forallb]; rewrite ?andb_true_iff; intros Hl.
  - done.
  - destruct Hl as [Ha%Hrange _]. destruct (bits_byte a Ha) as ((Ha2 & Hp & Ea) & _).
    destruct (bits_ab (Z.land a 3) 0) as (E1 & _ & E2 & E3); [lia..|]. cbn [sextets canonical decode_chunks].
    rewrite E1, Ea. split; [all_sextets|by split].
  - destruct Hl as (Ha%Hrange & Hb%Hrange & _).
    destruct (bits_byte a Ha) as ((Ha2 & Hp & Ea) & _), (bits_byte b Hb) as (_ & (Hb4 & Hb15 & Eb) & _).
    destruct (bits_ab (Z.land a 3) (Z.shiftr b 4)) as (E1 & E2 & _ & E3); [lia..|].
    destruct (bits_bc (Z.land b 15) 0) as (F1 & _ & F2 & F3); [lia..|]. cbn [sextets canonical decode_chunks].
    rewrite E1, E2, F1, Ea, Eb. split; [all_sextets|by split].
  - destruct Hl as (Ha%Hrange & Hb%Hrange & Hc%Hrange & Hl).
    destruct (bits_byte a Ha) as ((Ha2 & Hp & Ea) & _), (bits_byte b Hb) as (_ & (Hb4 & Hb15 & Eb) & _),
      (bits_byte c Hc) as (_ & _ & Hc6 & Hc63 & Ec).
    destruct (bits_ab (Z.land a 3) (Z.shiftr b 4)) as (E1 & E2 & _ & E3); [lia..|].
    destruct (bits_bc (Z.land b 15) (Z.shiftr c 6)) as (F1 & F2 & _ & F3); [lia..|].
    destruct (IH Hl) as (I1 & I2 & I3). cbn [sextets canonical decode_chunks app].
    rewrite E1, E2, F1, F2, Ea, Eb, Ec, I3. split; [all_sextets|by split].
Qed.

Lemma decode_sextets vs : Forall sextet vs -> canonical vs ->
  is_bytes (decode_chunks vs) = true /\ sextets (decode_chunks vs) = vs.
Proof.
  induction vs as [|a|a b|a b c|a b c d vs IH] using chunks4_ind; rewrite ?Forall_cons; intros Hvs Hcan;
    cbn [canonical] in Hcan; try done.
  - destruct Hvs as (Ha & Hb & _). destruct (sextet_parts b Hb) as ((Hp & Hq & Eb & _) & _).
    destruct (bits_o0 a (Z.shiftr b 4) Ha Hp) as (B0 & O0 & O0').
    cbn [decode_chunks sextets]. unfold is_bytes. cbn [forallb]. rewrite B0, O0, O0'.
    rewrite Hcan in Eb. by rewrite Eb.
  - destruct Hvs as (Ha & Hb & Hc & _). destruct (sextet_parts b Hb) as ((Hp & Hq & Eb & Sb) & _),
      (sextet_parts c Hc) as (_ & Hr & Hs & Ec & Sc).
    destruct (bits_o0 a (Z.shiftr b 4) Ha Hp) as (B0 & O0 & O0'), (bits_o1 _ _ Hq Hr) as (B1 & O1 & O1').
    cbn [decode_chunks sextets]. unfold is_bytes. cbn [forallb]. rewrite Sb, B0, B1, O0, O0', O1, O1', Eb.
    rewrite Hcan in Ec. by rewrite Ec.
  - destruct Hvs as (Ha & Hb & Hc & Hd & Hvs). destruct (sextet_parts b Hb) as ((Hp & Hq & Eb & Sb) & _),
      (sextet_parts c Hc) as (_ & Hr & Hs & Ec & Sc).
    destruct (bits_o0 a (Z.shiftr b 4) Ha Hp) as (B0 & O0 & O0'), (bits_o1 _ _ Hq Hr) as (B1 & O1 & O1'),
      (bits_o2 _ _ Hs Hd) as (B2 & O2 & O2').
    destruct (IH Hvs Hcan) as [I1 I2]. cbn [decode_chunks app sextets]. unfold is_bytes in *. cbn [forallb].
    rewrite Sb, Sc, B0, B1, B2, O0, O0', O1, O1', O2, O2', Eb, Ec, I1, I2. done.
Qed.

(** A segment is decoded to [l] exactly when it is the encoding of [l]. *)
Lemma decode_base64url_exact s l :
  decode_base64url s = Some l <-> is_bytes l = true /\ s = encode_base64url l.
Proof.
  rewrite decode_Some, encode_sextets. split.
  - intros (vs & [Hs Hvs]%letters_values & Hc & ->). destruct (decode_sextets vs Hvs Hc) as [Hb ->]. by split.
  - intros [(Hf & Hc & Hd)%sextets_decode ->]. exists (sextets l). split; [by apply values_letters|]. by split.
Qed.

(** A provider schema identifier has exactly one spelling: a segment is accepted as [d]
    exactly when [d] is text and the segment is its base64url encoding; every other segment
    is rejected as not canonical. *)
Lemma provider_schema_id_exact segment r :
  decode_path_segment PathProviderSchemaIdV1 segment = Ok r
  <-> (exists d, r = Accepted (ProviderSchemaId d) /\ is_bytes d = true /\ is_utf8 d = true
                 /\ segment = encode_base64url d)
      \/ r = Rejected NonCanonicalBase64Url
         /\ forall d, is_bytes d = true -> is_utf8 d = true -> segment <> encode_base64url d.
Proof.
  cbn. unfold provider_schema_id. destruct (decode_base64url segment) as [d|] eqn:Hd.
  - apply decode_base64url_exact in Hd as [Hb ->]. destruct (is_utf8 d) eqn:Hu; cbn [negb].
    + rewrite bool_decide_eq_true_2 by done. cbn [negb]. split.
      * intros [= <-]. left. by exists d.
      * intros [(d' & -> & Hb' & _ & He)|[_ Hno]]; [|by destruct (Hno d Hb Hu)].
        assert (decode_base64url (encode_base64url d) = Some d') as Hx by (apply decode_base64url_exact; by split).
        rewrite (proj2 (decode_base64url_exact _ d) (conj Hb eq_refl)) in Hx. by injection Hx as <-.
    + assert (forall d', is_bytes d' = true -> is_utf8 d' = true -> encode_base64url d <> encode_base64url d') as Hno.
      { intros d' Hb' Hu' He.
        assert (decode_base64url (encode_base64url d) = Some d') as Hx by (apply decode_base64url_exact; by split).
        rewrite (proj2 (decode_base64url_exact _ d) (conj Hb eq_refl)) in Hx. injection Hx as <-. congruence. }
      split; [intros [= <-]; right; by split|]. intros [(d' & _ & Hb' & Hu' & He)|[-> _]]; [|done]. by destruct (Hno d' Hb' Hu').
  - assert (forall d, is_bytes d = true -> is_utf8 d = true -> segment <> encode_base64url d) as Hno.
    { intros d Hb _ ->. by rewrite (proj2 (decode_base64url_exact _ d) (conj Hb eq_refl)) in Hd. }
    split; [intros [= <-]; right; by split|]. intros [(d & _ & Hb & Hu & He)|[-> _]]; [|done]. by destruct (Hno d Hb Hu).
Qed.
