(* ===== verification/Config.v ===== *)
(** * Configuration ([crates/msgriver/src/main.rs], lines 293-605)

    The arguments of [serve], the owner-only files they name and the inbound
    policy. An argument is its bytes; [to_str] succeeds on UTF-8. The file system
    is the environment: what the inspection of a path, the opened file and its
    reads returned. *)

From S2P Require Import Prelude Bytes Text Json Http Connectors Service.

#[local] Open Scope Z_scope.

Definition to_str (argument : bytes) : option bytes :=
  if is_utf8 argument then Some argument else None.

(** ** Flags *)

Definition FLAGS : list bytes := map as_bytes
  ["--state-dir"; "--socket"; "--ntfy-url"; "--ntfy-topic"; "--whatsapp-url";
   "--whatsapp-phone-id"; "--whatsapp-token-file"; "--whatsapp-ca-file";
   "--whatsapp-template"; "--whatsapp-locale"; "--whatsapp-parameter-count";
   "--whatsapp-inbound-listen"; "--whatsapp-inbound-app-secret-file";
   "--whatsapp-inbound-verify-token-file"; "--whatsapp-inbound-policy-file";
   "--whatsapp-inbound-ntfy-topic"; "--whatsapp-inbound-waba-id";
   "--whatsapp-inbound-phone-id"]%string.

Definition REQUIRED : list bytes := map as_bytes
  ["--state-dir"; "--socket"; "--ntfy-url"; "--ntfy-topic"]%string.

(** The loop over [chunks_exact(2)]; the names seen so far, and at the end. *)
Fixpoint flag_names (arguments : list bytes) (seen : list bytes) : option (list bytes) :=
  match arguments with
  | name :: _ :: rest =>
    name ← to_str name;
    if negb (bool_decide (name ∈ FLAGS)) || bool_decide (name ∈ seen) then None
    else flag_names rest (name :: seen)
  | _ => Some seen
  end.

Definition validate_service_arguments (arguments : list bytes) : result string unit :=
  if negb (Nat.even (length arguments)) then Err "invalid service arguments"%string
  else
    seen ← ok_or (flag_names arguments []) "invalid service arguments"%string;
    if forallb (fun required => bool_decide (required ∈ seen)) REQUIRED then Ok tt
    else Err "missing required argument"%string.

Definition index_of (name : bytes) (arguments : list bytes) : option nat :=
  fst <$> list_find (fun argument => argument = name) arguments.

Definition value_at (arguments : list bytes) (index : nat) : result string bytes :=
  value ← ok_or (arguments !! index ≫= to_str) "invalid argument"%string;
  if bool_decide (value = []) then Err "invalid argument"%string else Ok value.

Definition flag (arguments : list bytes) (name : string) : result string bytes :=
  index ← ok_or (index_of (as_bytes name) arguments) "missing required argument"%string;
  value_at arguments (index + 1).

Definition optional_flag (arguments : list bytes) (name : string) : result string (option bytes) :=
  match index_of (as_bytes name) arguments with
  | Some index => Some <$> value_at arguments (index + 1)
  | None => Ok None
  end.

(** ** Owner-only files *)

Record Stat : Type := mkStat {
  st_regular : bool;
  st_permissions : Z;  (* [st_mode & 0o7777] *)
  st_uid : Z;
  st_nlink : Z;
  st_size : Z;
  st_dev : Z;
  st_ino : Z
}.

(** What the calls on a path return: the inspection before opening, the inspection
    of the opened file, and the reads, [None] where a call fails. *)
Record FileView : Type := mkFileView {
  before : option Stat;
  opened : option Stat;
  file_reads : Reads
}.

Class FileSystem : Type := {
  view : bytes -> FileView;
  geteuid : Z
}.

Definition owner_only_file `{FileSystem} (metadata : Stat) (maximum_size : Z) : bool :=
  st_regular metadata && (st_permissions metadata =? 384) (* 0o600 *)
  && (st_uid metadata =? geteuid) && (st_nlink metadata =? 1)
  && (0 <? st_size metadata) && (st_size metadata <=? maximum_size).

(** The loop that fills a buffer of [size] bytes; a read returns at most what is
    missing. The reads left over follow. *)
Fixpoint read_full (size : Z) (l : bytes) (reads : Reads) : option (bytes * Reads) :=
  if size <=? len l then Some (l, reads)
  else match reads with
  | Some (b :: chunk) :: rest =>
    if len (b :: chunk) <=? size - len l then read_full size (l ++ b :: chunk) rest else None
  | _ => None
  end.

Definition UNSAFE : string := "WhatsApp token file is unsafe".

Definition read_owner_only_file `{FileSystem} (path : bytes) (maximum_size : Z)
    : result string bytes :=
  if contains_any [0] path then Err UNSAFE
  else
    before ← ok_or (before (view path)) UNSAFE;
    if negb (owner_only_file before maximum_size) then Err UNSAFE
    else
      after ← ok_or (opened (view path)) UNSAFE;
      if negb (owner_only_file after maximum_size)
         || negb (st_dev before =? st_dev after) || negb (st_ino before =? st_ino after)
      then Err UNSAFE
      else
        '(l, rest) ← ok_or (read_full (st_size after) [] (file_reads (view path))) UNSAFE;
        match rest with
        | Some [] :: _ => Ok l
        | _ => Err UNSAFE
        end.

Definition strip_newline (l : bytes) : bytes :=
  match strip_suffix [10] l with
  | Some with_newline => default with_newline (strip_suffix [13] with_newline)
  | None => l
  end.

Definition read_owner_only_token `{FileSystem} (path : bytes) : result string bytes :=
  l ← read_owner_only_file path 4097;
  let token := strip_newline l in
  if negb (is_utf8 token) then Err UNSAFE
  else if bool_decide (token = []) || (4096 <? len token)
          || negb (forallb is_ascii_graphic token)
  then Err UNSAFE else Ok token.

(** ** The inbound policy *)

Definition POLICY_ERROR : string := "invalid WhatsApp inbound policy".

Fixpoint policy_loop (lines : list bytes) (policy : list (bytes * bytes))
    : result string (list (bytes * bytes)) :=
  match lines with
  | [] => Ok policy
  | line :: rest =>
    match split_on 32 line with
    | [sender; verb] =>
      if negb (within 7 20 (len sender)) || negb (forallb is_ascii_digit sender)
         || negb (bool_decide (verb = as_bytes "notify") || bool_decide (verb = as_bytes "status"))
         || bool_decide ((sender, verb) ∈ policy)
      then Err POLICY_ERROR
      else policy_loop rest ((sender, verb) :: policy)
    | _ => Err POLICY_ERROR
    end
  end.

Definition parse_inbound_policy (l : bytes) : result string (list (bytes * bytes)) :=
  if negb (is_utf8 l) then Err POLICY_ERROR
  else
    policy ← policy_loop (lines l) [];
    if bool_decide (policy = []) then Err POLICY_ERROR else Ok policy.

(** ** The parts of the configuration *)

Definition valid_topic (value : bytes) : bool :=
  negb (bool_decide (value = [])) && (len value <=? 64)
  && forallb (fun b => is_ascii_alphanumeric b || (b =? 45) || (b =? 95)) value.

(** [SocketAddr] parsing, and whether the address is a loopback address. *)
Class SocketAddresses : Type := loopback : bytes -> option bool.

Definition WA_ERROR : string := "invalid WhatsApp configuration".

Definition parse_whatsapp_config `{FileSystem} `{TrustAnchors} (arguments : list bytes)
    : result string (option WhatsappConfig) :=
  url ← optional_flag arguments "--whatsapp-url";
  phone_id ← optional_flag arguments "--whatsapp-phone-id";
  token_file ← optional_flag arguments "--whatsapp-token-file";
  ca_file ← optional_flag arguments "--whatsapp-ca-file";
  template ← optional_flag arguments "--whatsapp-template";
  locale ← optional_flag arguments "--whatsapp-locale";
  parameter_count ← optional_flag arguments "--whatsapp-parameter-count";
  match url, phone_id, token_file, template, locale, parameter_count with
  | Some url, Some phone_id, Some token_file, Some template, Some locale, Some count =>
    count ← ok_or (parse_usize count) WA_ERROR;
    token ← read_owner_only_token token_file;
    root ← match ca_file with
           | Some path => Some <$> read_owner_only_file path (32 * 1024)
           | None => Ok None
           end;
    endpoint ← map_err (fun _ => WA_ERROR) (Whatsapp.parse url phone_id);
    driver ← map_err (fun _ => WA_ERROR)
      (Whatsapp.new_with_additional_root endpoint token
         (Whatsapp.mkTemplateRegistration template locale count) root);
    Ok (Some (mkWhatsappConfig (DriverWhatsapp driver) template locale count))
  | _, _, _, _, _, _ =>
    if existsb (fun o => bool_decide (is_Some o))
         [url; phone_id; token_file; template; locale; parameter_count; ca_file]
    then Err "incomplete WhatsApp configuration"%string else Ok None
  end.

Definition IN_ERROR : string := "invalid WhatsApp inbound configuration".

Definition parse_inbound_config `{FileSystem} `{SocketAddresses} (arguments : list bytes)
    : result string (option InboundConfig) :=
  listen ← optional_flag arguments "--whatsapp-inbound-listen";
  app_secret ← optional_flag arguments "--whatsapp-inbound-app-secret-file";
  verify_token ← optional_flag arguments "--whatsapp-inbound-verify-token-file";
  policy_file ← optional_flag arguments "--whatsapp-inbound-policy-file";
  ntfy_topic ← optional_flag arguments "--whatsapp-inbound-ntfy-topic";
  waba_id ← optional_flag arguments "--whatsapp-inbound-waba-id";
  phone_id ← optional_flag arguments "--whatsapp-inbound-phone-id";
  match listen, app_secret, verify_token, policy_file, ntfy_topic, waba_id, phone_id with
  | Some listen, Some app_secret, Some verify_token, Some policy_file, Some ntfy_topic,
    Some waba_id, Some phone_id =>
    local ← ok_or (loopback listen) IN_ERROR;
    if negb local then Err IN_ERROR
    else
      app_secret ← read_owner_only_token app_secret;
      verify_token ← read_owner_only_token verify_token;
      policy_text ← read_owner_only_file policy_file (8 * 1024);
      policy ← parse_inbound_policy policy_text;
      if negb (valid_topic ntfy_topic) || negb (valid_identifier waba_id 128)
         || negb (forallb is_ascii_digit phone_id)
      then Err IN_ERROR
      else Ok (Some (mkInboundConfig app_secret verify_token policy ntfy_topic waba_id phone_id))
  | _, _, _, _, _, _, _ =>
    if existsb (fun o => bool_decide (is_Some o))
         [listen; app_secret; verify_token; policy_file; ntfy_topic; waba_id; phone_id]
    then Err "incomplete WhatsApp inbound configuration"%string else Ok None
  end.

(** [Path::parent] of the socket against the state directory. *)
Class Paths : Type := parent_is : bytes -> bytes -> bool.

Definition parse_service_config `{FileSystem} `{SocketAddresses} `{TrustAnchors} `{Paths}
    (arguments : list bytes) : result string ServiceConfig :=
  validate_service_arguments arguments ;;
  state_dir ← flag arguments "--state-dir";
  socket ← flag arguments "--socket";
  if negb (parent_is socket state_dir) then Err "socket must be inside state directory"%string
  else
    whatsapp ← parse_whatsapp_config arguments;
    inbound ← parse_inbound_config arguments;
    ntfy_url ← flag arguments "--ntfy-url";
    ntfy_topic ← flag arguments "--ntfy-topic";
    Ok (mkServiceConfig ntfy_url ntfy_topic whatsapp inbound).

Example policy_example :
  parse_inbound_policy (as_bytes "15551234567 notify" ++ [10] ++ as_bytes "15551234567 status" ++ [10])
  = Ok [(as_bytes "15551234567", as_bytes "status"); (as_bytes "15551234567", as_bytes "notify")].
Proof. vm_compute. reflexivity. Qed.

(** ** Lemmas: the policy *)

(** A line of the policy file, and what it may grant. *)
Definition policy_line (entry : bytes * bytes) : bytes := entry.1 ++ [32] ++ entry.2.

Definition grantable (entry : bytes * bytes) : bool :=
  within 7 20 (len entry.1) && forallb is_ascii_digit entry.1
  && (bool_decide (entry.2 = as_bytes "notify") || bool_decide (entry.2 = as_bytes "status")).

Lemma split_on_free c l : forallb (fun b => negb (b =? c)) l = true -> split_on c l = [l].
Proof.
  induction l as [|b l IH]; [done|]. intros [Hb Hl]%andb_true_iff. cbn.
  apply negb_true_iff in Hb as ->. by rewrite IH.
Qed.

Lemma split_on_first c l r :
  forallb (fun b => negb (b =? c)) l = true -> split_on c (l ++ [c] ++ r) = l :: split_on c r.
Proof.
  induction l as [|b l IH].
  - intros _. cbn. by rewrite Z.eqb_refl.
  - intros [Hb Hl]%andb_true_iff. cbn [app split_on]. apply negb_true_iff in Hb as ->.
    cbn [app] in IH. by rewrite IH.
Qed.

Lemma split_on_pair c l x y : split_on c l = [x; y] -> l = x ++ [c] ++ y.
Proof.
  assert (forall l x, split_on c l = [x] -> l = x) as H1.
  { clear. induction l as [|b l IH]; intros x; cbn; [by intros [= <-]|].
    destruct (b =? c); [by destruct l as [|b' l']; [|cbn; destruct (b' =? c); [|destruct (split_on c l')]]|].
    destruct (split_on c l) as [|z [|]] eqn:E; [intros [= <-]|intros [= <-]|done].
    - destruct l as [|b' l']; [done|]. cbn in E. destruct (b' =? c); [done|]. by destruct (split_on c l').
    - by rewrite (IH z eq_refl). }
  revert x. induction l as [|b l IH]; intros x; cbn; [done|].
  destruct (Z.eqb_spec b c) as [->|Hne].
  - intros [= <- H]. by rewrite (H1 l y H).
  - destruct (split_on c l) as [|z rest] eqn:E; [done|]. intros [= <- ->].
    cbn [app]. f_equal. by apply IH.
Qed.

Lemma digits_no_space l : forallb is_ascii_digit l = true -> forallb (fun b => negb (b =? 32)) l = true.
Proof.
  rewrite !forallb_forall. intros H b Hb. specialize (H b Hb). unfold is_ascii_digit, within in H.
  b2p. lia.
Qed.

Lemma split_policy_line entry :
  grantable entry = true -> split_on 32 (policy_line entry) = [entry.1; entry.2].
Proof.
  unfold grantable, policy_line. intros [[_ Hd]%andb_true_iff Hv]%andb_true_iff.
  rewrite split_on_first by by apply digits_no_space. f_equal. apply split_on_free.
  by apply orb_true_iff in Hv as [Hv|Hv]; apply bool_decide_eq_true in Hv as ->.
Qed.

Lemma policy_loop_exact ls acc p :
  NoDup acc ->
  policy_loop ls acc = Ok p <->
  exists q, p = q ++ acc /\ ls = map policy_line (rev q)
    /\ NoDup p /\ forallb grantable q = true.
Proof.
  revert acc. induction ls as [|line ls IH]; intros acc Hacc; cbn [policy_loop].
  - split.
    + intros [= <-]. by exists [].
    + intros (q & -> & Hq & _). destruct q as [|e q]; [done|]. cbn in Hq.
      rewrite map_app in Hq. by destruct (map policy_line (rev q)).
  - split.
    + destruct (split_on 32 line) as [|s [|v [|]]] eqn:Es; try done. intros H.
      destruct (negb (within 7 20 (len s)) || _ || _ || _) eqn:Eb; [done|].
      rewrite !orb_false_iff, !negb_false_iff in Eb. destruct Eb as [[[Hlen Hd] Hv] Hnew%bool_decide_eq_false].
      apply IH in H as (q & -> & -> & Hnd & Hg); [|by constructor].
      exists (q ++ [(s, v)]). rewrite <- app_assoc. split_and!; [done| |done|].
      * rewrite rev_app_distr. cbn. f_equal. by apply split_on_pair.
      * rewrite forallb_app, Hg. cbn [forallb]. rewrite andb_true_r. unfold grantable.
        cbn [fst snd]. by rewrite Hlen, Hd, Hv.
    + intros (q & -> & Hls & Hnd & Hg). induction q as [|[s v] q _] using rev_ind; [done|].
      rewrite rev_app_distr in Hls. cbn in Hls. injection Hls as -> ->.
      rewrite forallb_app in Hg. apply andb_true_iff in Hg as [Hg He].
      cbn [forallb] in He. rewrite andb_true_r in He.
      change (s ++ 32 :: v) with (policy_line (s, v)). rewrite split_policy_line by done. cbn [fst snd].
      unfold grantable in He. cbn [fst snd] in He. rewrite !andb_true_iff in He. destruct He as [[-> ->] ->].
      rewrite <- app_assoc in *. cbn [app] in *.
      assert (NoDup ((s, v) :: acc)) as Hnd1 by by apply NoDup_app in Hnd as (_ & _ & ?).
      rewrite bool_decide_false by by apply NoDup_cons in Hnd1 as [? _]. cbn [negb orb].
      apply IH; [done|]. by exists q.
Qed.

(** ** Theorems *)

(** A policy file is accepted exactly when it is nonempty and each of its lines
    grants one command to one sender, no grant twice; what is loaded is exactly
    what the lines say. *)
Theorem parse_inbound_policy_exact l p :
  parse_inbound_policy l = Ok p <->
  is_utf8 l = true /\ p <> [] /\ lines l = map policy_line (rev p)
  /\ NoDup p /\ forallb grantable p = true.
Proof.
  unfold parse_inbound_policy. destruct (is_utf8 l); cbn [negb]; [|by split; [|intros [? _]]].
  rewrite bind_Ok. split.
  - intros (p' & Hloop & H). apply policy_loop_exact in Hloop as (q & -> & Hl & Hnd & Hg); [|constructor].
    rewrite app_nil_r in *. destruct (bool_decide_reflect (q = [])) as [|Hne]; [done|].
    apply Ok_inj in H. by subst q.
  - intros (_ & Hne & Hl & Hnd & Hg). exists p. split; [|by rewrite bool_decide_false].
    apply policy_loop_exact; [constructor|]. exists p. by rewrite app_nil_r.
Qed.

Lemma read_full_sound size l reads r rest :
  len l <= size -> read_full size l reads = Some (r, rest) ->
  exists chunks, reads = delivers chunks rest /\ r = l ++ concat chunks /\ len r = size.
Proof.
  revert l. induction reads as [|[[|b c]|] reads IH]; intros l Hl; cbn [read_full].
  all: destruct (Z.leb_spec size (len l)); try done.
  all: try (intros [= <- <-]; exists []; unfold delivers; cbn; rewrite app_nil_r; split_and!; [done|done|lia]).
  destruct (Z.leb_spec (len (b :: c)) (size - len l)); [|done].
  intros (chunks & -> & -> & Hlen)%IH; [|rewrite len_app; lia].
  exists ((b :: c) :: chunks). unfold delivers. cbn [map concat app]. rewrite <- app_assoc in *. done.
Qed.

(** A secret file is used only when it is one regular file that its owner alone
    may read, was not exchanged between inspection and opening, and is not empty,
    not over the limit and read whole. *)
Theorem read_owner_only_file_safe `{FileSystem} path maximum l :
  read_owner_only_file path maximum = Ok l ->
  exists b a chunks extra,
    before (view path) = Some b /\ opened (view path) = Some a
    /\ st_dev b = st_dev a /\ st_ino b = st_ino a
    /\ st_regular a = true /\ st_permissions a = 384 /\ st_uid a = geteuid /\ st_nlink a = 1
    /\ file_reads (view path) = delivers chunks (Some [] :: extra)
    /\ l = concat chunks /\ len l = st_size a /\ 0 < len l <= maximum.
Proof.
  unfold read_owner_only_file. destruct (contains_any [0] path); [done|].
  rewrite bind_Ok. intros (b & Hb%ok_or_Ok & H1). destruct (owner_only_file b maximum); [|done].
  cbn [negb] in H1. apply bind_Ok in H1 as (a & Ha%ok_or_Ok & H1).
  destruct (owner_only_file a maximum) eqn:Eo; [|done]. cbn [negb orb] in H1.
  destruct (Z.eqb_spec (st_dev b) (st_dev a)); [|done].
  destruct (Z.eqb_spec (st_ino b) (st_ino a)); [|done]. cbn [negb orb] in H1.
  apply bind_Ok in H1 as ([l' rest] & Hr%ok_or_Ok & H1).
  unfold owner_only_file in Eo. b2p. destruct Eo as [[[[[? ?] ?] ?] ?] ?].
  apply read_full_sound in Hr as (chunks & Hchunks & -> & Hlen); [|unfold len; cbn; lia].
  destruct rest as [|[[|]|] rest]; try done. apply Ok_inj in H1. subst l.
  exists b, a, chunks, rest. cbn [app] in *. split_and!; try done; lia.
Qed.

Definition arguments_of (pairs : list (bytes * bytes)) : list bytes :=
  flat_map (fun kv => [kv.1; kv.2]) pairs.

Lemma flag_names_distinct pairs seen names :
  flag_names (arguments_of pairs) seen = Some names ->
  NoDup (map fst pairs) /\ forall k, k ∈ map fst pairs -> k ∉ seen.
Proof.
  revert seen. induction pairs as [|[k v] pairs IH]; intros seen;
    cbn [arguments_of flat_map app flag_names fst snd map].
  { intros _. split; [constructor|]. by intros k ?%elem_of_nil. }
  unfold to_str. destruct (is_utf8 k); cbn [mbind option_bind]; [|done].
  destruct (bool_decide (k ∈ FLAGS)); [|done]. cbn [negb orb].
  destruct (bool_decide_reflect (k ∈ seen)) as [|Hk]; [done|].
  intros [Hnd Hs]%IH. split.
  - constructor; [|done]. intros Hin. apply (Hs k Hin). by left.
  - intros k'. rewrite elem_of_cons. intros [->|Hin]; [done|]. specialize (Hs k' Hin).
    rewrite elem_of_cons in Hs. tauto.
Qed.

Lemma index_of_pair pairs name v :
  NoDup (map fst pairs) -> (name, v) ∈ pairs -> (forall k u, (k, u) ∈ pairs -> u <> name) ->
  exists i, index_of name (arguments_of pairs) = Some i /\ arguments_of pairs !! (i + 1)%nat = Some v.
Proof.
  unfold index_of. induction pairs as [|[k u] pairs IH]; intros Hnd Hin Hval; [by apply elem_of_nil in Hin|].
  cbn in Hnd. apply NoDup_cons in Hnd as [Hk Hnd]. apply elem_of_cons in Hin as [Hin|Hin].
  - injection Hin as <- <-. exists 0%nat. cbn. rewrite decide_True by done. done.
  - destruct (IH Hnd Hin) as (i & Hi & Hv).
    { intros k' u' Hin'. apply (Hval k' u'). by right. }
    exists (2 + i)%nat. cbn. fold (arguments_of pairs). rewrite decide_False, decide_False.
    + destruct (list_find _ (arguments_of pairs)) as [[j x]|]; [|done]. cbn in *. split; [by injection Hi as ->|exact Hv].
    + apply (Hval k u). by left.
    + intros ->. apply Hk. apply list_elem_of_fmap. by exists (name, v).
Qed.

(** In an accepted command line no value of which is itself the name asked for,
    a flag yields exactly the value it was given. *)
Theorem flag_returns_value pairs name v :
  validate_service_arguments (arguments_of pairs) = Ok tt ->
  (as_bytes name, v) ∈ pairs -> (forall k u, (k, u) ∈ pairs -> u <> as_bytes name) ->
  is_utf8 v = true -> v <> [] ->
  flag (arguments_of pairs) name = Ok v.
Proof.
  unfold validate_service_arguments. destruct (Nat.even _); [|done]. cbn [negb].
  rewrite bind_Ok. intros (seen & [Hnd _]%ok_or_Ok%flag_names_distinct & _) Hin Hval Hu Hne.
  destruct (index_of_pair pairs _ v Hnd Hin Hval) as (i & Hi & Hv). unfold flag, value_at.
  rewrite Hi. cbn [ok_or mbind result_bind]. rewrite Hv. cbn [mbind option_bind]. unfold to_str.
  rewrite Hu. cbn [ok_or mbind result_bind]. by rewrite bool_decide_false.
Qed.

(** But a value that is the name of another flag is accepted by the validation
    and then taken for that flag: the socket of this command line is "--socket". *)
Theorem flag_takes_value_for_name :
  let arguments := map as_bytes ["--state-dir"; "/s"; "--ntfy-topic"; "--socket";
                                 "--socket"; "/s/socket"; "--ntfy-url"; "u"]%string in
  validate_service_arguments arguments = Ok tt
  /\ flag arguments "--socket" = Ok (as_bytes "--socket").
Proof. vm_compute. split; reflexivity. Qed.

(** ** Witnesses *)

Definition sample_stat : Stat := mkStat true 384 1000 1 6 3 17.

#[local] Instance sample_files : FileSystem := {|
  view := fun _ => mkFileView (Some sample_stat) (Some sample_stat)
                     [Some (as_bytes "sec"); Some (as_bytes "ret"); Some []];
  geteuid := 1000
|}.

Lemma read_owner_only_file_safe_witness :
  exists b a chunks extra,
    before (view (as_bytes "/token")) = Some b /\ opened (view (as_bytes "/token")) = Some a
    /\ st_dev b = st_dev a /\ st_ino b = st_ino a
    /\ st_regular a = true /\ st_permissions a = 384 /\ st_uid a = geteuid /\ st_nlink a = 1
    /\ file_reads (view (as_bytes "/token")) = delivers chunks (Some [] :: extra)
    /\ as_bytes "secret" = concat chunks /\ len (as_bytes "secret") = st_size a
    /\ 0 < len (as_bytes "secret") <= 4097.
Proof. apply (read_owner_only_file_safe (as_bytes "/token")). vm_compute. reflexivity. Defined.

Definition sample_pairs : list (bytes * bytes) :=
  [(as_bytes "--state-dir", as_bytes "/s"); (as_bytes "--socket", as_bytes "/s/socket");
   (as_bytes "--ntfy-topic", as_bytes "t"); (as_bytes "--ntfy-url", as_bytes "http://localhost")].

Lemma flag_returns_value_witness :
  flag (arguments_of sample_pairs) "--socket" = Ok (as_bytes "/s/socket").
Proof.
  apply (flag_returns_value sample_pairs "--socket" (as_bytes "/s/socket")).
  - vm_compute. reflexivity.
  - vm_compute. right. left.
  - intros k u Hin. apply list_elem_of_In in Hin. vm_compute in Hin.
    destruct Hin as [E|[E|[E|[E|[]]]]]; injection E as <- <-; vm_compute; discriminate.
  - vm_compute. reflexivity.
  - discriminate.
Defined.
