(* ===== verification/Clock.v ===== *)
(** * Clock authority and clock checkpoints
    ([initialization_key_pair/clock_authority_projection.rs] and
    [clock_checkpoint_body.rs] of [crates/msgriver/src])

    Two canonical bodies the control journal authenticates. Each decoder is shown
    to accept exactly the encodings of the values its validation admits. *)

From S2P Require Import Prelude Bytes Generation Codec.

#[local] Open Scope Z_scope.

(** ** [clock_authority_projection.rs] *)
Module ClockAuthority.

Record ClockAuthorityHold : Type := mkClockAuthorityHold {
  generation : Z;
  observation_digest : bytes;
}.

Record ClockAuthorityProjection : Type := mkClockAuthorityProjection {
  safe_time : Z;
  hold : option ClockAuthorityHold;
  last_shutdown_observation : option Z;
}.

Inductive ClockAuthorityProjectionError : Type :=
| MissingClockAuthorityProjection | InvalidClockAuthorityProjection.

Abbreviation projection_result := (result ClockAuthorityProjectionError).

Definition expected_length (hold_present shutdown_present : bool) : nat :=
  11 + (if hold_present then 40 else 0) + (if shutdown_present then 8 else 0).

Definition presence_tag (tag : Z) : projection_result bool :=
  if tag =? 0 then Ok false else if tag =? 1 then Ok true
  else Err InvalidClockAuthorityProjection.

Definition read_i64 (l : bytes) : projection_result Z :=
  a ← try_array 8 l InvalidClockAuthorityProjection; Ok (as_i64 (of_be_bytes a)).

Definition read_u64 (l : bytes) : projection_result Z :=
  a ← try_array 8 l InvalidClockAuthorityProjection; Ok (of_be_bytes a).

Definition validate_projection (projection : ClockAuthorityProjection)
    : projection_result unit :=
  match hold projection with
  | Some h =>
    if (generation h =? 0) || all_zero (observation_digest h)
    then Err InvalidClockAuthorityProjection else Ok tt
  | None => Ok tt
  end.

Definition encode_clock_authority_projection (projection : ClockAuthorityProjection)
    : projection_result bytes :=
  _ ← validate_projection projection;
  Ok ([1] ++ be_bytes 8 (safe_time projection) ++ [flag (is_some (hold projection))]
      ++ match hold projection with
         | Some h => be_bytes 8 (generation h) ++ observation_digest h
         | None => []
         end
      ++ [flag (is_some (last_shutdown_observation projection))]
      ++ match last_shutdown_observation projection with
         | Some observation => be_bytes 8 observation
         | None => []
         end).

Definition decode_clock_authority_projection (wire : bytes)
    : projection_result ClockAuthorityProjection :=
  if (length wire <? 11)%nat || negb (at_ wire 0 =? 1)
  then Err InvalidClockAuthorityProjection
  else
    hold_present ← presence_tag (at_ wire 9);
    shutdown_tag_offset ←
      (if hold_present then
         if (length wire <? 51)%nat then Err InvalidClockAuthorityProjection else Ok 50%nat
       else Ok 10%nat);
    shutdown_present ← presence_tag (at_ wire shutdown_tag_offset);
    if negb (length wire =? expected_length hold_present shutdown_present)%nat
    then Err InvalidClockAuthorityProjection
    else
      safe_time ← read_i64 (slice wire 1 9);
      hold ←
        (if hold_present then
           generation ← read_u64 (slice wire 10 18);
           observation_digest ← try_array 32 (slice wire 18 50) InvalidClockAuthorityProjection;
           Ok (Some (mkClockAuthorityHold generation observation_digest))
         else Ok None);
      last_shutdown_observation ←
        (if shutdown_present then
           Some <$> read_i64 (slice wire (shutdown_tag_offset + 1) (shutdown_tag_offset + 9))
         else Ok None);
      let projection := mkClockAuthorityProjection safe_time hold last_shutdown_observation in
      _ ← validate_projection projection;
      Ok projection.

(** The values the Rust types admit. *)
Definition typed (p : ClockAuthorityProjection) : bool :=
  is_i64 (safe_time p)
  && on_some (fun h => is_u64 (generation h) && array 32 (observation_digest h)) (hold p)
  && on_some is_i64 (last_shutdown_observation p).

(** ** Lemmas *)

Lemma authority_presence_tag_Ok tag b : presence_tag tag = Ok b <-> tag = flag b.
Proof. enum_codes. Qed.

Lemma read_i64_slice l i j :
  (i <= j)%nat -> (j <= length l)%nat -> 8%nat = (j - i)%nat ->
  read_i64 (slice l i j) = Ok (as_i64 (of_be_bytes (slice l i j))).
Proof. intros. unfold read_i64. by rewrite try_array_slice. Qed.

Lemma authority_decode_sound wire p :
  is_bytes wire = true -> decode_clock_authority_projection wire = Ok p ->
  typed p = true /\ encode_clock_authority_projection p = Ok wire.
Proof.
  intros Hw H. unfold decode_clock_authority_projection, read_i64, read_u64 in H.
  decode_inv H;
    repeat match goal with H : presence_tag _ = _ |- _ => apply authority_presence_tag_Ok in H end;
    cbn in *; b2p.
  all: split; [unfold typed; cbn; typed_fields|].
  all: rewrite ?Hx1; cbn; f_equal.
  - assemble wire 59%nat.
  - assemble wire 51%nat.
  - assemble wire 19%nat.
  - assemble wire 11%nat.
Qed.

Lemma authority_encode_complete p wire :
  typed p = true -> encode_clock_authority_projection p = Ok wire ->
  decode_clock_authority_projection wire = Ok p.
Proof.
  destruct p as [st [[g d]|] [sd|]]; unfold typed; cbn.
  all: intros Hp He; b2p; destruct_and?; encode_inv He.
  all: unfold decode_clock_authority_projection, read_i64, read_u64, presence_tag.
  all: read_wire wire He; by rewrite ?Hx.
Qed.

Lemma authority_encode_bytes p wire :
  typed p = true -> encode_clock_authority_projection p = Ok wire -> is_bytes wire = true.
Proof.
  destruct p as [st [[g d]|] [sd|]]; unfold typed; cbn.
  all: intros Hp He; b2p; destruct_and?; encode_inv He; subst; bytes_fields.
Qed.

#[export] Instance clock_authority_codec :
  WireCodec encode_clock_authority_projection decode_clock_authority_projection typed.
Proof.
  split; [|exact authority_encode_bytes]. intros wire p Hw. split; [by apply authority_decode_sound|].
  intros [??]. by apply authority_encode_complete.
Qed.

End ClockAuthority.

(** ** [clock_checkpoint_body.rs] *)
Module ClockBody.

Inductive RuntimeMode : Type := Normal | Maintenance.

Inductive CheckpointReason : Type :=
| Periodic | AutomaticSettlement | CleanShutdown | ExpiryProof.

Record NamedHold : Type := mkNamedHold { generation : Z; observation_digest : bytes }.

Record PreMirrorWitness : Type := mkPreMirrorWitness {
  selected_origin : bytes;
  transaction_sequence : Z;
  transaction_digest : bytes;
}.

Record ClockCheckpointBody : Type := mkClockCheckpointBody {
  runtime_mode : RuntimeMode;
  process_instance : bytes;
  accepted_wall_time : Z;
  accepted_monotonic_tick : Z;
  prior_safe_time : Z;
  new_safe_time : Z;
  reason : CheckpointReason;
  hold : option NamedHold;
  pre_mirror : option PreMirrorWitness;
}.

Inductive ClockCheckpointBodyError : Type := MissingClockCheckpointBody | InvalidBody.

Abbreviation body_result := (result ClockCheckpointBodyError).

Definition FIXED_BODY_BYTES : nat := 53.
Definition HOLD_BYTES : nat := 40.
Definition MIRROR_BYTES : nat := 72.

Definition RuntimeMode_code (mode : RuntimeMode) : Z :=
  match mode with Normal => 1 | Maintenance => 2 end.

Definition RuntimeMode_from_code (code : Z) : body_result RuntimeMode :=
  if code =? 1 then Ok Normal else if code =? 2 then Ok Maintenance else Err InvalidBody.

Definition CheckpointReason_code (r : CheckpointReason) : Z :=
  match r with
  | Periodic => 1 | AutomaticSettlement => 2 | CleanShutdown => 3 | ExpiryProof => 4
  end.

Definition CheckpointReason_from_code (code : Z) : body_result CheckpointReason :=
  if code =? 1 then Ok Periodic
  else if code =? 2 then Ok AutomaticSettlement
  else if code =? 3 then Ok CleanShutdown
  else if code =? 4 then Ok ExpiryProof
  else Err InvalidBody.

Definition expected_length (hold_present mirror_present : bool) : nat :=
  FIXED_BODY_BYTES + (if hold_present then HOLD_BYTES else 0)
  + (if mirror_present then MIRROR_BYTES else 0).

Definition presence_tag (tag : Z) : body_result bool :=
  if tag =? 0 then Ok false else if tag =? 1 then Ok true else Err InvalidBody.

Definition read_i64 (l : bytes) : body_result Z :=
  a ← try_array 8 l InvalidBody; Ok (as_i64 (of_be_bytes a)).

Definition read_u64 (l : bytes) : body_result Z :=
  a ← try_array 8 l InvalidBody; Ok (of_be_bytes a).

Definition validate_body (body : ClockCheckpointBody) : body_result unit :=
  if bool_decide (process_instance body = repeat 0 16)
     || (accepted_monotonic_tick body <? 0)
     || negb (new_safe_time body =? Z.max (prior_safe_time body) (accepted_wall_time body))
  then Err InvalidBody
  else
    _ ← match reason body, hold body with
        | AutomaticSettlement, Some h =>
          if (generation h =? 0) || bool_decide (observation_digest h = repeat 0 32)
          then Err InvalidBody else Ok tt
        | AutomaticSettlement, None | _, Some _ => Err InvalidBody
        | _, None => Ok tt
        end;
    match pre_mirror body with
    | Some mirror =>
      if bool_decide (drop 24 (selected_origin mirror) = be_bytes 8 0)
         || bool_decide (transaction_digest mirror = repeat 0 32)
      then Err InvalidBody else Ok tt
    | None => Ok tt
    end.

Definition encode_clock_checkpoint_body (body : ClockCheckpointBody) : body_result bytes :=
  _ ← validate_body body;
  Ok ([1; RuntimeMode_code (runtime_mode body)] ++ process_instance body
      ++ be_bytes 8 (accepted_wall_time body) ++ be_bytes 8 (accepted_monotonic_tick body)
      ++ be_bytes 8 (prior_safe_time body) ++ be_bytes 8 (new_safe_time body)
      ++ [CheckpointReason_code (reason body)]
      ++ [flag (is_some (hold body))] ++ [flag (is_some (pre_mirror body))]
      ++ match hold body with
         | Some h => be_bytes 8 (generation h) ++ observation_digest h
         | None => []
         end
      ++ match pre_mirror body with
         | Some mirror => selected_origin mirror
             ++ be_bytes 8 (transaction_sequence mirror) ++ transaction_digest mirror
         | None => []
         end).

Definition decode_clock_checkpoint_body (wire : bytes) : body_result ClockCheckpointBody :=
  if (length wire <? FIXED_BODY_BYTES)%nat || negb (at_ wire 0 =? 1) then Err InvalidBody
  else
    hold_present ← presence_tag (at_ wire 51);
    mirror_present ← presence_tag (at_ wire 52);
    if negb (length wire =? expected_length hold_present mirror_present)%nat
    then Err InvalidBody
    else
      runtime_mode ← RuntimeMode_from_code (at_ wire 1);
      process_instance ← try_array 16 (slice wire 2 18) InvalidBody;
      accepted_wall_time ← read_i64 (slice wire 18 26);
      accepted_monotonic_tick ← read_i64 (slice wire 26 34);
      prior_safe_time ← read_i64 (slice wire 34 42);
      new_safe_time ← read_i64 (slice wire 42 50);
      reason ← CheckpointReason_from_code (at_ wire 50);
      let offset := FIXED_BODY_BYTES in
      hold_offset ←
        (if hold_present then
           generation ← read_u64 (slice wire offset (offset + 8));
           observation_digest ←
             try_array 32 (slice wire (offset + 8) (offset + HOLD_BYTES)) InvalidBody;
           Ok (Some (mkNamedHold generation observation_digest), (offset + HOLD_BYTES)%nat)
         else Ok (None, offset));
      let '(hold, offset) := hold_offset : option NamedHold * nat in
      pre_mirror ←
        (if mirror_present then
           selected_origin ← try_array 32 (slice wire offset (offset + 32)) InvalidBody;
           transaction_sequence ← read_u64 (slice wire (offset + 32) (offset + 40));
           transaction_digest ←
             try_array 32 (slice wire (offset + 40) (offset + MIRROR_BYTES)) InvalidBody;
           Ok (Some (mkPreMirrorWitness selected_origin transaction_sequence transaction_digest))
         else Ok None);
      let body := mkClockCheckpointBody runtime_mode process_instance accepted_wall_time
        accepted_monotonic_tick prior_safe_time new_safe_time reason hold pre_mirror in
      _ ← validate_body body;
      Ok body.

(** The values the Rust types admit. *)
Definition typed (b : ClockCheckpointBody) : bool :=
  array 16 (process_instance b)
  && is_i64 (accepted_wall_time b) && is_i64 (accepted_monotonic_tick b)
  && is_i64 (prior_safe_time b) && is_i64 (new_safe_time b)
  && on_some (fun h => is_u64 (generation h) && array 32 (observation_digest h)) (hold b)
  && on_some (fun m => array 32 (selected_origin m) && is_u64 (transaction_sequence m)
                       && array 32 (transaction_digest m)) (pre_mirror b).

(** ** Lemmas *)

Lemma body_presence_tag_Ok tag b : presence_tag tag = Ok b <-> tag = flag b.
Proof. enum_codes. Qed.

Lemma RuntimeMode_codes c m : RuntimeMode_from_code c = Ok m <-> c = RuntimeMode_code m.
Proof. enum_codes. Qed.

Lemma CheckpointReason_codes c r :
  CheckpointReason_from_code c = Ok r <-> c = CheckpointReason_code r.
Proof. enum_codes. Qed.

#[local] Hint Rewrite body_presence_tag_Ok RuntimeMode_codes CheckpointReason_codes : wire_codes.

Lemma presence_tag_flag b : presence_tag (flag b) = Ok b.
Proof. by apply body_presence_tag_Ok. Qed.

Lemma RuntimeMode_from_to m : RuntimeMode_from_code (RuntimeMode_code m) = Ok m.
Proof. by apply RuntimeMode_codes. Qed.

Lemma CheckpointReason_from_to r : CheckpointReason_from_code (CheckpointReason_code r) = Ok r.
Proof. by apply CheckpointReason_codes. Qed.

#[local] Hint Rewrite presence_tag_flag RuntimeMode_from_to CheckpointReason_from_to : wire_read.

#[local] Arguments validate_body : simpl never.
#[local] Arguments RuntimeMode_from_code : simpl never.
#[local] Arguments CheckpointReason_from_code : simpl never.
#[local] Arguments RuntimeMode_code : simpl never.
#[local] Arguments CheckpointReason_code : simpl never.

Lemma body_decode_sound wire p :
  is_bytes wire = true -> decode_clock_checkpoint_body wire = Ok p ->
  typed p = true /\ encode_clock_checkpoint_body p = Ok wire.
Proof.
  intros Hw H. unfold decode_clock_checkpoint_body, read_i64, read_u64 in H.
  decode_inv H; autorewrite with wire_codes in *;
    unfold expected_length, FIXED_BODY_BYTES, HOLD_BYTES, MIRROR_BYTES in *; cbn in *; b2p.
  all: split; [unfold typed; cbn; typed_fields|].
  all: unfold encode_clock_checkpoint_body; rewrite Hx8; cbn; f_equal.
  - assemble wire 165%nat.
  - assemble wire 93%nat.
  - assemble wire 125%nat.
  - assemble wire 53%nat.
Qed.

Lemma body_encode_complete p wire :
  typed p = true -> encode_clock_checkpoint_body p = Ok wire ->
  decode_clock_checkpoint_body wire = Ok p.
Proof.
  unfold encode_clock_checkpoint_body, typed.
  destruct p as [mode pi wall tick prior new r [[g d]|] [[o sq td]|]]; cbn.
  all: intros Hp He; b2p; destruct_and?; encode_inv He.
  all: unfold decode_clock_checkpoint_body, read_i64, read_u64, expected_length,
    FIXED_BODY_BYTES, HOLD_BYTES, MIRROR_BYTES.
  all: read_wire wire He; by rewrite ?Hx.
Qed.

Lemma body_encode_bytes p wire :
  typed p = true -> encode_clock_checkpoint_body p = Ok wire -> is_bytes wire = true.
Proof.
  unfold encode_clock_checkpoint_body, typed.
  destruct p as [mode pi wall tick prior new r [[g d]|] [[o sq td]|]]; cbn.
  all: intros Hp He; b2p; destruct_and?; encode_inv He; subst; bytes_fields.
Qed.

#[export] Instance clock_body_codec :
  WireCodec encode_clock_checkpoint_body decode_clock_checkpoint_body typed.
Proof.
  split; [|exact body_encode_bytes]. intros wire p Hw. split; [by apply body_decode_sound|].
  intros [??]. by apply body_encode_complete.
Qed.

End ClockBody.
