(* ===== verification/Journal.v ===== *)
(** * The journal integrity key, the control-journal header and its records
    ([initialization_key_pair.rs], [initialization_key_pair/control_journal_header.rs]
    and [control_journal_record.rs] of [crates/msgriver/src])

    Key acquisition, the namespace derived from the key, the authenticated header,
    and the hash-chained, authenticated records. [new_from_slice] of the [hmac]
    crate accepts a key of any length, so its error branch is unreachable; the
    [sha2] crate's SHA-256 is the one [canon.rs] writes out. *)

From S2P Require Import Prelude Bytes CoreError Generation Sha256 Codec.

#[local] Open Scope Z_scope.

(** ** [initialization_key_pair.rs] *)

Inductive InitializationKeyRole : Type := JournalIntegrity | PortableReservation.

Inductive EntropyFailure : Type := EntropyFailed | MissingOsAdapter.

(** [trait InitializationEntropySource]: a call fills the destination and reports
    how much of it, or fails. *)
Class InitializationEntropySource (Src : Type) : Type :=
  acquire : Src -> InitializationKeyRole -> bytes -> Src * bytes * result EntropyFailure Z.

Record JournalIntegrityKey : Type := mkJournalIntegrityKey { key_bytes : bytes }.
Record PortableReservationKey : Type := mkPortableReservationKey { reservation_bytes : bytes }.

Record InitializationKeyPair : Type := mkInitializationKeyPair {
  journal_integrity : JournalIntegrityKey;
  portable_reservation : PortableReservationKey;
}.

Inductive InitializationKeyPairError : Type :=
| Entropy (role : InitializationKeyRole)
| Incomplete (role : InitializationKeyRole)
| Zero (role : InitializationKeyRole)
| Equal
| MissingAcquisition.

(** One role's sample: the call, then the two checks on what it left. *)
Definition acquire_sample `{InitializationEntropySource Src} (source : Src)
    (role : InitializationKeyRole) : Src * result InitializationKeyPairError bytes :=
  let '(source, destination, completion) := acquire source role (repeat 0 32) in
  (source,
    match completion with
    | Err _ => Err (Entropy role)
    | Ok count =>
      if negb (count =? len destination) then Err (Incomplete role)
      else if all_zero destination then Err (Zero role)
      else Ok destination
    end).

Definition acquire_initialization_key_pair_with `{InitializationEntropySource Src} (source : Src)
    : Src * result InitializationKeyPairError InitializationKeyPair :=
  let '(source, journal) := acquire_sample source JournalIntegrity in
  match journal with
  | Err e => (source, Err e)
  | Ok journal =>
    let '(source, reservation) := acquire_sample source PortableReservation in
    (source,
      match reservation with
      | Err e => Err e
      | Ok reservation =>
        if bool_decide (journal = reservation) then Err Equal
        else Ok (mkInitializationKeyPair (mkJournalIntegrityKey journal)
                   (mkPortableReservationKey reservation))
      end)
  end.

Definition RESOURCE_INCARNATION_NAMESPACE_LABEL : bytes :=
  as_bytes "msgriver/resource-incarnation-namespace/v1".

Inductive JournalNamespaceError : Type := MissingDerivation.

Record JournalNamespaceCapability : Type := mkJournalNamespaceCapability {
  capability_bytes : bytes;
}.

Section with_hmac.
Context `{HmacSha256}.

Definition derive_resource_incarnation_namespace_v1 (self : JournalIntegrityKey)
    : result JournalNamespaceError JournalNamespaceCapability :=
  let digest := hmac (key_bytes self) RESOURCE_INCARNATION_NAMESPACE_LABEL in
  Ok (mkJournalNamespaceCapability (take 24 digest)).

(** ** [control_journal_header.rs] *)

Definition MAGIC : bytes := as_bytes "MSGRIVER-CJH" ++ [0; 0; 0; 0].
Definition FORMAT_VERSION : Z := 1.
Definition KEY_FORMAT_VERSION : Z := 1.
Definition MAX_CONTROL_IMAGE_BYTES : Z := 8 * 1024 * 1024.
Definition MAX_CONTROL_HEADER_BYTES : Z := 16 * 1024.
Definition MAX_CONTROL_CHECKPOINT_BYTES : Z := 6 * 1024 * 1024 - MAX_CONTROL_HEADER_BYTES.
Definition MAX_CONTROL_ORDINARY_CHECKPOINT_BYTES : Z :=
  4 * 1024 * 1024 - MAX_CONTROL_HEADER_BYTES.
Definition MAX_CONTROL_RECONCILIATION_CHECKPOINT_BYTES : Z := 2 * 1024 * 1024.
Definition MAX_CONTROL_CHECKPOINT_ENTRIES : Z := 4096.
Definition MAX_CONTROL_TAIL_BYTES : Z := 2 * 1024 * 1024.
Definition MAX_CONTROL_TAIL_RECORDS : Z := 128.
Definition MAX_CONTROL_RECORD_BYTES : Z := 16 * 1024.
Definition HEADER_AUTH_LABEL : bytes := as_bytes "msgriver/control-journal-header/v1".
Definition PREFIX_BYTES : nat := 88.
Definition TAG_BYTES : nat := 32.
Definition WIRE_BYTES : nat := PREFIX_BYTES + TAG_BYTES.

Definition layout : list Z :=
  [MAX_CONTROL_IMAGE_BYTES; MAX_CONTROL_HEADER_BYTES; MAX_CONTROL_CHECKPOINT_BYTES;
   MAX_CONTROL_ORDINARY_CHECKPOINT_BYTES; MAX_CONTROL_RECONCILIATION_CHECKPOINT_BYTES;
   MAX_CONTROL_CHECKPOINT_ENTRIES; MAX_CONTROL_TAIL_BYTES; MAX_CONTROL_TAIL_RECORDS;
   MAX_CONTROL_RECORD_BYTES].

Record ControlJournalHeader : Type := mkControlJournalHeader {
  owner_namespace : OwnerNamespace;
  branch_serial_high_water : Z;
}.

Inductive ControlJournalHeaderError : Type := MissingControlJournalHeader | InvalidHeader.

Abbreviation header_result := (result ControlJournalHeaderError).

Definition fresh_control_journal_header (self : JournalIntegrityKey)
    : header_result ControlJournalHeader :=
  namespace ← map_err (fun _ => InvalidHeader) (derive_resource_incarnation_namespace_v1 self);
  Ok (mkControlJournalHeader (mkOwnerNamespace (capability_bytes namespace)) 0).

Definition control_journal_header_with_branch_high_water (self : JournalIntegrityKey)
    (high_water : Z) : header_result ControlJournalHeader :=
  header ← fresh_control_journal_header self;
  Ok (mkControlJournalHeader (owner_namespace header) high_water).

(** The nine stores at [20 + index * 4] follow one another. *)
Definition encode_prefix (header : ControlJournalHeader) : bytes :=
  MAGIC ++ be_bytes 2 FORMAT_VERSION ++ be_bytes 2 KEY_FORMAT_VERSION
  ++ flat_map (be_bytes 4) layout
  ++ namespace_bytes (owner_namespace header)
  ++ be_bytes 8 (branch_serial_high_water header).

Definition header_tag (self : JournalIntegrityKey) (prefix : bytes) : bytes :=
  hmac (key_bytes self) (HEADER_AUTH_LABEL ++ prefix).

Definition verify_header_tag (self : JournalIntegrityKey) (prefix tag : bytes)
    : header_result unit :=
  if bool_decide (hmac (key_bytes self) (HEADER_AUTH_LABEL ++ prefix) = tag)
  then Ok tt else Err InvalidHeader.

Definition encode_control_journal_header (self : JournalIntegrityKey)
    (header : ControlJournalHeader) : header_result bytes :=
  fresh ← fresh_control_journal_header self;
  if negb (bool_decide (owner_namespace header = owner_namespace fresh))
  then Err InvalidHeader
  else
    let prefix := encode_prefix header in
    Ok (prefix ++ header_tag self prefix).

(** The loop over [expected_layout], from [index]. *)
Fixpoint check_layout (prefix : bytes) (index : nat) (expected_layout : list Z) : bool :=
  match expected_layout with
  | [] => true
  | expected :: rest =>
    let offset := (20 + index * 4)%nat in
    (of_be_bytes (slice prefix offset (offset + 4)) =? expected)
    && check_layout prefix (S index) rest
  end.

Definition decode_control_journal_header (self : JournalIntegrityKey) (wire : bytes)
    : header_result ControlJournalHeader :=
  if negb (length wire =? WIRE_BYTES)%nat then Err InvalidHeader
  else
    let prefix := slice wire 0 PREFIX_BYTES in
    _ ← verify_header_tag self prefix (slice wire PREFIX_BYTES (length wire));
    if negb (bool_decide (slice prefix 0 16 = MAGIC))
       || negb (of_be_bytes (slice prefix 16 18) =? FORMAT_VERSION)
       || negb (of_be_bytes (slice prefix 18 20) =? KEY_FORMAT_VERSION)
    then Err InvalidHeader
    else if negb (check_layout prefix 0 layout) then Err InvalidHeader
    else
      let namespace := mkOwnerNamespace (slice prefix 56 80) in
      fresh ← fresh_control_journal_header self;
      if negb (bool_decide (namespace = owner_namespace fresh)) then Err InvalidHeader
      else Ok (mkControlJournalHeader namespace (of_be_bytes (slice prefix 80 88))).

(** ** [control_journal_record.rs] *)

Definition MIN_FRAME_BYTES : Z := 110.
Definition MAX_FRAME_BYTES : Z := 16 * 1024.
Definition MAX_BODY_BYTES : Z := MAX_FRAME_BYTES - MIN_FRAME_BYTES.
Definition RECORD_LABEL : bytes := as_bytes "msgriver/control-journal-record/v1".
Definition AUTH_LABEL : bytes := as_bytes "msgriver/control-journal-record-auth/v1".

Inductive ControlJournalRecordKind : Type := ClockCheckpoint | ClockAcknowledge | SystemShutdown.

Inductive ControlJournalRecordError : Type :=
| MissingControlJournalRecord | InvalidRecord | SequenceExhausted.

Abbreviation record_result := (result ControlJournalRecordError).

Definition kind_code (kind : ControlJournalRecordKind) : Z :=
  match kind with ClockCheckpoint => 1 | ClockAcknowledge => 2 | SystemShutdown => 3 end.

Definition kind_from_code (code : Z) : record_result ControlJournalRecordKind :=
  if code =? 1 then Ok ClockCheckpoint
  else if code =? 2 then Ok ClockAcknowledge
  else if code =? 3 then Ok SystemShutdown
  else Err InvalidRecord.

Record JournalHead : Type := mkJournalHead { sequence : Z; digest : bytes }.

Definition genesis : JournalHead := mkJournalHead 0 (repeat 0 32).

Record ControlJournalRecord : Type := mkControlJournalRecord {
  record_kind : ControlJournalRecordKind;
  record_sequence : Z;
  record_digest : bytes;
  record_body : bytes;
}.

(** [u64::checked_add(1)] of the prior sequence. *)
Definition next_sequence (prior : JournalHead) : record_result Z :=
  ok_or (checked_add_u64 (sequence prior) 1) SequenceExhausted.

Definition record_prefix (kind : ControlJournalRecordKind) (body : bytes) (prior : JournalHead)
    : record_result bytes :=
  if MAX_BODY_BYTES <? len body then Err InvalidRecord
  else
    sequence ← next_sequence prior;
    length ← ok_or (checked is_u32 (MIN_FRAME_BYTES + len body)) InvalidRecord;
    Ok (be_bytes 4 length ++ be_bytes 2 (kind_code kind) ++ be_bytes 8 sequence
        ++ digest prior ++ body).

(** [Self::record_digest]. *)
Definition frame_digest (frame_prefix : bytes) : bytes :=
  sha256 (RECORD_LABEL ++ drop 4 frame_prefix).

Definition record_tag (self : JournalIntegrityKey) (frame_without_tag : bytes) : bytes :=
  hmac (key_bytes self) (AUTH_LABEL ++ frame_without_tag).

Definition verify_record_tag (self : JournalIntegrityKey) (frame_without_tag tag : bytes)
    : record_result unit :=
  if bool_decide (hmac (key_bytes self) (AUTH_LABEL ++ frame_without_tag) = tag)
  then Ok tt else Err InvalidRecord.

Definition encode_control_journal_record (self : JournalIntegrityKey)
    (kind : ControlJournalRecordKind) (body : bytes) (prior : JournalHead)
    : record_result bytes :=
  frame ← record_prefix kind body prior;
  let frame := frame ++ frame_digest frame in
  Ok (frame ++ record_tag self frame).

Definition control_journal_clock_checkpoint_head (body : bytes) (prior : JournalHead)
    : record_result JournalHead :=
  prefix ← record_prefix ClockCheckpoint body prior;
  sequence ← next_sequence prior;
  Ok (mkJournalHead sequence (frame_digest prefix)).

Definition decode_control_journal_record (self : JournalIntegrityKey) (frame : bytes)
    (prior : JournalHead) : record_result ControlJournalRecord :=
  if len frame <? 4 then Err InvalidRecord
  else
    let length := of_be_bytes (slice frame 0 4) in
    if negb (within MIN_FRAME_BYTES MAX_FRAME_BYTES length) || negb (len frame =? length)
    then Err InvalidRecord
    else
      let tag_start := Z.to_nat (length - 32) in
      _ ← verify_record_tag self (take tag_start frame) (drop tag_start frame);
      let digest_start := Z.to_nat (length - 64) in
      let expected_digest := frame_digest (take digest_start frame) in
      if negb (bool_decide (slice frame digest_start tag_start = expected_digest))
      then Err InvalidRecord
      else
        kind ← kind_from_code (of_be_bytes (slice frame 4 6));
        let sequence := of_be_bytes (slice frame 6 14) in
        expected_sequence ← next_sequence prior;
        if negb (sequence =? expected_sequence)
           || negb (bool_decide (slice frame 14 46 = digest prior))
        then Err InvalidRecord
        else Ok (mkControlJournalRecord kind sequence expected_digest
                   (slice frame 46 digest_start)).
End with_hmac.

(** ** The values the Rust types admit *)

Definition typed_header (h : ControlJournalHeader) : bool :=
  array 24 (namespace_bytes (owner_namespace h)) && is_u64 (branch_serial_high_water h).

Definition typed_head (head : JournalHead) : bool :=
  is_u64 (sequence head) && array 32 (digest head).

(** ** Lemmas: key acquisition *)

Lemma acquire_sample_Ok `{InitializationEntropySource Src} (source source' : Src) role sample :
  acquire_sample source role = (source', Ok sample) ->
  acquire source role (repeat 0 32) = (source', sample, Ok (len sample))
  /\ all_zero sample = false.
Proof.
  unfold acquire_sample. destruct (acquire source role (repeat 0 32)) as [[s d] [n|e]]; [|done].
  repeat case_match; intros [= -> ->]; b2p; by subst.
Qed.

(** An acquired pair is two complete samples of the source, drawn in order, neither
    zero and the two distinct; any failure returns neither. *)
Theorem acquire_initialization_key_pair_sound `{InitializationEntropySource Src}
    (source source' : Src) pair :
  acquire_initialization_key_pair_with source = (source', Ok pair) ->
  let j := key_bytes (journal_integrity pair) in
  let p := reservation_bytes (portable_reservation pair) in
  exists source1,
    acquire source JournalIntegrity (repeat 0 32) = (source1, j, Ok (len j))
    /\ acquire source1 PortableReservation (repeat 0 32) = (source', p, Ok (len p))
    /\ all_zero j = false /\ all_zero p = false /\ j <> p.
Proof.
  unfold acquire_initialization_key_pair_with.
  destruct (acquire_sample source JournalIntegrity) as [s1 [j|e]] eqn:Hj; [|done].
  destruct (acquire_sample s1 PortableReservation) as [s2 [p|e]] eqn:Hp; [|done].
  case_bool_decide as Hjp; [done|]. intros [= <- <-]. cbn. exists s1.
  apply acquire_sample_Ok in Hj as [Hj ?]. apply acquire_sample_Ok in Hp as [Hp ?]. done.
Qed.

(** ** Lemmas: the header *)

#[export] Instance len_magic : Len MAGIC 16.
Proof. vm_compute. reflexivity. Qed.

#[global] Arguments MAGIC : simpl never.

Section journal_facts.
Context `{HmacOutput} (key : JournalIntegrityKey).

Lemma length_layout : length (flat_map (be_bytes 4) layout) = 36%nat.
Proof. vm_compute. reflexivity. Qed.

Lemma length_encode_prefix h :
  typed_header h = true -> length (encode_prefix h) = PREFIX_BYTES.
Proof.
  intros [Hn _]%andb_true_iff. unfold encode_prefix.
  rewrite !length_app, length_layout, !length_be_bytes, (array_len _ _ Hn), len_magic. done.
Qed.

Lemma check_layout_bytes wire :
  is_bytes wire = true -> (PREFIX_BYTES <= length wire)%nat ->
  check_layout (slice wire 0 PREFIX_BYTES) 0 layout = true ->
  flat_map (be_bytes 4) layout = slice wire 20 56.
Proof.
  intros Hw Hl Hc. unfold PREFIX_BYTES in *. cbn in Hc.
  rewrite !slice_slice in Hc by lia. b2p. destruct_and?.
  unfold layout. cbn [flat_map].
  repeat (refine (assemble_step _ _ _ _ _ _ _ _ _); [cbn; lia|field_leaf|cbn [Nat.add]]).
  done.
Qed.

Lemma header_decode_sound wire h :
  is_bytes wire = true -> decode_control_journal_header key wire = Ok h ->
  typed_header h = true /\ encode_control_journal_header key h = Ok wire.
Proof.
  intros Hw Hd. unfold decode_control_journal_header, verify_header_tag in Hd.
  cbv zeta in Hd. decode_inv Hd. b2p. destruct Hb1 as [[Hm Hf] Hk].
  assert (PREFIX_BYTES <= length wire)%nat as Hle by (rewrite Hb; unfold WIRE_BYTES; lia).
  pose proof (check_layout_bytes wire Hw Hle Hb2) as Hlay.
  rewrite Hb in Hb0. unfold WIRE_BYTES, PREFIX_BYTES, TAG_BYTES in *. cbn [Nat.add] in *.
  rewrite !slice_slice in * by lia.
  unfold FORMAT_VERSION, KEY_FORMAT_VERSION in *.
  assert (be_bytes 2 1 = slice wire 16 18) as Ef by (rewrite <- Hf; apply be_slice; done || lia).
  assert (be_bytes 2 1 = slice wire 18 20) as Ek by (rewrite <- Hk; apply be_slice; done || lia).
  assert (encode_prefix (mkControlJournalHeader (mkOwnerNamespace (slice wire 56 80))
            (of_be_bytes (slice wire 80 88))) = slice wire 0 88) as Hp.
  { unfold encode_prefix, FORMAT_VERSION, KEY_FORMAT_VERSION.
    cbn [owner_namespace branch_serial_high_water namespace_bytes].
    rewrite Hlay, <- Hm, Ef at 1. rewrite Ek, be_slice by (done || lia).
    by rewrite !slice_join by lia. }
  split; [unfold typed_header; cbn; typed_fields|].
  unfold encode_control_journal_header. rewrite Hx, Ok_bind. cbn [owner_namespace].
  rewrite bool_decide_true by done. cbn [negb]. cbv zeta. rewrite Hp. f_equal.
  unfold header_tag. rewrite Hb0, slice_join by lia. by apply slice_all.
Qed.

Lemma header_encode_complete wire h :
  typed_header h = true -> encode_control_journal_header key h = Ok wire ->
  decode_control_journal_header key wire = Ok h.
Proof.
  intros Ht He. pose proof (length_encode_prefix h Ht) as Hl.
  unfold encode_control_journal_header in He. encode_inv He. cbv zeta in He. encode_inv He.
  assert (slice wire 0 PREFIX_BYTES = encode_prefix h) as Hpre.
  { rewrite He, slice_app_l by lia. by apply slice_all. }
  assert (length wire = WIRE_BYTES) as Hw.
  { rewrite He, length_app, Hl. unfold header_tag. by rewrite hmac_length. }
  assert (slice wire PREFIX_BYTES WIRE_BYTES = header_tag key (encode_prefix h)) as Htag.
  { rewrite He. apply slice_tail; [done|]. rewrite Hl. unfold header_tag. by rewrite hmac_length. }
  unfold decode_control_journal_header. rewrite Hw, Htag, Hpre. cbn [negb Nat.eqb].
  unfold verify_header_tag, header_tag. rewrite (bool_decide_true (hmac _ _ = _)) by done.
  cbn [negb WIRE_BYTES PREFIX_BYTES TAG_BYTES Nat.add Nat.eqb]. rewrite Ok_bind, Hx. cbv zeta.
  b2p. destruct h as [[ns] hw]. unfold typed_header in Ht.
  cbn [owner_namespace branch_serial_high_water namespace_bytes] in *. b2p.
  destruct Ht as [Hns Hhw]. remember (encode_prefix _) as P eqn:HP.
  unfold encode_prefix in HP. cbn [owner_namespace branch_serial_high_water namespace_bytes] in HP.
  unfold layout in HP. cbn [flat_map] in HP. clear He Hpre Htag Hl Hw.
  rewrite (bool_decide_true (slice P 0 16 = MAGIC)) by (rewrite HP; by slices).
  read_wire P HP. rewrite ?Z.eqb_refl. cbn. by rewrite bool_decide_true by done.
Qed.

Lemma header_encode_bytes h wire :
  typed_header h = true -> encode_control_journal_header key h = Ok wire ->
  is_bytes wire = true.
Proof.
  intros [Hns Hhw]%andb_true_iff He. unfold encode_control_journal_header in He.
  encode_inv He. cbv zeta in He. encode_inv He. subst wire. unfold header_tag, encode_prefix.
  bytes_fields.
Qed.

#[export] Instance header_codec :
  WireCodec (encode_control_journal_header key) (decode_control_journal_header key) typed_header.
Proof.
  split; [|exact header_encode_bytes]. intros wire h Hw.
  split; [by apply header_decode_sound|]. intros [??]. by apply header_encode_complete.
Qed.

(** ** Lemmas: the records *)

Lemma kind_codes c k : kind_from_code c = Ok k <-> c = kind_code k.
Proof. enum_codes. Qed.

Lemma next_sequence_Ok prior n :
  next_sequence prior = Ok n <-> n = sequence prior + 1 /\ is_u64 (sequence prior + 1) = true.
Proof. unfold next_sequence, checked_add_u64. by rewrite ok_or_Ok, checked_Some. Qed.

Lemma record_prefix_Ok kind body prior prefix :
  record_prefix kind body prior = Ok prefix <->
  len body <= MAX_BODY_BYTES /\ is_u64 (sequence prior + 1) = true
  /\ prefix = be_bytes 4 (MIN_FRAME_BYTES + len body) ++ be_bytes 2 (kind_code kind)
              ++ be_bytes 8 (sequence prior + 1) ++ digest prior ++ body.
Proof.
  unfold record_prefix. destruct (Z.ltb_spec MAX_BODY_BYTES (len body)) as [Hb|Hb].
  { split; [done|]. intros [? _]. lia. }
  assert (checked is_u32 (MIN_FRAME_BYTES + len body) = Some (MIN_FRAME_BYTES + len body)) as Hc.
  { apply checked_Some. split; [done|]. apply within_spec.
    unfold MAX_BODY_BYTES, MAX_FRAME_BYTES, MIN_FRAME_BYTES, u32_max, len in *. lia. }
  rewrite Hc. cbn [ok_or]. split.
  - intros (n & [-> Hn]%next_sequence_Ok & H1)%bind_Ok. rewrite Ok_bind in H1.
    by apply Ok_inj in H1 as <-.
  - intros (_ & Hn & ->). apply bind_Ok. exists (sequence prior + 1).
    split; [by apply next_sequence_Ok|done].
Qed.

Definition typed_record (r : ControlJournalRecord) : bool := is_bytes (record_body r).

(** The wire form of a record and the head it leads to. *)
Definition record_wire (r : ControlJournalRecord) (prior : JournalHead) (frame : bytes) : Prop :=
  exists prefix,
    record_prefix (record_kind r) (record_body r) prior = Ok prefix
    /\ record_sequence r = sequence prior + 1
    /\ record_digest r = frame_digest prefix
    /\ frame = prefix ++ frame_digest prefix
                 ++ record_tag key (prefix ++ frame_digest prefix).

(** The frame of a body under the kind code [code] after [prior]. *)
Definition frame_prefix (code : Z) (body : bytes) (prior : JournalHead) : bytes :=
  be_bytes 4 (MIN_FRAME_BYTES + len body) ++ be_bytes 2 code ++ be_bytes 8 (sequence prior + 1)
  ++ digest prior ++ body.

Definition sealed_frame (prefix : bytes) : bytes :=
  prefix ++ frame_digest prefix ++ record_tag key (prefix ++ frame_digest prefix).

(** What the decoders look at in a frame they accept, and what it is then. *)
Lemma frame_split frame prior :
  let N := length frame in
  is_bytes frame = true -> (110 <= N)%nat -> of_be_bytes (slice frame 0 4) = Z.of_nat N ->
  of_be_bytes (slice frame 6 14) = sequence prior + 1 -> slice frame 14 46 = digest prior ->
  slice frame (N - 64) (N - 32) = frame_digest (slice frame 0 (N - 64)) ->
  record_tag key (slice frame 0 (N - 32)) = slice frame (N - 32) N ->
  slice frame 0 (N - 64)
  = frame_prefix (of_be_bytes (slice frame 4 6)) (slice frame 46 (N - 64)) prior
  /\ frame = sealed_frame (slice frame 0 (N - 64)).
Proof.
  intros N Hw HN Hl Hs Hp Hd Ht. split.
  - unfold frame_prefix, len. rewrite length_slice by lia. unfold MIN_FRAME_BYTES.
    replace (110 + Z.of_nat (N - 64 - 46)) with (Z.of_nat N) by lia.
    rewrite <- Hl, <- Hs, <- Hp, !be_slice by (done || lia). by rewrite !slice_join by lia.
  - unfold sealed_frame. rewrite <- Hd, (slice_join frame 0 (N - 64) (N - 32)), Ht by lia.
    rewrite !slice_join by lia. symmetry. by apply slice_all.
Qed.

(** The parts of a frame that was built. *)
Record frame_parts (code : Z) (body : bytes) (prior : JournalHead) (frame : bytes) (B : nat) : Prop :=
  mkFrameParts {
  parts_length : length frame = (110 + B)%nat;
  parts_declared : of_be_bytes (slice frame 0 4) = 110 + Z.of_nat B;
  parts_prefix : take (46 + B) frame = frame_prefix code body prior;
  parts_tagged : take (78 + B) frame
    = frame_prefix code body prior ++ frame_digest (frame_prefix code body prior);
  parts_tag : drop (78 + B) frame
    = record_tag key (frame_prefix code body prior ++ frame_digest (frame_prefix code body prior));
  parts_digest : slice frame (46 + B) (78 + B) = frame_digest (frame_prefix code body prior);
  parts_code : of_be_bytes (slice frame 4 6) = code;
  parts_sequence : of_be_bytes (slice frame 6 14) = sequence prior + 1;
  parts_prior : slice frame 14 46 = digest prior;
  parts_body : slice frame 46 (46 + B) = body;
}.

Lemma sealed_parts code body prior :
  typed_head prior = true -> is_u16 code = true -> len body <= MAX_BODY_BYTES ->
  is_u64 (sequence prior + 1) = true ->
  frame_parts code body prior (sealed_frame (frame_prefix code body prior)) (length body).
Proof.
  intros [Hps Hpd]%andb_true_iff Hc Hb Hu. set (B := length body).
  assert (len body = Z.of_nat B) as HB by done.
  unfold MAX_BODY_BYTES, MAX_FRAME_BYTES, MIN_FRAME_BYTES in Hb.
  set (prefix := frame_prefix code body prior).
  assert (prefix = be_bytes 4 (110 + Z.of_nat B) ++ be_bytes 2 code
    ++ be_bytes 8 (sequence prior + 1) ++ digest prior ++ body) as Hp by done.
  assert (length prefix = 46 + B)%nat as Hlp.
  { rewrite Hp, !length_app, !length_be_bytes, (array_len _ _ Hpd). unfold B. lia. }
  remember (sealed_frame prefix) as frame eqn:He. unfold sealed_frame in He.
  assert (length (frame_digest prefix) = 32)%nat as Hdl by apply length_sha256.
  assert (forall i j, (j <= 46 + B)%nat -> slice frame i j = slice prefix i j) as Hin.
  { intros i j Hj. rewrite He. apply slice_app_l. lia. }
  split; fold prefix.
  - rewrite He, !length_app, Hlp, Hdl. unfold record_tag. rewrite hmac_length. lia.
  - rewrite Hin, Hp by lia. slices. rewrite app_nil_r. apply of_be_u32.
    apply within_spec. unfold u32_max. lia.
  - rewrite He. by apply take_app_length'.
  - rewrite He, app_assoc. apply take_app_length'. rewrite length_app, Hlp, Hdl. lia.
  - rewrite He, app_assoc. apply drop_app_length'. rewrite length_app, Hlp, Hdl. lia.
  - rewrite He. apply slice_mid; [done|]. rewrite Hlp, Hdl. lia.
  - rewrite Hin, Hp by lia. slices. rewrite app_nil_r. by apply of_be_u16.
  - rewrite Hin, Hp by lia. slices. rewrite app_nil_r. by apply of_be_u64.
  - rewrite Hin, Hp by lia. slices. by rewrite app_nil_r.
  - rewrite Hin, Hp by lia. rewrite !app_assoc.
    apply slice_tail; rewrite !length_app, !length_be_bytes, (array_len _ _ Hpd); unfold B; lia.
Qed.

Lemma record_decode_sound frame prior r :
  is_bytes frame = true -> decode_control_journal_record key frame prior = Ok r ->
  typed_record r = true /\ record_wire r prior frame.
Proof.
  intros Hw Hd. unfold decode_control_journal_record, verify_record_tag in Hd.
  cbv zeta in Hd. decode_inv Hd. b2p. destruct Hb0 as [Hlen Hl]. destruct Hb3 as [Hs Hp].
  apply kind_codes in Hx. apply next_sequence_Ok in Hx0 as [-> Hu].
  unfold len in Hl. rewrite <- Hl in Hlen, Hb1, Hb2 |- *.
  unfold MIN_FRAME_BYTES, MAX_FRAME_BYTES in Hlen.
  set (N := length frame) in *.
  replace (Z.to_nat (Z.of_nat N - 32)) with (N - 32)%nat in * by lia.
  replace (Z.to_nat (Z.of_nat N - 64)) with (N - 64)%nat in * by lia.
  rewrite !take_slice, drop_slice in *. fold N in Hb1.
  destruct (frame_split frame prior Hw) as [Hpre Hf]; [lia|done..|].
  rewrite Hx in Hpre. split; [by apply is_bytes_slice|].
  exists (slice frame 0 (N - 64)). cbn. split; [|done].
  apply record_prefix_Ok. split; [|done]. unfold len. rewrite length_slice by lia.
  unfold MAX_BODY_BYTES, MAX_FRAME_BYTES, MIN_FRAME_BYTES. lia.
Qed.

Lemma record_decode_complete frame prior r :
  typed_head prior = true -> typed_record r = true -> record_wire r prior frame ->
  decode_control_journal_record key frame prior = Ok r.
Proof.
  intros Hh Ht (prefix & Hp & Hs & Hd & He). apply record_prefix_Ok in Hp as (Hb & Hu & Hp).
  fold (frame_prefix (kind_code (record_kind r)) (record_body r) prior) in Hp. subst prefix.
  fold (sealed_frame (frame_prefix (kind_code (record_kind r)) (record_body r) prior)) in He.
  assert (is_u16 (kind_code (record_kind r)) = true) as Hc by by destruct (record_kind r).
  destruct (sealed_parts _ _ _ Hh Hc Hb Hu) as [Hlf Hlen Htp Htd Hdt Hfd Hk Hsq Hdg Hbody].
  rewrite <- He in *. set (B := length (record_body r)) in *.
  unfold decode_control_journal_record. cbv zeta. rewrite Hlen. unfold len. rewrite Hlf.
  unfold MAX_BODY_BYTES, MIN_FRAME_BYTES, MAX_FRAME_BYTES, len in *. fold B in Hb.
  rewrite (proj2 (Z.ltb_ge _ _)) by lia.
  rewrite (proj2 (within_spec 110 (16 * 1024) _)) by lia.
  rewrite (proj2 (Z.eqb_eq _ _)) by lia. cbn [negb orb].
  replace (Z.to_nat (110 + Z.of_nat B - 32)) with (78 + B)%nat by lia.
  replace (Z.to_nat (110 + Z.of_nat B - 64)) with (46 + B)%nat by lia.
  rewrite Htd, Hdt, Htp, Hfd. unfold verify_record_tag, record_tag.
  rewrite (bool_decide_true (hmac _ _ = _)), (bool_decide_true (frame_digest _ = _)) by done.
  cbn [negb]. rewrite Ok_bind, Hk, (proj2 (kind_codes _ _) eq_refl), Ok_bind.
  rewrite (proj2 (next_sequence_Ok prior _) (conj eq_refl Hu)), Ok_bind.
  rewrite Hsq, Z.eqb_refl, Hdg, bool_decide_true by done. cbn [negb orb].
  rewrite Hbody, <- Hs, <- Hd. by destruct r.
Qed.

Lemma record_exact frame prior r :
  is_bytes frame = true -> typed_head prior = true ->
  decode_control_journal_record key frame prior = Ok r <->
  typed_record r = true /\ record_wire r prior frame.
Proof.
  intros Hf Hp. split; [by apply record_decode_sound|]. intros [Ht Hw].
  by apply record_decode_complete.
Qed.

Lemma record_wire_encode r prior frame :
  record_wire r prior frame ->
  encode_control_journal_record key (record_kind r) (record_body r) prior = Ok frame.
Proof.
  intros (prefix & Hp & _ & _ & ->). unfold encode_control_journal_record.
  rewrite Hp, Ok_bind. cbv zeta. by rewrite app_assoc.
Qed.

(** What the encoder writes is the wire form of one record. *)
Lemma encode_record_wire kind body prior frame :
  encode_control_journal_record key kind body prior = Ok frame ->
  exists digest,
    record_wire (mkControlJournalRecord kind (sequence prior + 1) digest body) prior frame.
Proof.
  unfold encode_control_journal_record. intros (prefix & Hp & He)%bind_Ok. cbv zeta in He.
  apply Ok_inj in He as <-. exists (frame_digest prefix), prefix. cbn.
  by rewrite app_assoc.
Qed.
End journal_facts.

(** ** A concrete entropy source *)

(** The source counts its calls and fills each buffer with the count. *)
Definition counting_source : InitializationEntropySource Z := fun n _ buffer =>
  (n + 1, repeat (n + 1) (length buffer), Ok (len buffer)).

Lemma acquire_initialization_key_pair_sound_witness :
  exists pair,
    @acquire_initialization_key_pair_with Z counting_source 0 = (2, Ok pair)
    /\ exists source1,
         counting_source 0 JournalIntegrity (repeat 0 32)
         = (source1, key_bytes (journal_integrity pair), Ok (len (key_bytes (journal_integrity pair))))
         /\ counting_source source1 PortableReservation (repeat 0 32)
            = (2, reservation_bytes (portable_reservation pair),
               Ok (len (reservation_bytes (portable_reservation pair))))
         /\ all_zero (key_bytes (journal_integrity pair)) = false
         /\ all_zero (reservation_bytes (portable_reservation pair)) = false
         /\ key_bytes (journal_integrity pair) <> reservation_bytes (portable_reservation pair).
Proof.
  exists (mkInitializationKeyPair (mkJournalIntegrityKey (repeat 1 32)) (mkPortableReservationKey (repeat 2 32))).
  split; [reflexivity|].
  apply (@acquire_initialization_key_pair_sound Z counting_source 0 2
    (mkInitializationKeyPair (mkJournalIntegrityKey (repeat 1 32)) (mkPortableReservationKey (repeat 2 32)))).
  reflexivity.
Defined.
