(* ===== verification/RecoveryEvent.v ===== *)
(** * Recovery-key events ([initialization_key_pair/recovery_key_event.rs] of
    [crates/msgriver/src])

    The canonical body of a recovery-key event. *)

From S2P Require Import Prelude Bytes Generation Sha256 Codec.

#[local] Open Scope Z_scope.

Definition VERSION : Z := 1.
Definition RECOVERY_KEY_GENERATE_OPERATION : Z := 1.
Definition FIXED_STATE_OWNER_ACTOR : Z := 1.

Inductive RecoveryKeyEventPhase : Type :=
| IntentGenerate | KeyDurable | SecretConsumed | PendingEscrow | Activated | TerminalFailed.

Inductive RecoveryKeyEventRetention : Type := Null | Terminal (expires_at : Z).

Record RecoveryKeyEvent : Type := mkRecoveryKeyEvent {
  generation : Z;
  command_digest : bytes;
  semantic_fingerprint : bytes;
  phase_fingerprint : bytes;
  portable_reservation_digest : bytes;
  key_confirmation_digest : option bytes;
  phase : RecoveryKeyEventPhase;
  retention : RecoveryKeyEventRetention;
}.

Inductive RecoveryKeyEventError : Type := MissingRecoveryKeyEvent | InvalidRecoveryKeyEvent.

Abbreviation event_result := (result RecoveryKeyEventError).

Definition phase_code (p : RecoveryKeyEventPhase) : Z :=
  match p with
  | IntentGenerate => 1 | KeyDurable => 2 | SecretConsumed => 3
  | PendingEscrow => 4 | Activated => 5 | TerminalFailed => 6
  end.

Definition phase_from_code (code : Z) : event_result RecoveryKeyEventPhase :=
  if code =? 1 then Ok IntentGenerate
  else if code =? 2 then Ok KeyDurable
  else if code =? 3 then Ok SecretConsumed
  else if code =? 4 then Ok PendingEscrow
  else if code =? 5 then Ok Activated
  else if code =? 6 then Ok TerminalFailed
  else Err InvalidRecoveryKeyEvent.

Definition digest_is_zero (digest : bytes) : bool := all_zero digest.

Definition validate_event (event : RecoveryKeyEvent) : event_result unit :=
  if (generation event =? 0) || digest_is_zero (command_digest event)
     || digest_is_zero (semantic_fingerprint event) || digest_is_zero (phase_fingerprint event)
     || digest_is_zero (portable_reservation_digest event)
     || match key_confirmation_digest event with
        | Some digest => digest_is_zero digest
        | None => false
        end
  then Err InvalidRecoveryKeyEvent
  else match phase event, key_confirmation_digest event, retention event with
  | IntentGenerate, None, Null => Ok tt
  | TerminalFailed, None, Terminal _ => Ok tt
  | (KeyDurable | SecretConsumed | PendingEscrow | Activated), Some _, Null => Ok tt
  | _, _, _ => Err InvalidRecoveryKeyEvent
  end.

Definition encode_recovery_key_event (event : RecoveryKeyEvent) : event_result bytes :=
  _ ← validate_event event;
  Ok ([VERSION; RECOVERY_KEY_GENERATE_OPERATION; FIXED_STATE_OWNER_ACTOR;
       phase_code (phase event)]
      ++ be_bytes 8 (generation event) ++ command_digest event
      ++ semantic_fingerprint event ++ phase_fingerprint event
      ++ portable_reservation_digest event
      ++ match key_confirmation_digest event with
         | None => [0]
         | Some digest => [1] ++ digest
         end
      ++ match retention event with
         | Null => [0]
         | Terminal expires_at => [1] ++ be_bytes 8 expires_at
         end).

Definition digest_at (wire : bytes) (offset : nat) : event_result bytes :=
  digest ← ok_or (get wire offset (offset + 32)) InvalidRecoveryKeyEvent;
  try_array 32 digest InvalidRecoveryKeyEvent.

Definition decode_recovery_key_event (wire : bytes) : event_result RecoveryKeyEvent :=
  if (length wire <? 141)%nat then Err InvalidRecoveryKeyEvent
  else
    let key_confirmation_present := at_ wire 140 in
    confirmation_length ←
      (if key_confirmation_present =? 0 then Ok 0%nat
       else if key_confirmation_present =? 1 then Ok 32%nat
       else Err InvalidRecoveryKeyEvent);
    let retention_offset := (141 + confirmation_length)%nat in
    if (length wire <=? retention_offset)%nat then Err InvalidRecoveryKeyEvent
    else
      retention ←
        (if at_ wire retention_offset =? 0 then Ok Null
         else if at_ wire retention_offset =? 1 then
           l ← ok_or (get wire (retention_offset + 1) (retention_offset + 9))
                 InvalidRecoveryKeyEvent;
           a ← try_array 8 l InvalidRecoveryKeyEvent;
           Ok (Terminal (as_i64 (of_be_bytes a)))
         else Err InvalidRecoveryKeyEvent);
      expected_length ←
        (if key_confirmation_present =? 0 then
           match retention with Null => Ok 142%nat | Terminal _ => Ok 150%nat end
         else if key_confirmation_present =? 1 then
           match retention with Null => Ok 174%nat | Terminal _ => Ok 182%nat end
         else Err InvalidRecoveryKeyEvent);
      if negb (length wire =? expected_length)%nat then Err InvalidRecoveryKeyEvent
      else
        l ← ok_or (get wire 4 12) InvalidRecoveryKeyEvent;
        generation ← try_array 8 l InvalidRecoveryKeyEvent;
        command_digest ← digest_at wire 12;
        semantic_fingerprint ← digest_at wire 44;
        phase_fingerprint ← digest_at wire 76;
        portable_reservation_digest ← digest_at wire 108;
        key_confirmation_digest ←
          (if key_confirmation_present =? 0 then Ok None
           else if key_confirmation_present =? 1 then Some <$> digest_at wire 141
           else Err InvalidRecoveryKeyEvent);
        phase ← phase_from_code (at_ wire 3);
        let event := mkRecoveryKeyEvent (of_be_bytes generation) command_digest
          semantic_fingerprint phase_fingerprint portable_reservation_digest
          key_confirmation_digest phase retention in
        if negb (at_ wire 0 =? VERSION)
           || negb (at_ wire 1 =? RECOVERY_KEY_GENERATE_OPERATION)
           || negb (at_ wire 2 =? FIXED_STATE_OWNER_ACTOR)
        then Err InvalidRecoveryKeyEvent
        else
          _ ← validate_event event;
          Ok event.

(** The values the Rust types admit. *)
Definition typed (e : RecoveryKeyEvent) : bool :=
  is_u64 (generation e) && array 32 (command_digest e) && array 32 (semantic_fingerprint e)
  && array 32 (phase_fingerprint e) && array 32 (portable_reservation_digest e)
  && on_some (array 32) (key_confirmation_digest e)
  && match retention e with Null => true | Terminal t => is_i64 t end.

(** ** Lemmas *)

Lemma event_phase_codes c p : phase_from_code c = Ok p <-> c = phase_code p.
Proof. enum_codes. Qed.

Lemma event_phase_from_to p : phase_from_code (phase_code p) = Ok p.
Proof. by apply event_phase_codes. Qed.

Lemma digest_at_Ok wire i d :
  digest_at wire i = Ok d <-> (i + 32 <= length wire)%nat /\ d = slice wire i (i + 32).
Proof.
  unfold digest_at. rewrite bind_Ok. setoid_rewrite ok_or_Ok. setoid_rewrite get_Some.
  setoid_rewrite try_array_Ok. split.
  - intros (a & (? & ? & ->) & _ & ->). done.
  - intros [? ->]. exists (slice wire i (i + 32)). rewrite length_slice by lia.
    repeat split; lia || done.
Qed.

#[local] Hint Rewrite event_phase_codes digest_at_Ok @ok_or_Ok get_Some : wire_codes.
#[local] Hint Rewrite event_phase_from_to : wire_read.
#[local] Arguments validate_event : simpl never.
#[local] Arguments phase_code : simpl never.
#[local] Arguments phase_from_code : simpl never.
#[local] Arguments digest_at : simpl never.

Lemma event_decode_sound wire e :
  is_bytes wire = true -> decode_recovery_key_event wire = Ok e ->
  typed e = true /\ encode_recovery_key_event e = Ok wire.
Proof.
  intros Hw H. unfold decode_recovery_key_event in H. cbv zeta in H.
  destruct (Z.eqb_spec (at_ wire 140) 0) as [H0|H0], (Z.eqb_spec (at_ wire 140) 1) as [H1|H1];
    [lia|..].
  all: decode_inv H; autorewrite with wire_codes in *; cbn in *; b2p; destruct_and?; subst.
  all: unfold VERSION, RECOVERY_KEY_GENERATE_OPERATION, FIXED_STATE_OWNER_ACTOR in *.
  all: split; [unfold typed; cbn; typed_fields|].
  all: unfold encode_recovery_key_event;
    match goal with H : validate_event _ = Ok _ |- _ => rewrite H end; cbn; f_equal.
  - assemble wire 142%nat.
  - assemble wire 150%nat.
  - assemble wire 174%nat.
  - assemble wire 182%nat.
Qed.

Lemma event_encode_complete e wire :
  typed e = true -> encode_recovery_key_event e = Ok wire ->
  decode_recovery_key_event wire = Ok e.
Proof.
  unfold encode_recovery_key_event, typed.
  destruct e as [g cd sf pf rd [kd|] ph [|t]]; cbn.
  all: intros Ht He; b2p; destruct_and?; encode_inv He.
  all: unfold decode_recovery_key_event, digest_at.
  all: read_wire wire He; by rewrite ?Hx.
Qed.

Lemma event_encode_bytes e wire :
  typed e = true -> encode_recovery_key_event e = Ok wire -> is_bytes wire = true.
Proof.
  unfold encode_recovery_key_event, typed.
  destruct e as [g cd sf pf rd [kd|] ph [|t]]; cbn.
  all: intros Ht He; b2p; destruct_and?; encode_inv He; subst; bytes_fields.
Qed.

#[export] Instance recovery_event_codec :
  WireCodec encode_recovery_key_event decode_recovery_key_event typed.
Proof.
  split; [|exact event_encode_bytes]. intros wire e Hw. split; [by apply event_decode_sound|].
  intros [??]. by apply event_encode_complete.
Qed.
