(* ===== verification/RecoveryRing.v ===== *)
(** * The recovery ring ([initialization_key_pair/recovery_ring_manifest.rs] of
    [crates/msgriver/src])

    The authenticated manifest of the recovery keys: at most sixteen entries in
    increasing generation, at most one active and one pending escrow. *)

From S2P Require Import Prelude Bytes Generation Sha256 Codec Journal.

#[local] Open Scope Z_scope.

Definition VERSION : Z := 1.
Definition DOMAIN : bytes := as_bytes "msgriver/recovery-ring/v1".
Definition TAG_BYTES : nat := 32.
Definition MAXIMUM_ENTRIES : Z := 16.

Inductive RecoveryRingPhase : Type := Retained | Active | PendingEscrow.

#[export] Instance RecoveryRingPhase_eq_dec : EqDecision RecoveryRingPhase.
Proof. solve_decision. Defined.

Record RecoveryRingEntry : Type := mkRecoveryRingEntry {
  generation : Z;
  phase : RecoveryRingPhase;
}.

Inductive RecoveryRingManifestError : Type :=
| MissingRecoveryRingManifest | InvalidRecoveryRingManifest.

Abbreviation ring_result := (result RecoveryRingManifestError).

Definition phase_code (p : RecoveryRingPhase) : Z :=
  match p with Retained => 1 | Active => 2 | PendingEscrow => 3 end.

Definition phase_from_code (code : Z) : ring_result RecoveryRingPhase :=
  if code =? 1 then Ok Retained
  else if code =? 2 then Ok Active
  else if code =? 3 then Ok PendingEscrow
  else Err InvalidRecoveryRingManifest.

Definition expected_length (entry_count : Z) : ring_result Z :=
  if MAXIMUM_ENTRIES <? entry_count then Err InvalidRecoveryRingManifest
  else Ok (34 + 9 * entry_count).

(** The loop of [validate_manifest], with its three variables. *)
Fixpoint check_entries (previous_generation : option Z) (active_entries pending_entries : Z)
    (entries : list RecoveryRingEntry) : ring_result unit :=
  match entries with
  | [] =>
    if (1 <? active_entries) || (1 <? pending_entries)
    then Err InvalidRecoveryRingManifest else Ok tt
  | entry :: rest =>
    if (generation entry =? 0)
       || match previous_generation with
          | Some previous => generation entry <=? previous
          | None => false
          end
    then Err InvalidRecoveryRingManifest
    else
      match phase entry with
      | Retained => check_entries (Some (generation entry)) active_entries pending_entries rest
      | Active => check_entries (Some (generation entry)) (active_entries + 1) pending_entries rest
      | PendingEscrow =>
        check_entries (Some (generation entry)) active_entries (pending_entries + 1) rest
      end
  end.

Definition validate_manifest (entries : list RecoveryRingEntry) : ring_result unit :=
  _ ← expected_length (Z.of_nat (length entries));
  check_entries None 0 0 entries.

Definition encode_entry (entry : RecoveryRingEntry) : bytes :=
  be_bytes 8 (generation entry) ++ [phase_code (phase entry)].

(** The loop of [decode_recovery_ring_manifest] over the remaining indices. *)
Fixpoint read_entries (wire : bytes) (index count : nat) : ring_result (list RecoveryRingEntry) :=
  match count with
  | O => Ok []
  | S count' =>
    let offset := (2 + index * 9)%nat in
    generation ← try_array 8 (slice wire offset (offset + 8)) InvalidRecoveryRingManifest;
    phase ← phase_from_code (at_ wire (offset + 8));
    rest ← read_entries wire (S index) count';
    Ok (mkRecoveryRingEntry (of_be_bytes generation) phase :: rest)
  end.

Section with_hmac.
Context `{HmacSha256}.

Definition recovery_ring_manifest_tag (self : JournalIntegrityKey) (l : bytes) : bytes :=
  hmac (key_bytes self) (DOMAIN ++ l).

Definition verify_recovery_ring_manifest_tag (self : JournalIntegrityKey) (l tag : bytes)
    : ring_result unit :=
  if bool_decide (hmac (key_bytes self) (DOMAIN ++ l) = tag) then Ok tt
  else Err InvalidRecoveryRingManifest.

Definition encode_recovery_ring_manifest (key : JournalIntegrityKey)
    (entries : list RecoveryRingEntry) : ring_result bytes :=
  _ ← validate_manifest entries;
  let wire := [VERSION; wrap 8 (Z.of_nat (length entries))] ++ flat_map encode_entry entries in
  Ok (wire ++ recovery_ring_manifest_tag key wire).

Definition decode_recovery_ring_manifest (key : JournalIntegrityKey) (wire : bytes)
    : ring_result (list RecoveryRingEntry) :=
  if (length wire <? 2)%nat then Err InvalidRecoveryRingManifest
  else
    let entry_count := at_ wire 1 in
    total_length ← expected_length entry_count;
    if negb (len wire =? total_length) then Err InvalidRecoveryRingManifest
    else
      let tag_start := (length wire - TAG_BYTES)%nat in
      _ ← verify_recovery_ring_manifest_tag key (take tag_start wire) (drop tag_start wire);
      if negb (at_ wire 0 =? VERSION) then Err InvalidRecoveryRingManifest
      else
        entries ← read_entries wire 0 (Z.to_nat entry_count);
        _ ← validate_manifest entries;
        Ok entries.
End with_hmac.

(** The values the Rust types admit. *)
Definition typed (entries : list RecoveryRingEntry) : bool :=
  forallb (fun e => is_u64 (generation e)) entries.

(** ** Lemmas *)

Lemma ring_phase_codes c p : phase_from_code c = Ok p <-> c = phase_code p.
Proof. enum_codes. Qed.

Lemma length_encode_entries es : length (flat_map encode_entry es) = (9 * length es)%nat.
Proof.
  induction es as [|e es IH]; [done|]. cbn [flat_map length].
  unfold encode_entry at 1. rewrite !length_app, length_be_bytes, IH. cbn. lia.
Qed.

Lemma validate_length es u : validate_manifest es = Ok u -> (length es <= 16)%nat.
Proof.
  unfold validate_manifest, expected_length. intros (n & Hn & _)%bind_Ok.
  unfold MAXIMUM_ENTRIES in Hn. decode_inv Hn. b2p. lia.
Qed.

Lemma ring_read_entries_sound wire count index es :
  is_bytes wire = true -> (2 + (index + count) * 9 <= length wire)%nat ->
  read_entries wire index count = Ok es ->
  typed es = true /\ length es = count
  /\ flat_map encode_entry es = slice wire (2 + index * 9) (2 + (index + count) * 9).
Proof.
  intros Hw. revert index es. induction count as [|count IH]; intros index es Hl Hr.
  - apply Ok_inj in Hr as <-. rewrite Nat.add_0_r, slice_none. done.
  - cbn [read_entries] in Hr. cbv zeta in Hr.
    apply bind_Ok in Hr as (g & [_ ->]%try_array_Ok & Hr).
    apply bind_Ok in Hr as (p & Hp%ring_phase_codes & Hr).
    apply bind_Ok in Hr as (rest & Hrest & <-%Ok_inj).
    apply IH in Hrest as (Ht & Hlen & Hes); [|lia].
    unfold typed. cbn [forallb flat_map length generation]. fold (typed rest).
    rewrite Ht, Hlen, Hes, is_u64_slice by (done || lia). split; [done|split; [done|]].
    unfold encode_entry. cbn [generation phase]. rewrite be_slice, <- Hp by (done || lia).
    rewrite <- slice_one by lia.
    replace (S (2 + index * 9 + 8)) with (2 + S index * 9)%nat by lia.
    rewrite <- app_assoc, !slice_join by lia. f_equal. lia.
Qed.

Lemma ring_read_entries_complete wire es index rest :
  typed es = true -> drop (2 + index * 9) wire = flat_map encode_entry es ++ rest ->
  read_entries wire index (length es) = Ok es.
Proof.
  revert index. induction es as [|e es IH]; intros index Ht Hd; [done|].
  unfold typed in Ht. cbn [forallb] in Ht. apply andb_true_iff in Ht as [He Ht].
  cbn [length read_entries flat_map] in *. set (o := (2 + index * 9)%nat) in *.
  assert (slice wire o (o + 8) = be_bytes 8 (generation e)) as Hg.
  { replace o with (o + 0)%nat at 1 by lia. rewrite <- slice_drop, Hd. unfold encode_entry.
    rewrite <- !app_assoc. slices. by rewrite app_nil_r. }
  assert (at_ wire (o + 8) = phase_code (phase e)) as Hp.
  { rewrite <- at_drop, Hd. unfold encode_entry. rewrite <- !app_assoc. by slices. }
  rewrite Hg, Hp, try_array_len, Ok_bind, (proj2 (ring_phase_codes _ (phase e)) eq_refl), Ok_bind by
    typeclasses eauto.
  rewrite (IH (S index)), Ok_bind, of_be_u64 by
    (done || (replace (2 + S index * 9)%nat with (o + 9)%nat by (unfold o; lia);
      rewrite <- drop_drop, Hd; unfold encode_entry; rewrite <- app_assoc;
      apply drop_app_length'; rewrite length_app, length_be_bytes; done)).
  by destruct e.
Qed.

Section ring_facts.
Context `{HmacOutput} (key : JournalIntegrityKey).

Lemma ring_decode_sound wire es :
  is_bytes wire = true -> decode_recovery_ring_manifest key wire = Ok es ->
  typed es = true /\ encode_recovery_ring_manifest key es = Ok wire.
Proof.
  intros Hw Hd. unfold decode_recovery_ring_manifest, verify_recovery_ring_manifest_tag,
    expected_length, MAXIMUM_ENTRIES, TAG_BYTES in Hd. cbv zeta in Hd. decode_inv Hd.
  pose proof (at_byte wire 1 Hw) as Hc%within_spec. b2p. unfold len in *.
  rewrite take_slice, drop_slice in *.
  apply ring_read_entries_sound in Hx as (Ht & Hl & He); [|done|lia]. split; [done|].
  unfold encode_recovery_ring_manifest. rewrite Hx0, Ok_bind. cbv zeta. rewrite Hl, He.
  unfold wrap. rewrite Z2Nat.id, Z.mod_small by lia. unfold VERSION. f_equal.
  assert ([1; at_ wire 1] ++ slice wire (2 + 0 * 9) (2 + (0 + Z.to_nat (at_ wire 1)) * 9)
    = slice wire 0 (length wire - 32)) as Hp.
  { rewrite <- (slice_join wire 0 2 (length wire - 32)) by lia. f_equal; [|f_equal; lia].
    rewrite <- (slice_join wire 0 1 2), !slice_one by lia. by rewrite Hb3. }
  rewrite Hp. unfold recovery_ring_manifest_tag. rewrite Hb2, slice_join by lia.
  by apply slice_all.
Qed.

Lemma ring_encode_complete es wire :
  typed es = true -> encode_recovery_ring_manifest key es = Ok wire ->
  decode_recovery_ring_manifest key wire = Ok es.
Proof.
  intros Ht He. unfold encode_recovery_ring_manifest in He. encode_inv He. cbv zeta in He.
  encode_inv He. destruct x. pose proof (validate_length es _ Hx) as Hle.
  set (n := length es) in *. unfold wrap in He. rewrite Z.mod_small in He by lia.
  set (pre := _ ++ flat_map _ es) in He.
  assert (length pre = 2 + 9 * n)%nat as Hlp.
  { unfold pre. cbn [app length]. rewrite length_encode_entries. lia. }
  assert (length wire = 34 + 9 * n)%nat as Hlw.
  { rewrite He, length_app, Hlp. unfold recovery_ring_manifest_tag. rewrite hmac_length. lia. }
  assert (at_ wire 0 = VERSION /\ at_ wire 1 = Z.of_nat n) as [H0' H1'] by (by rewrite He).
  unfold decode_recovery_ring_manifest, expected_length, MAXIMUM_ENTRIES, TAG_BYTES.
  unfold len. rewrite Hlw, H0', H1'. cbv zeta.
  rewrite (proj2 (Nat.ltb_ge _ _)), (proj2 (Z.ltb_ge 16 _)), Ok_bind by lia.
  rewrite (proj2 (Z.eqb_eq _ _)) by lia. cbn [negb].
  replace (34 + 9 * n - 32)%nat with (length pre) by lia.
  rewrite He, take_app_length, drop_app_length. unfold verify_recovery_ring_manifest_tag.
  unfold recovery_ring_manifest_tag at 1. rewrite bool_decide_true, Ok_bind by done.
  rewrite Z.eqb_refl. cbn [negb]. rewrite Nat2Z.id.
  rewrite (ring_read_entries_complete _ es 0 (recovery_ring_manifest_tag key pre)), Ok_bind, Hx;
    [done|done|]. unfold pre. by rewrite <- app_assoc.
Qed.

Lemma ring_encode_bytes es wire :
  typed es = true -> encode_recovery_ring_manifest key es = Ok wire -> is_bytes wire = true.
Proof.
  intros Ht He. unfold encode_recovery_ring_manifest in He. encode_inv He. cbv zeta in He.
  encode_inv He. destruct x. apply validate_length in Hx. subst wire.
  rewrite is_bytes_app. unfold recovery_ring_manifest_tag. rewrite hmac_bytes, andb_true_r.
  cbn [app]. rewrite !is_bytes_cons. apply andb_true_iff. split; [done|].
  apply andb_true_iff. split.
  - apply within_spec. unfold wrap. pose proof (Z.mod_pos_bound (Z.of_nat (length es)) (2 ^ 8)). lia.
  - clear. induction es as [|e es IH]; [done|]. cbn [flat_map]. rewrite is_bytes_app, IH.
    unfold encode_entry. rewrite is_bytes_app, is_bytes_be_bytes. by destruct (phase e).
Qed.

#[export] Instance recovery_ring_codec :
  WireCodec (encode_recovery_ring_manifest key) (decode_recovery_ring_manifest key) typed.
Proof.
  split; [|exact ring_encode_bytes]. intros wire e Hw. split; [by apply ring_decode_sound|].
  intros [??]. by apply ring_encode_complete.
Qed.
End ring_facts.
