(* ===== verification/GenerateProfile.v ===== *)
(** * The profile of [recovery_key.generate]
    ([initialization_key_pair/recovery_key_generate_profile.rs] of
    [crates/msgriver/src]) *)

From S2P Require Import Prelude Bytes Generation Sha256 Codec.

#[local] Open Scope Z_scope.

Definition FORMAT : Z := 1.
Definition GENERATE : Z := 1.
Definition ACKNOWLEDGE : Z := 2.
Definition ISSUANCE : Z := 1.
Definition CONFIRMATION : Z := 2.
Definition ENTRY_BYTES : nat := 33.

Inductive RecoveryKeyGenerateVariant : Type := Generate | Acknowledge.

#[export] Instance RecoveryKeyGenerateVariant_eq_dec : EqDecision RecoveryKeyGenerateVariant.
Proof. solve_decision. Defined.

Record RecoveryKeyGenerateProfile : Type := mkRecoveryKeyGenerateProfile {
  variant : RecoveryKeyGenerateVariant;
  issuance_digest : option bytes;
  confirmation_digest : option bytes;
}.

#[export] Instance RecoveryKeyGenerateProfile_eq_dec : EqDecision RecoveryKeyGenerateProfile.
Proof. solve_decision. Defined.

Inductive RecoveryKeyGenerateProfileError : Type := InvalidProfile.

Abbreviation profile_result := (result RecoveryKeyGenerateProfileError).

Definition variant_code (v : RecoveryKeyGenerateVariant) : Z :=
  match v with Generate => GENERATE | Acknowledge => ACKNOWLEDGE end.

Definition variant_decode (code : Z) : profile_result RecoveryKeyGenerateVariant :=
  if code =? GENERATE then Ok Generate
  else if code =? ACKNOWLEDGE then Ok Acknowledge
  else Err InvalidProfile.

Definition encode_recovery_key_generate_profile (profile : RecoveryKeyGenerateProfile) : bytes :=
  let count := flag (is_some (issuance_digest profile))
               + flag (is_some (confirmation_digest profile)) in
  [FORMAT; variant_code (variant profile); count]
  ++ match issuance_digest profile with
     | Some digest => [ISSUANCE] ++ digest
     | None => []
     end
  ++ match confirmation_digest profile with
     | Some digest => [CONFIRMATION] ++ digest
     | None => []
     end.

(** The loop over the chunks, with its three variables. *)
Fixpoint read_entries (issuance confirmation : option bytes) (previous_kind : Z)
    (entries : list bytes) : profile_result (option bytes * option bytes) :=
  match entries with
  | [] => Ok (issuance, confirmation)
  | entry :: rest =>
    let kind := at_ entry 0 in
    if kind <=? previous_kind then Err InvalidProfile
    else
      digest ← try_array 32 (drop 1 entry) InvalidProfile;
      if kind =? ISSUANCE then read_entries (Some digest) confirmation kind rest
      else if kind =? CONFIRMATION then read_entries issuance (Some digest) kind rest
      else Err InvalidProfile
  end.

Definition decode_recovery_key_generate_profile (wire : bytes)
    : profile_result RecoveryKeyGenerateProfile :=
  if (length wire <? 3)%nat || negb (at_ wire 0 =? FORMAT) then Err InvalidProfile
  else
    variant ← variant_decode (at_ wire 1);
    let count := at_ wire 2 in
    if (2 <? count) || negb (len wire =? 3 + Z.of_nat ENTRY_BYTES * count)
    then Err InvalidProfile
    else
      digests ← read_entries None None 0 (chunks_exact ENTRY_BYTES (drop 3 wire));
      Ok (mkRecoveryKeyGenerateProfile variant (fst digests) (snd digests)).

(** The values the Rust types admit. *)
Definition typed (p : RecoveryKeyGenerateProfile) : bool :=
  on_some (array 32) (issuance_digest p) && on_some (array 32) (confirmation_digest p).

(** ** Lemmas *)

Lemma variant_codes c v : variant_decode c = Ok v <-> c = variant_code v.
Proof. enum_codes. Qed.

Lemma variant_from_to v : variant_decode (variant_code v) = Ok v.
Proof. by apply variant_codes. Qed.

(** The entries of a profile, one chunk each. *)
Definition entries (p : RecoveryKeyGenerateProfile) : list bytes :=
  match issuance_digest p with Some d => [ISSUANCE :: d] | None => [] end
  ++ match confirmation_digest p with Some d => [CONFIRMATION :: d] | None => [] end.

Lemma encode_entries p :
  encode_recovery_key_generate_profile p =
  [FORMAT; variant_code (variant p); Z.of_nat (length (entries p))] ++ concat (entries p).
Proof.
  destruct p as [v [i|] [c|]]; unfold entries; cbn; rewrite ?app_nil_r; done.
Qed.

Lemma entries_chunks p :
  typed p = true ->
  Forall (fun c => length c = ENTRY_BYTES) (entries p).
Proof.
  destruct p as [v [i|] [c|]]; unfold typed, entries; cbn;
    rewrite ?andb_true_iff; intros Ht; destruct_and?;
    repeat constructor; cbn; f_equal; by apply array_len.
Qed.

Lemma profile_chunks_concat n cs :
  (0 < n)%nat -> Forall (fun c => length c = n) cs -> chunks_exact n (concat cs) = cs.
Proof.
  intros Hn. induction 1 as [|c cs Hc _ IH]; [done|]. cbn [concat].
  by rewrite chunks_exact_app, IH.
Qed.

Definition chunk (e : bytes) : Prop := is_bytes e = true /\ length e = ENTRY_BYTES.

Lemma chunk_cons e : chunk e -> exists k d, e = k :: d /\ array 32 d = true.
Proof.
  intros [Hb Hl]. destruct e as [|k d]; [done|]. exists k, d. split; [done|].
  cbn in Hb. apply andb_true_iff in Hb as [_ Hb]. apply array_spec.
  unfold ENTRY_BYTES in Hl. cbn in Hl. split; [lia|done].
Qed.

Lemma profile_entries_cons i c pk k d rest r :
  array 32 d = true -> read_entries i c pk ((k :: d) :: rest) = Ok r ->
  pk < k /\ ((k = ISSUANCE /\ read_entries (Some d) c ISSUANCE rest = Ok r)
             \/ (k = CONFIRMATION /\ read_entries i (Some d) CONFIRMATION rest = Ok r)).
Proof.
  intros Hd. cbn [read_entries]. change (at_ (k :: d) 0) with k. change (drop 1 (k :: d)) with d.
  destruct (Z.leb_spec k pk) as [|Hk]; [done|]. cbv zeta.
  rewrite try_array_len by typeclasses eauto. rewrite Ok_bind.
  destruct (Z.eqb_spec k ISSUANCE) as [->|]; [by intros ?; split; [|left]|].
  destruct (Z.eqb_spec k CONFIRMATION) as [->|]; [by intros ?; split; [|right]|done].
Qed.

Lemma profile_entries_sound cs i c v :
  Forall chunk cs -> read_entries None None 0 cs = Ok (i, c) ->
  let p := mkRecoveryKeyGenerateProfile v i c in cs = entries p /\ typed p = true.
Proof.
  intros Hcs Hr. unfold entries, typed. cbn. destruct cs as [|e1 cs].
  { injection Hr as <- <-. done. }
  apply Forall_cons in Hcs as [(k1 & d1 & -> & Hd1)%chunk_cons Hcs].
  apply profile_entries_cons in Hr as [_ [[-> Hr]|[-> Hr]]]; [..|done]; destruct cs as [|e2 cs];
    try (injection Hr as <- <-; cbn; rewrite ?Hd1; done);
    apply Forall_cons in Hcs as [(k2 & d2 & -> & Hd2)%chunk_cons Hcs];
    apply profile_entries_cons in Hr as [Hk [[-> Hr]|[-> Hr]]]; try done.
  destruct cs as [|e3 cs]; [injection Hr as <- <-; cbn; by rewrite Hd1, Hd2|].
  apply Forall_cons in Hcs as [(k3 & d3 & -> & Hd3)%chunk_cons Hcs].
  apply profile_entries_cons in Hr as [Hk3 [[-> Hr]|[-> Hr]]]; done.
Qed.

Lemma profile_entries_complete p :
  typed p = true ->
  read_entries None None 0 (entries p) = Ok (issuance_digest p, confirmation_digest p).
Proof.
  destruct p as [v [i|] [c|]]; unfold typed, entries; cbn;
    rewrite ?andb_true_iff; intros Ht; destruct_and?; unfold at_; cbn;
    rewrite ?drop_0, ?try_array_len by typeclasses eauto; cbn;
    rewrite ?drop_0, ?try_array_len by typeclasses eauto; done.
Qed.

Lemma profile_decode_complete p :
  typed p = true ->
  decode_recovery_key_generate_profile (encode_recovery_key_generate_profile p) = Ok p.
Proof.
  intros Ht. pose proof (entries_chunks p Ht) as Hc.
  assert (length (entries p) <= 2)%nat as Hl.
  { destruct p as [v [i|] [c|]]; unfold entries; cbn; lia. }
  assert (length (concat (entries p)) = 33 * length (entries p))%nat as Hcl.
  { clear -Hc. induction Hc as [|e es He _ IH]; [done|]. cbn [concat length].
    rewrite length_app, IH, He. unfold ENTRY_BYTES. lia. }
  rewrite encode_entries. unfold decode_recovery_key_generate_profile. cbv zeta.
  unfold at_. cbn [app length nth drop Nat.ltb Nat.leb Z.eqb FORMAT Pos.eqb negb orb].
  rewrite variant_from_to, Ok_bind, (proj2 (Z.ltb_ge 2 _)) by lia.
  rewrite (proj2 (Z.eqb_eq _ _)) by
    (unfold len, ENTRY_BYTES; cbn [length]; rewrite Hcl; lia).
  cbn [negb orb]. rewrite drop_0, profile_chunks_concat by (done || (unfold ENTRY_BYTES; lia)).
  rewrite profile_entries_complete by done. by destruct p.
Qed.

Lemma chunks_of n m l :
  (0 < n)%nat -> is_bytes l = true -> length l = (n * m)%nat ->
  Forall (fun c => is_bytes c = true /\ length c = n) (chunks_exact n l)
  /\ concat (chunks_exact n l) = l /\ length (chunks_exact n l) = m.
Proof.
  intros Hn. revert l. induction m as [|m IH]; intros l Hb Hl.
  { destruct l; [done|]. simpl in Hl. lia. }
  assert (length (take n l) = n) as Ht by (rewrite length_take; lia).
  destruct (IH (drop n l)) as (Hf & Hc & Hm); [by apply is_bytes_drop|rewrite length_drop; lia|].
  rewrite <- (take_drop n l), chunks_exact_app by done. cbn [concat length].
  rewrite Hc, Hm. split; [|done]. constructor; [|done]. split; [by apply is_bytes_take|done].
Qed.

Lemma profile_decode_sound wire p :
  is_bytes wire = true -> decode_recovery_key_generate_profile wire = Ok p ->
  typed p = true /\ encode_recovery_key_generate_profile p = wire.
Proof.
  intros Hw Hd. unfold decode_recovery_key_generate_profile in Hd. cbv zeta in Hd.
  decode_inv Hd. apply variant_codes in Hx. destruct x0 as [i c]. cbn [fst snd].
  pose proof (at_byte wire 2 Hw) as Hc%within_spec. b2p. destruct Hb as [Hb Hf].
  destruct Hb0 as [Hb0 Hl]. unfold len, ENTRY_BYTES in *.
  destruct (chunks_of 33 (Z.to_nat (at_ wire 2)) (drop 3 wire)) as (Hch & Hcc & Hcn);
    [lia|by apply is_bytes_drop|rewrite length_drop; lia|].
  destruct (profile_entries_sound _ i c x Hch Hx0) as [He Ht]. split; [done|].
  rewrite encode_entries, <- He, Hcc, Hcn, Z2Nat.id by lia. cbn [variant].
  rewrite <- Hx, <- Hf.
  etrans; [|by apply (slice_all wire (length wire))].
  rewrite drop_slice, <- (slice_join wire 0 3 (length wire)) by lia. f_equal.
  rewrite <- (slice_join wire 0 1 3), <- (slice_join wire 1 2 3), !slice_one by lia. done.
Qed.
