(* ===== verification/Pointer.v ===== *)
(** * The active-state pointer ([initialization_key_pair/active_state_pointer.rs] of
    [crates/msgriver/src])

    The authenticated certificate that names the selected state. A [String] is its
    UTF-8 bytes. *)

From S2P Require Import Prelude Bytes Generation Sha256 Codec Journal.

#[local] Open Scope Z_scope.

Definition VERSION : Z := 1.
Definition DOMAIN : bytes := as_bytes "msgriver/active-state-pointer/v1".
Definition TAG_BYTES : nat := 32.
Definition MINIMUM_BYTES : nat := 116.
Definition MAXIMUM_BYTES : nat := 624.

Inductive PointerOrigin : Type := Bootstrap | Restore | Rollback.

Record ActiveStatePointer : Type := mkActiveStatePointer {
  protocol_version : Z;
  transition_id : bytes;
  final_generation : Z;
  lineage_id : bytes;
  target_history_epoch : bytes;
  origin : PointerOrigin;
  database_certificate_digest : bytes;
}.

Inductive ActiveStatePointerError : Type :=
| MissingActiveStatePointer | InvalidActiveStatePointer.

Abbreviation pointer_result := (result ActiveStatePointerError).

Definition origin_code (o : PointerOrigin) : Z :=
  match o with Bootstrap => 1 | Restore => 2 | Rollback => 3 end.

Definition origin_from_code (code : Z) : pointer_result PointerOrigin :=
  if code =? 1 then Ok Bootstrap
  else if code =? 2 then Ok Restore
  else if code =? 3 then Ok Rollback
  else Err InvalidActiveStatePointer.

Definition expected_length (transition_length lineage_length : nat) : pointer_result nat :=
  if negb ((1 <=? transition_length)%nat && (transition_length <=? 255)%nat)
     || negb ((1 <=? lineage_length)%nat && (lineage_length <=? 255)%nat)
  then Err InvalidActiveStatePointer
  else Ok (114 + transition_length + lineage_length)%nat.

(** [u16::from_be_bytes(..) as usize], in [1..=255]. *)
Definition read_length (l : bytes) : pointer_result nat :=
  a ← try_array 2 l InvalidActiveStatePointer;
  let length := of_be_bytes a in
  if negb (within 1 255 length) then Err InvalidActiveStatePointer else Ok (Z.to_nat length).

(** [value.contains('\0')]. *)
Definition contains_nul (l : bytes) : bool := existsb (fun b => b =? 0) l.

Definition validated_identifier (l : bytes) : pointer_result bytes :=
  if negb (is_utf8 l) then Err InvalidActiveStatePointer
  else if contains_nul l then Err InvalidActiveStatePointer
  else Ok l.

Definition validate_pointer (pointer : ActiveStatePointer) : pointer_result unit :=
  _ ← expected_length (length (transition_id pointer)) (length (lineage_id pointer));
  if contains_nul (transition_id pointer) || contains_nul (lineage_id pointer)
     || (final_generation pointer =? 0) || all_zero (database_certificate_digest pointer)
  then Err InvalidActiveStatePointer else Ok tt.

Section with_hmac.
Context `{HmacSha256}.

Definition active_state_pointer_tag (self : JournalIntegrityKey) (l : bytes) : bytes :=
  hmac (key_bytes self) (DOMAIN ++ l).

Definition verify_active_state_pointer_tag (self : JournalIntegrityKey) (l tag : bytes)
    : pointer_result unit :=
  if bool_decide (hmac (key_bytes self) (DOMAIN ++ l) = tag) then Ok tt
  else Err InvalidActiveStatePointer.

(** The wire without its tag. *)
Definition pointer_body (pointer : ActiveStatePointer) : bytes :=
  let transition := transition_id pointer in
  let lineage := lineage_id pointer in
  [VERSION] ++ be_bytes 4 (protocol_version pointer)
  ++ be_bytes 2 (wrap 16 (len transition)) ++ transition
  ++ be_bytes 8 (final_generation pointer)
  ++ be_bytes 2 (wrap 16 (len lineage)) ++ lineage
  ++ target_history_epoch pointer ++ [origin_code (origin pointer)]
  ++ database_certificate_digest pointer.

Definition encode_active_state_pointer (key : JournalIntegrityKey)
    (pointer : ActiveStatePointer) : pointer_result bytes :=
  _ ← validate_pointer pointer;
  let wire := pointer_body pointer in
  Ok (wire ++ active_state_pointer_tag key wire).

Definition decode_active_state_pointer (key : JournalIntegrityKey) (wire : bytes)
    : pointer_result ActiveStatePointer :=
  if negb ((MINIMUM_BYTES <=? length wire)%nat && (length wire <=? MAXIMUM_BYTES)%nat)
     || (length wire <? 7)%nat
  then Err InvalidActiveStatePointer
  else
    transition_length ← read_length (slice wire 5 7);
    if (length wire <? 17 + transition_length)%nat then Err InvalidActiveStatePointer
    else
      let lineage_length_start := (15 + transition_length)%nat in
      lineage_length ← read_length (slice wire lineage_length_start (lineage_length_start + 2));
      total_length ← expected_length transition_length lineage_length;
      if negb (length wire =? total_length)%nat then Err InvalidActiveStatePointer
      else
        let tag_start := (length wire - TAG_BYTES)%nat in
        _ ← verify_active_state_pointer_tag key (take tag_start wire) (drop tag_start wire);
        if negb (at_ wire 0 =? VERSION) then Err InvalidActiveStatePointer
        else
          let transition_start := 7%nat in
          let generation_start := (transition_start + transition_length)%nat in
          let lineage_start := (lineage_length_start + 2)%nat in
          let epoch_start := (lineage_start + lineage_length)%nat in
          let origin_start := (epoch_start + 32)%nat in
          let digest_start := (origin_start + 1)%nat in
          protocol_version ← try_array 4 (slice wire 1 5) InvalidActiveStatePointer;
          transition_id ← validated_identifier (slice wire transition_start generation_start);
          final_generation ←
            try_array 8 (slice wire generation_start lineage_length_start)
              InvalidActiveStatePointer;
          lineage_id ← validated_identifier (slice wire lineage_start epoch_start);
          target_history_epoch ←
            try_array 32 (slice wire epoch_start origin_start) InvalidActiveStatePointer;
          origin ← origin_from_code (at_ wire origin_start);
          database_certificate_digest ←
            try_array 32 (slice wire digest_start tag_start) InvalidActiveStatePointer;
          let pointer := mkActiveStatePointer (of_be_bytes protocol_version) transition_id
            (of_be_bytes final_generation) lineage_id target_history_epoch origin
            database_certificate_digest in
          _ ← validate_pointer pointer;
          Ok pointer.
End with_hmac.

(** The values the Rust types admit. *)
Definition typed_pointer (p : ActiveStatePointer) : bool :=
  is_u32 (protocol_version p) && is_bytes (transition_id p) && is_utf8 (transition_id p)
  && is_u64 (final_generation p) && is_bytes (lineage_id p) && is_utf8 (lineage_id p)
  && array 32 (target_history_epoch p) && array 32 (database_certificate_digest p).

(** ** Lemmas *)

Lemma origin_codes c o : origin_from_code c = Ok o <-> c = origin_code o.
Proof. enum_codes. Qed.

Lemma read_length_Ok l n :
  read_length l = Ok n <->
  length l = 2%nat /\ (1 <= n <= 255)%nat /\ of_be_bytes l = Z.of_nat n.
Proof.
  unfold read_length. rewrite bind_Ok. setoid_rewrite try_array_Ok. split.
  - intros (a & [Hl ->] & Hn). decode_inv Hn. b2p. lia.
  - intros (Hl & Hn & He). exists l. split; [done|]. rewrite He.
    rewrite (proj2 (within_spec 1 255 _)) by lia. cbn [negb]. by rewrite Nat2Z.id.
Qed.

Lemma expected_length_Ok t l n :
  expected_length t l = Ok n <->
  (1 <= t <= 255)%nat /\ (1 <= l <= 255)%nat /\ n = (114 + t + l)%nat.
Proof.
  unfold expected_length. split.
  - intros Hn. decode_inv Hn. b2p. lia.
  - intros (Ht & Hl & ->).
    rewrite !(proj2 (Nat.leb_le _ _)) by lia. done.
Qed.

Lemma validated_identifier_Ok l i :
  validated_identifier l = Ok i <-> i = l /\ is_utf8 l = true /\ contains_nul l = false.
Proof.
  unfold validated_identifier. destruct (is_utf8 l), (contains_nul l); naive_solver.
Qed.

Lemma validate_pointer_Ok p u :
  validate_pointer p = Ok u ->
  (1 <= length (transition_id p) <= 255)%nat /\ (1 <= length (lineage_id p) <= 255)%nat
  /\ contains_nul (transition_id p) = false /\ contains_nul (lineage_id p) = false.
Proof.
  unfold validate_pointer. intros (n & (? & ? & _)%expected_length_Ok & Hv)%bind_Ok.
  decode_inv Hv. rewrite !orb_false_iff in Hb. destruct_and?. done.
Qed.

Section pointer_facts.
Context `{HmacOutput} (key : JournalIntegrityKey).

Lemma pointer_decode_sound wire p :
  is_bytes wire = true -> decode_active_state_pointer key wire = Ok p ->
  typed_pointer p = true /\ encode_active_state_pointer key p = Ok wire.
Proof.
  intros Hw Hd. unfold decode_active_state_pointer, verify_active_state_pointer_tag,
    TAG_BYTES, MINIMUM_BYTES, MAXIMUM_BYTES in Hd. cbv zeta in Hd. decode_inv Hd.
  repeat match goal with
  | H : read_length _ = Ok _ |- _ => apply read_length_Ok in H
  | H : expected_length _ _ = Ok _ |- _ => apply expected_length_Ok in H
  | H : validated_identifier _ = Ok _ |- _ => apply validated_identifier_Ok in H
  | H : origin_from_code _ = Ok _ |- _ => apply origin_codes in H
  end. b2p. destruct_and?. subst.
  match goal with H : length wire = _, V : hmac _ _ = _ |- _ => rename H into HN, V into Htag end.
  rewrite HN, take_slice, drop_slice, HN in *.
  replace (114 + x + x0 - 32)%nat with (82 + x + x0)%nat in * by lia.
  match goal with |- typed_pointer ?v = true /\ _ => set (p := v) in * end.
  assert (pointer_body p = slice wire 0 (82 + x + x0)) as Hp.
  { unfold pointer_body, p. cbn [protocol_version transition_id final_generation lineage_id
      target_history_epoch origin database_certificate_digest]. unfold len, wrap.
    rewrite !length_slice, !Z.mod_small by lia.
    replace (Z.of_nat (7 + x - 7)) with (of_be_bytes (slice wire 5 7)) by lia.
    replace (Z.of_nat (15 + x + 2 + x0 - (15 + x + 2)))
      with (of_be_bytes (slice wire (15 + x) (15 + x + 2))) by lia.
    rewrite !be_slice by (done || lia).
    match goal with H : at_ wire 0 = VERSION, C : _ = origin_code _ |- _ =>
      rewrite <- H, <- C end.
    rewrite <- !slice_one by lia.
    replace (S (15 + x + 2 + x0 + 32)) with (15 + x + 2 + x0 + 32 + 1)%nat by lia.
    by rewrite !slice_join by lia. }
  split.
  - unfold typed_pointer, p. cbn [protocol_version transition_id final_generation lineage_id
      target_history_epoch origin database_certificate_digest]. rewrite is_u32_slice, is_u64_slice by (done || lia).
    rewrite !array_slice by (done || lia). rewrite !is_bytes_slice by done.
    repeat match goal with H : is_utf8 _ = true |- _ => rewrite H; clear H end. done.
  - unfold encode_active_state_pointer.
    match goal with H : validate_pointer p = Ok _ |- _ => rewrite H end.
    rewrite Ok_bind. cbv zeta. rewrite Hp. unfold active_state_pointer_tag.
    rewrite Htag, slice_join by lia. f_equal. by apply slice_all.
Qed.

Lemma pointer_encode_complete wire p :
  typed_pointer p = true -> encode_active_state_pointer key p = Ok wire ->
  decode_active_state_pointer key wire = Ok p.
Proof.
  intros Ht He. unfold encode_active_state_pointer in He. encode_inv He. cbv zeta in He.
  encode_inv He. destruct (validate_pointer_Ok _ _ Hx) as (Htl & Hll & Htn & Hln).
  unfold typed_pointer in Ht. b2p. destruct_and?.
  set (t := length (transition_id p)) in *. set (l := length (lineage_id p)) in *.
  unfold active_state_pointer_tag in He. set (tag := hmac _ _) in He.
  assert (Len (transition_id p) t) by done. assert (Len (lineage_id p) l) by done.
  assert (Len tag 32) by apply hmac_length.
  assert (of_be_bytes (be_bytes 2 (wrap 16 (Z.of_nat t))) = Z.of_nat t) as Hbt.
  { unfold wrap. rewrite Z.mod_small by lia. apply of_be_u16, within_spec. unfold u16_max. lia. }
  assert (of_be_bytes (be_bytes 2 (wrap 16 (Z.of_nat l))) = Z.of_nat l) as Hbl.
  { unfold wrap. rewrite Z.mod_small by lia. apply of_be_u16, within_spec. unfold u16_max. lia. }
  assert (length (pointer_body p) = 82 + t + l)%nat as Hlb.
  { unfold pointer_body. rewrite !length_app, !length_be_bytes. cbn [length].
    rewrite (array_len 32 (target_history_epoch p)),
      (array_len 32 (database_certificate_digest p)) by done. fold t l. lia. }
  assert (length wire = 114 + t + l)%nat as Hlw.
  { rewrite He, length_app, Hlb. unfold tag. rewrite hmac_length. lia. }
  assert (take (82 + t + l) wire = pointer_body p) as Hpre.
  { rewrite He. by apply take_app_length'. }
  assert (drop (82 + t + l) wire = tag) as Hdrop by (rewrite He; by apply drop_app_length').
  unfold decode_active_state_pointer, TAG_BYTES, MINIMUM_BYTES, MAXIMUM_BYTES. cbv zeta.
  rewrite Hlw. replace (114 + t + l - 32)%nat with (82 + t + l)%nat by lia.
  rewrite Hpre, Hdrop.
  rewrite !(proj2 (Nat.leb_le _ _)), !(proj2 (Nat.ltb_ge _ _)) by lia. cbn [negb andb orb].
  unfold pointer_body in He. rewrite <- !app_assoc in He.
  assert (slice wire 5 7 = be_bytes 2 (wrap 16 (Z.of_nat t))) as -> by (rewrite He; segment).
  rewrite (proj2 (read_length_Ok _ t)), Ok_bind by (rewrite length_be_bytes; lia).
  rewrite (proj2 (Nat.ltb_ge _ _)) by lia.
  assert (slice wire (15 + t) (15 + t + 2) = be_bytes 2 (wrap 16 (Z.of_nat l))) as ->
    by (rewrite He; segment).
  rewrite (proj2 (read_length_Ok _ l)), Ok_bind by (rewrite length_be_bytes; lia).
  rewrite (proj2 (expected_length_Ok t l (114 + t + l))), Ok_bind by lia.
  rewrite (proj2 (Nat.eqb_eq _ _)) by lia. cbn [negb]. unfold verify_active_state_pointer_tag.
  unfold tag at 1. rewrite bool_decide_true, Ok_bind by done.
  assert (at_ wire 0 = VERSION) as -> by (rewrite He; segment). rewrite Z.eqb_refl. cbn [negb].
  assert (slice wire 1 5 = be_bytes 4 (protocol_version p)) as -> by (rewrite He; segment).
  assert (slice wire 7 (7 + t) = transition_id p) as -> by (rewrite He; segment).
  assert (slice wire (7 + t) (15 + t) = be_bytes 8 (final_generation p)) as ->
    by (rewrite He; segment).
  assert (slice wire (15 + t + 2) (15 + t + 2 + l) = lineage_id p) as ->
    by (rewrite He; segment).
  assert (slice wire (15 + t + 2 + l) (15 + t + 2 + l + 32) = target_history_epoch p) as ->
    by (rewrite He; segment).
  assert (at_ wire (15 + t + 2 + l + 32) = origin_code (origin p)) as ->
    by (rewrite He; segment).
  assert (slice wire (15 + t + 2 + l + 32 + 1) (82 + t + l) = database_certificate_digest p) as ->
    by (rewrite He; segment).
  rewrite !try_array_len by typeclasses eauto. rewrite !Ok_bind.
  rewrite (proj2 (validated_identifier_Ok (transition_id p) (transition_id p))), Ok_bind by done.
  rewrite (proj2 (validated_identifier_Ok (lineage_id p) (lineage_id p))), Ok_bind by done.
  rewrite (proj2 (origin_codes _ (origin p)) eq_refl), Ok_bind.
  rewrite of_be_u32, of_be_u64 by done. destruct p. cbn in *. by rewrite Hx.
Qed.

Lemma pointer_encode_bytes p wire :
  typed_pointer p = true -> encode_active_state_pointer key p = Ok wire ->
  is_bytes wire = true.
Proof.
  intros Ht He. unfold encode_active_state_pointer in He. encode_inv He. cbv zeta in He.
  encode_inv He. subst wire. unfold typed_pointer in Ht. b2p. destruct_and?.
  unfold active_state_pointer_tag, pointer_body. bytes_fields.
Qed.

#[export] Instance pointer_codec :
  WireCodec (encode_active_state_pointer key) (decode_active_state_pointer key) typed_pointer.
Proof.
  split; [|exact pointer_encode_bytes]. intros wire e Hw.
  split; [by apply pointer_decode_sound|]. intros [??]. by apply pointer_encode_complete.
Qed.
End pointer_facts.
