(* ===== verification/ImageWire.v ===== *)
(** * Bounded writing and reading of image regions
    ([initialization_key_pair/control_journal_image.rs] of [crates/msgriver/src],
    lines 464-640)

    [ImageWriter] and [ImageReader] as the source has them, and what the codecs of the
    image are proved with: [emits], the bytes a writing step appends, and [exact],
    which ties a reading step to the bytes it accepts. *)

From S2P Require Import Prelude Bytes Generation Sha256 Codec Journal.

#[local] Open Scope Z_scope.

Inductive ControlJournalImageError : Type :=
| MissingControlJournalImage
| InvalidControlJournalImage
| UnsupportedConstruction
| WriteFailed
| PublishUncertain.

#[export] Instance ControlJournalImageError_eq_dec : EqDecision ControlJournalImageError.
Proof. solve_decision. Defined.

Definition INVALID : ControlJournalImageError := InvalidControlJournalImage.
Definition UNSUPPORTED : ControlJournalImageError := UnsupportedConstruction.

Abbreviation image_result := (result ControlJournalImageError).

(** ** [ImageWriter] *)

Record ImageWriter : Type := mkWriter { w_bytes : bytes; w_limit : Z }.

(** A step of a writer: [writer.op(..)?]. *)
Definition Writing : Type := ImageWriter -> image_result ImageWriter.

Definition new_writer (limit : Z) : ImageWriter := mkWriter [] limit.

Definition extend (value : bytes) : Writing := fun self =>
  next ← ok_or (checked_add_u64 (len (w_bytes self)) (len value)) INVALID;
  if w_limit self <? next then Err INVALID
  else Ok (mkWriter (w_bytes self ++ value) (w_limit self)).

Definition put_u8 (value : Z) : Writing := extend [value].
Definition put_u16 (value : Z) : Writing := extend (be_bytes 2 value).
Definition put_u32 (value : Z) : Writing := extend (be_bytes 4 value).
Definition put_u64 (value : Z) : Writing := extend (be_bytes 8 value).
Definition put_i64 (value : Z) : Writing := extend (be_bytes 8 value).

Definition skip : Writing := fun self => Ok self.
Definition andThen (first second : Writing) : Writing := fun self =>
  self ← first self; second self.
#[global] Notation "a >>> b" := (andThen a b) (at level 60, right associativity).

(** [u32::try_from(bytes.len()).map_err(|_| INVALID)?]: an [image_result] inside a
    writing. *)
Definition lift {A : Type} (m : image_result A) (k : A -> Writing) : Writing := fun self =>
  a ← m; k a self.

Definition put_member (tag : Z) (l : bytes) : Writing :=
  put_u16 tag >>>
  lift (ok_or (checked is_u32 (len l)) INVALID) put_u32 >>>
  extend l.

Definition put_head (head : JournalHead) : Writing :=
  put_u64 (sequence head) >>> extend (digest head).

(** [let mut writer = ImageWriter::new(limit); ..; writer.finish()]. *)
Definition finish (limit : Z) (w : Writing) : image_result bytes :=
  w_bytes <$> w (new_writer limit).

(** ** [ImageReader] *)

Record ImageReader : Type := mkReader { r_bytes : bytes; r_offset : nat }.

Definition new_reader (l : bytes) : ImageReader := mkReader l 0.

(** A step of a reader: its value and the reader after it. *)
Definition Reading (A : Type) : Type := ImageReader -> image_result (A * ImageReader).

#[export] Instance reading_ret : MRet Reading := fun A a r => Ok (a, r).
#[export] Instance reading_bind : MBind Reading := fun A B f m r =>
  match m r with Ok (a, r') => f a r' | Err e => Err e end.

Definition fail {A : Type} (e : ControlJournalImageError) : Reading A := fun _ => Err e.

(** An [image_result] inside a reading. *)
Definition from {A : Type} (m : image_result A) : Reading A := fun r =>
  match m with Ok a => Ok (a, r) | Err e => Err e end.

Definition rd_take (length : nat) : Reading bytes := fun self =>
  let end_ := (r_offset self + length)%nat in
  match get (r_bytes self) (r_offset self) end_ with
  | Some value => Ok (value, mkReader (r_bytes self) end_)
  | None => Err INVALID
  end.

Definition rd_array (n : nat) : Reading bytes :=
  l ← rd_take n; from (try_array n l INVALID).

Definition rd_u8 : Reading Z := l ← rd_take 1; mret (at_ l 0).
Definition rd_u16 : Reading Z := l ← rd_take 2; mret (of_be_bytes l).
Definition rd_u32 : Reading Z := l ← rd_take 4; mret (of_be_bytes l).
Definition rd_u64 : Reading Z := l ← rd_take 8; mret (of_be_bytes l).
Definition rd_i64 : Reading Z := l ← rd_take 8; mret (as_i64 (of_be_bytes l)).

Definition finished (self : ImageReader) : bool := (r_offset self =? length (r_bytes self))%nat.

Definition rd_member (expected : Z) : Reading bytes :=
  tag ← rd_u16;
  if negb (tag =? expected) then fail INVALID
  else length ← rd_u32; rd_take (Z.to_nat length).

Definition rd_head : Reading JournalHead :=
  sequence ← rd_u64; digest ← rd_array 32; mret (mkJournalHead sequence digest).

(** The rest of the reader: [take(bytes.len() - offset)]. *)
Definition rd_rest : Reading bytes := fun self =>
  rd_take (length (r_bytes self) - r_offset self) self.

(** [let mut reader = ImageReader::new(bytes); ..; reader.end()?]. *)
Definition read_all {A : Type} (m : Reading A) (l : bytes) : image_result A :=
  match m (new_reader l) with
  | Ok (a, r) => if finished r then Ok a else Err INVALID
  | Err e => Err e
  end.

(** ** What a writing step appends *)

Definition emits (w : Writing) (chunk : bytes) : Prop := forall self,
  len (w_bytes self) <= w_limit self <= u32_max ->
  w self = if len (w_bytes self) + len chunk <=? w_limit self
           then Ok (mkWriter (w_bytes self ++ chunk) (w_limit self)) else Err INVALID.

Lemma emits_extend v : emits (extend v) v.
Proof.
  intros [b limit] Hl. unfold extend, u32_max in *. cbn [w_bytes w_limit] in *.
  unfold checked_add_u64, checked. pose proof (len_nonneg b). pose proof (len_nonneg v).
  destruct (Z.leb_spec (len b + len v) limit) as [Hle|Hgt].
  - rewrite (proj2 (within_spec 0 u64_max _)) by (unfold u64_max; lia). cbn.
    rewrite (proj2 (Z.ltb_ge _ _)) by lia. done.
  - destruct (is_u64 (len b + len v)); cbn; [|done].
    by rewrite (proj2 (Z.ltb_lt _ _)) by lia.
Qed.

Lemma emits_skip : emits skip [].
Proof.
  intros [b limit] Hl. unfold skip. cbn in *. rewrite app_nil_r, Z.add_0_r.
  by rewrite (proj2 (Z.leb_le _ _)) by lia.
Qed.

Lemma emits_andThen a b x y : emits a x -> emits b y -> emits (a >>> b) (x ++ y).
Proof.
  intros Ha Hb [l limit] Hl. unfold andThen. rewrite Ha by done.
  cbn [w_bytes w_limit] in *.
  rewrite len_cat. pose proof (len_nonneg x). pose proof (len_nonneg y).
  destruct (Z.leb_spec (len l + len x) limit).
  - rewrite Ok_bind, Hb by (cbn [w_bytes w_limit]; rewrite len_cat; lia).
    cbn [w_bytes w_limit]. rewrite len_cat, app_assoc.
    by rewrite Z.add_assoc.
  - cbn. by rewrite (proj2 (Z.leb_gt _ _)) by lia.
Qed.

Lemma emits_lift {A : Type} (m : image_result A) a k chunk :
  m = Ok a -> emits (k a) chunk -> emits (lift m k) chunk.
Proof. intros -> Hk self Hl. unfold lift. rewrite Ok_bind. by apply Hk. Qed.

Lemma emits_eq w x y : emits w x -> x = y -> emits w y.
Proof. by intros ? <-. Qed.

Lemma finish_emits limit w chunk :
  emits w chunk -> 0 <= limit <= u32_max ->
  finish limit w = if len chunk <=? limit then Ok chunk else Err INVALID.
Proof.
  intros Hw Hl. unfold finish, new_writer. rewrite Hw by done. cbn [w_bytes w_limit app].
  change (len []) with 0. rewrite Z.add_0_l. by destruct (len chunk <=? limit).
Qed.

Lemma emits_u8 v : emits (put_u8 v) [v].
Proof. apply emits_extend. Qed.
Lemma emits_u16 v : emits (put_u16 v) (be_bytes 2 v).
Proof. apply emits_extend. Qed.
Lemma emits_u32 v : emits (put_u32 v) (be_bytes 4 v).
Proof. apply emits_extend. Qed.
Lemma emits_u64 v : emits (put_u64 v) (be_bytes 8 v).
Proof. apply emits_extend. Qed.
Lemma emits_i64 v : emits (put_i64 v) (be_bytes 8 v).
Proof. apply emits_extend. Qed.

Definition head_bytes (head : JournalHead) : bytes := be_bytes 8 (sequence head) ++ digest head.

Lemma emits_head head : emits (put_head head) (head_bytes head).
Proof. apply emits_andThen; apply emits_extend. Qed.

Lemma emits_member tag l :
  len l <= u32_max ->
  emits (put_member tag l) (be_bytes 2 tag ++ be_bytes 4 (len l) ++ l).
Proof.
  intros Hl. apply emits_andThen; [apply emits_u16|].
  apply emits_andThen; [|apply emits_extend].
  apply (emits_lift _ (len l)); [|apply emits_u32].
  apply ok_or_Ok, checked_Some. split; [done|]. apply within_spec.
  pose proof (len_nonneg l). lia.
Qed.

(** What is known of the bytes of a step that succeeded. *)
Definition wrote (w : Writing) (P : bytes -> Prop) : Prop := forall self self',
  w self = Ok self' -> exists chunk, w_bytes self' = w_bytes self ++ chunk /\ P chunk.

Lemma wrote_extend v : wrote (extend v) (fun c => c = v).
Proof.
  intros self self' H. unfold extend in H. apply bind_Ok in H as (next & _ & H).
  destruct (_ <? _); [done|]. injection H as <-. by exists v.
Qed.

Lemma wrote_skip : wrote skip (fun c => c = []).
Proof. intros self self' [= <-]. exists []. by rewrite app_nil_r. Qed.

Lemma wrote_andThen a b P Q :
  wrote a P -> wrote b Q -> wrote (a >>> b) (fun c => exists x y, c = x ++ y /\ P x /\ Q y).
Proof.
  intros Ha Hb self self'' H. unfold andThen in H. apply bind_Ok in H as (self' & H1 & H2).
  destruct (Ha _ _ H1) as (x & Hx & ?), (Hb _ _ H2) as (y & Hy & ?).
  exists (x ++ y). rewrite Hy, Hx, app_assoc. eauto 6.
Qed.

Lemma wrote_lift {A : Type} (m : image_result A) k (P : A -> bytes -> Prop) :
  (forall a, m = Ok a -> wrote (k a) (P a)) ->
  wrote (lift m k) (fun c => exists a, m = Ok a /\ P a c).
Proof.
  intros Hk self self' H. unfold lift in H. apply bind_Ok in H as (a & Ha & H).
  destruct (Hk a Ha _ _ H) as (c & ? & ?). eauto.
Qed.

Lemma wrote_iff w P Q : (forall c, P c -> Q c) -> wrote w P -> wrote w Q.
Proof. intros HPQ Hw self self' H. destruct (Hw _ _ H) as (c & ? & ?). eauto. Qed.

Lemma finish_wrote limit w P l : wrote w P -> finish limit w = Ok l -> P l.
Proof.
  intros Hw H. unfold finish in H. destruct (w (new_writer limit)) as [self'|] eqn:Hr; [|done].
  destruct (Hw _ _ Hr) as (c & Hc & ?). cbn in H. injection H as <-. by rewrite Hc.
Qed.

(** A tagged, length-prefixed member. *)
Definition member_bytes (tag : Z) (l : bytes) : bytes :=
  be_bytes 2 tag ++ be_bytes 4 (len l) ++ l.

Lemma wrote_member tag l :
  wrote (put_member tag l) (fun c => c = member_bytes tag l /\ is_u32 (len l) = true).
Proof.
  eapply wrote_iff; [|apply wrote_andThen; [apply wrote_extend|apply wrote_andThen;
    [apply wrote_lift; intros ? _; apply wrote_extend|apply wrote_extend]]].
  cbn beta. intros c (? & ? & -> & -> & ? & ? & -> & (n & Hn%ok_or_Ok & ->) & ->).
  apply checked_Some in Hn as [-> ?]. done.
Qed.

(** ** What a reading step accepts *)

(** A reader the sources can build: real bytes, an offset inside them. *)
Definition reader_ok (r : ImageReader) : Prop :=
  is_bytes (r_bytes r) = true /\ (r_offset r <= length (r_bytes r))%nat.

Definition rest (r : ImageReader) : bytes := drop (r_offset r) (r_bytes r).

Definition advance (r : ImageReader) (n : nat) : ImageReader :=
  mkReader (r_bytes r) (r_offset r + n).

(** [m] reads exactly the chunks related to its values, wherever they stand. *)
Record exact {A : Type} (m : Reading A) (spec : bytes -> A -> Prop) : Prop := mkExact {
  exact_sound : forall r a r', reader_ok r -> m r = Ok (a, r') ->
    exists chunk tail, rest r = chunk ++ tail /\ r' = advance r (length chunk)
                       /\ spec chunk a;
  exact_complete : forall r a chunk tail, reader_ok r -> rest r = chunk ++ tail ->
    spec chunk a -> m r = Ok (a, advance r (length chunk));
}.

Lemma rest_advance r chunk tail :
  rest r = chunk ++ tail -> rest (advance r (length chunk)) = tail.
Proof.
  unfold rest, advance. cbn. intros Hr. rewrite <- drop_drop, Hr. apply drop_app_length.
Qed.

Lemma advance_ok r chunk tail :
  reader_ok r -> rest r = chunk ++ tail -> reader_ok (advance r (length chunk)).
Proof.
  intros [Hb Ho] Hr. split; [done|]. cbn.
  apply (f_equal length) in Hr. unfold rest in Hr. rewrite length_drop, length_app in Hr. lia.
Qed.

Lemma advance_advance r n m : advance (advance r n) m = advance r (n + m).
Proof. unfold advance. cbn. f_equal. lia. Qed.

Lemma rest_bytes r : reader_ok r -> is_bytes (rest r) = true.
Proof. intros [Hb _]. by apply is_bytes_drop. Qed.

Lemma exact_iff {A : Type} (m : Reading A) S T :
  (forall c a, S c a <-> T c a) -> exact m S -> exact m T.
Proof.
  intros HST [Hs Hc]. split.
  - intros r a r' Hr Hm. destruct (Hs r a r' Hr Hm) as (c & t & ? & ? & ?%HST). eauto.
  - intros r a c t Hr He Ht%HST. by eapply Hc.
Qed.

Lemma exact_ret {A : Type} (a : A) : exact (mret a) (fun c b => c = [] /\ b = a).
Proof.
  split.
  - intros r b r' Hr [= <- <-]. exists [], (rest r). split; [done|]. split; [|done].
    destruct r. unfold advance. cbn. by rewrite Nat.add_0_r.
  - intros r b c t Hr He [-> ->]. unfold mret, reading_ret. do 2 f_equal. destruct r.
    unfold advance. cbn. by rewrite Nat.add_0_r.
Qed.

Lemma exact_fail {A : Type} e : exact (A := A) (fail e) (fun _ _ => False).
Proof. by split. Qed.

(** The second step may rely on what the first has read. *)
Lemma exact_bind_dep {A B : Type} (m : Reading A) (f : A -> Reading B) S T :
  exact m S -> (forall a c, S c a -> exact (f a) (T a)) ->
  exact (m ≫= f) (fun c b => exists c1 c2 a, c = c1 ++ c2 /\ S c1 a /\ T a c2 b).
Proof.
  intros Hm Hf. split.
  - intros r b r'' Hr H. unfold mbind, reading_bind in H.
    destruct (m r) as [[a r']|e] eqn:Hmr; [|done].
    destruct (exact_sound _ _ Hm r a r' Hr Hmr) as (c1 & t1 & He1 & -> & HS).
    destruct (exact_sound _ _ (Hf a c1 HS) _ b r'' (advance_ok _ _ _ Hr He1) H)
      as (c2 & t2 & He2 & -> & HT).
    rewrite (rest_advance _ _ _ He1) in He2. exists (c1 ++ c2), t2.
    rewrite He1, He2, app_assoc, advance_advance, length_app. eauto 10.
  - intros r b c t Hr He (c1 & c2 & a & -> & HS & HT). rewrite <- app_assoc in He.
    unfold mbind, reading_bind. rewrite (exact_complete _ _ Hm r a c1 _ Hr He HS).
    rewrite (exact_complete _ _ (Hf a c1 HS) _ b c2 t (advance_ok _ _ _ Hr He)
      (rest_advance _ _ _ He) HT).
    by rewrite advance_advance, length_app.
Qed.

Lemma exact_bind {A B : Type} (m : Reading A) (f : A -> Reading B) S T :
  exact m S -> (forall a, exact (f a) (T a)) ->
  exact (m ≫= f) (fun c b => exists c1 c2 a, c = c1 ++ c2 /\ S c1 a /\ T a c2 b).
Proof. intros Hm Hf. by apply exact_bind_dep. Qed.

Lemma exact_if {A : Type} (b : bool) (m n : Reading A) S T :
  exact m S -> exact n T ->
  exact (if b then m else n) (fun c a => if b then S c a else T c a).
Proof. by destruct b. Qed.

Lemma exact_from {A : Type} (m : image_result A) :
  exact (from m) (fun c a => c = [] /\ m = Ok a).
Proof.
  unfold from. destruct m as [a|e].
  - apply (exact_iff _ (fun c b => c = [] /\ b = a)); [|apply exact_ret].
    intros c b. split; intros [-> H]; split; congruence.
  - split; [done|]. by intros r a c t _ _ [_ ?].
Qed.

Lemma exact_take n : exact (rd_take n) (fun c l => c = l /\ length l = n /\ is_bytes l = true).
Proof.
  split.
  - intros r l r' Hr. unfold rd_take. case_match eqn:Hg; [|done]. intros [= <- <-].
    apply get_Some in Hg as (_ & Hle & ->).
    exists (slice (r_bytes r) (r_offset r) (r_offset r + n)),
      (drop (r_offset r + n) (r_bytes r)).
    rewrite length_slice by lia. replace (r_offset r + n - r_offset r)%nat with n by lia.
    split; [|split; [done|split; [done|split; [done|]]]]; [|apply is_bytes_slice, Hr].
    unfold rest, slice. replace (r_offset r + n - r_offset r)%nat with n by lia.
    by rewrite <- drop_drop, take_drop.
  - intros r l c t Hr He (-> & <- & _). unfold rd_take.
    assert (r_offset r + length l <= length (r_bytes r))%nat as Hle.
    { apply (f_equal length) in He. unfold rest in He. rewrite length_drop, length_app in He.
      destruct Hr. lia. }
    rewrite get_in by lia. unfold slice.
    replace (r_offset r + length l - r_offset r)%nat with (length l) by lia.
    fold (rest r). by rewrite He, take_app_length.
Qed.

Lemma exact_array n : exact (rd_array n) (fun c l => c = l /\ array n l = true).
Proof.
  eapply exact_iff; [|apply exact_bind; [apply exact_take|intros l; apply exact_from]].
  intros c l. cbn. setoid_rewrite try_array_Ok. rewrite array_spec. split.
  - intros (c1 & c2 & a & -> & (-> & ? & ?) & -> & ? & ->). by rewrite app_nil_r.
  - intros (-> & ? & ?). exists l, [], l. by rewrite app_nil_r.
Qed.

(** A fixed-width integer: [n] bytes read with [f]. *)
Lemma exact_int n (f : bytes -> Z) (ok : Z -> bool) :
  (forall l, length l = n -> is_bytes l = true -> ok (f l) = true /\ be_bytes n (f l) = l) ->
  (forall z, ok z = true -> f (be_bytes n z) = z) ->
  exact (l ← rd_take n; mret (f l)) (fun c z => c = be_bytes n z /\ ok z = true).
Proof.
  intros Hl Hz.
  eapply exact_iff; [|apply exact_bind; [apply exact_take|intros l; apply exact_ret]].
  intros c z. cbn. split.
  - intros (c1 & c2 & a & -> & (-> & Hn & Hb) & -> & ->). rewrite app_nil_r.
    by destruct (Hl a Hn Hb) as [? ->].
  - intros [-> Ho]. exists (be_bytes n z), [], (be_bytes n z).
    by rewrite app_nil_r, length_be_bytes, is_bytes_be_bytes, Hz.
Qed.

Lemma exact_u64 : exact rd_u64 (fun c z => c = be_bytes 8 z /\ is_u64 z = true).
Proof. apply exact_int; [apply u64_of_be|by apply of_be_u64]. Qed.

Lemma exact_u32 : exact rd_u32 (fun c z => c = be_bytes 4 z /\ is_u32 z = true).
Proof. apply exact_int; [apply u32_of_be|by apply of_be_u32]. Qed.

Lemma exact_u16 : exact rd_u16 (fun c z => c = be_bytes 2 z /\ is_u16 z = true).
Proof. apply exact_int; [apply u16_of_be|by apply of_be_u16]. Qed.

Lemma exact_i64 : exact rd_i64 (fun c z => c = be_bytes 8 z /\ is_i64 z = true).
Proof.
  apply (exact_int 8 (fun l => as_i64 (of_be_bytes l))); [apply i64_of_be|by apply of_be_i64].
Qed.

Lemma exact_u8 : exact rd_u8 (fun c z => c = [z] /\ is_byte z = true).
Proof.
  eapply exact_iff; [|apply exact_bind; [apply exact_take|intros l; apply exact_ret]].
  intros c z. cbn. split.
  - intros (c1 & c2 & a & -> & (-> & Hn & Hb) & -> & ->). rewrite app_nil_r.
    destruct a as [|x [|]]; try done. unfold at_. cbn in *. by rewrite andb_true_r in Hb.
  - intros [-> Ho]. exists [z], [], [z]. rewrite app_nil_r. cbn. by rewrite Ho.
Qed.

Create HintDb reading.
Create HintDb writing.
#[export] Hint Constants Opaque : writing.
#[export] Hint Resolve exact_take exact_u8 exact_u16 exact_u32 exact_u64 exact_i64 exact_array
  : reading.

Lemma exact_guard {A : Type} (b : bool) e (m : Reading A) T :
  exact m T -> exact (if b then fail e else m) (fun c a => b = false /\ T c a).
Proof.
  destruct b; intros Hm; [|by eapply exact_iff; [|apply Hm]; naive_solver].
  eapply exact_iff; [|apply exact_fail]. naive_solver.
Qed.

(** The last field of a step. *)
Lemma exact_last {A B : Type} (m : Reading A) (g : A -> B) S :
  exact m S -> exact (a ← m; mret (g a)) (fun c b => exists a, S c a /\ b = g a).
Proof.
  intros Hm. eapply exact_iff; [|apply exact_bind; [apply Hm|intros a; apply exact_ret]].
  intros c b. cbn. split.
  - intros (c1 & c2 & a & -> & HS & -> & ->). rewrite app_nil_r. eauto.
  - intros (a & HS & ->). exists c, [], a. by rewrite app_nil_r.
Qed.

Lemma exact_ext {A : Type} (m n : Reading A) S :
  (forall r, m r = n r) -> exact m S -> exact n S.
Proof.
  intros Hmn [Hs Hc]. split; intros *; rewrite <- Hmn; [apply Hs|apply Hc].
Qed.

(** A step that only checks and converts what the one before it has read. *)
Lemma exact_checked {A B : Type} (m : Reading A) (g : A -> image_result B) S :
  exact m S -> exact (a ← m; from (g a)) (fun c b => exists a, S c a /\ g a = Ok b).
Proof.
  intros Hm. eapply exact_iff; [|apply exact_bind; [apply Hm|intros a; apply exact_from]].
  intros c b. cbn. split.
  - intros (c1 & c2 & a & -> & HS & -> & Hg). rewrite app_nil_r. eauto.
  - intros (a & HS & Hg). exists c, [], a. by rewrite app_nil_r.
Qed.

(** The reading of a whole step, one field after the other. *)
Ltac read_field :=
  lazymatch goal with
  | |- exact (from _) _ => apply exact_from
  | |- exact (mret _) _ => apply exact_ret
  | |- exact (rd_take _) _ => apply exact_take
  | |- exact (fail _) _ => apply exact_fail
  | |- _ =>
    solve [eauto 2 with reading]
  end.

Ltac reading :=
  repeat first
    [ read_field
    | apply exact_last; read_field
    | apply exact_bind; [read_field|intros ?]
    | apply exact_guard
    | apply exact_if ].

(** What was read, field by field; and the fields of what there is to read. *)
Ltac read_inv :=
  repeat match goal with
  | H : exists _, _ |- _ => destruct H
  | H : _ /\ _ |- _ => destruct H
  | H : _ && _ = true |- _ => apply andb_true_iff in H
  end; subst.

Ltac read_build :=
  rewrite <- ?app_assoc;
  repeat match goal with
  | |- exists _ _ _, _ => eexists _, _, _; split; [reflexivity|]
  | |- exists _, _ => eexists
  | |- _ /\ _ => split
  | |- _ = _ => first [ assumption | reflexivity | eassumption | by rewrite app_nil_r ]
  end.

(** The next field of a wire is the value [a]. *)
Ltac read_step a :=
  eexists _, _, a; split; [reflexivity|];
  split; [try first [done | by split_and!]|].

(** The next step reads nothing and yields [a]. *)
Ltac skip_step a :=
  eexists [], _, a; split; [symmetry; apply app_nil_l|]; split; [split; [done|]|].

(** [exact m spec] from the fields of [m]. *)
Ltac read_exact :=
  eapply exact_iff; cycle 1; [reading|cbv beta; intros; split; intros; read_inv].

Lemma exact_head : exact rd_head (fun c h => c = head_bytes h /\ typed_head h = true).
Proof.
  unfold rd_head. read_exact; unfold typed_head, head_bytes in *; cbn in *.
  - split; [done|]. by apply andb_true_iff.
  - destruct a as [s d]. cbn in *. read_inv. read_build.
Qed.
#[export] Hint Resolve exact_head : reading.

Lemma read_all_exact {A : Type} (m : Reading A) spec l a :
  exact m spec -> is_bytes l = true -> read_all m l = Ok a <-> spec l a.
Proof.
  intros Hm Hl. assert (reader_ok (new_reader l)) as Hr by (split; [done|cbn; lia]).
  unfold read_all. split.
  - destruct (m (new_reader l)) as [[a' r]|e] eqn:H; [|done].
    destruct (exact_sound _ _ Hm _ _ _ Hr H) as (c & t & He & -> & HS).
    unfold rest, finished, advance in *. cbn in *. rewrite drop_0 in He.
    destruct (Nat.eqb_spec (length c) (length l)) as [Hc|]; [|done]. intros [= <-].
    rewrite He, length_app in Hc. destruct t; [|simpl in Hc; lia]. by rewrite He, app_nil_r.
  - intros HS. rewrite (exact_complete _ _ Hm _ a l [] Hr) by
      (done || (unfold rest; cbn; by rewrite drop_0, app_nil_r)).
    unfold finished. cbn. by rewrite Nat.eqb_refl.
Qed.

(** A field of declared length: the length is that of what was taken. *)
Lemma taken_length l n : length l = Z.to_nat n -> 0 <= n -> n = len l.
Proof. unfold len. lia. Qed.

Lemma byte_nonneg n : is_byte n = true -> 0 <= n.
Proof. intros H%within_spec. lia. Qed.
Lemma u16_nonneg n : is_u16 n = true -> 0 <= n.
Proof. intros H%within_spec. lia. Qed.
Lemma u32_nonneg n : is_u32 n = true -> 0 <= n.
Proof. intros H%within_spec. lia. Qed.

Ltac taken :=
  match goal with
  | H : length ?l = Z.to_nat ?n |- _ =>
    let E := fresh in
    assert (n = len l) as E by
      (apply (taken_length _ _ H);
       first [ by apply byte_nonneg | by apply u16_nonneg | by apply u32_nonneg ]);
    subst n; clear H
  end.

Lemma take_length l : length l = Z.to_nat (len l).
Proof. unfold len. lia. Qed.

Lemma exact_member tag :
  is_u16 tag = true ->
  exact (rd_member tag)
    (fun c l => c = member_bytes tag l /\ is_u32 (len l) = true /\ is_bytes l = true).
Proof.
  intros Ht. unfold rd_member. read_exact; b2p; subst.
  - by taken.
  - read_step tag. split; [by rewrite Z.eqb_refl|]. read_step (len a).
    by pose proof (take_length a).
Qed.

Lemma map_err_Ok {E F A : Type} (f : E -> F) (r : result E A) a :
  map_err f r = Ok a <-> r = Ok a.
Proof. destruct r; naive_solver. Qed.

Lemma flag_byte b : is_byte (flag b) = true.
Proof. by destruct b. Qed.

Lemma head_is_bytes h : typed_head h = true -> is_bytes (head_bytes h) = true.
Proof.
  unfold typed_head, head_bytes. intros [_ ?]%andb_true_iff.
  rewrite is_bytes_app, is_bytes_be_bytes. by apply (is_bytes_array 32).
Qed.

(** [is_bytes] of a concatenation of fields. *)
Ltac wire_is_bytes :=
  repeat match goal with
  | H : array ?n ?l = true |- context [is_bytes ?l] => rewrite (is_bytes_array n l H)
  | H : typed_head ?h = true |- context [is_bytes (head_bytes ?h)] => rewrite (head_is_bytes h H)
  | H : is_bytes ?l = true |- context [is_bytes ?l] => rewrite H
  | |- context [is_bytes (?a ++ ?b)] => rewrite (is_bytes_app a b)
  | |- context [is_bytes (be_bytes ?n ?z)] => rewrite (is_bytes_be_bytes n z)
  | |- context [is_bytes [?x]] => change (is_bytes [x]) with (is_byte x && true)
  | H : is_byte ?x = true |- context [is_byte ?x] => rewrite H
  | |- context [is_byte (flag ?b)] => rewrite (flag_byte b)
  end.
