(* ===== verification/Command.v ===== *)
(** * Fixed-root commands ([initialization_key_pair/fixed_root_command.rs],
    [fixed_root_command_record.rs] and [fixed_root_command_authenticated.rs] of
    [crates/msgriver/src])

    The body codec with its reader over what remains of the wire, the envelope that
    authenticates a body after the head of the journal, and their composition. All three
    accept exactly what they write ([command_codec], [command_record_exact]). *)

From S2P Require Import Prelude Bytes CoreError Generation Bounded Ring Sha256 Codec Journal ImageWire.

#[local] Open Scope Z_scope.

(** ** [fixed_root_command.rs]: the data *)

Definition FORMAT : Z := 1.
Definition MAX_COMMAND_BODY_BYTES : Z := 16274.
Definition MAX_PROFILE_BODY_BYTES : Z := 15580.
Definition STATE_OWNER : bytes := as_bytes "msgriver/state-owner/v1".

Record ParentWitness : Type := mkParentWitness {
  witness_origin : bytes;
  witness_head : Z;
  witness_head_digest : bytes;
  witness_certificate_digest : bytes;
}.

Inductive FixedRootCommandOperation : Type :=
| ConfigurationActivate | StateKeyRotate | StateKeyRetire
| RecoveryKeyGenerate | RecoveryKeyImport | RecoveryKeyRetire
| BootstrapCreate | RestoreCreate | StateGenerationDelete
| UpgradePrepare | UpgradeMigrate | UpgradeActivate | UpgradeRollback.

Inductive FixedRootCommandActor : Type := Principal (name : bytes) | StateOwner.

Inductive FixedRootCommandRuntime : Type := Normal | Maintenance.

Record FixedRootCommandTag : Type := mkFixedRootCommandTag {
  tag_key : MacKeyRef;
  tag_value : bytes;
}.

Inductive FixedRootCommandRetention : Type :=
| Continuation
| Terminal (terminal_time expires_at : Z).

Record FixedRootCommandSafeResult : Type := mkFixedRootCommandSafeResult {
  result_codec : Z;
  result_version : Z;
  result_digest : bytes;
}.

Record FixedRootCommandTargetBinding : Type := mkFixedRootCommandTargetBinding {
  source : bytes;
  target : bytes;
  source_generation : option Z;
  target_generation : option Z;
  parent_witness : option ParentWitness;
}.

(** [tags : [FixedRootCommandTag; 4]]. *)
Record FixedRootCommand : Type := mkFixedRootCommand {
  operation : FixedRootCommandOperation;
  actor : FixedRootCommandActor;
  tags : list FixedRootCommandTag;
  runtime : FixedRootCommandRuntime;
  process_instance : bytes;
  original_deadline : option Z;
  phase : Z;
  retention : FixedRootCommandRetention;
  safe_result : option FixedRootCommandSafeResult;
  target_binding : option FixedRootCommandTargetBinding;
  profile_body : bytes;
}.

Record FixedRootCommandCodec : Type := mkFixedRootCommandCodec {
  expected_prebootstrap_origin : bytes;
}.

Inductive FixedRootCommandError : Type := InvalidFixedRootCommand.

Abbreviation command_result := (result FixedRootCommandError).

#[export] Instance FixedRootCommandOperation_eq_dec : EqDecision FixedRootCommandOperation.
Proof. solve_decision. Defined.
#[export] Instance FixedRootCommandRetention_eq_dec : EqDecision FixedRootCommandRetention.
Proof. solve_decision. Defined.

Definition operation_code (o : FixedRootCommandOperation) : Z :=
  match o with
  | ConfigurationActivate => 1
  | StateKeyRotate => 2
  | StateKeyRetire => 3
  | RecoveryKeyGenerate => 4
  | RecoveryKeyImport => 5
  | RecoveryKeyRetire => 6
  | BootstrapCreate => 7
  | RestoreCreate => 8
  | StateGenerationDelete => 9
  | UpgradePrepare => 10
  | UpgradeMigrate => 11
  | UpgradeActivate => 12
  | UpgradeRollback => 13
  end.

Definition operation_from_code (code : Z) : command_result FixedRootCommandOperation :=
  if code =? 1 then Ok ConfigurationActivate
  else if code =? 2 then Ok StateKeyRotate
  else if code =? 3 then Ok StateKeyRetire
  else if code =? 4 then Ok RecoveryKeyGenerate
  else if code =? 5 then Ok RecoveryKeyImport
  else if code =? 6 then Ok RecoveryKeyRetire
  else if code =? 7 then Ok BootstrapCreate
  else if code =? 8 then Ok RestoreCreate
  else if code =? 9 then Ok StateGenerationDelete
  else if code =? 10 then Ok UpgradePrepare
  else if code =? 11 then Ok UpgradeMigrate
  else if code =? 12 then Ok UpgradeActivate
  else if code =? 13 then Ok UpgradeRollback
  else Err InvalidFixedRootCommand.

Definition runtime_code (r : FixedRootCommandRuntime) : Z :=
  match r with Normal => 1 | Maintenance => 2 end.

Definition runtime_from_code (code : Z) : command_result FixedRootCommandRuntime :=
  if code =? 1 then Ok Normal
  else if code =? 2 then Ok Maintenance
  else Err InvalidFixedRootCommand.

(** ** Validation *)

Definition actor_bytes (a : FixedRootCommandActor) : command_result (Z * bytes) :=
  match a with
  | Principal value =>
    _ ← map_err (fun _ => InvalidFixedRootCommand) (check_identifier value);
    Ok (1, value)
  | StateOwner => Ok (2, STATE_OWNER)
  end.

Definition origin_serial_is_zero (origin : bytes) : bool := all_zero (drop 24 origin).

Definition validate_tag (codec : FixedRootCommandCodec) (tag : FixedRootCommandTag)
    (expected_purpose : MacPurpose) : command_result unit :=
  if negb (bool_decide (purpose (tag_key tag) = expected_purpose)) then Err InvalidFixedRootCommand
  else
    let key := key_id (tag_key tag) in
    if all_zero (drop 32 key) then Err InvalidFixedRootCommand
    else
      let origin_serial_is_zero := all_zero (slice key 24 32) in
      if origin_serial_is_zero
         && (negb (bool_decide (expected_purpose = PortableReservationV1))
             || negb (bool_decide (take 32 key = expected_prebootstrap_origin codec)))
      then Err InvalidFixedRootCommand else Ok tt.

(** The loop of [command.tags.iter().zip([..])]. *)
Fixpoint validate_tags (codec : FixedRootCommandCodec) (l : list FixedRootCommandTag)
    (purposes : list MacPurpose) : command_result unit :=
  match l, purposes with
  | tag :: l, purpose :: purposes =>
    _ ← validate_tag codec tag purpose; validate_tags codec l purposes
  | _, _ => Ok tt
  end.

Definition tag_purposes : list MacPurpose :=
  [CommandLookupV1; CommandSemanticFingerprintV1; CommandPhaseFingerprintV1;
   PortableReservationV1].

Definition validate_target_binding (codec : FixedRootCommandCodec)
    (operation : FixedRootCommandOperation) (retention : FixedRootCommandRetention)
    (binding : FixedRootCommandTargetBinding) : command_result unit :=
  if origin_serial_is_zero (target binding) then Err InvalidFixedRootCommand
  else
    _ ← match operation with
        | BootstrapCreate =>
          if bool_decide (source binding = expected_prebootstrap_origin codec) then Ok tt
          else Err InvalidFixedRootCommand
        | _ =>
          if origin_serial_is_zero (source binding) then Err InvalidFixedRootCommand else Ok tt
        end;
    if bool_decide (retention = Continuation) && negb (bool_decide (source binding = target binding))
    then Err InvalidFixedRootCommand else Ok tt.

Definition validate_command (codec : FixedRootCommandCodec) (command : FixedRootCommand)
    : command_result unit :=
  if negb (origin_serial_is_zero (expected_prebootstrap_origin codec))
  then Err InvalidFixedRootCommand
  else
    _ ← actor_bytes (actor command);
    if all_zero (process_instance command) || (phase command =? 0)
       || (MAX_PROFILE_BODY_BYTES <? len (profile_body command))
    then Err InvalidFixedRootCommand
    else
      _ ← validate_tags codec (tags command) tag_purposes;
      _ ← match retention command with
          | Continuation => Ok tt
          | Terminal terminal_time expires_at =>
            if (terminal_time <? expires_at) && is_some (safe_result command) then Ok tt
            else Err InvalidFixedRootCommand
          end;
      match target_binding command with
      | Some binding =>
        validate_target_binding codec (operation command) (retention command) binding
      | None => Ok tt
      end.

(** ** Encoding *)

Definition write_optional_i64 (value : option Z) : bytes :=
  match value with None => [0] | Some v => [1] ++ be_bytes 8 v end.

Definition write_optional_u64 (value : option Z) : bytes :=
  match value with None => [0] | Some v => [1] ++ be_bytes 8 v end.

Definition write_retention (r : FixedRootCommandRetention) : bytes :=
  match r with
  | Continuation => [1; 0; 0]
  | Terminal terminal_time expires_at =>
    [2; 1] ++ be_bytes 8 terminal_time ++ [1] ++ be_bytes 8 expires_at
  end.

Definition write_safe_result (r : option FixedRootCommandSafeResult) : bytes :=
  match r with
  | None => [0]
  | Some r => [1] ++ be_bytes 2 (result_codec r) ++ be_bytes 2 (result_version r)
              ++ result_digest r
  end.

Definition write_target_binding (b : option FixedRootCommandTargetBinding) : bytes :=
  match b with
  | None => [0]
  | Some b =>
    [1] ++ source b ++ target b ++ write_optional_u64 (source_generation b)
    ++ write_optional_u64 (target_generation b)
    ++ match parent_witness b with
       | None => [0]
       | Some w => [1] ++ witness_origin w ++ be_bytes 8 (witness_head w)
                   ++ witness_head_digest w ++ witness_certificate_digest w
       end
  end.

Definition write_tag (tag : FixedRootCommandTag) : bytes := key_id (tag_key tag) ++ tag_value tag.

Definition encode_fixed_root_command (codec : FixedRootCommandCodec) (command : FixedRootCommand)
    : command_result bytes :=
  _ ← validate_command codec command;
  actor ← actor_bytes (actor command);
  profile_body_length ← ok_or (checked is_u16 (len (profile_body command))) InvalidFixedRootCommand;
  let wire :=
    [FORMAT; operation_code (operation command); actor.1; wrap 8 (len actor.2)]
    ++ actor.2 ++ concat (map write_tag (tags command))
    ++ [runtime_code (runtime command)] ++ process_instance command
    ++ write_optional_i64 (original_deadline command) ++ be_bytes 2 (phase command)
    ++ write_retention (retention command) ++ write_safe_result (safe_result command)
    ++ write_target_binding (target_binding command)
    ++ be_bytes 2 profile_body_length ++ profile_body command in
  if MAX_COMMAND_BODY_BYTES <? len wire then Err InvalidFixedRootCommand else Ok wire.

(** ** [struct Reader] over what remains *)

Definition Reader (A : Type) : Type := bytes -> command_result (A * bytes).

#[export] Instance reader_ret : MRet Reader := fun A a remaining => Ok (a, remaining).
#[export] Instance reader_bind : MBind Reader := fun A B f m remaining =>
  match m remaining with
  | Ok (a, remaining) => f a remaining
  | Err e => Err e
  end.

(** [r?] in a function that has the reader. *)
Definition yields {A : Type} (r : command_result A) : Reader A := fun remaining =>
  match r with Ok a => Ok (a, remaining) | Err e => Err e end.
Definition refuse {A : Type} : Reader A := yields (Err InvalidFixedRootCommand).

Definition next_bytes (n : nat) : Reader bytes := fun remaining =>
  if (length remaining <? n)%nat then Err InvalidFixedRootCommand
  else Ok (take n remaining, drop n remaining).

Definition next_byte : Reader Z := l ← next_bytes 1; mret (at_ l 0).
Definition next_array (n : nat) : Reader bytes :=
  l ← next_bytes n; yields (try_array n l InvalidFixedRootCommand).
Definition next_u16 : Reader Z := l ← next_array 2; mret (of_be_bytes l).
Definition next_u64 : Reader Z := l ← next_array 8; mret (of_be_bytes l).
Definition next_i64 : Reader Z := l ← next_array 8; mret (as_i64 (of_be_bytes l)).

Definition optional_i64 : Reader (option Z) :=
  present ← next_byte;
  if present =? 0 then mret None
  else if present =? 1 then v ← next_i64; mret (Some v)
  else refuse.

Definition optional_u64 : Reader (option Z) :=
  present ← next_byte;
  if present =? 0 then mret None
  else if present =? 1 then v ← next_u64; mret (Some v)
  else refuse.

(** ** Decoding *)

Definition read_actor : Reader FixedRootCommandActor :=
  kind ← next_byte;
  length ← next_byte;
  if length =? 0 then refuse
  else
    value ← next_bytes (Z.to_nat length);
    if kind =? 1 then
      _ ← yields (map_err (fun _ => InvalidFixedRootCommand) (check_identifier value));
      mret (Principal value)
    else if (kind =? 2) && bool_decide (value = STATE_OWNER) then mret StateOwner
    else refuse.

Definition read_tag (p : MacPurpose) : Reader FixedRootCommandTag :=
  key ← next_array 40;
  tag ← next_array 32;
  mret (mkFixedRootCommandTag (mkMacKeyRef p key) tag).

Definition read_retention : Reader FixedRootCommandRetention :=
  tag ← next_byte;
  terminal_time ← optional_i64;
  expiry ← optional_i64;
  match terminal_time, expiry with
  | None, None => if tag =? 1 then mret Continuation else refuse
  | Some terminal_time, Some expires_at =>
    if tag =? 2 then mret (Terminal terminal_time expires_at) else refuse
  | _, _ => refuse
  end.

Definition read_safe_result : Reader (option FixedRootCommandSafeResult) :=
  present ← next_byte;
  if present =? 0 then mret None
  else if present =? 1 then
    codec ← next_u16; version ← next_u16; digest ← next_array 32;
    mret (Some (mkFixedRootCommandSafeResult codec version digest))
  else refuse.

Definition read_parent_witness : Reader (option ParentWitness) :=
  present ← next_byte;
  if present =? 0 then mret None
  else if present =? 1 then
    origin ← next_array 32; head ← next_u64;
    head_digest ← next_array 32; certificate_digest ← next_array 32;
    mret (Some (mkParentWitness origin head head_digest certificate_digest))
  else refuse.

Definition read_target_binding : Reader (option FixedRootCommandTargetBinding) :=
  present ← next_byte;
  if present =? 0 then mret None
  else if present =? 1 then
    source ← next_array 32;
    target ← next_array 32;
    source_generation ← optional_u64;
    target_generation ← optional_u64;
    parent_witness ← read_parent_witness;
    mret (Some (mkFixedRootCommandTargetBinding source target source_generation target_generation
                  parent_witness))
  else refuse.

(** The fields of [decode_fixed_root_command], up to the last. *)
Definition read_command : Reader FixedRootCommand :=
  version ← next_byte;
  if negb (version =? FORMAT) then refuse
  else
    code ← next_byte;
    operation ← yields (operation_from_code code);
    actor ← read_actor;
    lookup ← read_tag CommandLookupV1;
    semantic ← read_tag CommandSemanticFingerprintV1;
    phased ← read_tag CommandPhaseFingerprintV1;
    reservation ← read_tag PortableReservationV1;
    runtime_byte ← next_byte;
    runtime ← yields (runtime_from_code runtime_byte);
    process_instance ← next_array 16;
    original_deadline ← optional_i64;
    phase ← next_u16;
    retention ← read_retention;
    safe_result ← read_safe_result;
    target_binding ← read_target_binding;
    profile_length ← next_u16;
    if MAX_PROFILE_BODY_BYTES <? profile_length then refuse
    else
      profile_body ← next_bytes (Z.to_nat profile_length);
      mret (mkFixedRootCommand operation actor [lookup; semantic; phased; reservation] runtime
              process_instance original_deadline phase retention safe_result target_binding
              profile_body).

Definition decode_fixed_root_command (codec : FixedRootCommandCodec) (wire : bytes)
    : command_result FixedRootCommand :=
  if MAX_COMMAND_BODY_BYTES <? len wire then Err InvalidFixedRootCommand
  else
    read ← read_command wire;
    let '(command, remaining) := read in
    if negb (bool_decide (remaining = [])) then Err InvalidFixedRootCommand
    else
      _ ← validate_command codec command;
      Ok command.

(** ** [fixed_root_command_record.rs] *)

Definition FIXED_ROOT_COMMAND_KIND : Z := 32.

Record FixedRootCommandRecord : Type := mkFixedRootCommandRecord {
  command_sequence : Z;
  command_digest : bytes;
  command_body : bytes;
}.

Inductive FixedRootCommandRecordError : Type := InvalidRecord | SequenceExhausted.

Abbreviation command_record_result := (result FixedRootCommandRecordError).

(** [prior.sequence.checked_add(1).ok_or(SequenceExhausted)]. *)
Definition following (prior : JournalHead) : command_record_result Z :=
  ok_or (checked_add_u64 (sequence prior) 1) SequenceExhausted.

Definition fixed_root_command_record_digest (frame_prefix : bytes) : bytes :=
  sha256 (RECORD_LABEL ++ drop 4 frame_prefix).

(** ** [fixed_root_command_authenticated.rs] *)

Record FixedRootCommandAuthenticatedRecord : Type := mkFixedRootCommandAuthenticatedRecord {
  authenticated_sequence : Z;
  authenticated_digest : bytes;
  authenticated_command : FixedRootCommand;
}.

Inductive FixedRootCommandAuthenticatedError : Type :=
| InvalidCommand | CommandSequenceExhausted.

Abbreviation authenticated_result := (result FixedRootCommandAuthenticatedError).

Definition map_record_error (e : FixedRootCommandRecordError)
    : FixedRootCommandAuthenticatedError :=
  match e with InvalidRecord => InvalidCommand | SequenceExhausted => CommandSequenceExhausted end.

Section with_hmac.
Context `{HmacSha256}.

Definition fixed_root_command_record_tag (self : JournalIntegrityKey) (frame_without_tag : bytes)
    : bytes :=
  hmac (key_bytes self) (AUTH_LABEL ++ frame_without_tag).

Definition verify_fixed_root_command_record_tag (self : JournalIntegrityKey)
    (frame_without_tag tag : bytes) : command_record_result unit :=
  if bool_decide (hmac (key_bytes self) (AUTH_LABEL ++ frame_without_tag) = tag)
  then Ok tt else Err InvalidRecord.

Definition encode_fixed_root_command_record (self : JournalIntegrityKey) (body : bytes)
    (prior : JournalHead) : command_record_result bytes :=
  if MAX_BODY_BYTES <? len body then Err InvalidRecord
  else
    sequence ← following prior;
    length ← ok_or (checked is_u32 (MIN_FRAME_BYTES + len body)) InvalidRecord;
    let frame := be_bytes 4 length ++ be_bytes 2 FIXED_ROOT_COMMAND_KIND ++ be_bytes 8 sequence
                 ++ digest prior ++ body in
    let frame := frame ++ fixed_root_command_record_digest frame in
    Ok (frame ++ fixed_root_command_record_tag self frame).

Definition decode_fixed_root_command_record (self : JournalIntegrityKey) (frame : bytes)
    (prior : JournalHead) : command_record_result FixedRootCommandRecord :=
  if len frame <? 4 then Err InvalidRecord
  else
    let length := of_be_bytes (slice frame 0 4) in
    if negb (within MIN_FRAME_BYTES MAX_FRAME_BYTES length) || negb (len frame =? length)
    then Err InvalidRecord
    else
      let tag_start := Z.to_nat (length - 32) in
      _ ← verify_fixed_root_command_record_tag self (take tag_start frame) (drop tag_start frame);
      let digest_start := Z.to_nat (length - 64) in
      let expected_digest := fixed_root_command_record_digest (take digest_start frame) in
      if negb (bool_decide (slice frame digest_start tag_start = expected_digest))
      then Err InvalidRecord
      else if negb (of_be_bytes (slice frame 4 6) =? FIXED_ROOT_COMMAND_KIND)
      then Err InvalidRecord
      else
        let sequence := of_be_bytes (slice frame 6 14) in
        expected_sequence ← following prior;
        if negb (sequence =? expected_sequence)
           || negb (bool_decide (slice frame 14 46 = digest prior))
        then Err InvalidRecord
        else Ok (mkFixedRootCommandRecord sequence expected_digest (slice frame 46 digest_start)).

Definition encode_fixed_root_command_authenticated (self : JournalIntegrityKey)
    (body_codec : FixedRootCommandCodec) (command : FixedRootCommand) (prior : JournalHead)
    : authenticated_result bytes :=
  body ← map_err (fun _ => InvalidCommand) (encode_fixed_root_command body_codec command);
  map_err map_record_error (encode_fixed_root_command_record self body prior).

Definition decode_fixed_root_command_authenticated (self : JournalIntegrityKey)
    (body_codec : FixedRootCommandCodec) (frame : bytes) (prior : JournalHead)
    : authenticated_result FixedRootCommandAuthenticatedRecord :=
  record ← map_err map_record_error (decode_fixed_root_command_record self frame prior);
  command ← map_err (fun _ => InvalidCommand)
              (decode_fixed_root_command body_codec (command_body record));
  Ok (mkFixedRootCommandAuthenticatedRecord (command_sequence record) (command_digest record)
        command).
End with_hmac.

(** ** What a reader takes *)

(** [m] takes exactly the chunks related to its values off the front. *)
Definition takes {A : Type} (m : Reader A) (spec : bytes -> A -> Prop) : Prop :=
  forall l a t, is_bytes l = true ->
    m l = Ok (a, t) <-> exists c, l = c ++ t /\ spec c a.

Lemma takes_iff {A : Type} (m : Reader A) S T :
  (forall c a, S c a <-> T c a) -> takes m S -> takes m T.
Proof. intros HST Hm l a t Hl. rewrite (Hm l a t Hl). by setoid_rewrite HST. Qed.

Lemma takes_ret {A : Type} (a : A) : takes (mret a) (fun c b => c = [] /\ b = a).
Proof.
  intros l b t _. unfold mret, reader_ret. split; [intros [= <- <-]; by exists []|].
  intros (c & -> & -> & ->). done.
Qed.

Lemma takes_yields {A : Type} (r : command_result A) :
  takes (yields r) (fun c a => c = [] /\ r = Ok a).
Proof.
  intros l a t _. unfold yields. destruct r as [b|e].
  - split; [intros [= <- <-]; by exists []|]. intros (c & -> & -> & [= ->]). done.
  - split; [done|]. by intros (c & _ & _ & ?).
Qed.

Lemma takes_refuse {A : Type} : takes (A := A) refuse (fun _ _ => False).
Proof. intros l a t _. split; [done|]. by intros (c & _ & ?). Qed.

Lemma takes_bind {A B : Type} (m : Reader A) (f : A -> Reader B) S T :
  takes m S -> (forall a, takes (f a) (T a)) ->
  takes (m ≫= f) (fun c b => exists c1 c2 a, c = c1 ++ c2 /\ S c1 a /\ T a c2 b).
Proof.
  intros Hm Hf l b t Hl. unfold mbind, reader_bind. split.
  - destruct (m l) as [[a r]|e] eqn:Hr; [|done].
    apply (Hm l a r Hl) in Hr as (c1 & -> & HS). rewrite is_bytes_app in Hl.
    apply andb_true_iff in Hl as [_ Hl]. intros (c2 & -> & HT)%(Hf a); [|done].
    exists (c1 ++ c2). rewrite app_assoc. eauto 10.
  - intros (c & -> & c1 & c2 & a & -> & HS & HT). rewrite <- app_assoc in *.
    assert (m (c1 ++ c2 ++ t) = Ok (a, c2 ++ t)) as -> by (apply Hm; eauto).
    rewrite is_bytes_app in Hl. apply andb_true_iff in Hl as [_ Hl]. apply Hf; eauto.
Qed.

Lemma takes_guard {A : Type} (b : bool) (m : Reader A) T :
  takes m T -> takes (if b then refuse else m) (fun c a => b = false /\ T c a).
Proof.
  destruct b; intros Hm; [eapply takes_iff; [|apply takes_refuse]; naive_solver|].
  eapply takes_iff; [|apply Hm]. naive_solver.
Qed.

Lemma takes_if {A : Type} (b : bool) (m n : Reader A) S T :
  takes m S -> takes n T -> takes (if b then m else n) (fun c a => if b then S c a else T c a).
Proof. by destruct b. Qed.

Lemma takes_bytes n :
  takes (next_bytes n) (fun c l => c = l /\ length l = n /\ is_bytes l = true).
Proof.
  intros l a t Hl. unfold next_bytes. destruct (Nat.ltb_spec (length l) n) as [Hn|Hn].
  - split; [done|]. intros (c & -> & -> & <- & _). rewrite length_app in Hn. lia.
  - split.
    + intros [= <- <-]. exists (take n l). rewrite take_drop, length_take, is_bytes_take by done.
      split_and!; done || lia.
    + intros (c & -> & -> & <- & _). by rewrite take_app_length, drop_app_length.
Qed.

(** A step that converts what the one before it has taken. *)
Lemma takes_last {A B : Type} (m : Reader A) (g : A -> B) S :
  takes m S -> takes (a ← m; mret (g a)) (fun c b => exists a, S c a /\ b = g a).
Proof.
  intros Hm. eapply takes_iff; [|apply takes_bind; [apply Hm|intros a; apply takes_ret]].
  intros c b. cbn. split.
  - intros (c1 & c2 & a & -> & HS & -> & ->). rewrite app_nil_r. eauto.
  - intros (a & HS & ->). exists c, [], a. by rewrite app_nil_r.
Qed.

Lemma takes_array n : takes (next_array n) (fun c l => c = l /\ array n l = true).
Proof.
  eapply takes_iff; [|apply takes_bind; [apply takes_bytes|intros l; apply takes_yields]].
  intros c l. cbn. setoid_rewrite try_array_Ok. rewrite array_spec. split.
  - intros (c1 & c2 & a & -> & (-> & ? & ?) & -> & ? & ->). by rewrite app_nil_r.
  - intros (-> & ? & ?). exists l, [], l. by rewrite app_nil_r.
Qed.

(** A fixed-width integer: [n] bytes converted with [f]. *)
Lemma takes_int n (f : bytes -> Z) (ok : Z -> bool) :
  (forall l, length l = n -> is_bytes l = true -> ok (f l) = true /\ be_bytes n (f l) = l) ->
  (forall z, ok z = true -> f (be_bytes n z) = z) ->
  takes (l ← next_array n; mret (f l)) (fun c z => c = be_bytes n z /\ ok z = true).
Proof.
  intros Hl Hz. eapply takes_iff; [|apply takes_last, takes_array]. intros c z. cbn.
  setoid_rewrite array_spec. split.
  - intros (l & (-> & Hn & Hb) & ->). by destruct (Hl l Hn Hb) as [? ->].
  - intros [-> Ho]. exists (be_bytes n z). by rewrite length_be_bytes, is_bytes_be_bytes, Hz.
Qed.

Lemma takes_u16 : takes next_u16 (fun c z => c = be_bytes 2 z /\ is_u16 z = true).
Proof. apply takes_int; [apply u16_of_be|by apply of_be_u16]. Qed.

Lemma takes_u64 : takes next_u64 (fun c z => c = be_bytes 8 z /\ is_u64 z = true).
Proof. apply takes_int; [apply u64_of_be|by apply of_be_u64]. Qed.

Lemma takes_i64 : takes next_i64 (fun c z => c = be_bytes 8 z /\ is_i64 z = true).
Proof. apply (takes_int 8 (fun l => as_i64 (of_be_bytes l))); [apply i64_of_be|by apply of_be_i64]. Qed.

Lemma takes_byte : takes next_byte (fun c z => c = [z] /\ is_byte z = true).
Proof.
  eapply takes_iff; [|apply takes_last, takes_bytes]. intros c z. cbn. split.
  - intros (l & (-> & Hn & Hb) & ->). destruct l as [|x [|]]; try done. unfold at_. cbn in *.
    by rewrite andb_true_r in Hb.
  - intros [-> Ho]. exists [z]. cbn. by rewrite Ho.
Qed.

Create HintDb taking.
#[export] Hint Resolve takes_bytes takes_array takes_byte takes_u16 takes_u64 takes_i64 : taking.

Ltac take_field :=
  lazymatch goal with
  | |- takes (yields _) _ => apply takes_yields
  | |- takes (mret _) _ => apply takes_ret
  | |- takes (next_bytes _) _ => apply takes_bytes
  | |- takes refuse _ => apply takes_refuse
  | |- _ => solve [eauto 2 with taking]
  end.

Ltac taking :=
  repeat first
    [ take_field
    | apply takes_last; take_field
    | apply takes_bind; [take_field|intros ?]
    | apply takes_guard
    | apply takes_if ].

(** [takes m spec] from the fields of [m]. *)
Ltac takes_fields :=
  eapply takes_iff; cycle 1; [taking|cbv beta; intros; split; intros; read_inv].

(** ** What is well typed, and its wire *)

Definition typed_tag (t : FixedRootCommandTag) : bool :=
  array 40 (key_id (tag_key t)) && array 32 (tag_value t).

Definition typed_actor (a : FixedRootCommandActor) : bool :=
  match a with Principal l => is_bytes l | StateOwner => true end.

Definition typed_retention (r : FixedRootCommandRetention) : bool :=
  match r with Continuation => true | Terminal t e => is_i64 t && is_i64 e end.

Definition typed_result (r : FixedRootCommandSafeResult) : bool :=
  is_u16 (result_codec r) && is_u16 (result_version r) && array 32 (result_digest r).

Definition typed_witness (w : ParentWitness) : bool :=
  array 32 (witness_origin w) && is_u64 (witness_head w) && array 32 (witness_head_digest w)
  && array 32 (witness_certificate_digest w).

Definition typed_binding (b : FixedRootCommandTargetBinding) : bool :=
  array 32 (source b) && array 32 (target b) && on_some is_u64 (source_generation b)
  && on_some is_u64 (target_generation b) && on_some typed_witness (parent_witness b).

Definition typed_command (c : FixedRootCommand) : bool :=
  typed_actor (actor c) && (length (tags c) =? 4)%nat && forallb typed_tag (tags c)
  && array 16 (process_instance c) && on_some is_i64 (original_deadline c) && is_u16 (phase c)
  && typed_retention (retention c) && on_some typed_result (safe_result c)
  && on_some typed_binding (target_binding c) && is_bytes (profile_body c).

Definition actor_parts (a : FixedRootCommandActor) : Z * bytes :=
  match a with Principal l => (1, l) | StateOwner => (2, STATE_OWNER) end.

Definition actor_wire (a : FixedRootCommandActor) : bytes :=
  [(actor_parts a).1] ++ [len (actor_parts a).2] ++ (actor_parts a).2.

(** ** The fields *)

Lemma operation_codes c o : operation_from_code c = Ok o <-> c = operation_code o.
Proof. enum_codes. Qed.

Lemma runtime_codes c r : runtime_from_code c = Ok r <-> c = runtime_code r.
Proof. enum_codes. Qed.

Lemma takes_optional_i64 :
  takes optional_i64 (fun c v => c = write_optional_i64 v /\ on_some is_i64 v = true).
Proof.
  unfold optional_i64. takes_fields.
  - repeat case_match; read_inv; b2p; subst; done.
  - destruct a as [v|]; cbn [write_optional_i64 on_some] in *; [|by exists [0], [], 0].
    read_step 1. cbn [Z.eqb Pos.eqb]. by exists v.
Qed.

Lemma takes_optional_u64 :
  takes optional_u64 (fun c v => c = write_optional_u64 v /\ on_some is_u64 v = true).
Proof.
  unfold optional_u64. takes_fields.
  - repeat case_match; read_inv; b2p; subst; done.
  - destruct a as [v|]; cbn [write_optional_u64 on_some] in *; [|by exists [0], [], 0].
    read_step 1. cbn [Z.eqb Pos.eqb]. by exists v.
Qed.
#[export] Hint Resolve takes_optional_i64 takes_optional_u64 : taking.

Lemma takes_tag p :
  takes (read_tag p) (fun c t => c = write_tag t /\ typed_tag t = true /\ purpose (tag_key t) = p).
Proof.
  unfold read_tag. takes_fields; unfold write_tag, typed_tag in *; cbn in *.
  - by rewrite andb_true_iff.
  - destruct a as [[q key] tag]. cbn in *. subst. read_inv. read_build.
Qed.

Lemma takes_actor :
  takes read_actor (fun c a =>
    c = actor_wire a /\ typed_actor a = true /\ exists parts, actor_bytes a = Ok parts).
Proof.
  unfold read_actor. takes_fields.
  - repeat case_match; read_inv; b2p; subst; try done; taken; rewrite app_nil_r;
      (split; [done|]; split; [done|]); [|by eexists].
    eexists. cbn. match goal with H : map_err _ _ = Ok _ |- _ => by rewrite H end.
  - assert (1 <= len (actor_parts a).2 <= 128) as Hl.
    { destruct a as [l|]; [|done]. cbn in *. apply (identifier_length l).
      match goal with H : _ ≫= _ = Ok _ |- _ => apply bind_Ok in H as ([] & H%map_err_Ok & _) end. done. }
    assert (is_byte (len (actor_parts a).2) = true) by (apply within_spec; lia).
    pose proof (take_length (actor_parts a).2).
    destruct a as [l|]; unfold actor_wire; cbn [actor_parts fst snd] in *.
    + read_step 1. cbn [Z.eqb Pos.eqb]. read_step (len l).
      split; [apply Z.eqb_neq; lia|]. eexists _, [], l. rewrite app_nil_r. split; [done|]. split; [done|]. exists tt.
      unfold actor_bytes in *.
      match goal with H : _ ≫= _ = Ok _ |- _ => apply bind_Ok in H as ([] & -> & _) end. done.
    + read_step 2. cbn [Z.eqb Pos.eqb]. read_step (len STATE_OWNER).
      split; [done|]. eexists _, [], STATE_OWNER. by rewrite app_nil_r.
Qed.

Lemma takes_retained tag t e :
  takes (match t, e with
         | None, None => if tag =? 1 then mret Continuation else refuse
         | Some t, Some e => if tag =? 2 then mret (Terminal t e) else refuse
         | _, _ => refuse
         end)
    (fun c r => c = [] /\ match t, e with
                          | None, None => tag = 1 /\ r = Continuation
                          | Some t, Some e => tag = 2 /\ r = Terminal t e
                          | _, _ => False
                          end).
Proof.
  destruct t as [t|], e as [e|]; try (eapply takes_iff; [|apply takes_refuse]; by naive_solver);
    (eapply takes_iff; [|apply takes_if; [apply takes_ret|apply takes_refuse]]); cbn beta;
    intros c r; [destruct (Z.eqb_spec tag 2)|destruct (Z.eqb_spec tag 1)]; naive_solver.
Qed.

Lemma takes_retention :
  takes read_retention (fun c r => c = write_retention r /\ typed_retention r = true).
Proof.
  unfold read_retention. eapply takes_iff; cycle 1.
  { apply takes_bind; [apply takes_byte|intros tag].
    apply takes_bind; [apply takes_optional_i64|intros t].
    apply takes_bind; [apply takes_optional_i64|intros e; apply takes_retained]. }
  cbv beta. intros c a. split; intros; read_inv.
  - repeat case_match; read_inv; try done; subst.
    cbn [write_optional_i64 write_retention typed_retention on_some] in *.
    rewrite app_nil_r. by rewrite andb_true_iff.
  - destruct a as [|t e]; cbn [write_retention typed_retention] in *; read_inv.
    + exists [1], [0; 0], 1. split_and!; try done. exists [0], [0], None. split_and!; try done.
      by exists [0], [], None.
    + change ([2; 1] ++ ?x) with ([2] ++ [1] ++ x). read_step 2.
      exists ([1] ++ be_bytes 8 t), ([1] ++ be_bytes 8 e), (Some t).
      split_and!; try done.
      exists ([1] ++ be_bytes 8 e), [], (Some e). by rewrite app_nil_r.
Qed.

Lemma takes_safe_result :
  takes read_safe_result (fun c r => c = write_safe_result r /\ on_some typed_result r = true).
Proof.
  unfold read_safe_result. takes_fields.
  - repeat case_match; read_inv; b2p; subst; try done. cbn. unfold typed_result. cbn.
    by rewrite !andb_true_iff.
  - destruct a as [[c v d]|]; unfold typed_result in *;
      cbn [write_safe_result on_some result_codec result_version result_digest] in *.
    + read_inv. read_step 1. cbn [Z.eqb Pos.eqb]. read_build.
    + by exists [0], [], 0.
Qed.

Lemma takes_witness :
  takes read_parent_witness (fun c w =>
    c = match w with
        | None => [0]
        | Some w => [1] ++ witness_origin w ++ be_bytes 8 (witness_head w)
                    ++ witness_head_digest w ++ witness_certificate_digest w
        end /\ on_some typed_witness w = true).
Proof.
  unfold read_parent_witness. takes_fields.
  - repeat case_match; read_inv; b2p; subst; try done; simplify_eq; cbn.
    unfold typed_witness. cbn.
    rewrite !andb_true_iff. by split_and!.
  - destruct a as [[o h hd cd]|]; unfold typed_witness in *;
      cbn [on_some witness_origin witness_head witness_head_digest witness_certificate_digest] in *.
    + read_inv. read_step 1. cbn [Z.eqb Pos.eqb]. read_build.
    + by exists [0], [], 0.
Qed.
#[export] Hint Resolve takes_tag takes_actor takes_retention takes_safe_result takes_witness : taking.

Lemma takes_binding :
  takes read_target_binding (fun c b =>
    c = write_target_binding b /\ on_some typed_binding b = true).
Proof.
  unfold read_target_binding. takes_fields.
  - repeat case_match; read_inv; b2p; subst; try done. cbn. unfold typed_binding. cbn.
    rewrite !andb_true_iff. by split_and!.
  - destruct a as [[so ta sg tg pw]|]; unfold typed_binding in *;
      cbn [write_target_binding on_some source target source_generation target_generation
           parent_witness] in *.
    + read_inv. read_step 1. cbn [Z.eqb Pos.eqb]. read_step so. read_step ta. read_step sg.
      read_step tg. by eexists.
    + by exists [0], [], 0.
Qed.
#[export] Hint Resolve takes_binding : taking.

(** ** The whole body *)

Definition purposes_of (l : list FixedRootCommandTag) : list MacPurpose :=
  map (fun t => purpose (tag_key t)) l.

Definition command_wire (c : FixedRootCommand) : bytes :=
  [FORMAT] ++ [operation_code (operation c)] ++ actor_wire (actor c)
  ++ concat (map write_tag (tags c)) ++ [runtime_code (runtime c)] ++ process_instance c
  ++ write_optional_i64 (original_deadline c) ++ be_bytes 2 (phase c)
  ++ write_retention (retention c) ++ write_safe_result (safe_result c)
  ++ write_target_binding (target_binding c)
  ++ be_bytes 2 (len (profile_body c)) ++ profile_body c.

Lemma takes_command :
  takes read_command (fun w c =>
    w = command_wire c /\ typed_command c = true /\ purposes_of (tags c) = tag_purposes
    /\ (exists parts, actor_bytes (actor c) = Ok parts)
    /\ len (profile_body c) <= MAX_PROFILE_BODY_BYTES).
Proof.
  unfold read_command. takes_fields.
  - b2p. taken. unfold command_wire, typed_command, purposes_of.
    repeat match goal with H : operation_from_code _ = Ok _ |- _ => apply operation_codes in H
      | H : runtime_from_code _ = Ok _ |- _ => apply runtime_codes in H end. subst.
    cbn [operation actor tags runtime process_instance original_deadline phase retention
      safe_result target_binding profile_body map concat length forallb Nat.eqb app].
    rewrite app_nil_r, <- ?app_assoc. cbn [app]. rewrite <- ?app_assoc, !andb_true_iff.
    split_and!; try done; [unfold tag_purposes; congruence|by eexists].
  - unfold command_wire, typed_command in *. destruct a as [o ac ts ru pi dl ph re sr tb pb].
    cbn [operation actor tags runtime process_instance original_deadline phase retention
      safe_result target_binding profile_body] in *. read_inv.
    destruct ts as [|t1 [|t2 [|t3 [|t4 [|]]]]]; try done. unfold purposes_of, tag_purposes in *.
    cbn [map forallb concat] in *. read_inv. rewrite app_nil_r, <- !app_assoc. simplify_eq.
    assert (is_u16 (len pb) = true) by
      (apply within_spec; unfold MAX_PROFILE_BODY_BYTES, u16_max, len in *; lia).
    read_step FORMAT. split; [done|]. read_step (operation_code o); [by destruct o|].
    skip_step o; [by apply operation_codes|].
    read_step ac; [split_and!; [done..|by eexists]|]. read_step t1. read_step t2. read_step t3. read_step t4.
    read_step (runtime_code ru); [by destruct ru|]. skip_step ru; [by apply runtime_codes|].
    read_step pi. read_step dl. read_step ph. read_step re. read_step sr. read_step tb.
    read_step (len pb). split; [by apply Z.ltb_ge|]. exists pb.
    by pose proof (take_length pb).
Qed.

Lemma actor_bytes_Ok a parts :
  actor_bytes a = Ok parts -> parts = actor_parts a /\ 1 <= len (actor_parts a).2 <= 128.
Proof.
  destruct a as [l|]; cbn; [|by intros [= <-]]. intros ([] & Hi%map_err_Ok & [= <-])%bind_Ok.
  split; [done|]. by apply identifier_length.
Qed.

Lemma validate_tag_purpose codec t p u : validate_tag codec t p = Ok u -> purpose (tag_key t) = p.
Proof. unfold validate_tag. by case_bool_decide. Qed.

Lemma validate_fixed_root_Ok codec c u :
  validate_command codec c = Ok u ->
  (exists parts, actor_bytes (actor c) = Ok parts)
  /\ len (profile_body c) <= MAX_PROFILE_BODY_BYTES
  /\ (length (tags c) = 4%nat -> purposes_of (tags c) = tag_purposes).
Proof.
  unfold validate_command. destruct (negb _); [done|]. intros (parts & Ha & Hx)%bind_Ok.
  destruct (_ || _) eqn:Hb; [done|]. b2p. destruct Hb as [_ Hp].
  apply bind_Ok in Hx as ([] & Ht & _). split; [by exists parts|]. split; [lia|]. intros Hl.
  destruct (tags c) as [|t1 [|t2 [|t3 [|t4 [|]]]]]; try done.
  cbn in Ht. apply bind_Ok in Ht as ([] & H1%validate_tag_purpose & Ht).
  apply bind_Ok in Ht as ([] & H2%validate_tag_purpose & Ht).
  apply bind_Ok in Ht as ([] & H3%validate_tag_purpose & Ht).
  apply bind_Ok in Ht as ([] & H4%validate_tag_purpose & _).
  unfold purposes_of, tag_purposes. cbn. congruence.
Qed.

Lemma encode_valid codec c :
  validate_command codec c = Ok tt ->
  encode_fixed_root_command codec c
  = if MAX_COMMAND_BODY_BYTES <? len (command_wire c) then Err InvalidFixedRootCommand
    else Ok (command_wire c).
Proof.
  intros Hv. destruct (validate_fixed_root_Ok _ _ _ Hv) as ((parts & Ha) & Hp & _).
  unfold encode_fixed_root_command. rewrite Hv, Ok_bind, Ha, Ok_bind.
  apply actor_bytes_Ok in Ha as [-> Hl].
  replace (checked is_u16 (len (profile_body c))) with (Some (len (profile_body c))).
  2: { symmetry. apply checked_Some. split; [done|]. apply within_spec.
       unfold MAX_PROFILE_BODY_BYTES, u16_max, len in *. lia. }
  cbn [ok_or]. rewrite Ok_bind.
  assert (wrap 8 (len (actor_parts (actor c)).2) = len (actor_parts (actor c)).2) as ->
    by (apply Z.mod_small; lia).
  reflexivity.
Qed.

Lemma encode_command_Ok codec c wire :
  encode_fixed_root_command codec c = Ok wire <->
  validate_command codec c = Ok tt /\ wire = command_wire c /\ len wire <= MAX_COMMAND_BODY_BYTES.
Proof.
  destruct (validate_command codec c) as [[]|e] eqn:Hv.
  - rewrite (encode_valid _ _ Hv). destruct (Z.ltb_spec MAX_COMMAND_BODY_BYTES (len (command_wire c))).
    + split; [done|]. intros (_ & -> & ?). lia.
    + split; [by intros [= <-]|]. by intros (_ & -> & _).
  - unfold encode_fixed_root_command. rewrite Hv. split; [done|]. by intros [? _].
Qed.

Lemma fixed_root_is_bytes c :
  typed_command c = true -> 0 <= len (actor_parts (actor c)).2 <= 255 ->
  is_bytes (command_wire c) = true.
Proof.
  intros Ht Hl. assert (is_byte (len (actor_parts (actor c)).2) = true) as Hb by (by apply within_spec).
  unfold typed_command in Ht. read_inv. unfold command_wire, actor_wire.
  assert (is_bytes (actor_parts (actor c)).2 = true) by by destruct (actor c).
  assert (is_bytes (concat (map write_tag (tags c))) = true).
  { match goal with H : forallb typed_tag _ = true |- _ => revert H end. clear.
    induction (tags c) as [|t l IH]; [done|]. cbn [map concat forallb]. intros [Ht Hl]%andb_true_iff.
    unfold typed_tag in Ht. read_inv. unfold write_tag. specialize (IH Hl).
    by wire_is_bytes. }
  assert (is_bytes (write_optional_i64 (original_deadline c)) = true)
    by (destruct (original_deadline c); cbn [write_optional_i64]; by wire_is_bytes).
  assert (is_bytes (write_retention (retention c)) = true)
    by (destruct (retention c); cbn [write_retention]; [done|];
        change ([2; 1] ++ ?x) with ([2] ++ [1] ++ x); by wire_is_bytes).
  assert (is_bytes (write_safe_result (safe_result c)) = true).
  { destruct (safe_result c) as [r|]; [|done]. cbn [on_some] in *. unfold typed_result in *. read_inv.
    cbn [write_safe_result]. by wire_is_bytes. }
  assert (is_bytes (write_target_binding (target_binding c)) = true).
  { destruct (target_binding c) as [b|]; [|done]. cbn [on_some] in *. unfold typed_binding in *. read_inv.
    cbn [write_target_binding].
    assert (forall v, is_bytes (write_optional_u64 v) = true) as Hu
      by (intros []; cbn [write_optional_u64]; by wire_is_bytes).
    destruct (parent_witness b) as [w|]; cbn [on_some] in *; unfold typed_witness in *; read_inv;
      wire_is_bytes; by rewrite !Hu. }
  wire_is_bytes. by destruct (operation c), (actor c), (runtime c).
Qed.

#[export] Instance command_codec codec :
  WireCodec (encode_fixed_root_command codec) (decode_fixed_root_command codec) typed_command.
Proof.
  split.
  - intros wire c Hw. rewrite encode_command_Ok. unfold decode_fixed_root_command. split.
    + destruct (Z.ltb_spec MAX_COMMAND_BODY_BYTES (len wire)); [done|].
      intros ([c' r] & Hr & Hx)%bind_Ok. case_bool_decide as Hn; [|done]. cbn [negb] in Hx. subst r.
      apply bind_Ok in Hx as ([] & Hv & [= ->]).
      apply (takes_command wire c [] Hw) in Hr as (w & -> & -> & Ht & _). rewrite app_nil_r in *. done.
    + intros (Ht & Hv & -> & Hl). rewrite (proj2 (Z.ltb_ge _ _)) by done.
      assert (read_command (command_wire c) = Ok (c, [])) as ->.
      { apply (takes_command _ _ _ Hw). exists (command_wire c). rewrite app_nil_r. split; [done|].
        destruct (validate_fixed_root_Ok _ _ _ Hv) as (Ha & Hp & Htags). split; [done|]. split; [done|].
        split; [|done]. apply Htags. unfold typed_command in Ht. read_inv. by apply Nat.eqb_eq. }
      rewrite Ok_bind. cbn [negb]. by rewrite bool_decide_eq_true_2, Hv.
  - intros c wire Ht (Hv & -> & _)%encode_command_Ok. apply fixed_root_is_bytes; [done|].
    destruct (validate_fixed_root_Ok _ _ _ Hv) as ((parts & Ha) & _). apply actor_bytes_Ok in Ha. lia.
Qed.

(** ** Records *)

Section record_facts.
Context `{HmacOutput} (key : JournalIntegrityKey).

Definition command_prefix (body : bytes) (prior : JournalHead) : bytes :=
  frame_prefix FIXED_ROOT_COMMAND_KIND body prior.

(** The record of [body] after [prior]. *)
Definition command_record (body : bytes) (prior : JournalHead) : FixedRootCommandRecord :=
  mkFixedRootCommandRecord (sequence prior + 1)
    (fixed_root_command_record_digest (command_prefix body prior)) body.

Definition recordable (body : bytes) (prior : JournalHead) : Prop :=
  len body <= MAX_BODY_BYTES /\ is_u64 (sequence prior + 1) = true.

Lemma following_Ok prior n :
  following prior = Ok n <-> n = sequence prior + 1 /\ is_u64 (sequence prior + 1) = true.
Proof. unfold following, checked_add_u64. by rewrite ok_or_Ok, checked_Some. Qed.

Lemma encode_command_record_Ok body prior frame :
  encode_fixed_root_command_record key body prior = Ok frame <->
  recordable body prior /\ frame = sealed_frame key (command_prefix body prior).
Proof.
  unfold encode_fixed_root_command_record, recordable.
  destruct (Z.ltb_spec MAX_BODY_BYTES (len body)) as [Hb|Hb]; [split; [done|]; lia|].
  assert (checked is_u32 (MIN_FRAME_BYTES + len body) = Some (MIN_FRAME_BYTES + len body)) as Hc.
  { apply checked_Some. split; [done|]. apply within_spec.
    unfold MAX_BODY_BYTES, MAX_FRAME_BYTES, MIN_FRAME_BYTES, u32_max, len in *. lia. }
  rewrite Hc. cbn [ok_or]. rewrite bind_Ok. setoid_rewrite following_Ok.
  assert (forall x, sealed_frame key x = (x ++ fixed_root_command_record_digest x)
    ++ fixed_root_command_record_tag key (x ++ fixed_root_command_record_digest x)) as Hs
    by (intros x; unfold sealed_frame; by rewrite app_assoc).
  rewrite Hs. split.
  - intros (n & [-> Hu] & Hx). rewrite Ok_bind in Hx. cbv zeta in Hx. by apply Ok_inj in Hx as <-.
  - intros [[_ Hu] ->]. exists (sequence prior + 1). split; [done|]. by rewrite Ok_bind.
Qed.

Lemma command_record_exact frame prior r :
  is_bytes frame = true -> typed_head prior = true ->
  decode_fixed_root_command_record key frame prior = Ok r <->
  is_bytes (command_body r) = true /\ r = command_record (command_body r) prior
  /\ encode_fixed_root_command_record key (command_body r) prior = Ok frame.
Proof.
  intros Hw Hh. rewrite encode_command_record_Ok. split.
  - intros Hd. unfold decode_fixed_root_command_record, verify_fixed_root_command_record_tag in Hd.
    cbv zeta in Hd. decode_inv Hd. b2p. destruct Hb0 as [Hlen Hl]. destruct Hb4 as [Hs Hp].
    apply following_Ok in Hx as [-> Hu].
    unfold len in Hl. rewrite <- Hl in Hlen, Hb1, Hb2 |- *.
    unfold MIN_FRAME_BYTES, MAX_FRAME_BYTES in Hlen.
    set (N := length frame) in *.
    replace (Z.to_nat (Z.of_nat N - 32)) with (N - 32)%nat in * by lia.
    replace (Z.to_nat (Z.of_nat N - 64)) with (N - 64)%nat in * by lia.
    rewrite !take_slice, drop_slice in *. fold N in Hb1.
    destruct (frame_split key frame prior Hw) as [Hpre Hf]; [lia|done..|].
    rewrite Hb3 in Hpre. fold N in Hpre, Hf. unfold command_record. cbn [command_body].
    split; [by apply is_bytes_slice|]. unfold command_prefix. rewrite <- Hpre.
    split; [congruence|]. split; [|done]. split; [|done].
    unfold len. rewrite length_slice by lia. unfold MAX_BODY_BYTES, MAX_FRAME_BYTES, MIN_FRAME_BYTES. lia.
  - intros (Ht & Hr & [Hb Hu] & He). set (body := command_body r) in *.
    destruct (sealed_parts key FIXED_ROOT_COMMAND_KIND body prior Hh) as
      [Hlf Hlen Htp Htd Hdt Hfd Hk Hsq Hdg Hbody]; [done..|].
    fold (command_prefix body prior) in *. rewrite <- He in *. set (B := length body) in *.
    unfold decode_fixed_root_command_record. cbv zeta. rewrite Hlen. unfold len. rewrite Hlf.
    unfold MAX_BODY_BYTES, MIN_FRAME_BYTES, MAX_FRAME_BYTES, len in *. fold B in Hb.
    rewrite (proj2 (Z.ltb_ge _ _)) by lia.
    rewrite (proj2 (within_spec 110 (16 * 1024) _)) by lia.
    rewrite (proj2 (Z.eqb_eq _ _)) by lia. cbn [negb orb].
    replace (Z.to_nat (110 + Z.of_nat B - 32)) with (78 + B)%nat by lia.
    replace (Z.to_nat (110 + Z.of_nat B - 64)) with (46 + B)%nat by lia.
    rewrite Htd, Hdt, Htp, Hfd. unfold verify_fixed_root_command_record_tag, record_tag.
    rewrite (bool_decide_true (hmac _ _ = _)) by done. rewrite Ok_bind.
    change (fixed_root_command_record_digest (command_prefix body prior))
      with (frame_digest (command_prefix body prior)).
    rewrite (bool_decide_true (frame_digest _ = _)) by done. rewrite Hk, Z.eqb_refl. cbn [negb].
    rewrite (proj2 (following_Ok prior _) (conj eq_refl Hu)), Ok_bind.
    rewrite Hsq, Z.eqb_refl, Hdg, bool_decide_true by done. cbn [negb orb].
    rewrite Hbody. by rewrite Hr.
Qed.
End record_facts.

(** C34: An authenticated command is accepted after the head [prior] exactly when its frame is
    what the encoder writes there for a well-typed command: the command, sequence and
    digest that are reported are those of that frame. *)
Theorem authenticated_command_exact `{HmacOutput} key codec frame prior record :
  is_bytes frame = true -> typed_head prior = true ->
  let command := authenticated_command record in
  decode_fixed_root_command_authenticated key codec frame prior = Ok record
  <-> typed_command command = true
      /\ encode_fixed_root_command_authenticated key codec command prior = Ok frame
      /\ authenticated_sequence record = sequence prior + 1
      /\ exists body, encode_fixed_root_command codec command = Ok body
         /\ authenticated_digest record
            = fixed_root_command_record_digest (command_prefix body prior).
Proof.
  intros Hw Hh command. unfold decode_fixed_root_command_authenticated,
    encode_fixed_root_command_authenticated. split.
  - intros (r & Hr%map_err_Ok & Hx)%bind_Ok. apply bind_Ok in Hx as (c & Hc%map_err_Ok & [= <-]).
    apply command_record_exact in Hr as (Hb & Hr & He); [|done..].
    apply (codec_exact (encode := encode_fixed_root_command codec)) in Hc as [Ht Hc]; [|done].
    subst command. cbn [authenticated_command authenticated_sequence authenticated_digest].
    split; [done|]. split; [by rewrite Hc; cbn [map_err]; rewrite Ok_bind, He|].
    rewrite Hr. split; [done|]. by exists (command_body r).
  - intros (Ht & He & Hs & body & Hb & Hd). rewrite Hb in He. cbn [map_err] in He.
    rewrite Ok_bind in He. apply map_err_Ok in He.
    assert (is_bytes body = true) as Hbb
      by (by apply (codec_bytes (encode := encode_fixed_root_command codec) command)).
    assert (decode_fixed_root_command_record key frame prior = Ok (command_record body prior)) as Hr
      by (by apply command_record_exact).
    rewrite Hr. cbn [map_err]. rewrite Ok_bind. cbn [command_body command_record].
    rewrite (codec_roundtrip (encode := encode_fixed_root_command codec) _ _ Ht Hb).
    cbn [map_err]. rewrite Ok_bind. cbn [command_sequence command_digest]. f_equal.
    destruct record. cbn in *. by subst.
Qed.

(** ** A concrete command *)

Section example.
#[local] Existing Instance sum_hmac.
#[local] Existing Instance sum_hmac_output.

Definition example_codec : FixedRootCommandCodec :=
  mkFixedRootCommandCodec (repeat 3 24 ++ repeat 0 8).

Definition example_command : FixedRootCommand :=
  let tag p := mkFixedRootCommandTag (mkMacKeyRef p (repeat 3 24 ++ repeat 1 16)) (repeat 5 32) in
  mkFixedRootCommand RecoveryKeyGenerate StateOwner (map tag tag_purposes) Maintenance
    (repeat 1 16) (Some 9) 2 (Terminal 10 20)
    (Some (mkFixedRootCommandSafeResult 1 1 (repeat 6 32)))
    (Some (mkFixedRootCommandTargetBinding (repeat 8 32) (repeat 8 32) (Some 4) None
             (Some (mkParentWitness (repeat 8 32) 7 (repeat 9 32) (repeat 10 32)))))
    [1; 2; 3].

Definition example_key : JournalIntegrityKey := mkJournalIntegrityKey (repeat 7 32).

Definition example_body : bytes :=
  Eval vm_compute in match encode_fixed_root_command example_codec example_command with
                     | Ok body => body | Err _ => [] end.
Definition example_frame : bytes :=
  Eval vm_compute in
    match encode_fixed_root_command_authenticated example_key example_codec example_command genesis with
    | Ok frame => frame | Err _ => [] end.

Lemma authenticated_command_exact_witness :
  let record := mkFixedRootCommandAuthenticatedRecord 1
    (fixed_root_command_record_digest (command_prefix example_body genesis)) example_command in
  is_bytes example_frame = true
  /\ (decode_fixed_root_command_authenticated example_key example_codec example_frame genesis = Ok record
      <-> typed_command example_command = true
          /\ encode_fixed_root_command_authenticated example_key example_codec example_command genesis
             = Ok example_frame
          /\ 1 = sequence genesis + 1
          /\ exists body, encode_fixed_root_command example_codec example_command = Ok body
             /\ authenticated_digest record
                = fixed_root_command_record_digest (command_prefix body genesis)).
Proof.
  intros record. split; [reflexivity|].
  apply (authenticated_command_exact example_key example_codec example_frame genesis record);
    reflexivity.
Defined.

(** The frame is the one of that command. *)
Example example_command_encodes :
  encode_fixed_root_command_authenticated example_key example_codec example_command genesis
  = Ok example_frame /\ length example_frame = 694%nat.
Proof. vm_compute. split; reflexivity. Qed.
End example.
