(* ===== verification/Addressed.v ===== *)
(** * Addressed operations of the control journal
    ([initialization_key_pair/control_journal_image.rs] of [crates/msgriver/src],
    lines 138-239, 642-839 and 906-1225)

    The durable state of an acknowledged clock hold and of a requested shutdown, its
    validation, and the two wire codecs it travels in: the addressed value (426 bytes
    at most) and the action of a journal record (310 at most). Both decoders accept
    exactly the encodings of valid values. *)

From S2P Require Import Prelude Bytes Generation Sha256 Codec Journal ImageWire.

#[local] Open Scope Z_scope.

Inductive AddressedOperation : Type := ClockAcknowledge | SystemShutdown.

Inductive AddressedActor : Type := StateOwner | Principal (name : bytes).

Inductive AddressedOperationAddress : Type :=
| ClockHold (generation : Z) (observation_digest : bytes)
| ProcessInstance (process : bytes).

Inductive DesiredMonotonicTransition : Type :=
| SettleHold (risk_acknowledged : bool)
| StopProcess (grace_ms : Z).

(** [AddressedEvidence::Acknowledge] and [::Shutdown]. *)
Inductive AddressedEvidence : Type :=
| AcknowledgeEvidence (accepted_wall_time accepted_monotonic_tick prior_fixed_safe_time : Z)
    (prior_selected_safe_time : option Z) (target_safe_time : Z)
| ShutdownEvidence (accepted_monotonic_tick grace_deadline_tick : Z).

(** [AddressedResult::Acknowledge] and [::Shutdown]. *)
Inductive AddressedResult : Type :=
| AcknowledgeResult (settled_safe_time : Z) (settled : bool)
| ShutdownResult (ungraceful_reason : Z).

Inductive AddressedMirror : Type :=
| NotApplicable
| Pending (origin : bytes) (pre : JournalHead) (policy : Z)
| Committed (origin : bytes) (pre : JournalHead) (policy : Z) (post : JournalHead).

Record AddressedStateValue : Type := mkAddressedStateValue {
  actor : AddressedActor;
  address : AddressedOperationAddress;
  desired_transition : DesiredMonotonicTransition;
  evidence : AddressedEvidence;
  phase : Z;
  safe_result : AddressedResult;
  application_head : JournalHead;
  publication_head : JournalHead;
  mirror : AddressedMirror;
}.

Inductive AddressedAction : Type :=
| PublishRequest (value : AddressedStateValue)
| PublishPhase (action_phase : Z) (result : AddressedResult)
| CommitMirror (post : JournalHead).

#[export] Instance JournalHead_eq_dec : EqDecision JournalHead.
Proof. solve_decision. Defined.
#[export] Instance AddressedOperation_eq_dec : EqDecision AddressedOperation.
Proof. solve_decision. Defined.
#[export] Instance AddressedActor_eq_dec : EqDecision AddressedActor.
Proof. solve_decision. Defined.
#[export] Instance AddressedOperationAddress_eq_dec : EqDecision AddressedOperationAddress.
Proof. solve_decision. Defined.
#[export] Instance DesiredMonotonicTransition_eq_dec : EqDecision DesiredMonotonicTransition.
Proof. solve_decision. Defined.
#[export] Instance AddressedEvidence_eq_dec : EqDecision AddressedEvidence.
Proof. solve_decision. Defined.
#[export] Instance AddressedResult_eq_dec : EqDecision AddressedResult.
Proof. solve_decision. Defined.
#[export] Instance AddressedMirror_eq_dec : EqDecision AddressedMirror.
Proof. solve_decision. Defined.
#[export] Instance AddressedStateValue_eq_dec : EqDecision AddressedStateValue.
Proof. solve_decision. Defined.
#[export] Instance AddressedAction_eq_dec : EqDecision AddressedAction.
Proof. solve_decision. Defined.

Definition STATE_OWNER_ACTOR : bytes := as_bytes "msgriver/state-owner/v1".

Definition validate_head (head : JournalHead) : image_result unit :=
  if negb (Bool.eqb (sequence head =? 0) (bool_decide (digest head = repeat 0 32)))
  then Err INVALID else Ok tt.

Definition operation_code (operation : AddressedOperation) : Z :=
  match operation with ClockAcknowledge => 2 | SystemShutdown => 3 end.

Definition slot (operation : AddressedOperation) : nat :=
  match operation with ClockAcknowledge => 0 | SystemShutdown => 2 end.

Definition operation_kind (operation : AddressedOperation) : ControlJournalRecordKind :=
  match operation with
  | ClockAcknowledge => Journal.ClockAcknowledge
  | SystemShutdown => Journal.SystemShutdown
  end.

Definition is_pending (m : AddressedMirror) : bool :=
  match m with Pending _ _ _ => true | _ => false end.
Definition is_committed (m : AddressedMirror) : bool :=
  match m with Committed _ _ _ _ => true | _ => false end.
Definition is_not_applicable (m : AddressedMirror) : bool :=
  match m with NotApplicable => true | _ => false end.

Definition addressed_complete (value : AddressedStateValue) : bool :=
  (3 <=? phase value) && negb (is_pending (mirror value)).

(** ** Validation *)

Definition actor_byte (byte : Z) : bool :=
  is_ascii_alphanumeric byte || bool_decide (byte ∈ as_bytes "._:/-").

Definition validate_addressed_actor (a : AddressedActor) : image_result unit :=
  match a with
  | Principal l =>
    if bool_decide (l = []) || (128 <? len l) || negb (is_ascii_alphanumeric (at_ l 0))
       || negb (forallb actor_byte l)
    then Err INVALID else Ok tt
  | StateOwner => Ok tt
  end.

(** The first [match] of [validate_addressed_value]: what each operation asks of its
    address, transition, evidence, result and phase. *)
Definition validate_operation (operation : AddressedOperation) (value : AddressedStateValue)
    : image_result unit :=
  match operation, address value, desired_transition value, evidence value,
        safe_result value with
  | ClockAcknowledge, ClockHold generation observation_digest, SettleHold true,
    AcknowledgeEvidence accepted_wall_time accepted_monotonic_tick prior_fixed_safe_time
      prior_selected_safe_time target_safe_time,
    AcknowledgeResult settled_safe_time settled =>
    let target := Z.max (Z.max prior_fixed_safe_time accepted_wall_time)
                    (default prior_fixed_safe_time prior_selected_safe_time) in
    if (generation =? 0) || bool_decide (observation_digest = repeat 0 32)
       || (accepted_monotonic_tick <? 0) || negb (target_safe_time =? target)
       || negb (settled_safe_time =? target) || negb (within 1 3 (phase value))
       || negb (Bool.eqb settled (phase value =? 3))
       || negb (Bool.eqb (negb (is_some prior_selected_safe_time))
                  (is_not_applicable (mirror value)))
    then Err INVALID else Ok tt
  | SystemShutdown, ProcessInstance process, StopProcess grace_ms,
    ShutdownEvidence accepted_monotonic_tick grace_deadline_tick,
    ShutdownResult ungraceful_reason =>
    if bool_decide (process = repeat 0 16) || (grace_ms =? 0)
       || (accepted_monotonic_tick <? 0)
       || negb (bool_decide (checked_add_i64 accepted_monotonic_tick grace_ms
                             = Some grace_deadline_tick))
       || negb (within 1 4 (phase value))
       || (if phase value =? 4 then negb (within 1 4 ungraceful_reason)
           else negb (ungraceful_reason =? 0))
    then Err INVALID else Ok tt
  | _, _, _, _, _ => Err INVALID
  end.

Definition policy_admitted (operation : AddressedOperation) (policy : Z) : bool :=
  match operation with
  | ClockAcknowledge => (policy =? 1) || (policy =? 2)
  | SystemShutdown => policy =? 3
  end.

(** The guards on a mirror's origin, prior head and policy. *)
Definition mirror_base (operation : AddressedOperation) (origin : bytes) (pre : JournalHead)
    (policy : Z) : image_result unit :=
  if bool_decide (drop 24 origin = repeat 0 8) || bool_decide (digest pre = repeat 0 32)
     || negb (policy_admitted operation policy)
  then Err INVALID else Ok tt.

(** The second [match] of [validate_addressed_value]. *)
Definition validate_mirror (operation : AddressedOperation) (value : AddressedStateValue)
    : image_result unit :=
  match mirror value with
  | NotApplicable => Ok tt
  | Pending origin pre policy =>
    _ ← mirror_base operation origin pre policy;
    if bool_decide (operation = ClockAcknowledge) && (phase value =? 3)
    then Err INVALID else Ok tt
  | Committed origin pre policy post =>
    _ ← mirror_base operation origin pre policy;
    if (phase value <? 3) || (sequence post <=? sequence pre)
       || bool_decide (digest post = repeat 0 32)
    then Err INVALID else Ok tt
  end.

(** The guards on the two heads. *)
Definition validate_value_heads (operation : AddressedOperation) (value : AddressedStateValue)
    : image_result unit :=
  let application := application_head value in
  let publication := publication_head value in
  if (sequence application =? 0) || bool_decide (digest application = repeat 0 32)
     || (sequence publication =? 0) || bool_decide (digest publication = repeat 0 32)
     || (sequence publication <? sequence application)
     || ((sequence application =? sequence publication)
         && negb (bool_decide (digest application = digest publication)))
  then Err INVALID
  else
    let receipt := bool_decide (operation = SystemShutdown) && is_committed (mirror value) in
    if (receipt && (sequence publication <=? sequence application))
       || (negb receipt && negb (bool_decide (application = publication)))
    then Err INVALID else Ok tt.

Definition validate_addressed_value (operation : AddressedOperation)
    (value : AddressedStateValue) : image_result unit :=
  _ ← validate_addressed_actor (actor value);
  _ ← validate_operation operation value;
  _ ← validate_mirror operation value;
  validate_value_heads operation value.

(** ** The addressed result *)

Definition encode_addressed_result (result : AddressedResult) : Writing :=
  match result with
  | AcknowledgeResult settled_safe_time settled =>
    put_u16 119 >>> put_u16 1 >>> put_u16 9 >>> put_i64 settled_safe_time
    >>> put_u8 (flag settled)
  | ShutdownResult ungraceful_reason =>
    put_u16 120 >>> put_u16 1 >>> put_u16 1 >>> put_u8 ungraceful_reason
  end.

(** [match reader.u8()? { 0 => false, 1 => true, _ => return Err(INVALID) }]. *)
Definition rd_flag : Reading bool :=
  byte ← rd_u8;
  from (if byte =? 0 then Ok false else if byte =? 1 then Ok true else Err INVALID).

Definition decode_addressed_result (operation : AddressedOperation) : Reading AddressedResult :=
  let '(codec, width) :=
    match operation with ClockAcknowledge => (119, 9) | SystemShutdown => (120, 1) end in
  c ← rd_u16;
  if negb (c =? codec) then fail INVALID
  else
    version ← rd_u16;
    if negb (version =? 1) then fail INVALID
    else
      w ← rd_u16;
      if negb (w =? width) then fail INVALID
      else
        match operation with
        | ClockAcknowledge =>
          settled_safe_time ← rd_i64;
          settled ← rd_flag;
          mret (AcknowledgeResult settled_safe_time settled)
        | SystemShutdown => reason ← rd_u8; mret (ShutdownResult reason)
        end.

(** ** The addressed value *)

Definition actor_parts (a : AddressedActor) : Z * bytes :=
  match a with StateOwner => (2, STATE_OWNER_ACTOR) | Principal l => (1, l) end.

Definition put_actor (a : AddressedActor) : Writing :=
  let '(kind, name) := actor_parts a in
  put_u8 kind >>> lift (ok_or (checked is_u8 (len name)) INVALID) put_u8 >>> extend name.

Definition put_address (a : AddressedOperationAddress) : Writing :=
  match a with
  | ClockHold generation observation_digest =>
    put_u64 generation >>> extend observation_digest
  | ProcessInstance process => extend process
  end.

Definition put_transition (t : DesiredMonotonicTransition) : Writing :=
  match t with
  | SettleHold risk_acknowledged => put_u8 (flag risk_acknowledged)
  | StopProcess grace_ms => put_u32 grace_ms
  end.

Definition put_evidence (e : AddressedEvidence) : Writing :=
  match e with
  | AcknowledgeEvidence wall tick fixed selected target =>
    put_i64 wall >>> put_i64 tick >>> put_i64 fixed >>> put_u8 (flag (is_some selected))
    >>> match selected with Some time => put_i64 time | None => skip end
    >>> put_i64 target
  | ShutdownEvidence tick deadline => put_i64 tick >>> put_i64 deadline
  end.

Definition put_mirror (m : AddressedMirror) : Writing :=
  match m with
  | NotApplicable => put_u8 0
  | Pending origin pre policy =>
    put_u8 1 >>> extend origin >>> put_head pre >>> put_u8 policy
  | Committed origin pre policy post =>
    put_u8 2 >>> extend origin >>> put_head pre >>> put_u8 policy >>> put_head post
  end.

Definition encode_addressed_value (operation : AddressedOperation)
    (value : AddressedStateValue) (with_heads : bool) : image_result bytes :=
  _ ← validate_addressed_value operation value;
  finish 426
    (put_u8 1 >>> put_u16 (operation_code operation) >>> put_actor (actor value)
     >>> put_address (address value) >>> put_u8 1
     >>> put_transition (desired_transition value) >>> put_evidence (evidence value)
     >>> put_u8 (phase value) >>> encode_addressed_result (safe_result value)
     >>> (if with_heads then
            put_head (application_head value) >>> put_head (publication_head value)
          else skip)
     >>> put_mirror (mirror value)).

Definition rd_actor : Reading AddressedActor :=
  kind ← rd_u8;
  length ← rd_u8;
  if negb (within 1 128 length) then fail INVALID
  else
    actor_bytes ← rd_take (Z.to_nat length);
    a ← from (if kind =? 1 then Ok (Principal actor_bytes)
              else if (kind =? 2) && bool_decide (actor_bytes = STATE_OWNER_ACTOR)
              then Ok StateOwner else Err INVALID);
    _ ← from (validate_addressed_actor a);
    mret a.

Definition rd_address (operation : AddressedOperation) : Reading AddressedOperationAddress :=
  match operation with
  | ClockAcknowledge =>
    generation ← rd_u64; observation_digest ← rd_array 32;
    mret (ClockHold generation observation_digest)
  | SystemShutdown => process ← rd_array 16; mret (ProcessInstance process)
  end.

Definition rd_transition (operation : AddressedOperation)
    : Reading DesiredMonotonicTransition :=
  match operation with
  | ClockAcknowledge =>
    risk ← rd_u8;
    if negb (risk =? 1) then fail INVALID else mret (SettleHold true)
  | SystemShutdown => grace_ms ← rd_u32; mret (StopProcess grace_ms)
  end.

Definition rd_evidence (operation : AddressedOperation) : Reading AddressedEvidence :=
  match operation with
  | ClockAcknowledge =>
    wall ← rd_i64; tick ← rd_i64; fixed ← rd_i64;
    present ← rd_flag;
    selected ← (if present : bool then time ← rd_i64; mret (Some time) else mret None);
    target ← rd_i64;
    mret (AcknowledgeEvidence wall tick fixed selected target)
  | SystemShutdown =>
    tick ← rd_i64; deadline ← rd_i64; mret (ShutdownEvidence tick deadline)
  end.

Definition rd_heads (request_head : option JournalHead)
    : Reading (JournalHead * JournalHead) :=
  match request_head with
  | Some head => mret (head, head)
  | None => application ← rd_head; publication ← rd_head; mret (application, publication)
  end.

Definition rd_mirror : Reading AddressedMirror :=
  tag ← rd_u8;
  if tag =? 0 then mret NotApplicable
  else if (tag =? 1) || (tag =? 2) then
    origin ← rd_array 32;
    pre ← rd_head;
    policy ← rd_u8;
    if tag =? 1 then mret (Pending origin pre policy)
    else post ← rd_head; mret (Committed origin pre policy post)
  else fail INVALID.

Definition rd_addressed_value (operation : AddressedOperation)
    (request_head : option JournalHead) : Reading AddressedStateValue :=
  version ← rd_u8;
  if negb (version =? 1) then fail INVALID
  else
    code ← rd_u16;
    if negb (code =? operation_code operation) then fail INVALID
    else
      actor ← rd_actor;
      address ← rd_address operation;
      separator ← rd_u8;
      if negb (separator =? 1) then fail INVALID
      else
        desired_transition ← rd_transition operation;
        evidence ← rd_evidence operation;
        phase ← rd_u8;
        safe_result ← decode_addressed_result operation;
        heads ← rd_heads request_head;
        mirror ← rd_mirror;
        mret (mkAddressedStateValue actor address desired_transition evidence phase
                safe_result heads.1 heads.2 mirror).

Definition decode_addressed_value (operation : AddressedOperation) (l : bytes)
    (request_head : option JournalHead) : image_result AddressedStateValue :=
  if 426 <? len l then Err INVALID
  else
    value ← read_all (rd_addressed_value operation request_head) l;
    _ ← validate_addressed_value operation value;
    Ok value.

(** ** The action of a record *)

Definition encode_addressed_action (operation : AddressedOperation) (action : AddressedAction)
    : image_result bytes :=
  parts ←
    match action with
    | PublishRequest value =>
      if negb (phase value =? 1) || is_committed (mirror value) then Err INVALID
      else
        encoded ← encode_addressed_value operation value false;
        payload ← finish 306 (extend encoded);
        Ok (payload, 1)
    | PublishPhase phase result =>
      payload ← finish 306 (put_u8 phase >>> encode_addressed_result result);
      Ok (payload, 2)
    | CommitMirror post => payload ← finish 306 (put_head post); Ok (payload, 3)
    end;
  let '(payload, tag) := parts in
  finish 310
    (put_u8 1 >>> put_u8 tag
     >>> lift (ok_or (checked is_u16 (len payload)) INVALID) put_u16 >>> extend payload).

(** The envelope of an action: its tag, the declared length and the payload. *)
Definition rd_action_frame : Reading (Z * Z * bytes) :=
  version ← rd_u8;
  if negb (version =? 1) then fail INVALID
  else
    tag ← rd_u8;
    length ← rd_u16;
    payload ← rd_take (Z.to_nat length);
    mret (tag, length, payload).

Definition rd_action (operation : AddressedOperation) (head : JournalHead) (tag length : Z)
    : Reading AddressedAction :=
  if tag =? 1 then
    l ← rd_take (Z.to_nat length);
    value ← from (decode_addressed_value operation l (Some head));
    mret (PublishRequest value)
  else if tag =? 2 then
    phase ← rd_u8; result ← decode_addressed_result operation; mret (PublishPhase phase result)
  else if tag =? 3 then post ← rd_head; mret (CommitMirror post)
  else fail INVALID.

Definition decode_addressed_action (operation : AddressedOperation) (l : bytes)
    (head : JournalHead) : image_result AddressedAction :=
  frame ← read_all rd_action_frame l;
  let '(tag, length, payload) := frame in
  action ← read_all (rd_action operation head tag length) payload;
  encoded ← encode_addressed_action operation action;
  if negb (bool_decide (encoded = l)) then Err INVALID else Ok action.

(** ** The values the Rust types admit, and the variants of each operation *)

Definition typed_actor (a : AddressedActor) : bool :=
  match a with StateOwner => true | Principal l => is_bytes l end.

Definition typed_address (a : AddressedOperationAddress) : bool :=
  match a with
  | ClockHold generation observation_digest =>
    is_u64 generation && array 32 observation_digest
  | ProcessInstance process => array 16 process
  end.

Definition typed_transition (t : DesiredMonotonicTransition) : bool :=
  match t with SettleHold _ => true | StopProcess grace_ms => is_u32 grace_ms end.

Definition typed_evidence (e : AddressedEvidence) : bool :=
  match e with
  | AcknowledgeEvidence wall tick fixed selected target =>
    is_i64 wall && is_i64 tick && is_i64 fixed && on_some is_i64 selected && is_i64 target
  | ShutdownEvidence tick deadline => is_i64 tick && is_i64 deadline
  end.

Definition typed_result (r : AddressedResult) : bool :=
  match r with
  | AcknowledgeResult settled_safe_time _ => is_i64 settled_safe_time
  | ShutdownResult ungraceful_reason => is_byte ungraceful_reason
  end.

Definition typed_mirror (m : AddressedMirror) : bool :=
  match m with
  | NotApplicable => true
  | Pending origin pre policy => array 32 origin && typed_head pre && is_byte policy
  | Committed origin pre policy post =>
    array 32 origin && typed_head pre && is_byte policy && typed_head post
  end.

Definition typed_value (v : AddressedStateValue) : bool :=
  typed_actor (actor v) && typed_address (address v) && typed_transition (desired_transition v)
  && typed_evidence (evidence v) && is_byte (phase v) && typed_result (safe_result v)
  && typed_head (application_head v) && typed_head (publication_head v)
  && typed_mirror (mirror v).

Definition typed_action (a : AddressedAction) : bool :=
  match a with
  | PublishRequest value => typed_value value
  | PublishPhase phase result => is_byte phase && typed_result result
  | CommitMirror post => typed_head post
  end.

Definition address_for (operation : AddressedOperation) (a : AddressedOperationAddress) : bool :=
  match operation, a with
  | ClockAcknowledge, ClockHold _ _ | SystemShutdown, ProcessInstance _ => true
  | _, _ => false
  end.

Definition transition_for (operation : AddressedOperation) (t : DesiredMonotonicTransition)
    : bool :=
  match operation, t with
  | ClockAcknowledge, SettleHold true | SystemShutdown, StopProcess _ => true
  | _, _ => false
  end.

Definition evidence_for (operation : AddressedOperation) (e : AddressedEvidence) : bool :=
  match operation, e with
  | ClockAcknowledge, AcknowledgeEvidence _ _ _ _ _
  | SystemShutdown, ShutdownEvidence _ _ => true
  | _, _ => false
  end.

Definition result_for (operation : AddressedOperation) (r : AddressedResult) : bool :=
  match operation, r with
  | ClockAcknowledge, AcknowledgeResult _ _ | SystemShutdown, ShutdownResult _ => true
  | _, _ => false
  end.

(** ** The wire forms *)

Definition result_bytes (r : AddressedResult) : bytes :=
  match r with
  | AcknowledgeResult settled_safe_time settled =>
    be_bytes 2 119 ++ be_bytes 2 1 ++ be_bytes 2 9 ++ be_bytes 8 settled_safe_time
    ++ [flag settled]
  | ShutdownResult ungraceful_reason =>
    be_bytes 2 120 ++ be_bytes 2 1 ++ be_bytes 2 1 ++ [ungraceful_reason]
  end.

Definition actor_bytes (a : AddressedActor) : bytes :=
  [(actor_parts a).1] ++ [len (actor_parts a).2] ++ (actor_parts a).2.

Definition address_bytes (a : AddressedOperationAddress) : bytes :=
  match a with
  | ClockHold generation observation_digest => be_bytes 8 generation ++ observation_digest
  | ProcessInstance process => process
  end.

Definition transition_bytes (t : DesiredMonotonicTransition) : bytes :=
  match t with
  | SettleHold risk_acknowledged => [flag risk_acknowledged]
  | StopProcess grace_ms => be_bytes 4 grace_ms
  end.

Definition selected_bytes (selected : option Z) : bytes :=
  match selected with Some time => be_bytes 8 time | None => [] end.

Definition evidence_bytes (e : AddressedEvidence) : bytes :=
  match e with
  | AcknowledgeEvidence wall tick fixed selected target =>
    be_bytes 8 wall ++ be_bytes 8 tick ++ be_bytes 8 fixed ++ [flag (is_some selected)]
    ++ selected_bytes selected ++ be_bytes 8 target
  | ShutdownEvidence tick deadline => be_bytes 8 tick ++ be_bytes 8 deadline
  end.

Definition mirror_bytes (m : AddressedMirror) : bytes :=
  match m with
  | NotApplicable => [0]
  | Pending origin pre policy => [1] ++ origin ++ head_bytes pre ++ [policy]
  | Committed origin pre policy post =>
    [2] ++ origin ++ head_bytes pre ++ [policy] ++ head_bytes post
  end.

Definition heads_bytes (with_heads : bool) (v : AddressedStateValue) : bytes :=
  if with_heads then head_bytes (application_head v) ++ head_bytes (publication_head v) else [].

Definition value_bytes (operation : AddressedOperation) (with_heads : bool)
    (v : AddressedStateValue) : bytes :=
  [1] ++ be_bytes 2 (operation_code operation) ++ actor_bytes (actor v)
  ++ address_bytes (address v) ++ [1] ++ transition_bytes (desired_transition v)
  ++ evidence_bytes (evidence v) ++ [phase v] ++ result_bytes (safe_result v)
  ++ heads_bytes with_heads v ++ mirror_bytes (mirror v).

(** ** What is written *)

#[export] Hint Resolve emits_u8 emits_u16 emits_u32 emits_u64 emits_i64 emits_extend emits_head
  emits_skip : writing.

Ltac writing :=
  repeat lazymatch goal with
  | |- emits (_ >>> _) _ => apply emits_andThen
  | |- _ => solve [eauto 2 with writing]
  end.

Lemma emits_result r : emits (encode_addressed_result r) (result_bytes r).
Proof. destruct r; cbn [encode_addressed_result result_bytes]; writing. Qed.

Lemma validate_actor_Ok a :
  validate_addressed_actor a = Ok tt ->
  0 < len (actor_parts a).2 <= 128 /\ (actor_parts a).2 <> [].
Proof.
  destruct a as [|l]; cbn [validate_addressed_actor actor_parts snd]; [done|].
  destruct (bool_decide (l = [])) eqn:Hl; [done|]. apply bool_decide_eq_false in Hl.
  destruct (Z.ltb_spec 128 (len l)); [done|]. intros _. split; [|done].
  unfold len in *. destruct l; [done|]. cbn [length] in *. lia.
Qed.

Lemma emits_actor a :
  validate_addressed_actor a = Ok tt -> emits (put_actor a) (actor_bytes a).
Proof.
  intros [Ha _]%validate_actor_Ok. unfold put_actor, actor_bytes.
  destruct (actor_parts a) as [kind name]. cbn [fst snd] in *.
  apply emits_andThen; [apply emits_u8|]. apply emits_andThen; [|apply emits_extend].
  apply (emits_lift _ (len name)); [|apply emits_u8].
  apply ok_or_Ok, checked_Some. split; [done|]. apply within_spec. unfold u8_max. lia.
Qed.

Lemma emits_address a : emits (put_address a) (address_bytes a).
Proof. destruct a; cbn [put_address address_bytes]; writing. Qed.

Lemma emits_transition t : emits (put_transition t) (transition_bytes t).
Proof. destruct t; cbn [put_transition transition_bytes]; writing. Qed.

Lemma emits_evidence e : emits (put_evidence e) (evidence_bytes e).
Proof.
  destruct e as [w t f [s|] g|t d]; cbn [put_evidence evidence_bytes selected_bytes]; writing.
Qed.

Lemma emits_mirror m : emits (put_mirror m) (mirror_bytes m).
Proof. destruct m; cbn [put_mirror mirror_bytes]; writing. Qed.
#[export] Hint Resolve emits_result emits_address emits_transition emits_evidence emits_mirror
  : writing.

(** The largest value fills the bound of its writer. *)
Lemma array_Z n l : array n l = true -> len l = Z.of_nat n.
Proof. intros H%array_spec. unfold len. by destruct H as [-> _]. Qed.

Lemma len_be_bytes n z : len (be_bytes n z) = Z.of_nat n.
Proof. unfold len. by rewrite length_be_bytes. Qed.

Lemma len_one x : len [x] = 1.
Proof. done. Qed.

Ltac typed_inv :=
  repeat match goal with H : _ && _ = true |- _ => apply andb_true_iff in H as [? ?] end.

(** The length of a concatenation of fields. *)
Ltac lens :=
  repeat match goal with
  | |- context [len (?a ++ ?b)] => rewrite (len_cat a b)
  | |- context [len (be_bytes ?n ?z)] => rewrite (len_be_bytes n z)
  | |- context [len [?x]] => rewrite (len_one x)
  | |- context [len []] => change (len []) with 0
  | H : array ?n ?l = true |- context [len ?l] => rewrite (array_Z n l H)
  end; cbn [Z.of_nat Pos.of_succ_nat Pos.succ].

Lemma len_head_bytes h : typed_head h = true -> len (head_bytes h) = 40.
Proof. unfold typed_head, head_bytes. intros. typed_inv. lens. done. Qed.

Lemma len_address a : typed_address a = true -> len (address_bytes a) <= 40.
Proof. destruct a; cbn; intros; typed_inv; lens; lia. Qed.

Lemma len_transition t : len (transition_bytes t) <= 4.
Proof. destruct t; cbn [transition_bytes]; lens; lia. Qed.

Lemma len_evidence e : len (evidence_bytes e) <= 41.
Proof. destruct e as [w t f [s|] g|t d]; cbn [evidence_bytes selected_bytes]; lens; lia. Qed.

Lemma len_result r : len (result_bytes r) <= 15.
Proof. destruct r; cbn [result_bytes]; lens; lia. Qed.

Lemma len_mirror m : typed_mirror m = true -> len (mirror_bytes m) <= 114.
Proof.
  destruct m; cbn [typed_mirror mirror_bytes]; intros; typed_inv; lens;
    rewrite ?len_head_bytes by done; lia.
Qed.

Lemma len_actor a :
  validate_addressed_actor a = Ok tt -> len (actor_bytes a) <= 130.
Proof. intros [Ha _]%validate_actor_Ok. unfold actor_bytes. lens. lia. Qed.

Lemma value_bytes_bound operation with_heads v :
  typed_value v = true -> validate_addressed_value operation v = Ok tt ->
  len (value_bytes operation with_heads v)
  <= 232 + len (mirror_bytes (mirror v)) + (if with_heads then 80 else 0).
Proof.
  intros Hv Hok. unfold validate_addressed_value in Hok.
  apply bind_Ok in Hok as ([] & Ha%len_actor & H).
  apply bind_Ok in H as ([] & Hop & _).
  unfold typed_value in Hv. typed_inv. unfold value_bytes, heads_bytes.
  lens.
  pose proof (len_address (address v) ltac:(done)).
  pose proof (len_result (safe_result v)). pose proof (len_evidence (evidence v)).
  assert (len (transition_bytes (desired_transition v)) <= 1 \/
          len (address_bytes (address v)) <= 16 /\ len (evidence_bytes (evidence v)) <= 16
          /\ len (transition_bytes (desired_transition v)) <= 4).
  { unfold validate_operation in Hop. destruct v as [a ad t e p r h1 h2 m]. cbn in *.
    destruct operation, ad, t as [[]|], e, r; try discriminate; [left; done|right].
    cbn in *. lens. lia. }
  destruct with_heads; lens; rewrite ?len_head_bytes by done; lia.
Qed.

Lemma typed_value_mirror v : typed_value v = true -> typed_mirror (mirror v) = true.
Proof. unfold typed_value. intros. by typed_inv. Qed.

Lemma encode_value_wire operation with_heads v :
  typed_value v = true ->
  encode_addressed_value operation v with_heads =
    _ ← validate_addressed_value operation v; Ok (value_bytes operation with_heads v).
Proof.
  intros Hv. unfold encode_addressed_value.
  destruct (validate_addressed_value operation v) as [[]|] eqn:Hok; [|done].
  rewrite !Ok_bind. rewrite (finish_emits _ _ (value_bytes operation with_heads v)).
  - rewrite (proj2 (Z.leb_le _ _)); [done|].
    pose proof (value_bytes_bound operation with_heads v Hv Hok).
    pose proof (len_mirror (mirror v) (typed_value_mirror v Hv)). destruct with_heads; lia.
  - unfold validate_addressed_value in Hok. apply bind_Ok in Hok as ([] & Ha & _).
    unfold value_bytes, heads_bytes. destruct with_heads; writing; by apply emits_actor.
  - unfold u32_max. lia.
Qed.

(** ** What is read *)

Lemma exact_flag : exact rd_flag (fun c b => c = [flag b]).
Proof.
  unfold rd_flag. read_exact.
  - rewrite app_nil_r. repeat case_match; simplify_eq; b2p; by subst.
  - exists [flag a], [], (flag a). rewrite flag_byte. by destruct a.
Qed.
#[export] Hint Resolve exact_flag : reading.

Lemma exact_result operation :
  exact (decode_addressed_result operation)
    (fun c r => c = result_bytes r /\ typed_result r = true /\ result_for operation r = true).
Proof.
  destruct operation; cbn [decode_addressed_result]; read_exact; try (by b2p; subst);
    destruct a; try done; cbn [result_bytes typed_result] in *; read_build.
Qed.

Lemma exact_address operation :
  exact (rd_address operation)
    (fun c a => c = address_bytes a /\ typed_address a = true /\ address_for operation a = true).
Proof.
  destruct operation; cbn [rd_address]; read_exact; cbn [typed_address];
    try (by rewrite ?andb_true_iff);
    destruct a; try done; cbn [address_bytes typed_address] in *; read_inv; read_build.
Qed.

Lemma exact_transition operation :
  exact (rd_transition operation)
    (fun c t => c = transition_bytes t /\ typed_transition t = true
                /\ transition_for operation t = true).
Proof.
  destruct operation; cbn [rd_transition]; read_exact; try (by b2p; subst);
    destruct a as [[]|]; try done; cbn [transition_bytes typed_transition flag] in *.
  - exists [1], [], 1. by split_and!.
  - read_build.
Qed.

Lemma exact_selected (present : bool) :
  exact (if present then time ← rd_i64; mret (Some time) else mret None)
    (fun c s => c = selected_bytes s /\ on_some is_i64 s = true /\ is_some s = present).
Proof.
  destruct present; read_exact; cbn; try done; destruct a; try done; cbn in *; read_build.
Qed.
#[export] Hint Resolve exact_result exact_address exact_transition exact_selected : reading.

Lemma exact_evidence operation :
  exact (rd_evidence operation)
    (fun c e => c = evidence_bytes e /\ typed_evidence e = true
                /\ evidence_for operation e = true).
Proof.
  destruct operation; cbn [rd_evidence]; read_exact; cbn [evidence_bytes typed_evidence].
  - by rewrite !andb_true_iff, <- ?app_assoc.
  - destruct a as [w t f s g|]; try done. cbn [evidence_bytes typed_evidence] in *. read_inv.
    read_build.
  - by rewrite !andb_true_iff.
  - destruct a; try done. cbn [evidence_bytes typed_evidence] in *. read_inv. read_build.
Qed.

Lemma exact_heads request_head :
  exact (rd_heads request_head)
    (fun c hs => match request_head with
                 | Some h => c = [] /\ hs = (h, h)
                 | None => c = head_bytes hs.1 ++ head_bytes hs.2
                           /\ typed_head hs.1 = true /\ typed_head hs.2 = true
                 end).
Proof.
  destruct request_head as [h|]; cbn [rd_heads]; [apply exact_ret|]. read_exact.
  - done.
  - destruct a. cbn in *. read_build.
Qed.

Lemma exact_mirror :
  exact rd_mirror (fun c m => c = mirror_bytes m /\ typed_mirror m = true).
Proof.
  unfold rd_mirror. read_exact.
  - repeat case_match; read_inv; b2p; subst; try done; cbn [mirror_bytes typed_mirror];
      rewrite ?app_nil_r, ?andb_true_iff; try done.
    destruct x1; b2p; naive_solver.
  - destruct a; cbn [mirror_bytes typed_mirror] in *; read_inv.
    + exists [0], [], 0. done.
    + eexists _, _, 1. split; [reflexivity|]. split; [done|]. cbn [Z.eqb Pos.eqb orb]. read_build.
    + eexists _, _, 2. split; [reflexivity|]. split; [done|]. cbn [Z.eqb Pos.eqb orb]. read_build.
Qed.
#[export] Hint Resolve exact_evidence exact_heads exact_mirror : reading.

Lemma exact_actor :
  exact rd_actor (fun c a => c = actor_bytes a /\ typed_actor a = true
                             /\ validate_addressed_actor a = Ok tt).
Proof.
  unfold rd_actor. read_exact.
  - destruct x11. rewrite !app_nil_r. b2p.
    assert (len x7 = x4) as <- by (unfold len; lia).
    repeat case_match; simplify_eq; b2p; subst; read_inv; b2p; subst; by cbn.
  - pose proof (validate_actor_Ok a H1) as [Hl Hne].
    assert (is_byte (actor_parts a).1 = true /\ is_bytes (actor_parts a).2 = true) as [Hk Hb]
      by (by destruct a).
    eexists _, _, _. split; [reflexivity|]. split; [done|].
    eexists _, _, (len (actor_parts a).2). split; [reflexivity|].
    split; [split; [done|]; apply within_spec; lia|]. split; [b2p; lia|].
    exists (actor_parts a).2, [], (actor_parts a).2. rewrite app_nil_r. split; [done|].
    split; [by split_and!; [|unfold len; lia|]|]. exists [], [], a. split; [done|].
    split; [split; [done|by destruct a]|]. by exists tt.
Qed.
#[export] Hint Resolve exact_actor : reading.

(** The heads of a decoded value: those of the request, or its own. *)
Definition heads_from (request_head : option JournalHead) (v : AddressedStateValue) : Prop :=
  match request_head with
  | Some h => application_head v = h /\ publication_head v = h
  | None => True
  end.

Lemma exact_value operation request_head :
  (forall h, request_head = Some h -> typed_head h = true) ->
  exact (rd_addressed_value operation request_head)
    (fun c v => c = value_bytes operation (negb (is_some request_head)) v
                /\ typed_value v = true /\ heads_from request_head v
                /\ validate_addressed_actor (actor v) = Ok tt
                /\ address_for operation (address v) = true
                /\ transition_for operation (desired_transition v) = true
                /\ evidence_for operation (evidence v) = true
                /\ result_for operation (safe_result v) = true).
Proof.
  intros Hh. unfold rd_addressed_value. read_exact; b2p; subst.
  - unfold value_bytes, heads_bytes, typed_value, heads_from.
    cbn [actor address desired_transition evidence phase safe_result application_head
      publication_head mirror].
    destruct request_head as [h|]; cbn [is_some negb]; read_inv; cbn [fst snd];
      rewrite !andb_true_iff, <- ?app_assoc; split_and!; try done; by apply Hh.
  - unfold value_bytes, heads_bytes, typed_value, heads_from in *.
    destruct a as [ac ad t e p r h1 h2 m].
    cbn [actor address desired_transition evidence phase safe_result application_head
      publication_head mirror] in *. read_inv.
    assert (is_u16 (operation_code operation) = true) by (by destruct operation).
    read_step 1. split; [done|]. read_step (operation_code operation).
    split; [by rewrite Z.eqb_refl|]. read_step ac. read_step ad. read_step 1.
    split; [done|]. read_step t. read_step e. read_step p. read_step r. read_step (h1, h2).
    { destruct request_head; cbn [is_some negb]; [by read_inv|done]. }
    exists m. done.
Qed.

(** The decoder of an addressed value accepts exactly the encodings of valid values. *)
Lemma decode_value_exact operation l request_head v :
  is_bytes l = true -> (forall h, request_head = Some h -> typed_head h = true) ->
  decode_addressed_value operation l request_head = Ok v <->
  typed_value v = true /\ heads_from request_head v /\
  encode_addressed_value operation v (negb (is_some request_head)) = Ok l.
Proof.
  intros Hl Hh. pose proof (exact_value operation request_head Hh) as Hx.
  unfold decode_addressed_value. split.
  - destruct (Z.ltb_spec 426 (len l)); [done|].
    intros (v' & Hv & H')%bind_Ok. apply bind_Ok in H' as ([] & Hok & [= <-]).
    apply (read_all_exact _ _ _ _ Hx Hl) in Hv as (-> & ? & ? & _). split; [done|].
    split; [done|]. by rewrite encode_value_wire, Hok.
  - intros (Ht & Hheads & He). rewrite encode_value_wire in He by done.
    apply bind_Ok in He as ([] & Hok & [= <-]).
    pose proof (value_bytes_bound operation (negb (is_some request_head)) v Ht Hok).
    pose proof (len_mirror (mirror v) (typed_value_mirror v Ht)).
    destruct (Z.ltb_spec 426 (len (value_bytes operation (negb (is_some request_head)) v))).
    { destruct request_head; cbn in *; lia. }
    rewrite (proj2 (read_all_exact _ _ _ v Hx Hl)), Ok_bind, Hok; [done|].
    split; [done|]. split; [done|]. split; [done|]. unfold validate_addressed_value in Hok.
    apply bind_Ok in Hok as ([] & ? & Hok). apply bind_Ok in Hok as ([] & Hop & _).
    split; [done|]. unfold validate_operation in Hop.
    by destruct operation, (address v), (desired_transition v) as [[]|], (evidence v),
      (safe_result v).
Qed.

(** ** Actions *)

Definition action_tag (a : AddressedAction) : Z :=
  match a with PublishRequest _ => 1 | PublishPhase _ _ => 2 | CommitMirror _ => 3 end.

Definition action_payload (operation : AddressedOperation) (a : AddressedAction) : bytes :=
  match a with
  | PublishRequest value => value_bytes operation false value
  | PublishPhase phase result => [phase] ++ result_bytes result
  | CommitMirror post => head_bytes post
  end.

Definition action_bytes (operation : AddressedOperation) (a : AddressedAction) : bytes :=
  [1] ++ [action_tag a] ++ be_bytes 2 (len (action_payload operation a))
  ++ action_payload operation a.

(** What a request must satisfy to be published. *)
Definition publishable (operation : AddressedOperation) (a : AddressedAction) : Prop :=
  match a with
  | PublishRequest value =>
    phase value = 1 /\ is_committed (mirror value) = false
    /\ validate_addressed_value operation value = Ok tt
  | _ => True
  end.

(** The variant of the operation, under the head of its record. *)
Definition action_for (operation : AddressedOperation) (head : JournalHead)
    (a : AddressedAction) : Prop :=
  match a with
  | PublishRequest value => application_head value = head /\ publication_head value = head
  | PublishPhase _ result => result_for operation result = true
  | CommitMirror _ => True
  end.

Lemma payload_bound operation a :
  typed_action a = true -> publishable operation a ->
  len (action_payload operation a) <= 306.
Proof.
  destruct a as [v|p r|h]; cbn [typed_action publishable action_payload].
  - intros Hv (_ & Hc & Hok). pose proof (value_bytes_bound operation false v Hv Hok) as H. rewrite Z.add_0_r in H.
    apply typed_value_mirror in Hv.
    assert (len (mirror_bytes (mirror v)) <= 74); [|lia].
    clear H. revert Hv Hc. destruct (mirror v); cbn [typed_mirror mirror_bytes is_committed];
      intros; try done; typed_inv; lens; rewrite ?len_head_bytes by done; lia.
  - intros _ _. pose proof (len_result r). lens. lia.
  - intros Hh _. rewrite len_head_bytes by done. lia.
Qed.

(** The encoder of an action writes its wire form, which always fits. *)
Lemma encode_action_wire operation a l :
  typed_action a = true ->
  encode_addressed_action operation a = Ok l <->
  publishable operation a /\ l = action_bytes operation a.
Proof.
  intros Ha.
  assert (forall tag, publishable operation a -> tag = action_tag a ->
    finish 310 (put_u8 1 >>> put_u8 tag
      >>> lift (ok_or (checked is_u16 (len (action_payload operation a))) INVALID) put_u16
      >>> extend (action_payload operation a)) = Ok (action_bytes operation a)) as Hframe.
  { intros tag Hp ->. pose proof (payload_bound operation a Ha Hp).
    pose proof (len_nonneg (action_payload operation a)).
    rewrite (finish_emits _ _ (action_bytes operation a)).
    - rewrite (proj2 (Z.leb_le _ _)); [done|]. unfold action_bytes. lens. lia.
    - unfold action_bytes. apply emits_andThen; [apply emits_u8|].
      apply emits_andThen; [apply emits_u8|]. apply emits_andThen; [|apply emits_extend].
      apply (emits_lift _ (len (action_payload operation a))); [|apply emits_u16].
      apply ok_or_Ok, checked_Some. split; [done|]. apply within_spec. unfold u16_max. lia.
    - unfold u32_max. lia. }
  assert (forall w chunk, emits w chunk -> chunk = action_payload operation a ->
    publishable operation a -> finish 306 w = Ok chunk) as Hpay.
  { intros w chunk Hw -> Hp. pose proof (payload_bound operation a Ha Hp).
    rewrite (finish_emits _ _ _ Hw) by (unfold u32_max; lia).
    by rewrite (proj2 (Z.leb_le _ _)) by lia. }
  unfold encode_addressed_action. destruct a as [v|p r|h]; cbn [publishable] in *.
  - destruct (Z.eqb_spec (phase v) 1); cbn [negb orb]; [|split; [done|naive_solver]].
    destruct (is_committed (mirror v)); [split; [done|naive_solver]|].
    rewrite encode_value_wire by done.
    destruct (validate_addressed_value operation v) as [[]|] eqn:Hok;
      [|split; [done|naive_solver]].
    rewrite !Ok_bind, (Hpay _ _ (emits_extend _)) by done. rewrite !Ok_bind.
    rewrite Hframe by done. naive_solver.
  - rewrite (Hpay _ _ (emits_andThen _ _ _ _ (emits_u8 p) (emits_result r))) by done.
    rewrite !Ok_bind, Hframe by done. naive_solver.
  - rewrite (Hpay _ _ (emits_head h)) by done. rewrite !Ok_bind, Hframe by done. naive_solver.
Qed.

Lemma exact_frame :
  exact rd_action_frame (fun c p =>
    c = [1] ++ [p.1.1] ++ be_bytes 2 p.1.2 ++ p.2 /\ is_byte p.1.1 = true
    /\ is_u16 p.1.2 = true /\ length p.2 = Z.to_nat p.1.2 /\ is_bytes p.2 = true).
Proof.
  unfold rd_action_frame. read_exact; b2p; subst.
  - cbn [fst snd]. done.
  - destruct a as [[tag n] payload]. cbn [fst snd] in *. read_step 1. split; [done|].
    read_step tag. read_step n. by exists payload.
Qed.

Lemma exact_action operation head tag n :
  exact (rd_action operation head tag n) (fun c a =>
    tag = action_tag a /\
    match a with
    | PublishRequest v =>
      length c = Z.to_nat n /\ is_bytes c = true
      /\ decode_addressed_value operation c (Some head) = Ok v
    | _ => c = action_payload operation a /\ typed_action a = true
           /\ action_for operation head a
    end).
Proof.
  unfold rd_action. read_exact.
  - repeat case_match; read_inv; b2p; subst; try done; cbn [action_tag action_payload action_for
      typed_action]; simplify_eq; rewrite ?app_nil_r, ?andb_true_iff; by split_and!.
  - destruct a as [v|p r|h]; cbn [action_tag action_payload action_for typed_action] in *;
      read_inv; cbn [Z.eqb Pos.eqb].
    + eexists c, [], c. rewrite app_nil_r. split; [done|]. split; [by split_and!|]. by exists v.
    + read_step p. by exists r.
    + by exists h.
Qed.

(** The decoder of an action accepts exactly what the encoder writes for the actions
    of its operation under the given head. *)
Lemma decode_action_exact operation l head a :
  is_bytes l = true -> typed_head head = true ->
  decode_addressed_action operation l head = Ok a <->
  typed_action a = true /\ action_for operation head a /\
  encode_addressed_action operation a = Ok l.
Proof.
  intros Hl Hh. unfold decode_addressed_action. split.
  - intros ([[tag n] payload] & Hf & H)%bind_Ok.
    apply (read_all_exact _ _ _ _ exact_frame Hl) in Hf as (-> & _ & _ & _ & Hp).
    cbn [fst snd] in *.
    apply bind_Ok in H as (a' & Ha & H).
    apply (read_all_exact _ _ _ _ (exact_action _ _ _ _) Hp) in Ha as (_ & Ha).
    apply bind_Ok in H as (e & He & H). case_bool_decide as Heq; [|done].
    injection H as ->. rewrite He, Heq.
    destruct a as [v|p r|h]; cbn [typed_action action_for] in *; [|naive_solver..].
    destruct Ha as (_ & _ & (? & ? & _)%decode_value_exact); [done|done|naive_solver].
  - intros (Ht & Hf & He). pose proof He as [Hp ->]%encode_action_wire; [|done].
    pose proof (payload_bound operation a Ht Hp) as Hb.
    pose proof (len_nonneg (action_payload operation a)) as Hb'.
    assert (is_bytes (action_payload operation a) = true) as Hpb.
    { unfold action_bytes in Hl. rewrite !is_bytes_app in Hl. by typed_inv. }
    rewrite (proj2 (read_all_exact _ _ _
      (action_tag a, len (action_payload operation a), action_payload operation a)
      exact_frame Hl)).
    2: { cbn [fst snd]. split; [done|]. split; [by destruct a|].
         split; [apply within_spec; unfold u16_max; lia|]. split; [unfold len; lia|done]. }
    rewrite Ok_bind. cbv beta iota zeta.
    rewrite (proj2 (read_all_exact _ _ _ a (exact_action operation head _ _) Hpb)).
    2: { split; [done|]. destruct a as [v|p r|h]; [|by split_and!..].
         split; [unfold len; lia|]. split; [done|]. apply decode_value_exact; [done|naive_solver|].
         split; [done|]. split; [done|]. cbn [action_payload is_some negb].
         rewrite encode_value_wire by done. by destruct Hp as (_ & _ & ->). }
    rewrite Ok_bind, He, Ok_bind. by rewrite bool_decide_true.
Qed.

(** ** The wires are bytes *)

Lemma value_is_bytes operation with_heads v :
  typed_value v = true -> validate_addressed_actor (actor v) = Ok tt ->
  is_bytes (value_bytes operation with_heads v) = true.
Proof.
  intros Hv Ha. unfold typed_value in Hv. typed_inv.
  assert (is_bytes (actor_bytes (actor v)) = true).
  { apply validate_actor_Ok in Ha as [Hl _]. unfold actor_bytes.
    assert (is_byte (len (actor_parts (actor v)).2) = true) by (apply within_spec; lia).
    assert (is_bytes (actor_parts (actor v)).2 = true) by (by destruct (actor v)).
    wire_is_bytes. by destruct (actor v). }
  assert (is_bytes (address_bytes (address v)) = true).
  { destruct (address v); cbn [address_bytes typed_address] in *; typed_inv; by wire_is_bytes. }
  assert (is_bytes (transition_bytes (desired_transition v)) = true)
    by (destruct (desired_transition v); cbn [transition_bytes]; by wire_is_bytes).
  assert (is_bytes (evidence_bytes (evidence v)) = true).
  { destruct (evidence v) as [w t f [s|] g|t d]; cbn [evidence_bytes selected_bytes];
      by wire_is_bytes. }
  assert (is_bytes (result_bytes (safe_result v)) = true).
  { destruct (safe_result v); cbn [result_bytes typed_result] in *; by wire_is_bytes. }
  assert (is_bytes (mirror_bytes (mirror v)) = true).
  { destruct (mirror v); cbn [mirror_bytes typed_mirror] in *; typed_inv; by wire_is_bytes. }
  unfold value_bytes, heads_bytes. destruct with_heads; wire_is_bytes; by destruct operation.
Qed.

Lemma action_is_bytes operation a :
  typed_action a = true -> publishable operation a ->
  is_bytes (action_bytes operation a) = true.
Proof.
  intros Ht Hp. unfold action_bytes.
  assert (is_bytes (action_payload operation a) = true).
  { destruct a as [v|p r|h]; cbn [typed_action publishable action_payload] in *; typed_inv.
    - destruct Hp as (_ & _ & Hok). unfold validate_addressed_value in Hok.
      apply bind_Ok in Hok as ([] & Ha & _). by apply value_is_bytes.
    - assert (is_bytes (result_bytes r) = true).
      { destruct r; cbn [result_bytes typed_result] in *; by wire_is_bytes. }
      by wire_is_bytes.
    - by apply head_is_bytes. }
  wire_is_bytes. by destruct a.
Qed.
