(* ===== verification/Checkpoint.v ===== *)
(** * The checkpoint of a control-journal image
    ([initialization_key_pair/control_journal_image.rs] of [crates/msgriver/src],
    lines 23-136, 226-364, 676-702, 841-904 and 1539-1655)

    The projection a control-journal image carries, and the validation every encoder,
    decoder and replay step runs on it: what holds of a checkpoint that is accepted is
    [accepted_checkpoint]. *)

From S2P Require Import Prelude Bytes CoreError Generation Bounded Ring Sha256 Codec Clock.
From S2P Require Import Journal RecoveryRing GenerateProfile Pointer ImageWire Addressed.

#[local] Open Scope Z_scope.

Record AuthenticatedControlJournalHeader : Type := mkImageHeader {
  image_namespace : bytes;
  image_high_water : Z;
}.

(** ** Local commands *)

Inductive FixedRootOperation : Type :=
| ConfigurationActivate | StateKeyRotate | StateKeyRetire
| RecoveryKeyGenerate | RecoveryKeyImport | RecoveryKeyRetire
| BootstrapCreate | RestoreCreate | StateGenerationDelete
| UpgradePrepare | UpgradeMigrate | UpgradeActivate | UpgradeRollback.

#[export] Instance FixedRootOperation_eq_dec : EqDecision FixedRootOperation.
Proof. solve_decision. Defined.

(** [StableActorNamespace]; its variants are those of [AddressedActor]. *)
Inductive StableActorNamespace : Type := StablePrincipal (name : bytes) | StableStateOwner.

Record CommandTag : Type := mkCommandTag { tag_reference : MacKeyRef; tag_bytes : bytes }.

Inductive CommandRuntime : Type := Normal | Maintenance.

Inductive CommandRetention : Type :=
| Continuation
| Terminal (terminal_time expires_at : Z).

Record CommandSafeResult : Type := mkCommandSafeResult {
  result_codec : Z;
  result_version : Z;
  result_digest : bytes;
}.

Record CommandParentWitness : Type := mkCommandParentWitness {
  witness_origin : bytes;
  witness_head : JournalHead;
  witness_certificate_digest : bytes;
}.

Record CommandTargetBinding : Type := mkCommandTargetBinding {
  binding_source : bytes;
  binding_target : bytes;
  binding_source_generation : option Z;
  binding_target_generation : option Z;
  parent_witness : option CommandParentWitness;
}.

Record FixedRootCommandProjection : Type := mkFixedRootCommandProjection {
  command_operation : FixedRootOperation;
  command_actor : StableActorNamespace;
  command_lookup : CommandTag;
  semantic_fingerprint : CommandTag;
  phase_fingerprint : CommandTag;
  portable_reservation : CommandTag;
  runtime : CommandRuntime;
  process_instance : bytes;
  original_deadline : option Z;
  command_phase : Z;
  retention : CommandRetention;
  command_result : option CommandSafeResult;
  target_binding : option CommandTargetBinding;
  profile : RecoveryKeyGenerateProfile;
}.

(** ** Addressed cells *)

Inductive AddressedState : Type := Absent | Present (value : AddressedStateValue).

#[export] Instance AddressedState_eq_dec : EqDecision AddressedState.
Proof. solve_decision. Defined.

Record AddressedCell : Type := mkAddressedCell {
  operation : AddressedOperation;
  current : bool;
  state : AddressedState;
}.

(** ** The upgrade groups, which no codec supports yet *)

Record ProvenanceHeads : Type := mkProvenanceHeads {
  provenance_journal : JournalHead;
  provenance_store_digest : bytes;
  provenance_certificate_digest : bytes;
}.

Record UpgradeDivergedResolution : Type := mkUpgradeDivergedResolution {
  poison_digest : bytes;
  repair_command_digest : bytes;
  resolved_safe_time : Z;
  audit_supported_until : Z;
}.

Record UpgradeDivergedProvenance : Type := mkUpgradeDivergedProvenance {
  provenance_upgrade_id : bytes;
  provenance_source_generation : Z;
  provenance_target_generation : Z;
  detecting_phase : Z;
  expected : ProvenanceHeads;
  observed : ProvenanceHeads;
  authenticated_record_digest : bytes;
  resolution : option UpgradeDivergedResolution;
}.

Inductive CoordinatorPhase : Type := Quiescing | Prepared.

Inductive CoordinatorOutcome : Type := OutcomePending | Activated | RepairRequired | Repaired.

Record CoordinatorPreparedHeads : Type := mkCoordinatorPreparedHeads {
  prepared_source : JournalHead;
  prepared_store : JournalHead;
  prepared_effect : JournalHead;
  prepared_comparison : JournalHead;
  prepared_checkpoint : JournalHead;
  prepared_tail : JournalHead;
}.

Record FixedRootCoordinator : Type := mkFixedRootCoordinator {
  upgrade_id : bytes;
  source_generation : Z;
  target_generation : Z;
  coordinator_phase : CoordinatorPhase;
  safe_deadline : Z;
  monotonic_deadline : Z;
  prepared_heads : CoordinatorPreparedHeads;
  lifecycle_commitment : bytes;
  source_schema : Z;
  target_schema : Z;
  coordinator_certificate_digest : bytes;
  rollback_eligible : bool;
  divergence_digest : option bytes;
  activation_or_repair : CoordinatorOutcome;
}.

Abbreviation ClockAuthority := ClockAuthority.ClockAuthorityProjection.

Record UpgradeAuthorityMirror : Type := mkUpgradeAuthorityMirror {
  mirror_clock : ClockAuthority;
  mirror_clock_acknowledge : AddressedState;
  mirror_system_shutdown : AddressedState;
  local_command_count : Z;
}.

Record OpenUpgradeProjection : Type := mkOpenUpgradeProjection {
  source_head : JournalHead;
  target_head : JournalHead;
  certificate_head : JournalHead;
  open_phase : CoordinatorPhase;
  interval_start_head : JournalHead;
  allowed_lifecycle_count : Z;
  rolling_transcript_digest : bytes;
  last_covered_head : JournalHead;
  capacity_binding : bytes;
  upgrade_mirror : UpgradeAuthorityMirror;
}.

(** ** The checkpoint *)

Record CompleteCheckpoint : Type := mkCompleteCheckpoint {
  generation : Z;
  covered_head : JournalHead;
  clock_authority : ClockAuthority;
  active_pointer : option ActiveStatePointer;
  recovery_ring : list RecoveryRingEntry;
  local_commands : list FixedRootCommandProjection;
  addressed : list AddressedCell; (* [AddressedCell; 4] *)
  provenance : list UpgradeDivergedProvenance;
  coordinator : option FixedRootCoordinator;
  open_upgrade : option OpenUpgradeProjection;
}.

(** [checkpoint.addressed[index].state], and assigning it. *)
Definition cell_state (checkpoint : CompleteCheckpoint) (index : nat) : AddressedState :=
  match addressed checkpoint !! index with Some cell => state cell | None => Absent end.

Definition set_state (index : nat) (s : AddressedState) (checkpoint : CompleteCheckpoint)
    : CompleteCheckpoint :=
  mkCompleteCheckpoint (generation checkpoint) (covered_head checkpoint)
    (clock_authority checkpoint) (active_pointer checkpoint) (recovery_ring checkpoint)
    (local_commands checkpoint)
    (alter (fun cell => mkAddressedCell (operation cell) (current cell) s) index
       (addressed checkpoint))
    (provenance checkpoint) (coordinator checkpoint) (open_upgrade checkpoint).

Definition set_clock (clock : ClockAuthority) (checkpoint : CompleteCheckpoint)
    : CompleteCheckpoint :=
  mkCompleteCheckpoint (generation checkpoint) (covered_head checkpoint) clock
    (active_pointer checkpoint) (recovery_ring checkpoint) (local_commands checkpoint)
    (addressed checkpoint) (provenance checkpoint) (coordinator checkpoint)
    (open_upgrade checkpoint).

Definition set_covered (head : JournalHead) (checkpoint : CompleteCheckpoint)
    : CompleteCheckpoint :=
  mkCompleteCheckpoint (generation checkpoint) head (clock_authority checkpoint)
    (active_pointer checkpoint) (recovery_ring checkpoint) (local_commands checkpoint)
    (addressed checkpoint) (provenance checkpoint) (coordinator checkpoint)
    (open_upgrade checkpoint).

Definition set_generation (g : Z) (checkpoint : CompleteCheckpoint) : CompleteCheckpoint :=
  mkCompleteCheckpoint g (covered_head checkpoint) (clock_authority checkpoint)
    (active_pointer checkpoint) (recovery_ring checkpoint) (local_commands checkpoint)
    (addressed checkpoint) (provenance checkpoint) (coordinator checkpoint)
    (open_upgrade checkpoint).

(** The four empty cells of [std::array::from_fn]. *)
Definition cell_operation (index : nat) : AddressedOperation :=
  if (index <? 2)%nat then ClockAcknowledge else SystemShutdown.

Definition empty_cell (index : nat) : AddressedCell :=
  mkAddressedCell (cell_operation index) (index mod 2 =? 0)%nat Absent.

Definition empty_cells : list AddressedCell := map empty_cell (seq 0 4).

(** ** Validation of the addressed cells *)

Definition addressed_hold_matches (clock : ClockAuthority)
    (address : AddressedOperationAddress) : bool :=
  match ClockAuthority.hold clock with
  | Some hold =>
    bool_decide (address = ClockHold (ClockAuthority.generation hold)
                             (ClockAuthority.observation_digest hold))
  | None => false
  end.

(** A head past the covered one, or another record in its place. *)
Definition beyond (covered head : JournalHead) : bool :=
  (sequence covered <? sequence head)
  || ((sequence head =? sequence covered)
      && negb (bool_decide (digest head = digest covered))).

(** One fixed-root record under two operations. *)
Definition shares_record (cell : AddressedCell) (value : AddressedStateValue)
    (other : AddressedCell) : bool :=
  match state other with
  | Present other_value =>
    negb (bool_decide (operation cell = operation other))
    && existsb (fun head =>
         (sequence head =? sequence (application_head other_value))
         || (sequence head =? sequence (publication_head other_value)))
         [application_head value; publication_head value]
  | Absent => false
  end.

(** What the fixed clock authority asks of an acknowledgement. *)
Definition validate_clock_cell (clock : ClockAuthority) (cell : AddressedCell)
    (value : AddressedStateValue) : image_result unit :=
  match evidence value with
  | AcknowledgeEvidence _ _ _ _ target_safe_time =>
    if (2 <=? phase value) && (ClockAuthority.safe_time clock <? target_safe_time)
    then Err INVALID
    else
      match ClockAuthority.hold clock with
      | Some hold =>
        match address value with
        | ClockHold g _ =>
          if (ClockAuthority.generation hold <? g)
             || ((negb (current cell) || (g =? ClockAuthority.generation hold))
                 && negb (addressed_hold_matches clock (address value)))
          then Err INVALID else Ok tt
        | ProcessInstance _ => Err INVALID
        end
      | None => Ok tt
      end
  | ShutdownEvidence _ _ => Ok tt
  end.

Definition validate_cell (checkpoint : CompleteCheckpoint) (cell : AddressedCell)
    (value : AddressedStateValue) (others : list AddressedCell) : image_result unit :=
  _ ← validate_addressed_value (operation cell) value;
  if Bool.eqb (current cell) (addressed_complete value) then Err INVALID
  else if existsb (beyond (covered_head checkpoint))
            [application_head value; publication_head value] then Err INVALID
  else if existsb (shares_record cell value) others then Err INVALID
  else validate_clock_cell (clock_authority checkpoint) cell value.

Fixpoint validate_cells (checkpoint : CompleteCheckpoint) (cells : list AddressedCell)
    : image_result unit :=
  match cells with
  | [] => Ok tt
  | cell :: others =>
    _ ← match state cell with
        | Present value => validate_cell checkpoint cell value others
        | Absent => Ok tt
        end;
    validate_cells checkpoint others
  end.

Definition is_present (s : AddressedState) : bool :=
  match s with Present _ => true | Absent => false end.

Definition validate_addressed_cells (checkpoint : CompleteCheckpoint) : image_result unit :=
  _ ← validate_cells checkpoint (addressed checkpoint);
  if existsb (fun slot => is_present (cell_state checkpoint slot)
                          && is_present (cell_state checkpoint (S slot))) [0; 2]%nat
  then Err INVALID else Ok tt.

(** ** Validation of the commands *)

Definition ORDINARY_COMMAND_ENTRY_LIMIT : Z := 4032.

(** The actor of a command as its key and its wire form write it. *)
Definition command_actor_wire (a : StableActorNamespace) : image_result bytes :=
  match a with
  | StablePrincipal value =>
    _ ← map_err (fun _ => INVALID) (check_identifier value);
    length ← ok_or (checked is_u8 (len value)) INVALID;
    Ok ([1; length] ++ value)
  | StableStateOwner =>
    length ← ok_or (checked is_u8 (len STATE_OWNER_ACTOR)) INVALID;
    Ok ([2; length] ++ STATE_OWNER_ACTOR)
  end.

Definition command_projection_key (command : FixedRootCommandProjection)
    : image_result bytes :=
  actor ← command_actor_wire (command_actor command);
  let reference := tag_reference (command_lookup command) in
  if negb (bool_decide (purpose reference = CommandLookupV1)) then Err INVALID
  else Ok ([4] ++ actor ++ key_id reference ++ tag_bytes (command_lookup command)).

(** [matches!((command.phase, command.retention), ..)]. *)
Definition phase_retained (command : FixedRootCommandProjection) : bool :=
  match retention command with
  | Continuation => within 1 2 (command_phase command)
  | Terminal _ _ => within 3 4 (command_phase command)
  end.

Definition validate_command (command : FixedRootCommandProjection) : image_result bytes :=
  if negb (bool_decide (command_operation command = RecoveryKeyGenerate))
     || is_some (target_binding command) || negb (phase_retained command)
  then Err UNSUPPORTED
  else if match command_result command with
          | Some result => negb (result_codec result =? 118) || negb (result_version result =? 1)
          | None => false
          end
  then Err INVALID
  else if bool_decide (process_instance command = repeat 0 16) then Err INVALID
  else
    _ ← map_err (fun _ => INVALID)
          (decode_recovery_key_generate_profile
             (encode_recovery_key_generate_profile (profile command)));
    command_projection_key command.

(** [previous >= key] of two byte vectors. *)
Definition bytes_ge (a b : bytes) : bool :=
  match bytes_cmp a b with Lt => false | _ => true end.

Fixpoint validate_commands (previous_key : option bytes)
    (commands : list FixedRootCommandProjection) : image_result unit :=
  match commands with
  | [] => Ok tt
  | command :: rest =>
    key ← validate_command command;
    if match previous_key with Some previous => bytes_ge previous key | None => false end
    then Err INVALID
    else validate_commands (Some key) rest
  end.

(** ** Validation of the checkpoint *)

(** The loop over the cells' operations and roles. *)
Definition validate_cell_roles (cells : list AddressedCell) : image_result unit :=
  if forallb (fun p => bool_decide (operation p.2 = cell_operation p.1)
                       && Bool.eqb (current p.2) (p.1 mod 2 =? 0)%nat)
       (combine (seq 0 (length cells)) cells)
  then Ok tt else Err INVALID.

Definition validate_checkpoint (checkpoint : CompleteCheckpoint) : image_result unit :=
  if generation checkpoint =? 0 then Err INVALID
  else
    _ ← validate_head (covered_head checkpoint);
    _ ← map_err (fun _ => INVALID)
          (ClockAuthority.encode_clock_authority_projection (clock_authority checkpoint));
    _ ← validate_cell_roles (addressed checkpoint);
    _ ← validate_addressed_cells checkpoint;
    if negb (bool_decide (length (provenance checkpoint) = 0%nat))
       || is_some (coordinator checkpoint) || is_some (open_upgrade checkpoint)
    then Err UNSUPPORTED
    else if ORDINARY_COMMAND_ENTRY_LIMIT <? Z.of_nat (length (local_commands checkpoint))
    then Err INVALID
    else validate_commands None (local_commands checkpoint).

(** ** What an accepted checkpoint satisfies *)

Definition same_role (a b : AddressedCell) : Prop :=
  operation a = operation b /\ current a = current b.

Definition cell_valid (c : AddressedCell) : Prop :=
  match state c with
  | Absent => True
  | Present v => validate_addressed_value (operation c) v = Ok tt
  end.

Lemma validate_cells_valid c cells :
  validate_cells c cells = Ok tt -> Forall cell_valid cells.
Proof.
  induction cells as [|cell cells IH]; cbn [validate_cells]; intros H; constructor.
  - apply bind_Ok in H as ([] & H & _). unfold cell_valid. destruct (state cell) as [|v]; [done|].
    unfold validate_cell in H. by apply bind_Ok in H as ([] & ? & _).
  - apply bind_Ok in H as ([] & _ & H). by apply IH.
Qed.

Lemma validate_commands_each previous commands :
  validate_commands previous commands = Ok tt ->
  Forall (fun p => is_ok (validate_command p) = true) commands.
Proof.
  revert previous. induction commands as [|p commands IH]; cbn [validate_commands];
    intros previous H; constructor.
  - apply bind_Ok in H as (key & -> & _). done.
  - apply bind_Ok in H as (key & _ & H).
    destruct (match previous with Some previous => bytes_ge previous key | None => false end);
      [done|]. by eapply IH.
Qed.

Lemma roles_spec cells :
  length cells = 4%nat -> validate_cell_roles cells = Ok tt <->
  Forall2 same_role empty_cells cells.
Proof.
  intros Hl. destruct cells as [|a [|b [|c [|d [|]]]]]; try done. clear Hl.
  unfold validate_cell_roles, empty_cells, same_role.
  cbn [length seq combine forallb map snd fst].
  rewrite !Forall2_cons, Forall2_nil. cbn [empty_cell operation current].
  unfold empty_cell, cell_operation. cbn.
  repeat case_bool_decide; destruct (current a), (current b), (current c), (current d); cbn;
    naive_solver.
Qed.

Record accepted_checkpoint (c : CompleteCheckpoint) : Prop := mkAccepted {
  accepted_generation : generation c <> 0;
  accepted_head : validate_head (covered_head c) = Ok tt;
  accepted_clock :
    is_ok (ClockAuthority.encode_clock_authority_projection (clock_authority c)) = true;
  accepted_roles : validate_cell_roles (addressed c) = Ok tt;
  accepted_cells : validate_addressed_cells c = Ok tt;
  accepted_provenance : provenance c = [];
  accepted_coordinator : coordinator c = None;
  accepted_upgrade : open_upgrade c = None;
  accepted_count : Z.of_nat (length (local_commands c)) <= ORDINARY_COMMAND_ENTRY_LIMIT;
  accepted_commands : validate_commands None (local_commands c) = Ok tt;
}.

Lemma validate_checkpoint_Ok c :
  validate_checkpoint c = Ok tt <-> accepted_checkpoint c.
Proof.
  unfold validate_checkpoint. split.
  - intros H. encode_inv H. destruct x, x1, x2.
    apply orb_false_iff in Hb0 as [[Hp Hc]%orb_false_iff Hu]. b2p.
    apply map_err_Ok in Hx0. split; try done.
    + by rewrite Hx0.
    + by destruct (provenance c).
    + by destruct (coordinator c).
    + by destruct (open_upgrade c).
  - intros [Hg Hh Hcl Hr Hce Hp Hc Hu Hn Hcm].
    rewrite (proj2 (Z.eqb_neq _ _) Hg), Hh, Ok_bind.
    destruct (ClockAuthority.encode_clock_authority_projection (clock_authority c)); [|done].
    cbn [map_err]. rewrite Ok_bind, Hr, Ok_bind, Hce, Ok_bind, Hp, Hc, Hu.
    cbn [length is_some]. rewrite bool_decide_true by done. cbn [negb orb].
    by rewrite (proj2 (Z.ltb_ge _ _)) by lia.
Qed.

Lemma accepted_cells_valid c : accepted_checkpoint c -> Forall cell_valid (addressed c).
Proof.
  intros Hc. pose proof (accepted_cells c Hc) as H. unfold validate_addressed_cells in H.
  apply bind_Ok in H as ([] & H & _). by eapply validate_cells_valid.
Qed.

Lemma accepted_commands_valid c :
  accepted_checkpoint c ->
  Forall (fun p => is_ok (validate_command p) = true) (local_commands c).
Proof. intros Hc. eapply validate_commands_each, accepted_commands, Hc. Qed.
