(* ===== verification/CheckpointCodec.v ===== *)
(** * The checkpoint codec
    ([initialization_key_pair/control_journal_image.rs] of [crates/msgriver/src],
    lines 584-592, 1628-1920 and 1970-2148)

    Command projections, the command member, the recovery ring, and the thirteen
    members of a checkpoint payload. The decoder accepts exactly the payloads the
    encoder writes for well-typed checkpoints. *)

From S2P Require Import Prelude Bytes CoreError Generation Bounded Ring Sha256 Codec Clock.
From S2P Require Import Journal RecoveryRing GenerateProfile Pointer ImageWire Addressed.
From S2P Require Import Checkpoint.

#[local] Open Scope Z_scope.

Definition IMAGE_LIMIT : Z := 8 * 1024 * 1024.
Definition CHECKPOINT_LIMIT : Z := 6 * 1024 * 1024 - 16 * 1024.
Definition ORDINARY_LIMIT : Z := 4 * 1024 * 1024 - 16 * 1024.
Definition RECONCILIATION_LIMIT : Z := 2 * 1024 * 1024.
Definition TAIL_LIMIT : Z := 2 * 1024 * 1024.
Definition FRAME_LIMIT : Z := 16 * 1024.
Definition TAIL_COUNT_LIMIT : Z := 128.
Definition CHECKPOINT_MEMBERS : Z := 13.

(** ** Command projections *)

Definition expected_prebootstrap_origin (owner_namespace : bytes) : bytes :=
  take 24 owner_namespace ++ repeat 0 8.

Definition validate_command_tag (tag : CommandTag) (expected_purpose : MacPurpose)
    (expected_prebootstrap_origin : bytes) : image_result unit :=
  if negb (bool_decide (purpose (tag_reference tag) = expected_purpose)) then Err INVALID
  else
    let key := key_id (tag_reference tag) in
    if all_zero (drop 32 key) then Err INVALID
    else
      let origin_serial_is_zero := all_zero (slice key 24 32) in
      if origin_serial_is_zero
         && (negb (bool_decide (expected_purpose = PortableReservationV1))
             || negb (bool_decide (take 32 key = expected_prebootstrap_origin)))
      then Err INVALID else Ok tt.

(** The four tags of a projection with the purpose each must have. *)
Definition command_tags (p : FixedRootCommandProjection) : list (CommandTag * MacPurpose) :=
  [(command_lookup p, CommandLookupV1);
   (semantic_fingerprint p, CommandSemanticFingerprintV1);
   (phase_fingerprint p, CommandPhaseFingerprintV1);
   (portable_reservation p, PortableReservationV1)].

Fixpoint validate_tags (owner_namespace : bytes) (tags : list (CommandTag * MacPurpose))
    : image_result unit :=
  match tags with
  | [] => Ok tt
  | (tag, expected) :: rest =>
    _ ← validate_command_tag tag expected (expected_prebootstrap_origin owner_namespace);
    validate_tags owner_namespace rest
  end.

Definition tag_wire (tag : CommandTag) : bytes := key_id (tag_reference tag) ++ tag_bytes tag.

Definition runtime_code (r : CommandRuntime) : Z :=
  match r with Normal => 1 | Maintenance => 2 end.

Definition deadline_wire (d : option Z) : bytes :=
  match d with None => [0] | Some value => [1] ++ be_bytes 8 value end.

Definition retention_wire (p : FixedRootCommandProjection) : image_result bytes :=
  match retention p with
  | Continuation => Ok [1; 0; 0]
  | Terminal terminal_time expires_at =>
    if (terminal_time <? expires_at) && is_some (command_result p)
    then Ok ([2; 1] ++ be_bytes 8 terminal_time ++ [1] ++ be_bytes 8 expires_at)
    else Err INVALID
  end.

Definition safe_result_wire (r : option CommandSafeResult) : bytes :=
  match r with
  | None => [0]
  | Some result =>
    [1] ++ be_bytes 2 (result_codec result) ++ be_bytes 2 (result_version result)
    ++ result_digest result
  end.

Definition encode_command_projection (owner_namespace : bytes)
    (projection : FixedRootCommandProjection) : image_result bytes :=
  if negb (bool_decide (command_operation projection = RecoveryKeyGenerate))
     || is_some (target_binding projection)
  then Err UNSUPPORTED
  else
    actor ← command_actor_wire (command_actor projection);
    _ ← validate_tags owner_namespace (command_tags projection);
    retained ← retention_wire projection;
    let encoded := encode_recovery_key_generate_profile (profile projection) in
    profile_length ← ok_or (checked is_u16 (len encoded)) INVALID;
    let wire :=
      [1; 4] ++ actor ++ tag_wire (command_lookup projection)
      ++ tag_wire (semantic_fingerprint projection)
      ++ tag_wire (phase_fingerprint projection)
      ++ tag_wire (portable_reservation projection) ++ [runtime_code (runtime projection)]
      ++ process_instance projection ++ deadline_wire (original_deadline projection)
      ++ be_bytes 2 (command_phase projection) ++ retained
      ++ safe_result_wire (command_result projection) ++ [0]
      ++ be_bytes 2 profile_length ++ encoded in
    if 16274 <? len wire then Err INVALID else Ok wire.

Definition rd_command_actor : Reading StableActorNamespace :=
  kind ← rd_u8;
  if kind =? 1 then
    length ← rd_u8;
    value ← rd_take (Z.to_nat length);
    _ ← from (map_err (fun _ => INVALID) (check_identifier value));
    mret (StablePrincipal value)
  else if kind =? 2 then
    length ← rd_u8;
    value ← rd_take (Z.to_nat length);
    if negb (bool_decide (value = STATE_OWNER_ACTOR)) then fail INVALID
    else mret StableStateOwner
  else fail INVALID.

Definition rd_tag (p : MacPurpose) : Reading CommandTag :=
  key ← rd_array 40; tag ← rd_array 32; mret (mkCommandTag (mkMacKeyRef p key) tag).

Definition rd_runtime : Reading CommandRuntime :=
  code ← rd_u8;
  from (if code =? 1 then Ok Normal else if code =? 2 then Ok Maintenance else Err INVALID).

Definition rd_deadline : Reading (option Z) :=
  tag ← rd_u8;
  if tag =? 0 then mret None
  else if tag =? 1 then value ← rd_i64; mret (Some value)
  else fail INVALID.

Definition rd_retention : Reading CommandRetention :=
  kind ← rd_u8;
  time_tag ← rd_u8;
  if (kind =? 1) && (time_tag =? 0) then
    expiry_tag ← rd_u8;
    if negb (expiry_tag =? 0) then fail INVALID else mret Continuation
  else if (kind =? 2) && (time_tag =? 1) then
    terminal_time ← rd_i64;
    expiry_tag ← rd_u8;
    if negb (expiry_tag =? 1) then fail INVALID
    else expires_at ← rd_i64; mret (Terminal terminal_time expires_at)
  else fail INVALID.

Definition rd_safe_result : Reading (option CommandSafeResult) :=
  tag ← rd_u8;
  if tag =? 0 then mret None
  else if tag =? 1 then
    codec ← rd_u16; version ← rd_u16; digest ← rd_array 32;
    mret (Some (mkCommandSafeResult codec version digest))
  else fail INVALID.

Definition rd_profile : Reading RecoveryKeyGenerateProfile :=
  length ← rd_u16;
  l ← rd_take (Z.to_nat length);
  from (map_err (fun _ => INVALID) (decode_recovery_key_generate_profile l)).

Definition rd_command_projection (owner_namespace : bytes)
    : Reading FixedRootCommandProjection :=
  version ← rd_u8;
  if negb (version =? 1) then fail UNSUPPORTED
  else
    operation ← rd_u8;
    if negb (operation =? 4) then fail UNSUPPORTED
    else
      actor ← rd_command_actor;
      lookup ← rd_tag CommandLookupV1;
      semantic ← rd_tag CommandSemanticFingerprintV1;
      phased ← rd_tag CommandPhaseFingerprintV1;
      reservation ← rd_tag PortableReservationV1;
      _ ← from (validate_tags owner_namespace
                  [(lookup, CommandLookupV1); (semantic, CommandSemanticFingerprintV1);
                   (phased, CommandPhaseFingerprintV1);
                   (reservation, PortableReservationV1)]);
      runtime ← rd_runtime;
      process_instance ← rd_array 16;
      deadline ← rd_deadline;
      phase ← rd_u16;
      retention ← rd_retention;
      safe_result ← rd_safe_result;
      binding ← rd_u8;
      if negb (binding =? 0) then fail UNSUPPORTED
      else
        profile ← rd_profile;
        mret (mkFixedRootCommandProjection RecoveryKeyGenerate actor lookup semantic phased
                reservation runtime process_instance deadline phase retention safe_result
                None profile).

(** The checkpoint a decoded projection is validated in. *)
Definition singleton_checkpoint (projection : FixedRootCommandProjection)
    : CompleteCheckpoint :=
  mkCompleteCheckpoint 1 (mkJournalHead 0 (repeat 0 32))
    (ClockAuthority.mkClockAuthorityProjection 0 None None) None [] [projection] empty_cells
    [] None None.

Definition decode_command_projection (owner_namespace wire : bytes)
    : image_result FixedRootCommandProjection :=
  projection ← read_all (rd_command_projection owner_namespace) wire;
  _ ← validate_checkpoint (singleton_checkpoint projection);
  Ok projection.

(** ** The command member *)

Fixpoint put_commands (owner_namespace : bytes) (commands : list FixedRootCommandProjection)
    : Writing :=
  match commands with
  | [] => skip
  | command :: rest =>
    lift (encode_command_projection owner_namespace command) (fun wire =>
      lift (ok_or (checked is_u16 (len wire)) INVALID) put_u16 >>> extend wire)
    >>> put_commands owner_namespace rest
  end.

Definition encode_command_member (owner_namespace : bytes)
    (commands : list FixedRootCommandProjection) : image_result bytes :=
  let count := Z.of_nat (length commands) in
  if ORDINARY_COMMAND_ENTRY_LIMIT <? count then Err INVALID
  else
    finish (ORDINARY_LIMIT - 72)
      (lift (ok_or (checked is_u32 count) INVALID) put_u32
       >>> put_commands owner_namespace commands).

Fixpoint rd_commands (owner_namespace : bytes) (count : nat)
    : Reading (list FixedRootCommandProjection) :=
  match count with
  | O => mret []
  | S count' =>
    length ← rd_u16;
    wire ← rd_take (Z.to_nat length);
    command ← from (decode_command_projection owner_namespace wire);
    rest ← rd_commands owner_namespace count';
    mret (command :: rest)
  end.

Definition rd_command_member (owner_namespace : bytes) (total : Z)
    : Reading (list FixedRootCommandProjection) :=
  count ← rd_u32;
  if (ORDINARY_COMMAND_ENTRY_LIMIT <? count) || (Z.max 0 (total - 4) / 2 <? count)
  then fail INVALID
  else rd_commands owner_namespace (Z.to_nat count).

Definition decode_command_member (owner_namespace l : bytes)
    : image_result (list FixedRootCommandProjection) :=
  read_all (rd_command_member owner_namespace (len l)) l.

(** ** The checkpoint payload *)

Section with_hmac.
Context `{HmacSha256}.

(** The image's ring entry is the manifest's, field by field. *)
Definition encode_ring (key : JournalIntegrityKey) (entries : list RecoveryRingEntry)
    : image_result bytes :=
  if 16 <? Z.of_nat (length entries) then Err INVALID
  else map_err (fun _ => INVALID) (encode_recovery_ring_manifest key entries).

Definition decode_ring (key : JournalIntegrityKey) (l : bytes)
    : image_result (list RecoveryRingEntry) :=
  map_err (fun _ => INVALID) (decode_recovery_ring_manifest key l).

Definition encode_pointer_member (key : JournalIntegrityKey)
    (pointer : option ActiveStatePointer) : image_result bytes :=
  finish 625
    (match pointer with
     | None => put_u8 0
     | Some value =>
       put_u8 1
       >>> lift (map_err (fun _ => INVALID) (encode_active_state_pointer key value)) extend
     end).

Definition cell_body (cell : AddressedCell) : image_result bytes :=
  match state cell with
  | Absent => Ok [0]
  | Present value => encode_addressed_value (operation cell) value true
  end.

Fixpoint put_cells (tag : Z) (cells : list AddressedCell) : Writing :=
  match cells with
  | [] => skip
  | cell :: rest => lift (cell_body cell) (put_member tag) >>> put_cells (tag + 1) rest
  end.

(** The ordinary members one to six. *)
Definition put_ordinary (key : JournalIntegrityKey) (owner_namespace : bytes)
    (checkpoint : CompleteCheckpoint) : Writing :=
  put_member 1 (be_bytes 8 (generation checkpoint))
  >>> lift (finish 40 (put_head (covered_head checkpoint))) (put_member 2)
  >>> lift (map_err (fun _ => INVALID)
        (ClockAuthority.encode_clock_authority_projection (clock_authority checkpoint)))
        (put_member 3)
  >>> lift (encode_pointer_member key (active_pointer checkpoint)) (put_member 4)
  >>> lift (encode_ring key (recovery_ring checkpoint)) (put_member 5)
  >>> lift (encode_command_member owner_namespace (local_commands checkpoint)) (put_member 6).

(** The explicit absence of the unsupported members. *)
Definition put_suffix : Writing :=
  put_member 11 (be_bytes 4 0) >>> put_member 12 [0] >>> put_member 13 [0].

Definition encode_checkpoint (key : JournalIntegrityKey) (owner_namespace : bytes)
    (checkpoint : CompleteCheckpoint) : image_result bytes :=
  _ ← validate_checkpoint checkpoint;
  ordinary ← finish (ORDINARY_LIMIT - 72) (put_ordinary key owner_namespace checkpoint);
  reconciliation ← finish RECONCILIATION_LIMIT (put_cells 7 (addressed checkpoint));
  suffix ← finish ORDINARY_LIMIT put_suffix;
  if ORDINARY_LIMIT <? len ordinary + len suffix + 72 then Err INVALID
  else
    finish (CHECKPOINT_LIMIT - 72)
      (extend ordinary >>> extend reconciliation >>> extend suffix).

Definition decode_pointer_member (key : JournalIntegrityKey) (l : bytes)
    : image_result (option ActiveStatePointer) :=
  read_all
    (tag ← rd_u8;
     if tag =? 0 then mret None
     else if tag =? 1 then
       wire ← rd_rest;
       pointer ← from (map_err (fun _ => INVALID) (decode_active_state_pointer key wire));
       mret (Some pointer)
     else fail INVALID) l.

(** [(7..=10).zip(&mut addressed)]: each cell with its tag. *)
Fixpoint rd_cells (tag : Z) (cells : list AddressedCell) : Reading (list AddressedCell) :=
  match cells with
  | [] => mret []
  | cell :: rest =>
    body ← rd_member tag;
    s ← from (if bool_decide (body = [0]) then Ok (state cell)
              else Present <$> decode_addressed_value (operation cell) body None);
    cells ← rd_cells (tag + 1) rest;
    mret (mkAddressedCell (operation cell) (current cell) s :: cells)
  end.

Definition rd_checkpoint (key : JournalIntegrityKey) (owner_namespace : bytes)
    : Reading CompleteCheckpoint :=
  member ← rd_member 1; generation ← from (read_all rd_u64 member);
  member ← rd_member 2; covered_head ← from (read_all rd_head member);
  member ← rd_member 3;
  clock_authority ← from (map_err (fun _ => INVALID)
                            (ClockAuthority.decode_clock_authority_projection member));
  member ← rd_member 4; active_pointer ← from (decode_pointer_member key member);
  member ← rd_member 5; recovery_ring ← from (decode_ring key member);
  member ← rd_member 6; local_commands ← from (decode_command_member owner_namespace member);
  addressed ← rd_cells 7 empty_cells;
  member ← rd_member 11;
  if negb (bool_decide (member = be_bytes 4 0)) then fail INVALID
  else
    member ← rd_member 12;
    if negb (bool_decide (member = [0])) then fail INVALID
    else
      member ← rd_member 13;
      if negb (bool_decide (member = [0])) then fail INVALID
      else
        mret (mkCompleteCheckpoint generation covered_head clock_authority active_pointer
                recovery_ring local_commands addressed [] None None).

Definition decode_checkpoint (key : JournalIntegrityKey) (owner_namespace l : bytes)
    : image_result CompleteCheckpoint :=
  checkpoint ← read_all (rd_checkpoint key owner_namespace) l;
  encoded ← map_err (fun _ => INVALID) (encode_checkpoint key owner_namespace checkpoint);
  if negb (bool_decide (encoded = l)) then Err INVALID else Ok checkpoint.
End with_hmac.

(** ** The values the Rust types admit *)

Definition typed_tag (t : CommandTag) : bool :=
  array 40 (key_id (tag_reference t)) && array 32 (tag_bytes t).

Definition typed_stable_actor (a : StableActorNamespace) : bool :=
  match a with StablePrincipal l => is_bytes l | StableStateOwner => true end.

Definition typed_retention (r : CommandRetention) : bool :=
  match r with
  | Continuation => true
  | Terminal terminal_time expires_at => is_i64 terminal_time && is_i64 expires_at
  end.

Definition typed_safe_result (r : CommandSafeResult) : bool :=
  is_u16 (result_codec r) && is_u16 (result_version r) && array 32 (result_digest r).

Definition typed_command (p : FixedRootCommandProjection) : bool :=
  typed_stable_actor (command_actor p) && typed_tag (command_lookup p)
  && typed_tag (semantic_fingerprint p) && typed_tag (phase_fingerprint p)
  && typed_tag (portable_reservation p) && array 16 (process_instance p)
  && on_some is_i64 (original_deadline p) && is_u16 (command_phase p)
  && typed_retention (retention p) && on_some typed_safe_result (command_result p)
  && GenerateProfile.typed (profile p).

Definition typed_cell (c : AddressedCell) : bool :=
  match state c with Absent => true | Present value => typed_value value end.

(** The members the encoder supports; it refuses the others whatever they hold. *)
Definition typed_checkpoint (c : CompleteCheckpoint) : bool :=
  is_u64 (generation c) && typed_head (covered_head c)
  && ClockAuthority.typed (clock_authority c) && on_some typed_pointer (active_pointer c)
  && RecoveryRing.typed (recovery_ring c) && forallb typed_command (local_commands c)
  && (length (addressed c) =? 4)%nat && forallb typed_cell (addressed c).

(** ** The wire forms *)

Definition stable_actor_parts (a : StableActorNamespace) : Z * bytes :=
  match a with StablePrincipal l => (1, l) | StableStateOwner => (2, STATE_OWNER_ACTOR) end.

Definition stable_actor_bytes (a : StableActorNamespace) : bytes :=
  [(stable_actor_parts a).1] ++ [len (stable_actor_parts a).2] ++ (stable_actor_parts a).2.

Definition retention_bytes (r : CommandRetention) : bytes :=
  match r with
  | Continuation => [1; 0; 0]
  | Terminal terminal_time expires_at =>
    [2; 1] ++ be_bytes 8 terminal_time ++ [1] ++ be_bytes 8 expires_at
  end.

Definition profile_bytes (p : RecoveryKeyGenerateProfile) : bytes :=
  be_bytes 2 (len (encode_recovery_key_generate_profile p))
  ++ encode_recovery_key_generate_profile p.

Definition command_bytes (p : FixedRootCommandProjection) : bytes :=
  [1] ++ [4] ++ stable_actor_bytes (command_actor p) ++ tag_wire (command_lookup p)
  ++ tag_wire (semantic_fingerprint p) ++ tag_wire (phase_fingerprint p)
  ++ tag_wire (portable_reservation p) ++ [runtime_code (runtime p)]
  ++ process_instance p ++ deadline_wire (original_deadline p)
  ++ be_bytes 2 (command_phase p) ++ retention_bytes (retention p)
  ++ safe_result_wire (command_result p) ++ [0] ++ profile_bytes (profile p).

Definition identified (a : StableActorNamespace) : Prop :=
  match a with StablePrincipal l => check_identifier l = Ok tt | StableStateOwner => True end.

(** ** Commands: what is read *)

Lemma exact_stable_actor :
  exact rd_command_actor (fun c a =>
    c = stable_actor_bytes a /\ typed_stable_actor a = true /\ identified a).
Proof.
  unfold rd_command_actor. read_exact.
  - repeat case_match; read_inv; b2p; subst; try done; taken; rewrite app_nil_r;
      (split; [done|]; split; [done|]); [|done].
    cbn. destruct x7. by apply (map_err_Ok (fun _ => INVALID)).
  - assert (1 <= len (stable_actor_parts a).2 <= 128) as Hl.
    { destruct a; [by apply identifier_length|done]. }
    assert (is_byte (len (stable_actor_parts a).2) = true) by (apply within_spec; lia).
    pose proof (take_length (stable_actor_parts a).2).
    destruct a as [l|]; unfold stable_actor_bytes; cbn [stable_actor_parts fst snd] in *.
    + read_step 1. cbn [Z.eqb Pos.eqb]. read_step (len l).
      eexists _, [], l. rewrite app_nil_r. split; [done|]. split; [done|]. exists tt.
      match goal with H : identified _ |- _ => cbn in H; by rewrite H end.
    + read_step 2. cbn [Z.eqb Pos.eqb]. read_step (len STATE_OWNER_ACTOR).
      eexists _, [], STATE_OWNER_ACTOR. by rewrite app_nil_r.
Qed.

Lemma exact_tag p :
  exact (rd_tag p) (fun c t => c = tag_wire t /\ typed_tag t = true
                               /\ purpose (tag_reference t) = p).
Proof.
  unfold rd_tag. read_exact; unfold tag_wire, typed_tag in *; cbn in *.
  - by rewrite andb_true_iff.
  - destruct a as [[q key] tag]. cbn in *. subst. read_inv. read_build.
Qed.

Lemma exact_runtime : exact rd_runtime (fun c r => c = [runtime_code r]).
Proof.
  unfold rd_runtime. read_exact.
  - rewrite app_nil_r. repeat case_match; simplify_eq; b2p; by subst.
  - exists [runtime_code a], [], (runtime_code a). by destruct a.
Qed.

Lemma exact_deadline :
  exact rd_deadline (fun c d => c = deadline_wire d /\ on_some is_i64 d = true).
Proof.
  unfold rd_deadline. read_exact.
  - repeat case_match; read_inv; b2p; subst; done.
  - destruct a as [d|]; cbn [deadline_wire on_some] in *.
    + read_step 1. cbn [Z.eqb Pos.eqb]. read_build.
    + by exists [0], [], 0.
Qed.

Lemma exact_safe_result :
  exact rd_safe_result (fun c r => c = safe_result_wire r /\ on_some typed_safe_result r = true).
Proof.
  unfold rd_safe_result. read_exact.
  - repeat case_match; read_inv; b2p; subst; try done. cbn. unfold typed_safe_result. cbn.
    by rewrite !andb_true_iff.
  - destruct a as [[c v d]|]; unfold typed_safe_result in *;
      cbn [safe_result_wire on_some result_codec result_version result_digest] in *.
    + read_inv. read_step 1. cbn [Z.eqb Pos.eqb]. read_build.
    + by exists [0], [], 0.
Qed.

Lemma exact_retention :
  exact rd_retention (fun c r => c = retention_bytes r /\ typed_retention r = true).
Proof.
  unfold rd_retention. read_exact.
  - repeat case_match; read_inv; b2p; read_inv; subst; try done. cbn. by rewrite andb_true_iff.
  - destruct a as [|t e]; cbn [retention_bytes typed_retention] in *.
    + exists [1], [0; 0], 1. split_and!; try done. exists [0], [0], 0. split_and!; try done.
      by exists [0], [], 0.
    + read_inv. change ([2; 1] ++ ?x) with ([2] ++ [1] ++ x). read_step 2. read_step 1.
      cbn [Z.eqb Pos.eqb andb]. read_step t. read_step 1. split; [done|]. read_build.
Qed.
#[export] Hint Resolve exact_stable_actor exact_tag exact_runtime exact_deadline
  exact_safe_result exact_retention : reading.

Lemma profile_length p :
  GenerateProfile.typed p = true -> 3 <= len (encode_recovery_key_generate_profile p) <= 69.
Proof.
  unfold GenerateProfile.typed, encode_recovery_key_generate_profile. intros Ht.
  destruct p as [v [i|] [c|]]; cbn in *; typed_inv;
    repeat match goal with H : array _ _ = true |- _ => apply array_spec in H as [? _] end;
    unfold len; rewrite ?app_nil_r; cbn [length]; rewrite ?length_app; cbn [length]; lia.
Qed.

Lemma profile_is_bytes p :
  GenerateProfile.typed p = true -> is_bytes (encode_recovery_key_generate_profile p) = true.
Proof.
  unfold GenerateProfile.typed, encode_recovery_key_generate_profile. intros Ht.
  destruct p as [[] [i|] [c|]]; cbn in *; typed_inv; rewrite ?is_bytes_app; cbn;
    rewrite ?andb_true_r;
    repeat match goal with H : array _ _ = true |- _ => apply is_bytes_array in H end;
    unfold is_bytes in *; rewrite ?forallb_app; cbn;
    repeat match goal with H : forallb _ _ = true |- _ => rewrite H; clear H end; done.
Qed.

Lemma exact_profile :
  exact rd_profile (fun c p => c = profile_bytes p /\ GenerateProfile.typed p = true).
Proof.
  unfold rd_profile. read_exact.
  - taken. apply map_err_Ok, profile_decode_sound in H4 as [? <-]; [|done]. by rewrite app_nil_r.
  - pose proof (profile_length a H0). unfold profile_bytes.
    pose proof (profile_is_bytes a H0). read_step (len (encode_recovery_key_generate_profile a)).
    { split; [done|]. apply within_spec. unfold u16_max. lia. }
    exists (encode_recovery_key_generate_profile a), [], (encode_recovery_key_generate_profile a).
    rewrite app_nil_r, map_err_Ok, profile_decode_complete by done. split; [done|].
    by pose proof (take_length (encode_recovery_key_generate_profile a)).
Qed.
#[export] Hint Resolve exact_profile : reading.

(** The tags of [p] carry their purposes and no foreign pre-bootstrap origin. *)
Definition tagged (owner_namespace : bytes) (p : FixedRootCommandProjection) : Prop :=
  validate_tags owner_namespace (command_tags p) = Ok tt.

Lemma validate_tags_purposes owner_namespace p :
  tagged owner_namespace p ->
  Forall (fun t => purpose (tag_reference t.1) = t.2) (command_tags p).
Proof.
  unfold tagged. generalize (command_tags p). intros l.
  induction l as [|[t e] l IH]; cbn [validate_tags]; intros H; constructor.
  - apply bind_Ok in H as ([] & Ht & _). unfold validate_command_tag in Ht.
    cbn. by destruct (bool_decide_reflect (purpose (tag_reference t) = e)).
  - apply bind_Ok in H as ([] & _ & H). by apply IH.
Qed.

Lemma exact_command owner_namespace :
  exact (rd_command_projection owner_namespace) (fun c p =>
    c = command_bytes p /\ typed_command p = true /\ identified (command_actor p)
    /\ tagged owner_namespace p /\ command_operation p = RecoveryKeyGenerate
    /\ target_binding p = None).
Proof.
  unfold rd_command_projection. read_exact; b2p; subst.
  - destruct x22. unfold command_bytes, typed_command, tagged, command_tags.
    cbn [command_operation command_actor command_lookup semantic_fingerprint phase_fingerprint
      portable_reservation runtime process_instance original_deadline command_phase retention
      command_result target_binding profile app].
    rewrite !andb_true_iff. by split_and!.
  - match goal with H : tagged _ _ |- _ =>
      pose proof (validate_tags_purposes _ _ H) as Hp; unfold tagged in H end.
    unfold command_bytes, typed_command in *.
    destruct a as [op ac t1 t2 t3 t4 ru pr d ph re sr tb pf]. unfold command_tags in *.
    cbn [command_operation command_actor command_lookup semantic_fingerprint phase_fingerprint
      portable_reservation runtime process_instance original_deadline command_phase retention
      command_result target_binding profile] in *. read_inv.
    rewrite !Forall_cons in Hp. cbn [fst snd] in Hp. read_inv.
    read_step 1. split; [done|]. read_step 4. split; [done|]. read_step ac.
    read_step t1. read_step t2. read_step t3. read_step t4.
    eexists [], _, tt. split; [symmetry; apply app_nil_l|]. split; [done|].
    read_step ru. read_step pr. read_step d. read_step ph. read_step re. read_step sr.
    read_step 0. split; [done|]. by exists pf.
Qed.

(** ** Commands: validation *)

Lemma command_actor_wire_Ok a l :
  command_actor_wire a = Ok l <-> identified a /\ l = stable_actor_bytes a.
Proof.
  destruct a as [v|]; cbn [command_actor_wire identified]; [|vm_compute; naive_solver].
  destruct (check_identifier v) as [[]|] eqn:Hv; cbn [map_err];
    [|split; [done|by intros [? _]]].
  rewrite Ok_bind. pose proof (identifier_length v Hv).
  rewrite (proj2 (ok_or_Ok _ _ (len v))), Ok_bind;
    [|apply checked_Some; split; [done|]; apply within_spec; unfold u8_max; lia].
  split; [intros [= <-]; done|by intros [_ ->]].
Qed.

(** What the validation asks of one command, the order of its keys apart. *)
Lemma validate_command_Ok p key :
  GenerateProfile.typed (profile p) = true ->
  validate_command p = Ok key ->
  command_operation p = RecoveryKeyGenerate /\ target_binding p = None
  /\ phase_retained p = true /\ identified (command_actor p)
  /\ key = [4] ++ stable_actor_bytes (command_actor p) ++ tag_wire (command_lookup p).
Proof.
  intros Hpf H. unfold validate_command in H. encode_inv H.
  apply orb_false_iff in Hb as [[Ho Ht]%orb_false_iff Hr]. b2p.
  unfold command_projection_key in H. encode_inv H.
  apply command_actor_wire_Ok in Hx0 as [? ->]. subst key.
  destruct (target_binding p); [done|]. done.
Qed.

Lemma singleton_validated p :
  validate_checkpoint (singleton_checkpoint p) = (_ ← validate_command p; Ok tt).
Proof.
  unfold validate_checkpoint, singleton_checkpoint.
  cbn [generation covered_head clock_authority addressed provenance coordinator open_upgrade
    local_commands].
  transitivity (validate_commands None [p]); [reflexivity|].
  cbn [validate_commands]. by destruct (validate_command p).
Qed.

(** The decoder of a command accepts exactly the wire forms of valid commands. *)
Lemma decode_command_exact owner_namespace wire p :
  is_bytes wire = true ->
  decode_command_projection owner_namespace wire = Ok p <->
  wire = command_bytes p /\ typed_command p = true /\ tagged owner_namespace p
  /\ is_ok (validate_command p) = true.
Proof.
  intros Hw. unfold decode_command_projection. split.
  - intros (p' & Hr & H)%bind_Ok. apply bind_Ok in H as ([] & Hv & [= ->]).
    apply (read_all_exact _ _ _ _ (exact_command _) Hw) in Hr as (-> & Ht & _ & Hg & _).
    rewrite singleton_validated in Hv. by destruct (validate_command p).
  - intros (-> & Ht & Hg & Hv). destruct (validate_command p) as [key|] eqn:Hk; [|done].
    pose proof Ht as Ht'. unfold typed_command in Ht'. typed_inv.
    pose proof Hk as (Ho & Hb & _ & Hi & _)%validate_command_Ok; [|done].
    rewrite (proj2 (read_all_exact _ _ _ p (exact_command _) Hw)) by done.
    by rewrite Ok_bind, singleton_validated, Hk, !Ok_bind.
Qed.

(** The terminal retention the encoder writes: a later expiry, and a result. *)
Definition retained (p : FixedRootCommandProjection) : bool :=
  match retention p with
  | Continuation => true
  | Terminal terminal_time expires_at =>
    (terminal_time <? expires_at) && is_some (command_result p)
  end.

Lemma retention_wire_Ok p l :
  retention_wire p = Ok l <-> retained p = true /\ l = retention_bytes (retention p).
Proof.
  unfold retention_wire, retained. destruct (retention p); cbn [retention_bytes];
    [|destruct (_ && _)]; naive_solver.
Qed.

Lemma tag_wire_length t : typed_tag t = true -> len (tag_wire t) = 72.
Proof. unfold typed_tag, tag_wire. intros. typed_inv. by lens. Qed.

Lemma command_bytes_length p :
  typed_command p = true -> identified (command_actor p) ->
  0 < len (command_bytes p) <= 1000.
Proof.
  intros Ht Hi. unfold typed_command in Ht. typed_inv. unfold command_bytes, profile_bytes.
  assert (len (stable_actor_parts (command_actor p)).2 <= 128).
  { destruct (command_actor p) as [l|]; [|by vm_compute]. cbn in *.
    pose proof (identifier_length l Hi). lia. }
  assert (len (deadline_wire (original_deadline p)) <= 9)
    by (destruct (original_deadline p); cbn [deadline_wire]; lens; lia).
  assert (len (retention_bytes (retention p)) <= 20).
  { destruct (retention p); cbn [retention_bytes]; [by vm_compute|].
    lens. change (len [2; 1]) with 2. lia. }
  assert (len (safe_result_wire (command_result p)) <= 37).
  { destruct (command_result p) as [r|]; cbn [safe_result_wire on_some] in *; [|by vm_compute].
    unfold typed_safe_result in *. typed_inv. lens. lia. }
  pose proof (profile_length (profile p) ltac:(done)).
  pose proof (len_nonneg (stable_actor_parts (command_actor p)).2).
  pose proof (len_nonneg (deadline_wire (original_deadline p))).
  pose proof (len_nonneg (retention_bytes (retention p))).
  pose proof (len_nonneg (safe_result_wire (command_result p))).
  unfold stable_actor_bytes. lens. rewrite !tag_wire_length by done. lia.
Qed.

Lemma encode_command_wire owner_namespace p key wire :
  typed_command p = true -> validate_command p = Ok key ->
  encode_command_projection owner_namespace p = Ok wire <->
  tagged owner_namespace p /\ retained p = true /\ wire = command_bytes p.
Proof.
  intros Ht Hk. pose proof Ht as Ht'. unfold typed_command in Ht'. typed_inv.
  pose proof Hk as (Ho & Hb & _ & Hi & _)%validate_command_Ok; [|done].
  pose proof (command_bytes_length p Ht Hi). pose proof (profile_length (profile p) ltac:(done)).
  unfold encode_command_projection. rewrite Ho, Hb. cbn [is_some].
  rewrite bool_decide_true by done. cbn [negb orb].
  rewrite (proj2 (command_actor_wire_Ok _ _) (conj Hi eq_refl)), Ok_bind. unfold tagged.
  destruct (validate_tags owner_namespace (command_tags p)) as [[]|]; [|split; [done|naive_solver]].
  rewrite Ok_bind. destruct (retention_wire p) as [l|] eqn:Hr.
  - apply retention_wire_Ok in Hr as [Hr ->]. rewrite Ok_bind.
    rewrite (proj2 (ok_or_Ok _ _ (len (encode_recovery_key_generate_profile (profile p))))),
      Ok_bind;
      [|apply checked_Some; split; [done|]; apply within_spec; unfold u16_max; lia].
    cbv zeta. fold (profile_bytes (profile p)). change ([1; 4] ++ ?x) with ([1] ++ [4] ++ x).
    fold (command_bytes p). rewrite (proj2 (Z.ltb_ge _ _)) by lia. naive_solver.
  - split; [done|]. intros (_ & Hr' & _).
    rewrite (proj2 (retention_wire_Ok p _) (conj Hr' eq_refl)) in Hr. done.
Qed.

(** ** The command member *)

Definition commands_bytes (cs : list FixedRootCommandProjection) : bytes :=
  flat_map (fun p => be_bytes 2 (len (command_bytes p)) ++ command_bytes p) cs.

Definition command_member_bytes (cs : list FixedRootCommandProjection) : bytes :=
  be_bytes 4 (Z.of_nat (length cs)) ++ commands_bytes cs.

Definition command_ok (owner_namespace : bytes) (p : FixedRootCommandProjection) : Prop :=
  typed_command p = true /\ tagged owner_namespace p /\ is_ok (validate_command p) = true.

Lemma command_ok_identified owner_namespace p :
  command_ok owner_namespace p -> identified (command_actor p).
Proof.
  intros (Ht & _ & Hv). destruct (validate_command p) as [key|] eqn:Hk; [|done].
  unfold typed_command in Ht. typed_inv.
  by apply validate_command_Ok in Hk as (_ & _ & _ & ? & _).
Qed.

Lemma command_ok_length owner_namespace p :
  command_ok owner_namespace p -> 0 < len (command_bytes p) <= 1000.
Proof.
  intros Hp. apply command_bytes_length; [apply Hp|by eapply command_ok_identified].
Qed.

Lemma tag_is_bytes t : typed_tag t = true -> is_bytes (tag_wire t) = true.
Proof.
  unfold typed_tag, tag_wire. intros. typed_inv. rewrite is_bytes_app.
  by erewrite !is_bytes_array.
Qed.

Lemma command_is_bytes p :
  typed_command p = true -> identified (command_actor p) -> is_bytes (command_bytes p) = true.
Proof.
  intros Ht Hi. unfold typed_command in Ht. typed_inv.
  pose proof (profile_is_bytes (profile p) ltac:(done)).
  assert (is_bytes (stable_actor_bytes (command_actor p)) = true).
  { unfold stable_actor_bytes. destruct (command_actor p) as [l|]; [|done].
    cbn [stable_actor_parts fst snd identified typed_stable_actor] in *.
    pose proof (identifier_length l Hi).
    assert (is_byte (len l) = true) by (apply within_spec; lia).
    rewrite !is_bytes_app. unfold is_bytes in *. cbn [forallb].
    rewrite !andb_true_iff. by split_and!. }
  assert (is_bytes (deadline_wire (original_deadline p)) = true).
  { destruct (original_deadline p); cbn [deadline_wire]; [|done].
    by rewrite is_bytes_app, is_bytes_be_bytes. }
  assert (is_bytes (retention_bytes (retention p)) = true).
  { destruct (retention p); cbn [retention_bytes]; [done|].
    by rewrite !is_bytes_app, !is_bytes_be_bytes. }
  assert (is_bytes (safe_result_wire (command_result p)) = true).
  { destruct (command_result p) as [r|]; cbn [safe_result_wire on_some] in *; [|done].
    unfold typed_safe_result in *. typed_inv. rewrite !is_bytes_app, !is_bytes_be_bytes.
    rewrite (is_bytes_array 32 (result_digest r)) by done. done. }
  assert (is_bytes (process_instance p) = true) by (by eapply is_bytes_array).
  unfold command_bytes, profile_bytes.
  rewrite !is_bytes_app, !is_bytes_be_bytes, !tag_is_bytes by done.
  repeat match goal with H : is_bytes _ = true |- _ => rewrite H; clear H end.
  by destruct (runtime p).
Qed.

Lemma exact_commands owner_namespace n :
  exact (rd_commands owner_namespace n) (fun c cs =>
    c = commands_bytes cs /\ length cs = n /\ Forall (command_ok owner_namespace) cs).
Proof.
  induction n as [|n IH]; cbn [rd_commands].
  - eapply exact_iff; [|apply exact_ret]. intros c cs. split; [by intros [-> ->]|].
    intros (-> & Hn & _). by destruct cs.
  - eapply exact_iff; cycle 1.
    { do 3 (apply exact_bind; [read_field|intros ?]). apply exact_last, IH. }
    intros c cs. cbv beta. split.
    + intros H. read_inv. taken.
      match goal with H : decode_command_projection _ _ = _ |- _ =>
        apply decode_command_exact in H as (-> & ? & ? & ?); [|done] end.
      cbn [commands_bytes flat_map length app]. rewrite <- app_assoc. split; [done|].
      split; [done|]. constructor; done.
    + intros (-> & Hn & Hf). destruct cs as [|p cs]; [done|]. injection Hn as Hn.
      apply Forall_cons in Hf as [Hp Hf]. pose proof (command_ok_length _ _ Hp).
      pose proof (command_ok_identified _ _ Hp).
      cbn [commands_bytes flat_map]. rewrite <- app_assoc.
      destruct Hp as (Ht & Hg & Hv).
      assert (is_bytes (command_bytes p) = true) as Hb 
        by (by apply command_is_bytes).
      read_step (len (command_bytes p)).
      { split; [done|]. apply within_spec. unfold u16_max. lia. }
      read_step (command_bytes p). { split_and!; [done|apply take_length|done]. }
      eexists [], _, p. split; [symmetry; apply app_nil_l|].
      split; [split; [done|by apply decode_command_exact]|]. by exists cs.
Qed.

Lemma commands_bytes_length cs :
  Forall (fun p => 0 < len (command_bytes p)) cs ->
  2 * Z.of_nat (length cs) <= len (commands_bytes cs).
Proof.
  induction 1 as [|p cs Hp _ IH]; [by vm_compute|].
  cbn [commands_bytes flat_map length]. fold (commands_bytes cs). lens. lia.
Qed.

Lemma decode_command_member_exact owner_namespace l cs :
  is_bytes l = true ->
  decode_command_member owner_namespace l = Ok cs <->
  l = command_member_bytes cs /\ Forall (command_ok owner_namespace) cs
  /\ Z.of_nat (length cs) <= ORDINARY_COMMAND_ENTRY_LIMIT.
Proof.
  intros Hl. unfold decode_command_member.
  rewrite (read_all_exact _ (fun c cs =>
    c = command_member_bytes cs /\ Forall (command_ok owner_namespace) cs
    /\ Z.of_nat (length cs) <= ORDINARY_COMMAND_ENTRY_LIMIT
    /\ Z.of_nat (length cs) <= Z.max 0 (len l - 4) / 2) l cs); [|..|done].
  - split; [naive_solver|]. intros (-> & Hf & Hc). split_and!; try done.
    unfold command_member_bytes. lens. apply Z.div_le_lower_bound; [done|].
    pose proof (commands_bytes_length cs).
    assert (Forall (fun p => 0 < len (command_bytes p)) cs); [|naive_solver lia].
    eapply Forall_impl; [done|]. intros p Hp. apply (command_ok_length _ _ Hp).
  - unfold rd_command_member. eapply exact_iff; cycle 1.
    { apply exact_bind; [read_field|intros n]. apply exact_guard, exact_commands. }
    intros c cs'. cbv beta. split.
    + intros H. read_inv. b2p.
      match goal with H : length cs' = Z.to_nat ?n, Hn : is_u32 ?n = true |- _ =>
        apply within_spec in Hn; assert (n = Z.of_nat (length cs')) as -> by lia end.
      done.
    + intros (-> & Hf & H1 & H2). unfold ORDINARY_COMMAND_ENTRY_LIMIT in *.
      read_step (Z.of_nat (length cs')).
      { split; [done|]. apply within_spec. unfold u32_max. lia. }
      split; [b2p; lia|]. split_and!; try done. lia.
Qed.

Lemma wrote_commands owner_namespace cs :
  Forall (fun p => typed_command p = true /\ is_ok (validate_command p) = true) cs ->
  wrote (put_commands owner_namespace cs)
    (fun c => c = commands_bytes cs /\ Forall (command_ok owner_namespace) cs
              /\ forallb retained cs = true).
Proof.
  induction cs as [|p cs IH]; intros Hf; cbn [put_commands].
  - eapply wrote_iff; [|apply wrote_skip]. by intros c ->.
  - apply Forall_cons in Hf as [[Ht Hv] Hf].
    destruct (validate_command p) as [key|] eqn:Hk; [|done].
    eapply wrote_iff; [|apply wrote_andThen; [|by apply IH]].
    2: { apply wrote_lift. intros w _. apply wrote_andThen; [|apply wrote_extend].
         apply wrote_lift. intros n _. apply wrote_extend. }
    cbv beta. intros c Hc. read_inv.
    match goal with H : ok_or _ _ = Ok _ |- _ =>
      apply ok_or_Ok, checked_Some in H as [-> _] end.
    match goal with H : encode_command_projection _ _ = _ |- _ =>
      apply (encode_command_wire _ _ _ _ Ht Hk) in H as (Hg & Hr & ->) end.
    split; [done|]. split; [constructor; [|done]|by cbn; rewrite Hr].
    split_and!; [done..|by rewrite Hk].
Qed.

Lemma encode_command_member_Ok owner_namespace cs l :
  Forall (fun p => typed_command p = true /\ is_ok (validate_command p) = true) cs ->
  encode_command_member owner_namespace cs = Ok l ->
  l = command_member_bytes cs /\ Forall (command_ok owner_namespace) cs
  /\ Z.of_nat (length cs) <= ORDINARY_COMMAND_ENTRY_LIMIT.
Proof.
  intros Hf H. unfold encode_command_member in H.
  destruct (Z.ltb_spec ORDINARY_COMMAND_ENTRY_LIMIT (Z.of_nat (length cs))); [done|].
  eapply finish_wrote in H.
  2: { apply wrote_andThen; [|by apply wrote_commands]. apply wrote_lift. intros n _.
       apply wrote_extend. }
  cbv beta in H. read_inv.
  match goal with H : ok_or _ _ = Ok _ |- _ =>
    apply ok_or_Ok, checked_Some in H as [-> _] end. done.
Qed.

(** ** The addressed cells *)

Definition cell_ok (c : AddressedCell) : Prop :=
  match state c with
  | Absent => True
  | Present v => typed_value v = true /\ validate_addressed_value (operation c) v = Ok tt
  end.

Definition body_bytes (c : AddressedCell) : bytes :=
  match state c with Absent => [0] | Present v => value_bytes (operation c) true v end.

Fixpoint cells_bytes (tag : Z) (cs : list AddressedCell) : bytes :=
  match cs with
  | [] => []
  | c :: rest => member_bytes tag (body_bytes c) ++ cells_bytes (tag + 1) rest
  end.

Lemma encode_body c :
  cell_ok c -> cell_body c = Ok (body_bytes c).
Proof.
  unfold cell_ok, cell_body, body_bytes. destruct (state c) as [|v]; [done|].
  intros [Ht Hv]. by rewrite encode_value_wire, Hv.
Qed.

Lemma decode_body op cur s body :
  is_bytes body = true ->
  (if bool_decide (body = [0]) then Ok Absent
   else Present <$> decode_addressed_value op body None) = Ok s <->
  body = body_bytes (mkAddressedCell op cur s) /\ cell_ok (mkAddressedCell op cur s).
Proof.
  intros Hb. unfold body_bytes, cell_ok. cbn [state operation]. split.
  - case_bool_decide as He; [by intros [= <-]|].
    destruct (decode_addressed_value op body None) as [v|] eqn:Hd; [|done]. intros [= <-].
    apply decode_value_exact in Hd as (Ht & _ & Hv); [|done..]. cbn [is_some negb] in Hv.
    rewrite encode_value_wire in Hv by done. apply bind_Ok in Hv as ([] & ? & [= <-]). done.
  - destruct s as [|v]; [intros [-> _]; by rewrite bool_decide_true|].
    intros [-> [Ht Hv]]. rewrite bool_decide_false by done.
    assert (decode_addressed_value op (value_bytes op true v) None = Ok v) as ->; [|done].
    apply decode_value_exact; [done..|]. split; [done|]. split; [done|].
    cbn [is_some negb]. by rewrite encode_value_wire, Hv.
Qed.

Lemma body_length c : cell_ok c -> 0 <= len (body_bytes c) <= 426.
Proof.
  unfold cell_ok, body_bytes. destruct (state c) as [|v]; [by vm_compute|].
  intros [Ht Hv].
  pose proof (value_bytes_bound (operation c) true v Ht Hv : _ <= 232 + _ + 80).
  pose proof (len_mirror (mirror v) (typed_value_mirror v Ht)).
  pose proof (len_nonneg (value_bytes (operation c) true v)). lia.
Qed.

Lemma exact_cells tag cells :
  0 <= tag -> tag + Z.of_nat (length cells) <= 100 ->
  Forall (fun c => state c = Absent) cells ->
  exact (rd_cells tag cells) (fun c cs =>
    c = cells_bytes tag cs /\ Forall2 same_role cells cs /\ Forall cell_ok cs
    /\ forallb (fun c => is_bytes (body_bytes c)) cs = true).
Proof.
  revert tag. induction cells as [|cell cells IH]; intros tag H0 H1 Hf; cbn [rd_cells].
  - eapply exact_iff; [|apply exact_ret]. intros c cs. split.
    + intros [-> ->]. done.
    + intros (-> & Hr & _). by inversion Hr.
  - apply Forall_cons in Hf as [Ha Hf]. cbn [length] in H1.
    assert (is_u16 tag = true) by (apply within_spec; unfold u16_max; lia).
    eapply exact_iff; cycle 1.
    { apply exact_bind; [by apply exact_member|intros body]. apply exact_bind; [read_field|].
      intros s. apply exact_last, IH; [lia|lia|done]. }
    intros c cs. cbv beta. split.
    + intros H'. read_inv. rewrite Ha in *.
      match goal with H : (if _ then _ else _) = Ok ?s |- _ =>
        apply (decode_body _ (current cell)) in H as [-> Hok]; [|done] end.
      split; [done|]. split; [by constructor|]. split; [by constructor|].
      cbn [forallb]. by apply andb_true_iff.
    + intros (-> & Hr & Hok & Hb). destruct cs as [|[op cur s] cs]; [by inversion Hr|].
      apply Forall2_cons in Hr as [[Ho Hc] Hr]. apply Forall_cons in Hok as [Hk Hok].
      cbn [forallb operation current] in *. subst. apply andb_true_iff in Hb as [Hb Hbs].
      pose proof (body_length _ Hk).
      cbn [cells_bytes]. read_step (body_bytes (mkAddressedCell (operation cell) (current cell) s)).
      { split; [done|]. split; [apply within_spec; unfold u32_max; lia|done]. }
      eexists [], _, s. split; [symmetry; apply app_nil_l|].
      split; [split; [done|by rewrite Ha; apply (decode_body _ (current cell))]|].
      by exists cs.
Qed.

Lemma wrote_cells tag cs :
  Forall cell_ok cs -> wrote (put_cells tag cs) (fun c => c = cells_bytes tag cs).
Proof.
  revert tag. induction cs as [|c cs IH]; intros tag Hf; cbn [put_cells cells_bytes].
  - apply wrote_skip.
  - apply Forall_cons in Hf as [Hc Hf].
    eapply wrote_iff; [|apply wrote_andThen; [apply wrote_lift; intros ? _; apply wrote_member
      |by apply IH]].
    cbv beta. intros w Hw. read_inv.
    match goal with H : cell_body c = _ |- _ => rewrite (encode_body c Hc) in H;
      by injection H as <- end.
Qed.

(** ** The checkpoint payload *)

#[local] Existing Instance ClockAuthority.clock_authority_codec.

Section checkpoint_facts.
Context `{HmacOutput} (key : JournalIntegrityKey).

Definition pointer_wire (p : option ActiveStatePointer) (l : bytes) : Prop :=
  match p with
  | None => l = [0]
  | Some v => exists w, encode_active_state_pointer key v = Ok w /\ l = [1] ++ w
  end.

Lemma encode_pointer_wire p l :
  encode_pointer_member key p = Ok l -> pointer_wire p l.
Proof.
  unfold encode_pointer_member. destruct p as [v|]; intros H';
    (eapply finish_wrote in H'; [|first [apply wrote_extend
      |apply wrote_andThen; [apply wrote_extend|apply wrote_lift; intros ? _;
        apply wrote_extend]]]); cbv beta in H'; [|done].
  read_inv. match goal with H : map_err _ _ = Ok ?w |- _ => apply map_err_Ok in H; by exists w end.
Qed.

Lemma decode_pointer_exact p l :
  is_bytes l = true ->
  decode_pointer_member key l = Ok p <-> on_some typed_pointer p = true /\ pointer_wire p l.
Proof.
  intros Hl. unfold decode_pointer_member, read_all.
  assert (reader_ok (new_reader l)) as Hr by (split; [done|cbn; lia]).
  destruct l as [|tag w].
  { split; [done|]. intros [_ Hp]. destruct p as [v|]; [by destruct Hp as (? & _ & ?)|done]. }
  assert (is_byte tag = true /\ is_bytes w = true) as [Ht Hw] by (by apply andb_true_iff in Hl).
  unfold mbind at 1, reading_bind at 1.
  rewrite (exact_complete _ _ exact_u8 _ tag [tag] w Hr) by done.
  cbn [length]. destruct (Z.eqb_spec tag 0) as [->|?].
  { cbn. unfold finished. cbn. destruct w; cbn.
    - split; [by intros [= <-]|]. intros [_ Hp]. destruct p; [by destruct Hp as (? & _ & ?)|done].
    - split; [done|]. intros [_ Hp]. destruct p; [by destruct Hp as (? & _ & ?)|done]. }
  destruct (Z.eqb_spec tag 1) as [->|?].
  2: { split; [done|]. intros [_ Hp]. destruct p as [v|]; cbn in Hp; [|congruence].
       destruct Hp as (? & _ & ?). cbn in *. congruence. }
  assert (reader_ok (advance (new_reader (1 :: w)) 1)) as Hr1
    by (apply (advance_ok _ [1] w Hr); done).
  unfold mbind, reading_bind, rd_rest. cbn [r_bytes r_offset advance new_reader length].
  replace (S (length w) - (0 + 1))%nat with (length w) by lia.
  rewrite (exact_complete _ _ (exact_take (length w)) _ w w [] Hr1)
    by (done || (unfold rest; cbn; by rewrite app_nil_r)).
  unfold from. unfold advance. cbn [r_bytes r_offset new_reader].
  destruct (map_err (fun _ => INVALID) (decode_active_state_pointer key w)) as [v|e] eqn:Hd.
  - apply map_err_Ok, (codec_exact (E := ActiveStatePointerError)) in Hd as [Hv He]; [|done].
    unfold mret, reading_ret, finished. cbn [r_bytes r_offset length Nat.add].
    rewrite Nat.eqb_refl. split.
    + intros [= <-]. split; [done|]. by exists w.
    + intros [Hp Hq]. destruct p as [v'|]; [|done]. destruct Hq as (w' & He' & [= <-]).
      do 2 f_equal. by apply (codec_injective (encode := encode_active_state_pointer key)
        (decode := decode_active_state_pointer key) v v' w).
  - split; [done|]. intros [Hp Hq]. destruct p as [v'|]; [|done].
    destruct Hq as (w' & He' & [= <-]). cbn in Hp.
    assert (decode_active_state_pointer key w = Ok v') as Hd' by (by apply codec_exact).
    by rewrite Hd' in Hd.
Qed.

(** The thirteen members of a checkpoint. *)
Record checkpoint_members (owner_namespace : bytes) (c : CompleteCheckpoint)
    (m3 m4 m5 m6 : bytes) : Prop := mkMembers {
  members_bytes : is_bytes m3 = true /\ is_bytes m4 = true /\ is_bytes m5 = true
                  /\ is_bytes m6 = true;
  members_length : is_u32 (len m3) = true /\ is_u32 (len m4) = true
                   /\ is_u32 (len m5) = true /\ is_u32 (len m6) = true;
  members_clock : ClockAuthority.decode_clock_authority_projection m3 = Ok (clock_authority c);
  members_pointer : decode_pointer_member key m4 = Ok (active_pointer c);
  members_ring : decode_ring key m5 = Ok (recovery_ring c);
  members_commands : decode_command_member owner_namespace m6 = Ok (local_commands c);
}.

Definition members_wire (c : CompleteCheckpoint) (m3 m4 m5 m6 : bytes) : bytes :=
  member_bytes 1 (be_bytes 8 (generation c)) ++ member_bytes 2 (head_bytes (covered_head c))
  ++ member_bytes 3 m3 ++ member_bytes 4 m4 ++ member_bytes 5 m5 ++ member_bytes 6 m6
  ++ cells_bytes 7 (addressed c) ++ member_bytes 11 (be_bytes 4 0) ++ member_bytes 12 [0]
  ++ member_bytes 13 [0].

Lemma empty_cells_absent : Forall (fun c => state c = Absent) empty_cells.
Proof. repeat constructor. Qed.

Lemma exact_checkpoint owner_namespace :
  exact (rd_checkpoint key owner_namespace) (fun l c => exists m3 m4 m5 m6,
    l = members_wire c m3 m4 m5 m6 /\ checkpoint_members owner_namespace c m3 m4 m5 m6
    /\ is_u64 (generation c) = true /\ typed_head (covered_head c) = true
    /\ Forall2 same_role empty_cells (addressed c) /\ Forall cell_ok (addressed c)
    /\ forallb (fun c => is_bytes (body_bytes c)) (addressed c) = true
    /\ provenance c = [] /\ coordinator c = None /\ open_upgrade c = None).
Proof.
  unfold rd_checkpoint. eapply exact_iff; cycle 1.
  { do 12 (apply exact_bind;
      [first [apply exact_from | by apply exact_member]|intros ?]).
    apply exact_bind; [apply exact_cells; [done|done|apply empty_cells_absent]|intros ?].
    apply exact_bind; [by apply exact_member|intros ?]. apply exact_guard.
    apply exact_bind; [by apply exact_member|intros ?]. apply exact_guard.
    apply exact_bind; [by apply exact_member|intros ?]. apply exact_guard. apply exact_ret. }
  intros l c. cbv beta. split.
  - intros Hc. read_inv. b2p. subst. cbn [app].
    repeat match goal with
    | H : read_all rd_u64 _ = Ok _ |- _ =>
      apply (read_all_exact _ _ _ _ exact_u64) in H as [-> ?]; [|done]
    | H : read_all rd_head _ = Ok _ |- _ =>
      apply (read_all_exact _ _ _ _ exact_head) in H as [-> ?]; [|done]
    | H : map_err _ _ = Ok _ |- _ => apply map_err_Ok in H
    end.
    exists x13, x19, x25, x31. rewrite app_nil_r. split; [done|].
    split; [split; cbn; rewrite ?map_err_Ok; split_and?; done|]. cbn. split_and!; try done. by apply forallb_Forall.
  - intros (m3 & m4 & m5 & m6 & -> & [Hb Hl Hc Hp Hr Hcm] & Hg & Hh & Hro & Hok & Hbo & ? & ? & ?).
    destruct c as [g h ck ap rr lc ad pv co ou].
    cbn [generation covered_head clock_authority active_pointer recovery_ring local_commands
      addressed provenance coordinator open_upgrade] in *. subst. read_inv.
    unfold members_wire.
    cbn [generation covered_head clock_authority active_pointer recovery_ring local_commands
      addressed].
    assert (forall (v : Z), is_bytes (be_bytes 8 v) = true) as Hbe by apply is_bytes_be_bytes.
    assert (forall (v : Z), is_u32 (len (be_bytes 8 v)) = true) as Hle.
    { intros v. by rewrite len_be_bytes. }
    pose proof (head_is_bytes h Hh).
    assert (is_u32 (len (head_bytes h)) = true) by (by rewrite len_head_bytes).
    read_step (be_bytes 8 g). skip_step g. { by apply (read_all_exact _ _ _ _ exact_u64). }
    read_step (head_bytes h). skip_step h. { by apply (read_all_exact _ _ _ _ exact_head). }
    read_step m3. skip_step ck. { by rewrite Hc. }
    read_step m4. skip_step ap. { done. }
    read_step m5. skip_step rr. { done. }
    read_step m6. skip_step lc. { done. }
    read_step ad. read_step (be_bytes 4 0). split; [by rewrite bool_decide_true|].
    read_step [0]. split; [done|]. eexists _, [], [0]. rewrite app_nil_r.
    split; [reflexivity|]. split; [done|]. split; [done|]. done.
Qed.

Lemma cells_typed cs : Forall cell_ok cs -> forallb typed_cell cs = true.
Proof.
  intros Hf. apply forallb_Forall. eapply Forall_impl; [done|]. intros c.
  unfold cell_ok, typed_cell. destruct (state c); naive_solver.
Qed.

Lemma decode_ring_typed m rr : is_bytes m = true -> decode_ring key m = Ok rr ->
  RecoveryRing.typed rr = true /\ encode_recovery_ring_manifest key rr = Ok m.
Proof. intros Hm Hr%map_err_Ok. by apply codec_exact in Hr. Qed.

Lemma checkpoint_read_typed owner_namespace l c :
  is_bytes l = true -> read_all (rd_checkpoint key owner_namespace) l = Ok c ->
  typed_checkpoint c = true.
Proof.
  intros Hl Hr. apply (read_all_exact _ _ _ _ (exact_checkpoint _) Hl) in Hr
    as (m3 & m4 & m5 & m6 & -> & [Hb Hle Hc Hp Hr Hcm] & Hg & Hh & Hro & Hok & _).
  destruct Hb as (Hb3 & Hb4 & Hb5 & Hb6).
  apply codec_exact in Hc as [Hc _]; [|done].
  apply decode_pointer_exact in Hp as [Hp _]; [|done].
  apply decode_ring_typed in Hr as [Hr _]; [|done].
  apply decode_command_member_exact in Hcm as (_ & Hcm & _); [|done].
  unfold typed_checkpoint. rewrite Hg, Hh, Hc, Hp, Hr, (cells_typed _ Hok).
  rewrite <- (Forall2_length _ _ _ Hro). cbn [andb Nat.eqb length empty_cells map seq].
  rewrite andb_true_r, andb_true_r. apply forallb_Forall. eapply Forall_impl; [done|].
  intros p Hcp. apply Hcp.
Qed.

Lemma wrote_ordinary owner_namespace c :
  wrote (put_ordinary key owner_namespace c) (fun l => exists m3 m4 m5 m6,
    l = member_bytes 1 (be_bytes 8 (generation c))
        ++ member_bytes 2 (head_bytes (covered_head c))
        ++ member_bytes 3 m3 ++ member_bytes 4 m4 ++ member_bytes 5 m5 ++ member_bytes 6 m6
    /\ is_u32 (len m3) = true /\ is_u32 (len m4) = true
    /\ is_u32 (len m5) = true /\ is_u32 (len m6) = true
    /\ ClockAuthority.encode_clock_authority_projection (clock_authority c) = Ok m3
    /\ pointer_wire (active_pointer c) m4
    /\ encode_recovery_ring_manifest key (recovery_ring c) = Ok m5
    /\ encode_command_member owner_namespace (local_commands c) = Ok m6).
Proof.
  unfold put_ordinary. eapply wrote_iff; cycle 1.
  { apply wrote_andThen; [apply wrote_member|].
    do 4 (apply wrote_andThen; [apply wrote_lift; intros ? _; apply wrote_member|]).
    apply wrote_lift; intros ? _; apply wrote_member. }
  cbv beta. intros l Hl. read_inv.
  repeat match goal with
  | H : map_err _ _ = Ok _ |- _ => apply map_err_Ok in H
  | H : encode_pointer_member _ _ = Ok _ |- _ => apply encode_pointer_wire in H
  | H : encode_ring _ _ = Ok _ |- _ =>
    unfold encode_ring in H; destruct (_ <? _); [discriminate H|]; apply map_err_Ok in H
  | H : finish 40 _ = Ok _ |- _ =>
    eapply finish_wrote in H; [|apply wrote_andThen; apply wrote_extend]; cbv beta in H;
    read_inv
  end.
  eexists _, _, _, _. split; [reflexivity|]. by split_and!.
Qed.

Lemma wrote_suffix :
  wrote put_suffix
    (fun l => l = member_bytes 11 (be_bytes 4 0) ++ member_bytes 12 [0] ++ member_bytes 13 [0]).
Proof.
  unfold put_suffix. eapply wrote_iff; cycle 1.
  { do 2 (apply wrote_andThen; [apply wrote_member|]). apply wrote_member. }
  cbv beta. intros l Hl. by read_inv.
Qed.

Lemma typed_cells_ok cs :
  forallb typed_cell cs = true -> Forall cell_valid cs -> Forall cell_ok cs.
Proof.
  intros Ht%forallb_Forall Hv. rewrite Forall_forall in Ht, Hv |- *. intros c Hc.
  specialize (Ht c Hc). specialize (Hv c Hc). unfold typed_cell, cell_valid, cell_ok in *.
  by destruct (state c).
Qed.

Lemma member_is_bytes tag l : is_bytes l = true -> is_bytes (member_bytes tag l) = true.
Proof. intros. unfold member_bytes. by wire_is_bytes. Qed.

Lemma cells_is_bytes tag cs : Forall cell_ok cs ->
  forallb (fun c => is_bytes (body_bytes c)) cs = true
  /\ is_bytes (cells_bytes tag cs) = true.
Proof.
  intros Hf. revert tag. induction Hf as [|c cs Hc _ IH]; intros tag; [done|].
  assert (is_bytes (body_bytes c) = true) as Hb.
  { unfold cell_ok, body_bytes in *. destruct (state c) as [|v]; [done|].
    destruct Hc as [Ht Hv]. apply value_is_bytes; [done|]. unfold validate_addressed_value in Hv.
    by apply bind_Ok in Hv as ([] & ? & _). }
  cbn [cells_bytes forallb]. destruct (IH (tag + 1)) as [-> ?]. rewrite Hb.
  pose proof (member_is_bytes tag _ Hb). by wire_is_bytes.
Qed.

Lemma commands_is_bytes owner_namespace cs :
  Forall (command_ok owner_namespace) cs -> is_bytes (command_member_bytes cs) = true.
Proof.
  intros Hf. unfold command_member_bytes. wire_is_bytes. cbn [andb].
  induction Hf as [|p cs Hp _ IH]; [done|]. cbn [commands_bytes flat_map].
  fold (commands_bytes cs).
  pose proof (command_is_bytes p (proj1 Hp) (command_ok_identified _ _ Hp)).
  by wire_is_bytes.
Qed.

Lemma encode_checkpoint_members owner_namespace c l :
  typed_checkpoint c = true -> encode_checkpoint key owner_namespace c = Ok l ->
  is_bytes l = true /\ accepted_checkpoint c /\ Forall cell_ok (addressed c) /\
  exists m3 m4 m5 m6, l = members_wire c m3 m4 m5 m6
    /\ checkpoint_members owner_namespace c m3 m4 m5 m6.
Proof.
  intros Ht He. unfold encode_checkpoint in He.
  apply bind_Ok in He as ([] & Hv%validate_checkpoint_Ok & He).
  apply bind_Ok in He as (ordinary & Ho & He). apply bind_Ok in He as (recon & Hr & He).
  apply bind_Ok in He as (suffix & Hs & He). destruct (_ <? _); [done|].
  unfold typed_checkpoint in Ht. typed_inv.
  assert (Forall cell_ok (addressed c)) as Hok
    by (by apply typed_cells_ok; [|apply accepted_cells_valid]).
  assert (Forall (fun p => typed_command p = true /\ is_ok (validate_command p) = true)
    (local_commands c)) as Hcm.
  { apply Forall_and. split; [by apply forallb_Forall|by apply accepted_commands_valid]. }
  apply (finish_wrote _ _ _ _ (wrote_ordinary _ _)) in Ho
    as (m3 & m4 & m5 & m6 & -> & Hl3 & Hl4 & Hl5 & Hl6 & Hm3 & Hm4 & Hm5 & Hm6).
  apply (finish_wrote _ _ _ _ (wrote_cells 7 _ Hok)) in Hr as ->.
  apply (finish_wrote _ _ _ _ wrote_suffix) in Hs as ->.
  eapply finish_wrote in He;
    [|apply wrote_andThen; [apply wrote_extend|apply wrote_andThen; apply wrote_extend]].
  cbv beta in He. read_inv.
  apply (encode_command_member_Ok _ _ _ Hcm) in Hm6 as (-> & Hcok & Hn).
  destruct (cells_is_bytes 7 _ Hok) as [_ Hcb].
  pose proof (commands_is_bytes _ _ Hcok) as Hb6.
  assert (is_bytes m3 = true) as Hb3 
    by (by apply (codec_bytes (encode := ClockAuthority.encode_clock_authority_projection)
          (clock_authority c))).
  assert (is_bytes m5 = true) as Hb5 
    by (by apply (codec_bytes (encode := encode_recovery_ring_manifest key) (recovery_ring c))).
  assert (is_bytes m4 = true) as Hb4.
  { destruct (active_pointer c) as [v|]; cbn [pointer_wire on_some] in *; [|by subst].
    destruct Hm4 as (w & Hw & ->).
    assert (is_bytes w = true)
      by (by apply (codec_bytes (encode := encode_active_state_pointer key) v)).
    by wire_is_bytes. }
  split.
  { pose proof (head_is_bytes (covered_head c) ltac:(done)).
    rewrite !is_bytes_app, !member_is_bytes by (done || apply is_bytes_be_bytes).
    by rewrite Hcb. }
  split; [done|]. split; [done|]. exists m3, m4, m5, (command_member_bytes (local_commands c)).
  split; [by unfold members_wire; rewrite <- !app_assoc|]. split; try done.
  - by apply (codec_roundtrip (encode := ClockAuthority.encode_clock_authority_projection)).
  - by apply decode_pointer_exact.
  - unfold decode_ring. apply map_err_Ok.
    by apply (codec_roundtrip (encode := encode_recovery_ring_manifest key)).
  - by apply decode_command_member_exact.
Qed.

(** The decoder accepts exactly the payloads the encoder writes. *)
#[export] Instance checkpoint_codec owner_namespace :
  WireCodec (encode_checkpoint key owner_namespace) (decode_checkpoint key owner_namespace)
    typed_checkpoint.
Proof.
  split.
  - intros l c Hl. unfold decode_checkpoint. split.
    + intros (c' & Hr & H')%bind_Ok. apply bind_Ok in H' as (e & He%map_err_Ok & H').
      case_bool_decide as Heq; [|done]. injection H' as ->. subst e. split; [|done].
      by eapply checkpoint_read_typed.
    + intros [Ht He]. pose proof He as (_ & Hv & Hok & m3 & m4 & m5 & m6 & -> & Hm)%
        encode_checkpoint_members; [|done].
      destruct (cells_is_bytes 7 _ Hok) as [Hcb _].
      rewrite (proj2 (read_all_exact _ _ _ c (exact_checkpoint _) Hl)).
      * rewrite Ok_bind, He. cbn [map_err]. rewrite Ok_bind. by rewrite bool_decide_true.
      * exists m3, m4, m5, m6. unfold typed_checkpoint in Ht. typed_inv. destruct Hv.
        split_and!; try done. by apply roles_spec; [apply Nat.eqb_eq|].
  - intros c l Ht He. by apply (encode_checkpoint_members owner_namespace c l).
Qed.
End checkpoint_facts.
