(* ===== verification/Replay.v ===== *)
(** * Replay of an authenticated tail
    ([initialization_key_pair/control_journal_image.rs] of [crates/msgriver/src],
    lines 332-364, 384-388, 1227-1378, 1509-1537, 1922-1968, 2229-2427 and 2569-2583)

    An image is a checkpoint and the records since. Replaying the tail gives the
    checkpoint the journal stands for; folding writes it down. The lemmas show what a
    replay can change, that folding loses nothing, and that the heads of the records
    commit to their history. *)

From S2P Require Import Prelude Bytes CoreError Generation Bounded Ring Sha256 Codec Clock.
From S2P Require Import Journal RecoveryRing GenerateProfile Pointer ImageWire Addressed.
From S2P Require Import Checkpoint CheckpointCodec.

#[local] Open Scope Z_scope.

Inductive TailRecord : Type :=
| ClockCheckpointEvent (body : ClockBody.ClockCheckpointBody)
| TailClockAcknowledge (action : AddressedAction)
| TailSystemShutdown (action : AddressedAction).

Record AuthenticatedTailFrame : Type := mkTailFrame {
  prior_head : JournalHead;
  resulting_head : JournalHead;
  record : TailRecord;
}.

Record CompleteControlJournalImage : Type := mkImage {
  header : AuthenticatedControlJournalHeader;
  checkpoint : CompleteCheckpoint;
  tail : list AuthenticatedTailFrame;
}.

Inductive FoldTrigger : Type := TailFrameLimit | TailByteLimit.

(** ** The clock authority *)

Definition clock_safe_time (c : CompleteCheckpoint) : Z :=
  ClockAuthority.safe_time (clock_authority c).
Definition clock_hold (c : CompleteCheckpoint) : option ClockAuthority.ClockAuthorityHold :=
  ClockAuthority.hold (clock_authority c).

Definition with_safe_time (t : Z) (c : CompleteCheckpoint) : CompleteCheckpoint :=
  set_clock (ClockAuthority.mkClockAuthorityProjection t (clock_hold c)
    (ClockAuthority.last_shutdown_observation (clock_authority c))) c.

Definition without_hold (c : CompleteCheckpoint) : CompleteCheckpoint :=
  set_clock (ClockAuthority.mkClockAuthorityProjection (clock_safe_time c) None
    (ClockAuthority.last_shutdown_observation (clock_authority c))) c.

Definition with_shutdown_observation (t : Z) (c : CompleteCheckpoint) : CompleteCheckpoint :=
  set_clock (ClockAuthority.mkClockAuthorityProjection (clock_safe_time c) (clock_hold c)
    (Some t)) c.

(** ** Replaying an addressed action *)

Definition complete_acknowledge (checkpoint : CompleteCheckpoint) (value : AddressedStateValue)
    : CompleteCheckpoint :=
  let checkpoint := set_state 0 Absent checkpoint in
  if addressed_hold_matches (clock_authority checkpoint) (address value)
  then set_state 1 (Present value) (without_hold checkpoint)
  else checkpoint.

(** The guards on a published request. *)
Definition request_admitted (checkpoint : CompleteCheckpoint) (operation : AddressedOperation)
    (request : AddressedStateValue) (head : JournalHead) : image_result unit :=
  if negb (bool_decide (cell_state checkpoint (slot operation) = Absent))
     || negb (phase request =? 1) || negb (bool_decide (application_head request = head))
     || negb (bool_decide (publication_head request = head))
  then Err INVALID
  else
    _ ← match active_pointer checkpoint, mirror request with
        | None, NotApplicable => Ok tt
        | Some pointer, Pending origin _ _ =>
          if bool_decide (origin = target_history_epoch pointer) then Ok tt else Err INVALID
        | _, _ => Err INVALID
        end;
    _ ← match evidence request with
        | AcknowledgeEvidence _ _ prior_fixed_safe_time _ _ =>
          if negb (addressed_hold_matches (clock_authority checkpoint) (address request))
             || negb (prior_fixed_safe_time =? clock_safe_time checkpoint)
          then Err INVALID else Ok tt
        | ShutdownEvidence _ _ => Ok tt
        end;
    match cell_state checkpoint (S (slot operation)) with
    | Present last =>
      if bool_decide (address last = address request) then Err INVALID else Ok tt
    | Absent => Ok tt
    end.

(** The value an action starts from. *)
Definition replayed_value (checkpoint : CompleteCheckpoint) (operation : AddressedOperation)
    (action : AddressedAction) (head : JournalHead) : image_result AddressedStateValue :=
  match action with
  | PublishRequest request =>
    _ ← request_admitted checkpoint operation request head; Ok request
  | _ =>
    match cell_state checkpoint (slot operation) with
    | Present value => Ok value
    | Absent => Err INVALID
    end
  end.

Definition legal_phase (operation : AddressedOperation) (value : AddressedStateValue)
    (phase' : Z) : bool :=
  match operation with
  | ClockAcknowledge =>
    ((phase value =? 1) && (phase' =? 2))
    || ((phase value =? 2) && (phase' =? 3) && is_not_applicable (mirror value))
  | SystemShutdown =>
    ((phase value =? 1) && ((phase' =? 2) || (phase' =? 4)))
    || ((phase value =? 2) && ((phase' =? 3) || (phase' =? 4)))
  end.

Definition set_phase (phase' : Z) (result : AddressedResult) (application publication : JournalHead)
    (m : AddressedMirror) (v : AddressedStateValue) : AddressedStateValue :=
  mkAddressedStateValue (actor v) (address v) (desired_transition v) (evidence v) phase' result
    application publication m.

Definition replay_phase (checkpoint : CompleteCheckpoint) (operation : AddressedOperation)
    (value : AddressedStateValue) (phase' : Z) (result : AddressedResult) (head : JournalHead)
    : image_result (CompleteCheckpoint * AddressedStateValue) :=
  if negb (legal_phase operation value phase') || is_committed (mirror value) then Err INVALID
  else
    checkpoint ←
      (if bool_decide (operation = ClockAcknowledge) && (phase' =? 2) then
         match evidence value with
         | AcknowledgeEvidence _ _ _ _ target_safe_time =>
           if negb (addressed_hold_matches (clock_authority checkpoint) (address value))
              || (target_safe_time <? clock_safe_time checkpoint)
           then Err INVALID else Ok (with_safe_time target_safe_time checkpoint)
         | ShutdownEvidence _ _ => Err INVALID
         end
       else Ok checkpoint);
    Ok (checkpoint, set_phase phase' result head head (mirror value) value).

Definition replay_commit (checkpoint : CompleteCheckpoint) (operation : AddressedOperation)
    (value : AddressedStateValue) (post head : JournalHead)
    : image_result (CompleteCheckpoint * AddressedStateValue) :=
  match mirror value with
  | Pending origin pre policy =>
    if (match operation with
        | ClockAcknowledge => negb (phase value =? 2)
        | SystemShutdown => negb (within 3 4 (phase value))
        end)
       || (sequence post <=? sequence pre) || bool_decide (digest post = repeat 0 32)
    then Err INVALID
    else
      let committed := Committed origin pre policy post in
      match operation with
      | ClockAcknowledge =>
        match evidence value with
        | AcknowledgeEvidence _ _ _ _ target_safe_time =>
          Ok (checkpoint, set_phase 3 (AcknowledgeResult target_safe_time true) head head
                            committed value)
        | ShutdownEvidence _ _ => Err INVALID
        end
      | SystemShutdown =>
        Ok (checkpoint, set_phase (phase value) (safe_result value) (application_head value)
                          head committed value)
      end
  | _ => Err INVALID
  end.

Definition replay_action (checkpoint : CompleteCheckpoint) (operation : AddressedOperation)
    (action : AddressedAction) (value : AddressedStateValue) (head : JournalHead)
    : image_result (CompleteCheckpoint * AddressedStateValue) :=
  match action with
  | PublishRequest _ =>
    Ok (match operation with
        | SystemShutdown => set_state (S (slot operation)) Absent checkpoint
        | ClockAcknowledge => checkpoint
        end, value)
  | PublishPhase phase' result => replay_phase checkpoint operation value phase' result head
  | CommitMirror post => replay_commit checkpoint operation value post head
  end.

(** Where the value goes: to the result slot once complete. *)
Definition settle (checkpoint : CompleteCheckpoint) (operation : AddressedOperation)
    (value : AddressedStateValue) : CompleteCheckpoint :=
  if addressed_complete value then
    match operation with
    | ClockAcknowledge => complete_acknowledge checkpoint value
    | SystemShutdown =>
      set_state (S (slot operation)) (Present value)
        (set_state (slot operation) Absent checkpoint)
    end
  else set_state (slot operation) (Present value) checkpoint.

Definition replay_addressed (checkpoint : CompleteCheckpoint) (operation : AddressedOperation)
    (action : AddressedAction) (head : JournalHead) : image_result CompleteCheckpoint :=
  value ← replayed_value checkpoint operation action head;
  step ← replay_action checkpoint operation action value head;
  let '(checkpoint, value) := step in
  _ ← validate_addressed_value operation value;
  Ok (settle checkpoint operation value).

(** ** Replaying a clock checkpoint *)

Definition is_settlement (r : ClockBody.CheckpointReason) : bool :=
  match r with ClockBody.AutomaticSettlement => true | _ => false end.
Definition is_clean_shutdown (r : ClockBody.CheckpointReason) : bool :=
  match r with ClockBody.CleanShutdown => true | _ => false end.

Definition replay_clock (checkpoint : CompleteCheckpoint) (body : ClockBody.ClockCheckpointBody)
    : image_result CompleteCheckpoint :=
  _ ← map_err (fun _ => INVALID) (ClockBody.encode_clock_checkpoint_body body);
  if negb (ClockBody.prior_safe_time body =? clock_safe_time checkpoint) then Err INVALID
  else
    _ ← match is_settlement (ClockBody.reason body), clock_hold checkpoint,
              ClockBody.hold body with
        | true, Some current, Some named =>
          if (ClockAuthority.generation current =? ClockBody.generation named)
             && bool_decide (ClockAuthority.observation_digest current
                             = ClockBody.observation_digest named)
          then Ok tt else Err INVALID
        | false, None, None => Ok tt
        | _, _, _ => Err INVALID
        end;
    _ ← match active_pointer checkpoint, ClockBody.pre_mirror body with
        | _, None => Ok tt
        | Some pointer, Some m =>
          if bool_decide (target_history_epoch pointer = ClockBody.selected_origin m)
          then Ok tt else Err INVALID
        | None, Some _ => Err INVALID
        end;
    let checkpoint := with_safe_time (ClockBody.new_safe_time body) checkpoint in
    let checkpoint :=
      if is_settlement (ClockBody.reason body) then without_hold checkpoint else checkpoint in
    let checkpoint :=
      if is_clean_shutdown (ClockBody.reason body)
      then with_shutdown_observation (ClockBody.accepted_wall_time body) checkpoint
      else checkpoint in
    Ok checkpoint.

Definition replay_clock_at (checkpoint : CompleteCheckpoint)
    (body : ClockBody.ClockCheckpointBody) (head : JournalHead)
    : image_result CompleteCheckpoint :=
  let prior := clock_authority checkpoint in
  checkpoint ← replay_clock checkpoint body;
  match is_settlement (ClockBody.reason body), cell_state checkpoint 0 with
  | true, Present value =>
    if addressed_hold_matches prior (address value) then
      if negb (is_not_applicable (mirror value)) || negb (phase value =? 2) then Err INVALID
      else
        match evidence value with
        | AcknowledgeEvidence _ _ _ _ target_safe_time =>
          if clock_safe_time checkpoint <? target_safe_time then Err INVALID
          else
            let value := set_phase 3 (AcknowledgeResult target_safe_time true) head head
                           (mirror value) value in
            Ok (set_state 1 (Present value) (set_state 0 Absent checkpoint))
        | ShutdownEvidence _ _ => Err INVALID
        end
    else Ok checkpoint
  | _, _ => Ok checkpoint
  end.

(** ** The image's bindings *)

Definition mirror_origin (cell : AddressedCell) : option bytes :=
  match state cell with
  | Absent => None
  | Present value =>
    match mirror value with
    | NotApplicable => None
    | Pending origin _ _ | Committed origin _ _ _ => Some origin
    end
  end.

Definition foreign_origin (h : AuthenticatedControlJournalHeader) (epoch : bytes) : bool :=
  let serial := of_be_bytes (drop 24 epoch) in
  negb (bool_decide (take 24 epoch = image_namespace h)) || (serial =? 0)
  || (image_high_water h <? serial).

Definition origins (c : CompleteCheckpoint) : list bytes :=
  match active_pointer c with Some pointer => [target_history_epoch pointer] | None => [] end
  ++ omap mirror_origin (addressed c).

Definition validate_image_bindings (image : CompleteControlJournalImage) : image_result unit :=
  let c := checkpoint image in
  if existsb (foreign_origin (header image)) (origins c) then Err INVALID
  else if (generation c =? 1)
          && (negb (sequence (covered_head c) =? 0) || is_some (clock_hold c)
              || is_some (ClockAuthority.last_shutdown_observation (clock_authority c))
              || is_some (active_pointer c) || negb (bool_decide (length (recovery_ring c) = 0%nat)))
  then Err INVALID else Ok tt.

(** ** Replaying the tail *)

Definition encode_tail_record (record : TailRecord)
    : image_result (ControlJournalRecordKind * bytes) :=
  match record with
  | ClockCheckpointEvent body =>
    l ← map_err (fun _ => INVALID) (ClockBody.encode_clock_checkpoint_body body);
    Ok (Journal.ClockCheckpoint, l)
  | TailClockAcknowledge action =>
    l ← encode_addressed_action ClockAcknowledge action;
    Ok (operation_kind ClockAcknowledge, l)
  | TailSystemShutdown action =>
    l ← encode_addressed_action SystemShutdown action;
    Ok (operation_kind SystemShutdown, l)
  end.

(** The digest a frame must result in. *)
Definition expected_digest (kind : ControlJournalRecordKind) (body : bytes)
    (prior resulting : JournalHead) : image_result bytes :=
  match kind with
  | Journal.ClockCheckpoint =>
    digest <$> map_err (fun _ => INVALID) (control_journal_clock_checkpoint_head body prior)
  | _ =>
    let operation := match kind with
                     | Journal.ClockAcknowledge => ClockAcknowledge
                     | _ => SystemShutdown
                     end in
    Ok (sha256 (as_bytes "msgriver/control-journal-record/v1"
                ++ be_bytes 2 (operation_code operation) ++ be_bytes 8 (sequence resulting)
                ++ digest prior ++ body))
  end.

Definition replay_record (checkpoint : CompleteCheckpoint) (record : TailRecord)
    (head : JournalHead) : image_result CompleteCheckpoint :=
  match record with
  | ClockCheckpointEvent body => replay_clock_at checkpoint body head
  | TailClockAcknowledge action => replay_addressed checkpoint ClockAcknowledge action head
  | TailSystemShutdown action => replay_addressed checkpoint SystemShutdown action head
  end.

(** The frame follows [prior], and its resulting head is that of its record; the
    length of the encoded frame. *)
Definition frame_follows (prior : JournalHead) (frame : AuthenticatedTailFrame)
    : image_result Z :=
  if negb (bool_decide (prior_head frame = prior))
     || negb (bool_decide (Some (sequence (resulting_head frame))
                           = checked_add_u64 (sequence prior) 1))
  then Err INVALID
  else
    _ ← validate_head (resulting_head frame);
    parts ← encode_tail_record (record frame);
    let '(kind, body) := parts in
    expected ← expected_digest kind body prior (resulting_head frame);
    if negb (bool_decide (expected = digest (resulting_head frame))) then Err INVALID
    else Ok (len body + 110).

(** One round of [replay_tail]; the checkpoint's covered head is the prior head. *)
Definition replay_frame (checkpoint : CompleteCheckpoint) (total : Z)
    (frame : AuthenticatedTailFrame) : image_result (CompleteCheckpoint * Z) :=
  frame_bytes ← frame_follows (covered_head checkpoint) frame;
  let total := total + frame_bytes in
  if (FRAME_LIMIT <? frame_bytes) || (TAIL_LIMIT <? total) then Err INVALID
  else
    checkpoint ← replay_record checkpoint (record frame) (resulting_head frame);
    let checkpoint := set_covered (resulting_head frame) checkpoint in
    _ ← validate_checkpoint checkpoint;
    Ok (checkpoint, total).

(** The loop: the checkpoint and the bytes of the tail so far. *)
Fixpoint replay_frames (checkpoint : CompleteCheckpoint) (total : Z)
    (frames : list AuthenticatedTailFrame) : image_result (CompleteCheckpoint * Z) :=
  match frames with
  | [] => Ok (checkpoint, total)
  | frame :: rest =>
    step ← replay_frame checkpoint total frame;
    let '(checkpoint, total) := step in
    replay_frames checkpoint total rest
  end.

Definition replay_tail (image : CompleteControlJournalImage) : image_result CompleteCheckpoint :=
  _ ← validate_image_bindings image;
  _ ← validate_checkpoint (checkpoint image);
  if TAIL_COUNT_LIMIT <? Z.of_nat (length (tail image)) then Err INVALID
  else
    step ← replay_frames (checkpoint image) 104 (tail image);
    let '(checkpoint, _) := step in
    _ ← validate_checkpoint checkpoint;
    Ok checkpoint.

(** ** Folding, and the disclosure of a completed result *)

Definition fold_control_journal_image (image : CompleteControlJournalImage)
    (_trigger : FoldTrigger) : image_result CompleteControlJournalImage :=
  checkpoint ← replay_tail image;
  generation ← ok_or (checked_add_u64 (generation checkpoint) 1) INVALID;
  Ok (mkImage (header image) (set_generation generation checkpoint) []).

Definition addressed_completion (image : CompleteControlJournalImage)
    (operation : AddressedOperation) (addr : AddressedOperationAddress)
    (current_process : bytes) : image_result (option AddressedResult) :=
  checkpoint ← replay_tail image;
  let eligible :=
    match operation, addr with
    | ClockAcknowledge, ClockHold _ _ =>
      negb (is_some (clock_hold checkpoint))
      || addressed_hold_matches (clock_authority checkpoint) addr
    | SystemShutdown, ProcessInstance process =>
      negb (bool_decide (process = repeat 0 16)) && bool_decide (process = current_process)
    | _, _ => false
    end in
  match cell_state checkpoint (S (slot operation)) with
  | Present value =>
    if eligible && bool_decide (address value = addr) && addressed_complete value
    then Ok (Some (safe_result value)) else Ok None
  | Absent => Ok None
  end.

(** ** What one record can change *)

(** From [c] to [c']: everything but the clock authority and the cells is kept, safe
    time never goes back, a hold is at most cleared, and no mirror origin is new. *)
Record evolves (c c' : CompleteCheckpoint) : Prop := mkEvolves {
  evolves_generation : generation c' = generation c;
  evolves_pointer : active_pointer c' = active_pointer c;
  evolves_ring : recovery_ring c' = recovery_ring c;
  evolves_commands : local_commands c' = local_commands c;
  evolves_safe_time : clock_safe_time c <= clock_safe_time c';
  evolves_hold : clock_hold c' = clock_hold c \/ clock_hold c' = None;
  evolves_roles : Forall2 same_role (addressed c) (addressed c');
  evolves_origins : forall o, o ∈ origins c' -> o ∈ origins c;
}.

#[export] Instance same_role_preorder : PreOrder same_role.
Proof. split; [done|]. intros x y z [] []. split; congruence. Qed.

#[export] Instance evolves_preorder : PreOrder evolves.
Proof.
  split.
  - intros c. split; try (done || reflexivity || by left).
  - intros a b c [] []. split; try congruence; try lia; try naive_solver.
    + destruct evolves_hold0 as [?|?], evolves_hold1 as [?|?]; naive_solver congruence.
    + by etrans.
Qed.

(** The origin a value binds, and the origins after a cell is assigned. *)
Definition value_origin (v : AddressedStateValue) : option bytes :=
  match mirror v with
  | NotApplicable => None
  | Pending origin _ _ | Committed origin _ _ _ => Some origin
  end.

Definition state_origin (s : AddressedState) : option bytes :=
  match s with Absent => None | Present v => value_origin v end.

Lemma mirror_origin_state cell : mirror_origin cell = state_origin (state cell).
Proof. done. Qed.

Lemma cell_origin c i o :
  state_origin (cell_state c i) = Some o -> o ∈ origins c.
Proof.
  unfold cell_state. destruct (addressed c !! i) as [cell|] eqn:Hi; [|done]. intros Ho.
  unfold origins. apply elem_of_app. right. apply list_elem_of_omap.
  exists cell. split; [by eapply list_elem_of_lookup_2|done].
Qed.

Lemma evolves_put i s c c' :
  evolves c c' -> (forall o, state_origin s = Some o -> o ∈ origins c) ->
  evolves c (set_state i s c').
Proof.
  intros [] Ho. split; try done; cbn [addressed set_state].
  - etrans; [done|]. apply Forall2_same_length_lookup. split; [by rewrite length_alter|].
    intros j x y Hx Hy. rewrite list_lookup_alter in Hy. case_decide; simplify_option_eq; done.
  - intros o. unfold origins at 1. cbn [addressed active_pointer set_state].
    rewrite elem_of_app. intros [?|Hin].
    { apply evolves_origins0. apply elem_of_app. by left. }
    apply list_elem_of_omap in Hin as (cell & Hc & Hcell).
    apply list_elem_of_lookup_1 in Hc as [j Hj]. rewrite list_lookup_alter in Hj.
    case_decide as Hij.
    + destruct (addressed c' !! i) as [y|] eqn:Hy; subst; rewrite ?Hy in Hj; simplify_eq/=.
      apply Ho, Hcell.
    + apply evolves_origins0, elem_of_app. right. apply list_elem_of_omap. exists cell.
      split; [|done]. by eapply list_elem_of_lookup_2.
Qed.

Lemma evolves_safe t c c' :
  evolves c c' -> clock_safe_time c' <= t -> evolves c (with_safe_time t c').
Proof. intros [] Ht. split; try done. unfold clock_safe_time in *. cbn. lia. Qed.

Lemma evolves_clear c c' : evolves c c' -> evolves c (without_hold c').
Proof. intros []. split; try done. by right. Qed.

Lemma evolves_observed t c c' : evolves c c' -> evolves c (with_shutdown_observation t c').
Proof. by intros []. Qed.

(** The value an action starts from binds an origin already bound. *)
Lemma replayed_value_origin c operation action head v o :
  replayed_value c operation action head = Ok v -> value_origin v = Some o -> o ∈ origins c.
Proof.
  unfold replayed_value. intros Hv Ho.
  assert (forall v', cell_state c (slot operation) = Present v' -> v' = v -> o ∈ origins c)
    as Hcell.
  { intros v' Hc ->. apply (cell_origin c (slot operation)). by rewrite Hc. }
  destruct action as [request|p r|post].
  2, 3: destruct (cell_state c (slot operation)) as [|v']; [done|]; injection Hv as ->;
    by eapply Hcell.
  apply bind_Ok in Hv as ([] & Hr & [= ->]). unfold request_admitted in Hr.
  destruct (_ || _); [done|]. apply bind_Ok in Hr as ([] & Hm & _).
  unfold value_origin in Ho. unfold origins.
  destruct (active_pointer c) as [pointer|], (mirror v) as [|origin pre policy|]; try done.
  case_bool_decide; [|done]. injection Ho as <-. apply elem_of_app. left. subst.
  by apply list_elem_of_singleton.
Qed.

Lemma replay_action_evolves c operation action value head c' v' :
  replay_action c operation action value head = Ok (c', v') ->
  evolves c c' /\ value_origin v' = value_origin value.
Proof.
  intros H. destruct action as [request|p r|post]; cbn [replay_action] in H.
  - injection H as <- <-. split; [|done]. destruct operation; [reflexivity|].
    by apply evolves_put; [reflexivity|].
  - unfold replay_phase in H. destruct (_ || _); [done|].
    apply bind_Ok in H as (c1 & Hc & [= <- <-]). split; [|done].
    destruct (_ && _); [|injection Hc as <-; reflexivity].
    destruct (evidence value); [|done].
    destruct (negb _ || (target_safe_time <? clock_safe_time c)) eqn:Hb; [done|]. b2p.
    injection Hc as <-. apply evolves_safe; [reflexivity|lia].
  - unfold replay_commit in H. unfold value_origin.
    destruct (mirror value) as [|origin pre policy|]; [done| |done].
    destruct (_ || _); [done|].
    destruct operation; [destruct (evidence value); [|done]|];
      injection H as <- <-; by split; [reflexivity|].
Qed.

Lemma settle_evolves c c' operation v :
  evolves c c' -> (forall o, value_origin v = Some o -> o ∈ origins c) ->
  evolves c (settle c' operation v).
Proof.
  intros Hc Ho. unfold settle, complete_acknowledge. cbv zeta.
  destruct (addressed_complete v); [destruct operation; [destruct (addressed_hold_matches _ _)|]|].
  all: repeat first [apply evolves_put | apply evolves_clear]; try done.
Qed.

Lemma replay_addressed_evolves c operation action head c' :
  replay_addressed c operation action head = Ok c' -> evolves c c'.
Proof.
  unfold replay_addressed. intros (v & Hv & H)%bind_Ok.
  apply bind_Ok in H as ([c1 v1] & Ha & H). apply bind_Ok in H as ([] & _ & [= <-]).
  apply replay_action_evolves in Ha as [Hc Ho]. apply settle_evolves; [done|].
  intros o. rewrite Ho. by apply (replayed_value_origin _ _ _ _ _ _ Hv).
Qed.

Lemma clock_body_monotone body l :
  ClockBody.encode_clock_checkpoint_body body = Ok l ->
  ClockBody.prior_safe_time body <= ClockBody.new_safe_time body.
Proof.
  unfold ClockBody.encode_clock_checkpoint_body, ClockBody.validate_body.
  intros ([] & Hv & _)%bind_Ok. destruct (_ || _) eqn:Hb; [done|]. b2p. lia.
Qed.

Lemma replay_clock_evolves c body c' :
  replay_clock c body = Ok c' -> evolves c c'.
Proof.
  unfold replay_clock. intros (l & Hb%map_err_Ok & H)%bind_Ok.
  apply clock_body_monotone in Hb.
  destruct (negb _) eqn:Hp; [done|]. b2p. apply bind_Ok in H as ([] & _ & H).
  apply bind_Ok in H as ([] & _ & [= <-]).
  assert (evolves c (with_safe_time (ClockBody.new_safe_time body) c))
    by (apply evolves_safe; [reflexivity|lia]).
  destruct (is_settlement _), (is_clean_shutdown _);
    repeat first [apply evolves_observed | apply evolves_clear]; done.
Qed.

Lemma replay_clock_at_evolves c body head c' :
  replay_clock_at c body head = Ok c' -> evolves c c'.
Proof.
  unfold replay_clock_at. cbv zeta. intros (c1 & Hc%replay_clock_evolves & H)%bind_Ok.
  destruct (is_settlement _); [|injection H as <-; done].
  destruct (cell_state c1 0) as [|v] eqn:Hv; [injection H as <-; done|].
  destruct (addressed_hold_matches _ _); [|injection H as <-; done].
  destruct (_ || _); [done|]. destruct (evidence v); [|done].
  destruct (_ <? _); [done|]. injection H as <-.
  apply evolves_put; [by apply evolves_put|]. intros o Ho. apply (evolves_origins _ _ Hc).
  apply (cell_origin c1 0). by rewrite Hv.
Qed.

Lemma replay_record_evolves c r head c' :
  replay_record c r head = Ok c' -> evolves c c'.
Proof.
  destruct r; cbn [replay_record]; eauto using replay_clock_at_evolves, replay_addressed_evolves.
Qed.

(** ** What a frame binds *)

(** What the digest of a frame's resulting head is taken of. *)
Definition frame_preimage (kind : ControlJournalRecordKind) (body : bytes)
    (prior : JournalHead) : bytes :=
  RECORD_LABEL ++ be_bytes 2 (kind_code kind) ++ be_bytes 8 (sequence prior + 1)
  ++ digest prior ++ body.

Lemma prefix_digest kind body prior prefix :
  record_prefix kind body prior = Ok prefix ->
  frame_digest prefix = sha256 (frame_preimage kind body prior).
Proof.
  intros (_ & _ & ->)%record_prefix_Ok. unfold frame_digest, frame_preimage.
  by rewrite drop_app_length' by (by rewrite length_be_bytes).
Qed.

Record follows (prior : JournalHead) (frame : AuthenticatedTailFrame)
    (kind : ControlJournalRecordKind) (body : bytes) : Prop := mkFollows {
  follows_prior : prior_head frame = prior;
  follows_sequence : sequence (resulting_head frame) = sequence prior + 1;
  follows_range : is_u64 (sequence prior + 1) = true;
  follows_head : validate_head (resulting_head frame) = Ok tt;
  follows_record : encode_tail_record (record frame) = Ok (kind, body);
  follows_digest : digest (resulting_head frame) = sha256 (frame_preimage kind body prior);
}.

Lemma frame_follows_Ok prior frame n :
  frame_follows prior frame = Ok n ->
  exists kind body, follows prior frame kind body /\ n = len body + 110.
Proof.
  unfold frame_follows. destruct (_ || _) eqn:Hb; [done|].
  apply orb_false_iff in Hb as [Hp Hs]. b2p. symmetry in Hs.
  apply checked_Some in Hs as [Hs Hu].
  intros ([] & Hh & H)%bind_Ok. apply bind_Ok in H as ([kind body] & He & H).
  apply bind_Ok in H as (expected & Hd & H).
  destruct (negb _) eqn:Hx; [done|]. b2p. injection H as <-. exists kind, body.
  split; [|done]. split; try done. rewrite <- Hx.
  unfold expected_digest in Hd. destruct kind.
  - unfold control_journal_clock_checkpoint_head in Hd.
    destruct (record_prefix Journal.ClockCheckpoint body prior) as [prefix|] eqn:Hpre; [|done].
    rewrite <- (prefix_digest _ _ _ _ Hpre). rewrite Ok_bind in Hd.
    destruct (next_sequence prior); [|done]. by injection Hd as <-.
  - injection Hd as <-. unfold frame_preimage. by rewrite Hs.
  - injection Hd as <-. unfold frame_preimage. by rewrite Hs.
Qed.

(** An action that was replayed is one of its operation under its head. *)
Lemma replay_addressed_for c operation action head c' :
  replay_addressed c operation action head = Ok c' -> action_for operation head action.
Proof.
  unfold replay_addressed. intros (v & Hv & H)%bind_Ok.
  apply bind_Ok in H as ([c1 v1] & Ha & H). apply bind_Ok in H as ([] & Hok & _).
  destruct action as [request|p r|post]; cbn [action_for]; [| |done].
  - unfold replayed_value, request_admitted in Hv. apply bind_Ok in Hv as ([] & Hr & _).
    destruct (_ || _) eqn:Hb; [done|]. b2p. naive_solver.
  - cbn [replay_action] in Ha. unfold replay_phase in Ha. destruct (_ || _); [done|].
    apply bind_Ok in Ha as (c2 & _ & [= <- <-]).
    unfold validate_addressed_value in Hok. apply bind_Ok in Hok as ([] & _ & Hok).
    apply bind_Ok in Hok as ([] & Hop & _). unfold validate_operation in Hop.
    cbn [safe_result set_phase address desired_transition evidence] in Hop.
    by destruct operation, (address v), (desired_transition v) as [[]|], (evidence v), r.
Qed.

(** ** The loop *)

Lemma replay_frames_app c total l1 l2 :
  replay_frames c total (l1 ++ l2) =
    step ← replay_frames c total l1; replay_frames step.1 step.2 l2.
Proof.
  revert c total. induction l1 as [|f l1 IH]; intros c total; [done|].
  cbn [replay_frames app]. destruct (replay_frame c total f) as [[c1 t1]|]; [|done].
  rewrite !Ok_bind. apply IH.
Qed.

(** One round. *)
Lemma replay_frame_Ok c total f c' total' :
  replay_frame c total f = Ok (c', total') ->
  exists kind body c1, follows (covered_head c) f kind body
    /\ len body + 110 <= FRAME_LIMIT /\ total' = total + (len body + 110)
    /\ total' <= TAIL_LIMIT
    /\ replay_record c (record f) (resulting_head f) = Ok c1
    /\ c' = set_covered (resulting_head f) c1 /\ accepted_checkpoint c'.
Proof.
  unfold replay_frame. intros (n & (kind & body & Hf & ->)%frame_follows_Ok & H)%bind_Ok.
  cbv zeta in H. destruct (_ || _) eqn:Hb; [done|]. b2p.
  apply bind_Ok in H as (c1 & Hr & H). apply bind_Ok in H as ([] & Hv & [= <- <-]).
  apply validate_checkpoint_Ok in Hv. exists kind, body, c1. split_and!; try done; lia.
Qed.

Lemma evolves_covered h c c' : evolves c c' -> evolves c (set_covered h c').
Proof. by intros []. Qed.

Lemma replay_frames_evolves c total l c' total' :
  replay_frames c total l = Ok (c', total') ->
  evolves c c' /\ sequence (covered_head c') = sequence (covered_head c) + Z.of_nat (length l).
Proof.
  revert c total. induction l as [|f l IH]; intros c total H.
  { injection H as <- <-. split; [reflexivity|]. cbn. lia. }
  cbn [replay_frames] in H. apply bind_Ok in H as ([c1 t1] & Hf & H).
  apply replay_frame_Ok in Hf as (kind & body & c2 & Hf & _ & _ & _ & Hr & -> & _).
  apply IH in H as [He Hs]. apply replay_record_evolves in Hr.
  split; [etrans; [|done]; by apply evolves_covered|]. rewrite Hs.
  cbn [covered_head set_covered length]. rewrite (follows_sequence _ _ _ _ Hf). lia.
Qed.

Record replayed (image : CompleteControlJournalImage) (p : CompleteCheckpoint) : Prop :=
  mkReplayed {
  replayed_bindings : validate_image_bindings image = Ok tt;
  replayed_start : accepted_checkpoint (checkpoint image);
  replayed_count : Z.of_nat (length (tail image)) <= TAIL_COUNT_LIMIT;
  replayed_frames : exists total, replay_frames (checkpoint image) 104 (tail image) = Ok (p, total);
  replayed_end : accepted_checkpoint p;
}.

Lemma replay_tail_Ok image p : replay_tail image = Ok p <-> replayed image p.
Proof.
  unfold replay_tail. split.
  - intros ([] & Hb & H)%bind_Ok. apply bind_Ok in H as ([] & Hc%validate_checkpoint_Ok & H).
    destruct (Z.ltb_spec TAIL_COUNT_LIMIT (Z.of_nat (length (tail image)))); [done|].
    apply bind_Ok in H as ([p' total] & Hf & H).
    apply bind_Ok in H as ([] & Hp%validate_checkpoint_Ok & [= ->]). split; eauto.
  - intros [Hb Hc Hn [total Hf] Hp]. apply validate_checkpoint_Ok in Hc, Hp.
    rewrite Hb, Ok_bind, Hc, Ok_bind, (proj2 (Z.ltb_ge _ _)) by lia.
    by rewrite Hf, Ok_bind, Hp.
Qed.

Lemma replay_tail_evolves image p :
  replay_tail image = Ok p ->
  evolves (checkpoint image) p
  /\ sequence (covered_head p) = sequence (covered_head (checkpoint image))
                                 + Z.of_nat (length (tail image)).
Proof. intros [_ _ _ [total Hf] _]%replay_tail_Ok. by eapply replay_frames_evolves. Qed.

(** The projection's head is that of the last frame. *)
Lemma replay_tail_head image p :
  replay_tail image = Ok p ->
  covered_head p = match last (tail image) with
                   | Some frame => resulting_head frame
                   | None => covered_head (checkpoint image)
                   end.
Proof.
  intros [_ _ _ [total Hf] _]%replay_tail_Ok. revert Hf. generalize (checkpoint image) as c0.
  induction (tail image) as [|f l IH] using rev_ind; intros c0 Hf; [by injection Hf as <-|].
  rewrite last_snoc. rewrite replay_frames_app in Hf. apply bind_Ok in Hf as ([c t] & _ & Hf).
  cbn [replay_frames fst snd] in Hf. apply bind_Ok in Hf as ([c1 t1] & Hf & [= <- <-]).
  by apply replay_frame_Ok in Hf as (_ & _ & c2 & _ & _ & _ & _ & _ & -> & _).
Qed.

(** ** Folding *)

(** The generation is no part of what validation and replay look at. *)
Lemma validate_cells_generation g c cells :
  validate_cells (set_generation g c) cells = validate_cells c cells.
Proof. induction cells as [|cell cells IH]; [done|]. cbn [validate_cells]. by rewrite IH. Qed.

Lemma accepted_set_generation g c :
  g <> 0 -> accepted_checkpoint c -> accepted_checkpoint (set_generation g c).
Proof.
  intros Hg Hc. split; try apply Hc; [done|]. pose proof (accepted_cells c Hc) as Hce.
  revert Hce. unfold validate_addressed_cells. by rewrite validate_cells_generation.
Qed.

Lemma foreign_none h l l' :
  (forall o, o ∈ l' -> o ∈ l) -> existsb (foreign_origin h) l = false ->
  existsb (foreign_origin h) l' = false.
Proof.
  intros Hl Hf. apply not_true_iff_false. intros (o & Ho%list_elem_of_In & Hx)%existsb_exists.
  apply not_true_iff_false in Hf. apply Hf, existsb_exists. exists o.
  split; [|done]. by apply list_elem_of_In, Hl.
Qed.

Lemma fold_replayed image trigger folded :
  0 <= generation (checkpoint image) ->
  fold_control_journal_image image trigger = Ok folded ->
  exists p, replay_tail image = Ok p
    /\ folded = mkImage (header image) (set_generation (generation p + 1) p) []
    /\ replay_tail folded = Ok (checkpoint folded).
Proof.
  intros Hg H. unfold fold_control_journal_image in H. apply bind_Ok in H as (p & Hp & H).
  apply bind_Ok in H as (g & Hn%ok_or_Ok & [= <-]). apply checked_Some in Hn as [-> Hu].
  exists p. split; [done|]. split; [done|].
  pose proof Hp as [He _]%replay_tail_evolves. apply replay_tail_Ok in Hp as [Hb Hs _ _ Ha].
  pose proof (accepted_generation _ Hs). pose proof (evolves_generation _ _ He).
  assert (accepted_checkpoint (set_generation (generation p + 1) p))
    by (apply accepted_set_generation; [lia|done]).
  apply replay_tail_Ok. split; [|done|done|by exists 104|done].
  unfold validate_image_bindings in *.
  cbn [checkpoint header] in *. destruct (existsb _ (origins (checkpoint image))) eqn:Hf; [done|].
  rewrite (foreign_none _ (origins (checkpoint image))); [|apply He|done].
  cbn [generation set_generation]. by rewrite (proj2 (Z.eqb_neq _ _)) by lia.
Qed.
