(* ===== verification/Image.v ===== *)
(** * The control-journal image
    ([initialization_key_pair/control_journal_image.rs] of [crates/msgriver/src],
    lines 413-462, 597-611, 2150-2257 and 2429-2567)

    The wire of an image is its header, the sealed checkpoint and the sealed tail,
    each bound to the digests of what precedes it. The decoder is shown to accept
    exactly the wires the encoder writes for well-typed images ([image_codec]). *)

From S2P Require Import Prelude Bytes CoreError Generation Bounded Ring Sha256 Codec Clock.
From S2P Require Import Journal RecoveryRing GenerateProfile Pointer ImageWire Addressed.
From S2P Require Import Checkpoint CheckpointCodec Replay.

#[local] Open Scope Z_scope.

Definition CHECKPOINT_AUTH_LABEL : bytes := as_bytes "msgriver/control-journal-checkpoint/v1".
Definition TAIL_AUTH_LABEL : bytes := as_bytes "msgriver/control-journal-tail/v1".
Definition AUTH_TAG_BYTES : nat := 32.

Inductive ImageRegion : Type := CheckpointRegion | TailRegion.

Definition region_label (self : ImageRegion) : bytes :=
  match self with
  | CheckpointRegion => CHECKPOINT_AUTH_LABEL
  | TailRegion => TAIL_AUTH_LABEL
  end.

Definition invalid {E A : Type} (r : result E A) : image_result A := map_err (fun _ => INVALID) r.

Section with_hmac.
Context `{HmacSha256}.

Definition encode_image_header (key : JournalIntegrityKey)
    (header : AuthenticatedControlJournalHeader) : image_result bytes :=
  component ← invalid (control_journal_header_with_branch_high_water key
                         (image_high_water header));
  if negb (bool_decide (namespace_bytes (owner_namespace component) = image_namespace header))
  then Err INVALID
  else invalid (encode_control_journal_header key component).

Definition region_tag (key : JournalIntegrityKey) (region : ImageRegion) (l : bytes) : bytes :=
  hmac (key_bytes key) (region_label region ++ l).

Definition verify_region_tag (key : JournalIntegrityKey) (region : ImageRegion) (l tag : bytes)
    : image_result unit :=
  if bool_decide (hmac (key_bytes key) (region_label region ++ l) = tag)
  then Ok tt else Err INVALID.

Definition region_digest (l : bytes) : bytes := sha256 l.

(** The limit of a region and the bytes around its payload. *)
Definition region_bounds (region : ImageRegion) (checkpoint_digest : option bytes)
    : image_result (Z * Z) :=
  match region, checkpoint_digest with
  | CheckpointRegion, None => Ok (CHECKPOINT_LIMIT, 72)
  | TailRegion, Some _ => Ok (TAIL_LIMIT, 104)
  | _, _ => Err INVALID
  end.

Definition seal_region (key : JournalIntegrityKey) (region : ImageRegion) (count : Z)
    (header_digest : bytes) (checkpoint_digest : option bytes) (payload : bytes)
    : image_result bytes :=
  bounds ← region_bounds region checkpoint_digest;
  let '(limit, overhead) := bounds in
  length ← ok_or (checked_add_u64 (len payload) overhead) INVALID;
  finish limit
    ((lift (ok_or (checked is_u32 length) INVALID) put_u32 >>>
      put_u16 1 >>> put_u16 count >>> extend header_digest >>>
      match checkpoint_digest with Some digest => extend digest | None => skip end >>>
      extend payload) >>>
     (fun writer => extend (region_tag key region (w_bytes writer)) writer)).

Record OpenRegion : Type := mkOpenRegion {
  exact_wire : bytes;
  region_payload : bytes;
  region_count : Z;
}.

(** [reader.offset], and [&reader.bytes[start..reader.offset]]. *)
Definition rd_offset : Reading nat := fun r => Ok (r_offset r, r).
Definition rd_since (start : nat) : Reading bytes :=
  fun r => Ok (slice (r_bytes r) start (r_offset r), r).

(** A part of the wire that starts with its own length: the length, and the whole
    part. *)
Definition rd_framed (minimum limit : Z) : Reading (Z * bytes) :=
  start ← rd_offset;
  length ← rd_u32;
  if negb (within minimum limit length) then fail INVALID
  else
    _ ← rd_take (Z.to_nat (length - 4));
    wire ← rd_since start;
    mret (length, wire).

(** The fields before the payload of a region: its count. *)
Definition rd_region_head (header_digest : bytes) (checkpoint_digest : option bytes)
    : Reading Z :=
  version ← rd_u16;
  if negb (version =? 1) then fail INVALID
  else
    count ← rd_u16;
    header ← rd_array 32;
    if negb (bool_decide (header = header_digest)) then fail INVALID
    else
      match checkpoint_digest with
      | None => mret count
      | Some digest =>
        checkpoint ← rd_array 32;
        if negb (bool_decide (checkpoint = digest)) then fail INVALID else mret count
      end.

(** What follows the head is the payload. *)
Definition rd_with_rest {A : Type} (m : Reading A) : Reading (A * bytes) :=
  a ← m; payload ← rd_rest; mret (a, payload).

Definition open_region (key : JournalIntegrityKey) (region : ImageRegion)
    (header_digest : bytes) (checkpoint_digest : option bytes) : Reading OpenRegion :=
  bounds ← from (region_bounds region checkpoint_digest);
  framed ← rd_framed bounds.2 bounds.1;
  let '(length, wire) := framed in
  let tag_start := Z.to_nat (length - Z.of_nat AUTH_TAG_BYTES) in
  _ ← from (verify_region_tag key region (take tag_start wire) (drop tag_start wire));
  fields ← from (fst <$> rd_with_rest (rd_region_head header_digest checkpoint_digest)
                           (new_reader (slice wire 4 tag_start)));
  mret (mkOpenRegion wire fields.2 fields.1).

(** The image's head and the component's have the same two fields. *)
Definition component_head (head : JournalHead) : JournalHead :=
  mkJournalHead (sequence head) (digest head).

Definition encode_tail_frame (key : JournalIntegrityKey) (prior : JournalHead)
    (frame : AuthenticatedTailFrame) : image_result bytes :=
  if negb (bool_decide (prior_head frame = prior))
     || negb (bool_decide (Some (sequence (resulting_head frame))
                           = checked_add_u64 (sequence prior) 1))
  then Err INVALID
  else
    parts ← encode_tail_record (record frame);
    let '(kind, body) := parts in
    wire ← invalid (encode_control_journal_record key kind body (component_head prior));
    authenticated ← invalid (decode_control_journal_record key wire (component_head prior));
    if negb (bool_decide (record_digest authenticated = digest (resulting_head frame)))
    then Err INVALID else Ok wire.

(** The loop over the tail: each frame after the head of the one before. *)
Fixpoint put_frames (key : JournalIntegrityKey) (prior : JournalHead)
    (frames : list AuthenticatedTailFrame) : Writing :=
  match frames with
  | [] => skip
  | frame :: rest =>
    lift (encode_tail_frame key prior frame) extend >>>
    put_frames key (resulting_head frame) rest
  end.

Definition encode_control_journal_image (key : JournalIntegrityKey)
    (image : CompleteControlJournalImage) : image_result bytes :=
  header_wire ← encode_image_header key (header image);
  checkpoint_payload ← encode_checkpoint key (image_namespace (header image))
                         (checkpoint image);
  _ ← replay_tail image;
  let header_digest := region_digest header_wire in
  checkpoint_wire ← seal_region key CheckpointRegion CHECKPOINT_MEMBERS header_digest None
                      checkpoint_payload;
  payload ← finish (TAIL_LIMIT - 104)
              (put_frames key (covered_head (checkpoint image)) (tail image));
  count ← ok_or (checked is_u16 (Z.of_nat (length (tail image)))) INVALID;
  tail_wire ← seal_region key TailRegion count header_digest
                (Some (region_digest checkpoint_wire)) payload;
  finish IMAGE_LIMIT (extend header_wire >>> extend checkpoint_wire >>> extend tail_wire).

(** The typed record of an authenticated one. *)
Definition decode_tail_record (frame : ControlJournalRecord) (resulting_head : JournalHead)
    : image_result TailRecord :=
  match record_kind frame with
  | Journal.ClockCheckpoint =>
    ClockCheckpointEvent
      <$> invalid (ClockBody.decode_clock_checkpoint_body (record_body frame))
  | Journal.ClockAcknowledge =>
    TailClockAcknowledge
      <$> decode_addressed_action ClockAcknowledge (record_body frame) resulting_head
  | Journal.SystemShutdown =>
    TailSystemShutdown
      <$> decode_addressed_action SystemShutdown (record_body frame) resulting_head
  end.

Definition rd_tail_frame (key : JournalIntegrityKey) (prior : JournalHead)
    : Reading AuthenticatedTailFrame :=
  framed ← rd_framed 110 FRAME_LIMIT;
  frame ← from (invalid (decode_control_journal_record key framed.2 (component_head prior)));
  let resulting_head := mkJournalHead (record_sequence frame) (record_digest frame) in
  record ← from (decode_tail_record frame resulting_head);
  mret (mkTailFrame prior resulting_head record).

Fixpoint rd_tail_frames (key : JournalIntegrityKey) (prior : JournalHead) (count : nat)
    : Reading (list AuthenticatedTailFrame) :=
  match count with
  | O => mret []
  | S count =>
    frame ← rd_tail_frame key prior;
    rest ← rd_tail_frames key (resulting_head frame) count;
    mret (frame :: rest)
  end.

(** The three regions of the wire: header, checkpoint and the unread tail. *)
Definition rd_image (key : JournalIntegrityKey)
    : Reading (ControlJournalHeader * CompleteCheckpoint * OpenRegion) :=
  header_wire ← rd_take 120;
  header ← from (invalid (decode_control_journal_header key header_wire));
  let header_digest := region_digest header_wire in
  checkpoint_region ← open_region key CheckpointRegion header_digest None;
  if negb (region_count checkpoint_region =? CHECKPOINT_MEMBERS) then fail INVALID
  else
    checkpoint ← from (decode_checkpoint key (namespace_bytes (owner_namespace header))
                         (region_payload checkpoint_region));
    tail_region ← open_region key TailRegion header_digest
                    (Some (region_digest (exact_wire checkpoint_region)));
    mret (header, checkpoint, tail_region).

Definition decode_control_journal_image (key : JournalIntegrityKey) (wire : bytes)
    : image_result CompleteControlJournalImage :=
  if IMAGE_LIMIT <? len wire then Err INVALID
  else
    regions ← read_all (rd_image key) wire;
    let '(component, checkpoint, tail_region) := regions in
    let count := region_count tail_region in
    if (TAIL_COUNT_LIMIT <? count) || (len (region_payload tail_region) / 110 <? count)
    then Err INVALID
    else
      tail ← read_all (rd_tail_frames key (covered_head checkpoint) (Z.to_nat count))
               (region_payload tail_region);
      let image :=
        mkImage (mkImageHeader (namespace_bytes (owner_namespace component))
                   (branch_serial_high_water component)) checkpoint tail in
      _ ← invalid (replay_tail image);
      Ok image.

End with_hmac.

(** ** The values the Rust types admit *)

Definition typed_tail_record (r : TailRecord) : bool :=
  match r with
  | ClockCheckpointEvent body => ClockBody.typed body
  | TailClockAcknowledge action | TailSystemShutdown action => typed_action action
  end.

Definition typed_frame (f : AuthenticatedTailFrame) : bool :=
  typed_head (prior_head f) && typed_head (resulting_head f) && typed_tail_record (record f).

Definition typed_image_header (h : AuthenticatedControlJournalHeader) : bool :=
  array 24 (image_namespace h) && is_u64 (image_high_water h).

Definition typed_image (image : CompleteControlJournalImage) : bool :=
  typed_image_header (header image) && typed_checkpoint (checkpoint image)
  && forallb typed_frame (tail image).

#[local] Existing Instance ClockBody.clock_body_codec.

(** ** Framed parts *)

(** A part that starts with its own length, within bounds. *)
Definition framed (minimum limit : Z) (w : bytes) : Prop :=
  is_bytes w = true /\ of_be_bytes (take 4 w) = len w /\ minimum <= len w <= limit.

(** What was read since [r]. *)
Lemma slice_since r c t :
  rest r = c ++ t ->
  slice (r_bytes (advance r (length c))) (r_offset r) (r_offset (advance r (length c))) = c.
Proof.
  intros He. unfold slice, advance. cbn [r_bytes r_offset]. fold (rest r). rewrite He.
  replace (_ - _)%nat with (length c) by lia. apply take_app_length.
Qed.

Lemma exact_framed minimum limit :
  4 <= minimum -> limit <= u32_max ->
  exact (rd_framed minimum limit) (fun c p => c = p.2 /\ p.1 = len p.2 /\ framed minimum limit p.2).
Proof.
  intros Hmin Hmax. split.
  - intros r [n w] r' Hr Hm. unfold rd_framed, mbind, reading_bind, rd_offset in Hm.
    destruct (rd_u32 r) as [[length r1]|] eqn:Hu; [|done].
    destruct (exact_sound _ _ exact_u32 _ _ _ Hr Hu) as (c1 & t1 & He1 & -> & -> & Hn).
    destruct (within minimum limit length) eqn:Hw; [|done]. apply within_spec in Hw. cbn [negb] in Hm.
    pose proof (advance_ok _ _ _ Hr He1) as Hr1.
    destruct (rd_take _ _) as [[l r2]|] eqn:Ht; [|done].
    destruct (exact_sound _ _ (exact_take _) _ _ _ Hr1 Ht) as (c2 & t2 & He2 & -> & -> & Hl & Hb).
    rewrite (rest_advance _ _ _ He1) in He2. subst t1. unfold rd_since, mret, reading_ret in Hm.
    apply Ok_inj, pair_eq in Hm as [[Hm1 Hm2]%pair_eq <-]. subst n w.
    rewrite advance_advance, <- length_app, (slice_since r _ t2) in * by (by rewrite <- app_assoc).
    cbn [fst snd]. exists (be_bytes 4 length ++ l), t2.
    rewrite He1, <- app_assoc. split; [done|]. split; [done|].
    assert (length = len (be_bytes 4 length ++ l)) as Hlen
      by (unfold len; rewrite length_app, length_be_bytes; lia).
    split; [done|]. split; [done|]. split; [by rewrite is_bytes_app, is_bytes_be_bytes|].
    split; [|by rewrite <- Hlen].
    rewrite take_app_le, take_ge, of_be_u32 by (done || rewrite length_be_bytes; lia). done.
  - intros r [n w] c t Hr He (-> & Hn & Hb & Hlen & Hlim). cbn [fst snd] in *. subst n.
    assert (4 <= Datatypes.length w)%nat as Hw4 by (unfold len in *; lia).
    rewrite <- (take_drop 4 w), <- app_assoc in He.
    assert (take 4 w = be_bytes 4 (len w)) as Hh.
    { rewrite <- Hlen. symmetry. replace 4%nat with (Datatypes.length (take 4 w)) at 1
        by (rewrite length_take; lia). apply be_bytes_of_be_bytes, is_bytes_take, Hb. }
    assert (is_u32 (len w) = true) as Hu by (apply within_spec; pose proof (len_nonneg w); lia).
    unfold rd_framed, mbind, reading_bind, rd_offset.
    rewrite (exact_complete _ _ exact_u32 _ (len w) _ _ Hr He) by done.
    rewrite (proj2 (within_spec minimum limit (len w))) by lia. cbn [negb].
    rewrite (exact_complete _ _ (exact_take _) _ (drop 4 w) (drop 4 w) t
      (advance_ok _ _ _ Hr He) (rest_advance _ _ _ He))
      by (split; [done|split; [unfold len; rewrite length_drop; lia|by apply is_bytes_drop]]).
    unfold rd_since, mret, reading_ret. rewrite advance_advance, <- length_app, take_drop.
    rewrite (slice_since r w t); [done|]. by rewrite He, app_assoc, take_drop.
Qed.

(** A reading followed by all that is left. *)
Lemma with_rest_exact {A : Type} (m : Reading A) spec l a p :
  exact m spec -> is_bytes l = true ->
  fst <$> rd_with_rest m (new_reader l) = Ok (a, p) <-> exists c, l = c ++ p /\ spec c a.
Proof.
  intros Hm Hl. assert (reader_ok (new_reader l)) as Hr by (split; [done|cbn; lia]).
  assert (rest (new_reader l) = l) as Hrest by apply drop_0.
  unfold rd_with_rest, mbind, reading_bind.
  assert (forall c t, l = c ++ t ->
    rd_rest (advance (new_reader l) (length c)) = Ok (t, advance (new_reader l) (length l))) as Hall.
  { intros c t He. unfold rd_rest. rewrite (exact_complete _ _ (exact_take _) _ t t []).
    - rewrite advance_advance, <- length_app. by rewrite He.
    - apply (advance_ok _ c t Hr). by rewrite Hrest.
    - rewrite app_nil_r. apply rest_advance. by rewrite Hrest.
    - split; [done|]. cbn. rewrite He, length_app. split; [lia|].
      rewrite He, is_bytes_app in Hl. by apply andb_true_iff in Hl as [_ ?]. }
  split.
  - destruct (m (new_reader l)) as [[a' r]|] eqn:Hmr; [|done].
    destruct (exact_sound _ _ Hm _ _ _ Hr Hmr) as (c & t & He & -> & HS).
    rewrite Hrest in He. rewrite (Hall c t He). intros [= <- <-]. eauto.
  - intros (c & He & HS).
    rewrite (exact_complete _ _ Hm _ a c p Hr) by (done || by rewrite Hrest).
    by rewrite (Hall c p He).
Qed.

(** ** Sealed regions *)

Section image_facts.
Context `{HmacOutput} (key : JournalIntegrityKey).

Definition digest_bytes_of (d : option bytes) : bytes := default [] d.

(** What stands before the payload and its tag. *)
Definition region_prefix (count overhead : Z) (hd : bytes) (cd : option bytes) (payload : bytes)
    : bytes :=
  (be_bytes 4 (len payload + overhead) ++ be_bytes 2 1 ++ be_bytes 2 count ++ hd
   ++ digest_bytes_of cd) ++ payload.

Definition region_wire (region : ImageRegion) (count overhead : Z) (hd : bytes)
    (cd : option bytes) (payload : bytes) : bytes :=
  let prefix := region_prefix count overhead hd cd payload in
  prefix ++ region_tag key region prefix.

(** Digests of the two predecessors, as the region asks for them. *)
Record region_context (region : ImageRegion) (hd : bytes) (cd : option bytes)
    (limit overhead : Z) : Prop := mkContext {
  context_bounds : region_bounds region cd = Ok (limit, overhead);
  context_header : array 32 hd = true;
  context_checkpoint : on_some (array 32) cd = true;
}.

Lemma context_limits region hd cd limit overhead :
  region_context region hd cd limit overhead ->
  72 <= overhead <= 104 /\ 0 <= limit <= u32_max
  /\ overhead = 72 + len (digest_bytes_of cd).
Proof.
  intros [Hb _ Hc]. destruct region, cd as [d|]; try done; injection Hb as <- <-.
  - split_and!; vm_compute; congruence.
  - split_and!; [vm_compute; congruence..|]. cbn [on_some] in Hc.
    unfold digest_bytes_of, len. cbn [default]. by rewrite (array_len _ _ Hc).
Qed.

Lemma length_region_tag region l : length (region_tag key region l) = 32%nat.
Proof. apply hmac_length. Qed.

Lemma len_region_wire region count hd cd payload limit overhead :
  region_context region hd cd limit overhead ->
  len (region_wire region count overhead hd cd payload) = len payload + overhead.
Proof.
  intros Hc. destruct (context_limits _ _ _ _ _ Hc) as (_ & _ & Ho).
  unfold region_wire, region_prefix. cbv zeta. unfold len in *.
  rewrite !length_app, length_region_tag, !length_be_bytes, (array_len _ _ (context_header _ _ _ _ _ Hc)).
  lia.
Qed.

(** A step whose last part depends on what was written before it. *)
Lemma finish_tagged limit w chunk (f : bytes -> bytes) :
  emits w chunk -> 0 <= limit <= u32_max ->
  finish limit (w >>> (fun writer => extend (f (w_bytes writer)) writer))
  = if len chunk + len (f chunk) <=? limit then Ok (chunk ++ f chunk) else Err INVALID.
Proof.
  intros Hw Hl. unfold finish, andThen. rewrite Hw by done. cbn [w_bytes w_limit new_writer app].
  change (len []) with 0. rewrite Z.add_0_l. pose proof (len_nonneg (f chunk)).
  destruct (Z.leb_spec (len chunk) limit) as [Hle|Hgt].
  - rewrite Ok_bind. cbn [w_bytes]. rewrite emits_extend by (cbn [w_bytes w_limit]; lia).
    cbn [w_bytes w_limit]. by destruct (_ <=? limit).
  - cbn. by rewrite (proj2 (Z.leb_gt _ _)) by lia.
Qed.

Lemma seal_region_Ok region count hd cd payload limit overhead w :
  region_context region hd cd limit overhead ->
  seal_region key region count hd cd payload = Ok w <->
  len payload + overhead <= limit /\ w = region_wire region count overhead hd cd payload.
Proof.
  intros Hc. pose proof (len_region_wire region count hd cd payload _ _ Hc) as Hlen.
  destruct (context_limits _ _ _ _ _ Hc) as (Ho & Hl & _).
  unfold seal_region. rewrite (context_bounds _ _ _ _ _ Hc), Ok_bind.
  pose proof (len_nonneg payload).
  destruct (decide (len payload + overhead <= u32_max)) as [Hu|Hu].
  - assert (is_u64 (len payload + overhead) = true) as H64
      by (apply within_spec; unfold u64_max, u32_max in *; lia).
    unfold checked_add_u64, checked. rewrite H64. cbn [ok_or]. rewrite Ok_bind.
    rewrite (finish_tagged _ _ (region_prefix count overhead hd cd payload)); [|clear Hlen|done].
    + change (region_tag key region (region_prefix count overhead hd cd payload)) with
        (drop 0 (region_tag key region (region_prefix count overhead hd cd payload))).
      rewrite drop_0. unfold region_wire in *. cbv zeta in *. rewrite len_cat in Hlen.
      rewrite Hlen. destruct (Z.leb_spec (len payload + overhead) limit); split;
        [by intros [= <-]|by intros [_ ->]|done|lia].
    + unfold region_prefix. rewrite <- !app_assoc.
      apply emits_andThen; [eapply emits_lift; [|apply emits_u32]|].
      { rewrite (proj2 (within_spec 0 u32_max _)) by lia. done. }
      apply emits_andThen; [apply emits_u16|]. apply emits_andThen; [apply emits_u16|].
      apply emits_andThen; [apply emits_extend|].
      apply emits_andThen; [destruct cd; [apply emits_extend|apply emits_skip]|apply emits_extend].
  - split; [|lia]. intros (n & [-> _]%ok_or_Ok%checked_Some & Hx)%bind_Ok.
    assert (checked is_u32 (len payload + overhead) = None) as Hn.
    { apply checked_None. apply not_true_iff_false. intros ?%within_spec. lia. }
    unfold finish, andThen, lift in Hx. rewrite Hn in Hx. done.
Qed.

(** ** Opening a region *)

Record opened (region : ImageRegion) (hd : bytes) (cd : option bytes) (limit overhead : Z)
    (o : OpenRegion) : Prop := mkOpened {
  opened_wire : exact_wire o
                = region_wire region (region_count o) overhead hd cd (region_payload o);
  opened_count : is_u16 (region_count o) = true;
  opened_payload : is_bytes (region_payload o) = true;
  opened_limit : len (region_payload o) + overhead <= limit;
}.

Lemma exact_region_head hd cd :
  array 32 hd = true -> on_some (array 32) cd = true ->
  exact (rd_region_head hd cd) (fun c count =>
    c = be_bytes 2 1 ++ be_bytes 2 count ++ hd ++ digest_bytes_of cd /\ is_u16 count = true).
Proof.
  intros Hhd Hcd. unfold rd_region_head.
  destruct cd as [d|]; unfold digest_bytes_of; cbn [default on_some] in *;
    (eapply exact_iff; cycle 1; [reading|]); cbv beta; intros c count; split.
  - intros ?. read_inv. b2p. subst. split; [|done]. by rewrite ?app_nil_r.
  - intros [-> Hu]. read_step 1. split; [done|]. read_step count. read_step hd.
    split; [by rewrite bool_decide_true|]. exists d, [], d. rewrite app_nil_r, bool_decide_true by done.
    by split_and!.
  - intros ?. read_inv. b2p. subst. split; [|done]. by rewrite ?app_nil_r.
  - intros [-> Hu]. read_step 1. split; [done|]. read_step count. rewrite app_nil_r.
    exists hd, [], hd. rewrite app_nil_r, bool_decide_true by done. by split_and!.
Qed.

Lemma drop_region_wire region count hd cd payload limit overhead :
  region_context region hd cd limit overhead -> is_bytes payload = true ->
  is_u16 count = true -> len payload + overhead <= limit ->
  let w := region_wire region count overhead hd cd payload in
  let prefix := region_prefix count overhead hd cd payload in
  is_bytes w = true /\ len w = len payload + overhead
  /\ of_be_bytes (take 4 w) = len w
  /\ take (Z.to_nat (len w - 32)) w = prefix
  /\ drop (Z.to_nat (len w - 32)) w = region_tag key region prefix
  /\ slice w 4 (Z.to_nat (len w - 32))
     = (be_bytes 2 1 ++ be_bytes 2 count ++ hd ++ digest_bytes_of cd) ++ payload.
Proof.
  intros Hc Hp Hn Hl w prefix.
  assert (len w = len payload + overhead) as Hlen by by apply (len_region_wire _ _ _ _ _ limit).
  destruct (context_limits _ _ _ _ _ Hc) as (Ho & Hlim & _).
  pose proof (len_nonneg payload).
  assert (length prefix = Z.to_nat (len w - 32)) as Hpre.
  { pose proof (length_region_tag region prefix). unfold len, w, region_wire in *. cbv zeta in *.
    fold prefix in Hlen |- *. rewrite length_app in *. lia. }
  assert (is_bytes prefix = true) as Hbp.
  { pose proof (context_header _ _ _ _ _ Hc). pose proof (context_checkpoint _ _ _ _ _ Hc).
    unfold prefix, region_prefix. rewrite !is_bytes_app, !is_bytes_be_bytes, Hp.
    rewrite (is_bytes_array 32 hd) by done. destruct cd; cbn in *; [|done].
    by rewrite (is_bytes_array 32 _). }
  split_and!; [|done|..].
  - unfold w, region_wire. cbv zeta. fold prefix. rewrite is_bytes_app, Hbp. apply hmac_bytes.
  - rewrite Hlen. unfold w, region_wire, region_prefix. cbv zeta.
    rewrite <- !app_assoc, take_app_le, take_ge by (rewrite length_be_bytes; lia).
    apply of_be_u32, within_spec. lia.
  - rewrite <- Hpre. apply take_app_length.
  - rewrite <- Hpre. apply drop_app_length.
  - rewrite <- Hpre. unfold w, region_wire. cbv zeta. fold prefix. rewrite slice_app_l by lia.
    unfold slice. unfold prefix at 2, region_prefix. rewrite <- !app_assoc.
    rewrite drop_app_length' by (by rewrite length_be_bytes). rewrite !app_assoc. apply take_ge.
    unfold prefix, region_prefix. rewrite !length_app, !length_be_bytes. lia.
Qed.

Lemma verify_region_tag_Ok region l tag u :
  verify_region_tag key region l tag = Ok u <-> region_tag key region l = tag.
Proof.
  unfold verify_region_tag. fold (region_tag key region l). case_bool_decide; [|done].
  split; [done|]. by destruct u.
Qed.

(** A region opens exactly on the wires of regions in their context. *)
Lemma exact_open_region region hd cd limit overhead :
  region_context region hd cd limit overhead ->
  exact (open_region key region hd cd) (fun c o =>
    c = exact_wire o /\ opened region hd cd limit overhead o).
Proof.
  intros Hc. destruct (context_limits _ _ _ _ _ Hc) as (Ho & Hlim & Hov).
  set (ts := fun n => Z.to_nat (n - Z.of_nat AUTH_TAG_BYTES)).
  set (parts := fun w => fst <$> rd_with_rest (rd_region_head hd cd) (new_reader w)).
  apply (exact_ext (p ← rd_framed overhead limit; from (
    _ ← verify_region_tag key region (take (ts p.1) p.2) (drop (ts p.1) p.2);
    fields ← parts (slice p.2 4 (ts p.1));
    Ok (mkOpenRegion p.2 fields.2 fields.1)))).
  { intros r. unfold open_region. rewrite (context_bounds _ _ _ _ _ Hc).
    unfold mbind, reading_bind, from. cbn [fst snd].
    destruct (rd_framed overhead limit r) as [[[n w] r']|]; [|done]. cbn [fst snd].
    fold (ts n). destruct (verify_region_tag _ _ _ _); [|done]. cbn.
    fold (parts (slice w 4 (ts n))). by destruct (parts _). }
  eapply exact_iff; [|apply exact_checked, exact_framed; lia]. cbv beta. intros c o. split.
  - intros ([n w] & (-> & -> & Hb & Hh & Hl) & Hx). cbn [fst snd] in *.
    apply bind_Ok in Hx as (u & Ht%verify_region_tag_Ok & Hx).
    apply bind_Ok in Hx as ([count payload] & Hf & [= <-]). cbn [fst snd exact_wire].
    split; [done|]. unfold parts in Hf.
    assert (is_bytes (slice w 4 (ts (len w))) = true) as Hsb by by apply is_bytes_slice.
    apply (with_rest_exact _ _ _ _ _ (exact_region_head hd cd (context_header _ _ _ _ _ Hc)
      (context_checkpoint _ _ _ _ _ Hc)) Hsb) in Hf as (head & Hs & -> & Hn).
    assert (ts (len w) = length w - 32)%nat as Hts by (unfold ts, AUTH_TAG_BYTES, len; lia).
    assert (take (ts (len w)) w = be_bytes 4 (len w) ++ slice w 4 (ts (len w))) as Htk.
    { rewrite !take_slice. rewrite <- (slice_join w 0 4 (ts (len w))) by (unfold len in *; lia).
      f_equal. rewrite <- take_slice, <- Hh. symmetry.
      replace 4%nat with (length (take 4 w)) at 1 by (rewrite length_take; unfold len in *; lia).
      by apply be_bytes_of_be_bytes, is_bytes_take. }
    assert (len payload + overhead = len w) as Hp.
    { apply (f_equal length) in Hs. rewrite length_slice in Hs by (unfold len in *; lia).
      unfold len in *. rewrite !length_app, !length_be_bytes,
        (array_len _ _ (context_header _ _ _ _ _ Hc)) in Hs. lia. }
    assert (take (ts (len w)) w = region_prefix count overhead hd cd payload) as Hpre.
    { rewrite Htk, Hs. unfold region_prefix. rewrite Hp, <- !app_assoc. done. }
    split; cbn [exact_wire region_count region_payload]; [|done| |lia].
    + unfold region_wire. cbv zeta. rewrite <- Hpre, Ht. by rewrite take_drop.
    + rewrite Hs, is_bytes_app in Hsb. by apply andb_true_iff in Hsb as [_ ?].
  - intros [-> [Hw Hn Hp Hl]]. exists (len (exact_wire o), exact_wire o). cbn [fst snd].
    destruct (drop_region_wire region (region_count o) hd cd (region_payload o) limit overhead)
      as (Hb & Hlen & Hh & Htk & Hdr & Hsl); [done..|].
    rewrite <- Hw in *. unfold ts. change (Z.of_nat AUTH_TAG_BYTES) with 32.
    rewrite Htk, Hdr, Hsl. pose proof (len_nonneg (region_payload o)).
    split; [split; [done|split; [done|split; [done|split; [done|lia]]]]|].
    rewrite (proj2 (verify_region_tag_Ok _ _ _ tt)) by done. rewrite Ok_bind. unfold parts.
    pose proof (is_bytes_slice (exact_wire o) 4 (Z.to_nat (len (exact_wire o) - 32)) Hb) as Hbs.
    rewrite Hsl in Hbs. pose proof (exact_region_head hd cd (context_header _ _ _ _ _ Hc)
      (context_checkpoint _ _ _ _ _ Hc)) as Hhead.
    rewrite (proj2 (with_rest_exact _ _ _ (region_count o) (region_payload o) Hhead Hbs));
      [by destruct o|eauto].
Qed.

(** ** Frames of the tail *)

Lemma component_head_id head : component_head head = head.
Proof. by destruct head. Qed.

(** The actions of a record are those of its operation, under its head. *)
Definition record_for (r : TailRecord) (head : JournalHead) : Prop :=
  match r with
  | ClockCheckpointEvent _ => True
  | TailClockAcknowledge action => action_for ClockAcknowledge head action
  | TailSystemShutdown action => action_for SystemShutdown head action
  end.

Lemma tail_record_bytes r kind body :
  typed_tail_record r = true -> encode_tail_record r = Ok (kind, body) -> is_bytes body = true.
Proof.
  destruct r as [b|a|a]; cbn [typed_tail_record encode_tail_record]; intros Ht Hx;
    apply bind_Ok in Hx as (l & Hl & [= <- <-]).
  - apply map_err_Ok in Hl.
    by apply (codec_bytes (encode := ClockBody.encode_clock_checkpoint_body) b).
  - apply encode_action_wire in Hl as [? ->]; [|done]. by apply action_is_bytes.
  - apply encode_action_wire in Hl as [? ->]; [|done]. by apply action_is_bytes.
Qed.

Lemma decode_tail_record_exact r head rec :
  is_bytes (record_body r) = true -> typed_head head = true ->
  decode_tail_record r head = Ok rec <->
  typed_tail_record rec = true /\ record_for rec head
  /\ encode_tail_record rec = Ok (record_kind r, record_body r).
Proof.
  intros Hb Hh. unfold decode_tail_record. split.
  - destruct (record_kind r); intros (x & Hx & <-)%fmap_Ok;
      cbn [typed_tail_record record_for encode_tail_record operation_kind].
    + apply map_err_Ok, codec_exact in Hx as [Ht He]; [|done]. by rewrite He.
    + apply decode_action_exact in Hx as (Ht & Hf & He); [|done..]. by rewrite He.
    + apply decode_action_exact in Hx as (Ht & Hf & He); [|done..]. by rewrite He.
  - destruct rec as [b|a|a]; cbn [typed_tail_record record_for encode_tail_record operation_kind];
      intros (Ht & Hf & Hx); apply bind_Ok in Hx as (l & Hl & [= Hk Hl']);
      rewrite <- Hk; rewrite <- Hl' in *.
    + apply map_err_Ok in Hl. unfold invalid.
      rewrite (proj2 (codec_exact (encode := ClockBody.encode_clock_checkpoint_body)
        (decode := ClockBody.decode_clock_checkpoint_body) _ b Hb)); done.
    + rewrite (proj2 (decode_action_exact _ _ _ a Hb Hh)); done.
    + rewrite (proj2 (decode_action_exact _ _ _ a Hb Hh)); done.
Qed.

Definition frame_wire (prior : JournalHead) (f : AuthenticatedTailFrame) (c : bytes) : Prop :=
  prior_head f = prior /\ typed_head (resulting_head f) = true
  /\ typed_tail_record (record f) = true /\ record_for (record f) (resulting_head f)
  /\ exists kind body, encode_tail_record (record f) = Ok (kind, body)
     /\ record_wire key (mkControlJournalRecord kind (sequence (resulting_head f))
                           (digest (resulting_head f)) body) prior c.

(** The wire of a record, measured. *)
Lemma record_wire_framed r prior c :
  typed_record r = true -> typed_head prior = true -> record_wire key r prior c ->
  framed 110 FRAME_LIMIT c /\ len c = 110 + len (record_body r)
  /\ typed_head (mkJournalHead (record_sequence r) (record_digest r)) = true.
Proof.
  intros Ht [_ Hpd]%andb_true_iff (prefix & (Hb & Hu & Hp)%record_prefix_Ok & Hs & Hd & He).
  assert (len c = 110 + len (record_body r)) as Hl.
  { rewrite He, Hp. unfold len, frame_digest, record_tag.
    rewrite !length_app, !length_be_bytes, length_sha256, hmac_length, (array_len _ _ Hpd). lia. }
  unfold MAX_BODY_BYTES, MAX_FRAME_BYTES, MIN_FRAME_BYTES in *. pose proof (len_nonneg (record_body r)).
  split; [split; [|split]|split; [done|]].
  - unfold typed_record in Ht. rewrite He, Hp. unfold frame_digest, record_tag.
    rewrite !is_bytes_app, !is_bytes_be_bytes, is_bytes_sha256, hmac_bytes, Ht.
    by rewrite (is_bytes_array _ _ Hpd).
  - rewrite Hl, He, Hp, <- !app_assoc, take_app_le, take_ge by (rewrite length_be_bytes; lia).
    apply of_be_u32, within_spec. unfold u32_max. lia.
  - rewrite Hl. unfold FRAME_LIMIT. lia.
  - unfold typed_head. cbn [sequence digest]. rewrite Hs, Hu, Hd. apply array_spec.
    unfold frame_digest. by rewrite length_sha256, is_bytes_sha256.
Qed.

Lemma exact_tail_frame prior :
  typed_head prior = true ->
  exact (rd_tail_frame key prior) (fun c f => frame_wire prior f c).
Proof.
  intros Hp.
  apply (exact_ext (p ← rd_framed 110 FRAME_LIMIT; from (
    frame ← invalid (decode_control_journal_record key p.2 (component_head prior));
    record ← decode_tail_record frame (mkJournalHead (record_sequence frame) (record_digest frame));
    Ok (mkTailFrame prior (mkJournalHead (record_sequence frame) (record_digest frame)) record)))).
  { intros r. unfold rd_tail_frame, mbind, reading_bind, from.
    destruct (rd_framed _ _ r) as [[[n w] r']|]; [|done]. cbn [fst snd].
    destruct (invalid _); [|done]. cbn. by destruct (decode_tail_record _ _). }
  rewrite component_head_id.
  eapply exact_iff; [|apply exact_checked, exact_framed; vm_compute; congruence].
  cbv beta. intros c f. split.
  - intros ([n w] & (-> & _ & Hw) & Hx). cbn [fst snd] in *.
    apply bind_Ok in Hx as (frame & Hf%map_err_Ok & Hx).
    apply record_exact in Hf as [Ht Hr]; [|apply Hw|done].
    apply bind_Ok in Hx as (rec & Hrec & [= <-]).
    destruct (record_wire_framed _ _ _ Ht Hp Hr) as (_ & _ & Hh).
    apply decode_tail_record_exact in Hrec as (Htr & Hfor & He); [|done..].
    unfold frame_wire. cbn [prior_head resulting_head record sequence digest].
    split_and!; try done. exists (record_kind frame), (record_body frame). by destruct frame.
  - intros (Hprior & Hh & Ht & Hfor & kind & body & He & Hr).
    pose proof (tail_record_bytes _ _ _ Ht He) as Hb.
    set (fr := mkControlJournalRecord kind _ _ body) in Hr.
    assert (typed_record fr = true) as Htr by done.
    destruct (record_wire_framed _ _ _ Htr Hp Hr) as (Hw & _ & _).
    exists (len c, c). cbn [fst snd]. split; [done|].
    rewrite (proj2 (record_exact key c prior _ (proj1 Hw) Hp) (conj Htr Hr)).
    unfold invalid. cbn [map_err]. rewrite Ok_bind. cbn [fr record_sequence record_digest].
    assert (mkJournalHead (sequence (resulting_head f)) (digest (resulting_head f))
      = resulting_head f) as -> by by destruct (resulting_head f).
    rewrite (proj2 (decode_tail_record_exact fr _ (record f) Hb Hh)); [|done].
    rewrite Ok_bind. rewrite <- Hprior. by destruct f.
Qed.

Lemma encode_frame_wire prior f w :
  typed_head prior = true -> typed_tail_record (record f) = true ->
  record_for (record f) (resulting_head f) ->
  encode_tail_frame key prior f = Ok w <-> frame_wire prior f w.
Proof.
  intros Hp Ht Hfor. unfold encode_tail_frame. rewrite component_head_id. split.
  - destruct (_ || _) eqn:Hb; [done|]. apply orb_false_iff in Hb as [Hpr Hs]. b2p.
    symmetry in Hs. apply checked_Some in Hs as [Hs _].
    intros ([kind body] & He & Hx)%bind_Ok.
    apply bind_Ok in Hx as (w' & Hw%map_err_Ok & Hx).
    apply bind_Ok in Hx as (r & Hr%map_err_Ok & Hx).
    case_bool_decide as Hd; [|done]. injection Hx as ->.
    apply encode_record_wire in Hw as [d Hw].
    pose proof (tail_record_bytes _ _ _ Ht He) as Hbody.
    set (fr := mkControlJournalRecord kind (sequence prior + 1) d body) in Hw.
    assert (typed_record fr = true) as Htr by done.
    destruct (record_wire_framed _ _ _ Htr Hp Hw) as ([Hwb _] & _ & Hh).
    rewrite (proj2 (record_exact key w prior fr Hwb Hp) (conj Htr Hw)) in Hr.
    injection Hr as <-. cbn [fr record_sequence record_digest] in Hd, Hh.
    assert (resulting_head f = mkJournalHead (sequence prior + 1) d) as Hrh
      by (destruct (resulting_head f); cbn in *; congruence).
    split; [done|]. rewrite Hrh in *. split_and!; try done. by exists kind, body.
  - intros (Hprior & Hh & _ & _ & kind & body & He & Hw).
    pose proof Hw as (prefix & (_ & Hu & _)%record_prefix_Ok & Hs & _). cbn [record_sequence] in Hs.
    rewrite bool_decide_true by done. unfold checked_add_u64, checked. rewrite Hu, <- Hs.
    rewrite bool_decide_true by done. cbn [negb orb]. rewrite He, Ok_bind.
    pose proof (tail_record_bytes _ _ _ Ht He) as Hbody.
    set (fr := mkControlJournalRecord kind _ _ body) in Hw.
    assert (typed_record fr = true) as Htr by done.
    destruct (record_wire_framed _ _ _ Htr Hp Hw) as ([Hwb _] & _ & _).
    change kind with (record_kind fr). change body with (record_body fr).
    rewrite (record_wire_encode key fr prior w Hw). unfold invalid. cbn [map_err]. rewrite Ok_bind.
    rewrite (proj2 (record_exact key w prior fr Hwb Hp) (conj Htr Hw)). cbn [map_err].
    rewrite Ok_bind. cbn [fr record_digest]. by rewrite bool_decide_true.
Qed.

(** The frames of a tail, each after the head of the one before. *)
Fixpoint frames_wire (prior : JournalHead) (l : list AuthenticatedTailFrame) (c : bytes) : Prop :=
  match l with
  | [] => c = []
  | f :: l => exists c1 c2, c = c1 ++ c2 /\ frame_wire prior f c1
                            /\ frames_wire (resulting_head f) l c2
  end.

Lemma exact_tail_frames prior n :
  typed_head prior = true ->
  exact (rd_tail_frames key prior n) (fun c l => length l = n /\ frames_wire prior l c).
Proof.
  revert prior. induction n as [|n IH]; intros prior Hp; cbn [rd_tail_frames].
  { eapply exact_iff; [|apply exact_ret]. intros c l. split.
    - intros [-> ->]. done.
    - intros [?%nil_length_inv ?]. by subst. }
  eapply exact_iff; [|eapply exact_bind_dep; [by apply exact_tail_frame|]].
  2: { intros f c (_ & Hh & _). apply exact_last. by apply IH. }
  cbv beta. intros c l. split.
  - intros (c1 & c2 & f & -> & Hf & l' & [Hn Hl] & ->). cbn [length frames_wire].
    split; [by rewrite Hn|]. by exists c1, c2.
  - destruct l as [|f l]; intros [Hn Hl]; [done|]. destruct Hl as (c1 & c2 & -> & Hf & Hl).
    injection Hn as Hn. exists c1, c2, f. split; [done|]. split; [done|]. by exists l.
Qed.

Lemma frames_wire_facts prior l c :
  typed_head prior = true -> frames_wire prior l c ->
  is_bytes c = true /\ 110 * Z.of_nat (length l) <= len c
  /\ Forall (fun f => typed_frame f = true) l.
Proof.
  revert prior c. induction l as [|f l IH]; intros prior c Hp; cbn [frames_wire length].
  { intros ->. split; [done|]. split; [done|constructor]. }
  intros (c1 & c2 & -> & Hf & Hl). pose proof Hf as (Hprior & Hh & Ht & _ & kind & body & He & Hw).
  destruct (IH _ _ Hh Hl) as (Hb & Hn & Hall).
  set (fr := mkControlJournalRecord kind _ _ body) in Hw.
  assert (typed_record fr = true) as Htr by exact (tail_record_bytes _ _ _ Ht He).
  destruct (record_wire_framed _ _ _ Htr Hp Hw) as ([Hb1 _] & Hl1 & _).
  pose proof (len_nonneg (record_body fr)). rewrite is_bytes_app, Hb, Hb1, len_cat.
  split; [done|]. split; [lia|]. constructor; [|done]. unfold typed_frame.
  by rewrite Hprior, Hp, Hh, Ht.
Qed.

(** What the encoder writes for the frames of a tail. *)
Lemma wrote_frames prior l :
  typed_head prior = true -> Forall (fun f => typed_frame f = true) l ->
  Forall (fun f => record_for (record f) (resulting_head f)) l ->
  wrote (put_frames key prior l) (frames_wire prior l).
Proof.
  intros Hp Ht Hfor. revert prior Hp. induction l as [|f l IH]; intros prior Hp; cbn [put_frames].
  { apply wrote_skip. }
  inversion_clear Ht as [|? ? Hf Htl]. inversion_clear Hfor as [|? ? Hff Hforl].
  unfold typed_frame in Hf. b2p. destruct Hf as [[_ Hh] Hr].
  eapply wrote_iff; [|apply wrote_andThen; [apply wrote_lift; intros ? _; apply wrote_extend|by apply IH]].
  cbv beta. intros c (c1 & c2 & -> & (w & Hw%encode_frame_wire & ->) & Hl); [|done..].
  by exists w, c2.
Qed.

Lemma emits_frames prior l c :
  typed_head prior = true -> frames_wire prior l c -> emits (put_frames key prior l) c.
Proof.
  revert prior c. induction l as [|f l IH]; intros prior c Hp; cbn [put_frames frames_wire].
  { intros ->. apply emits_skip. }
  intros (c1 & c2 & -> & Hf & Hl). pose proof Hf as (_ & Hh & Ht & Hfor & _).
  apply emits_andThen; [|by apply IH]. apply (emits_lift _ c1); [by apply encode_frame_wire|].
  apply emits_extend.
Qed.

(** ** The whole image *)

Lemma digest_array l : array 32 (region_digest l) = true.
Proof. apply array_spec. unfold region_digest. by rewrite length_sha256, is_bytes_sha256. Qed.

Lemma checkpoint_context hw :
  region_context CheckpointRegion (region_digest hw) None CHECKPOINT_LIMIT 72.
Proof. split; [done|apply digest_array|done]. Qed.

Lemma tail_context hw cw :
  region_context TailRegion (region_digest hw) (Some (region_digest cw)) TAIL_LIMIT 104.
Proof. split; [done|apply digest_array|apply digest_array]. Qed.

#[local] Abbreviation component_of h :=
  (mkControlJournalHeader (mkOwnerNamespace (image_namespace h)) (image_high_water h)).

Lemma encode_image_header_Ok h w :
  encode_image_header key h = Ok w <-> encode_control_journal_header key (component_of h) = Ok w.
Proof.
  unfold encode_image_header, control_journal_header_with_branch_high_water, invalid.
  destruct (fresh_control_journal_header key) as [[[ns] n]|e] eqn:Hf; [|done].
  rewrite Ok_bind. cbn [map_err]. rewrite Ok_bind.
  cbn [owner_namespace namespace_bytes].
  destruct (decide (ns = image_namespace h)) as [<-|Hn].
  - rewrite bool_decide_true by done. cbn [negb]. by rewrite map_err_Ok.
  - rewrite bool_decide_false by done. split; [done|].
    unfold encode_control_journal_header. rewrite Hf, Ok_bind. cbn [owner_namespace].
    rewrite bool_decide_false; [done|]. intros [= Hx]. by subst ns.
Qed.

Lemma header_wire_length h w :
  typed_image_header h = true -> encode_image_header key h = Ok w ->
  length w = 120%nat /\ is_bytes w = true.
Proof.
  intros Ht He%encode_image_header_Ok.
  assert (typed_header (component_of h) = true) as Hh by done.
  split; [|by apply (codec_bytes (encode := encode_control_journal_header key) _ _ Hh)].
  apply (codec_roundtrip (decode := decode_control_journal_header key)) in He; [|done].
  unfold decode_control_journal_header in He.
  destruct (Nat.eqb_spec (length w) WIRE_BYTES); [done|done].
Qed.

(** The wire of an image, region by region. *)
Record image_wire (image : CompleteControlJournalImage) (w : bytes) : Prop := mkImageWire {
  wire_parts : exists hw cp tp,
    encode_image_header key (header image) = Ok hw
    /\ encode_checkpoint key (image_namespace (header image)) (checkpoint image) = Ok cp
    /\ len cp + 72 <= CHECKPOINT_LIMIT
    /\ frames_wire (covered_head (checkpoint image)) (tail image) tp
    /\ len tp + 104 <= TAIL_LIMIT
    /\ let cw := region_wire CheckpointRegion CHECKPOINT_MEMBERS 72 (region_digest hw) None cp in
       w = hw ++ cw ++ region_wire TailRegion (Z.of_nat (length (tail image))) 104
                         (region_digest hw) (Some (region_digest cw)) tp;
  wire_limit : len w <= IMAGE_LIMIT;
  wire_replays : exists p, replay_tail image = Ok p;
}.

Lemma replay_frames_for c total l c' total' :
  replay_frames c total l = Ok (c', total') ->
  Forall (fun f => record_for (record f) (resulting_head f)) l.
Proof.
  revert c total. induction l as [|f l IH]; intros c total Hx; [constructor|].
  cbn [replay_frames] in Hx. apply bind_Ok in Hx as ([c1 t1] & Hf & Hx).
  constructor; [|by eapply IH].
  apply replay_frame_Ok in Hf as (kind & body & c2 & _ & _ & _ & _ & Hr & _).
  destruct (record f); cbn [record_for replay_record] in *; [done| |]; by eapply replay_addressed_for.
Qed.

Lemma replay_tail_for image p :
  replay_tail image = Ok p ->
  Forall (fun f => record_for (record f) (resulting_head f)) (tail image)
  /\ Z.of_nat (length (tail image)) <= 128.
Proof.
  intros [_ _ Hc [total Hf] _]%replay_tail_Ok. split; [by eapply replay_frames_for|done].
Qed.

Lemma encode_image_wire image w :
  typed_image image = true ->
  encode_control_journal_image key image = Ok w <-> image_wire image w.
Proof.
  unfold typed_image. intros [[Hh Hc]%andb_true_iff Hl]%andb_true_iff.
  apply forallb_Forall in Hl.
  assert (typed_head (covered_head (checkpoint image)) = true) as Hp
    by (unfold typed_checkpoint in Hc; typed_inv; done).
  unfold encode_control_journal_image. split.
  - intros (hw & Hhw & Hx)%bind_Ok. apply bind_Ok in Hx as (cp & Hcp & Hx).
    apply bind_Ok in Hx as (p & Hr & Hx). cbv zeta in Hx.
    destruct (replay_tail_for _ _ Hr) as [Hfor Hcount].
    apply bind_Ok in Hx as (cw & [Hcl ->]%(seal_region_Ok _ _ _ _ _ _ _ _ (checkpoint_context hw)) & Hx).
    apply bind_Ok in Hx as (tp & Htp & Hx).
    pose proof (finish_wrote _ _ _ _ (wrote_frames _ _ Hp Hl Hfor) Htp) as Hfw.
    apply bind_Ok in Hx as (n & [-> _]%ok_or_Ok%checked_Some & Hx).
    apply bind_Ok in Hx as (tw & [Htl ->]%(seal_region_Ok _ _ _ _ _ _ _ _ (tail_context hw _)) & Hx).
    rewrite (finish_emits _ _ _ (emits_andThen _ _ _ _ (emits_extend _) (emits_andThen _ _ _ _
      (emits_extend _) (emits_extend _)))) in Hx by (vm_compute; split; congruence).
    destruct (Z.leb_spec (len (hw ++ region_wire CheckpointRegion CHECKPOINT_MEMBERS 72
      (region_digest hw) None cp ++ region_wire TailRegion (Z.of_nat (length (tail image))) 104
      (region_digest hw) (Some (region_digest (region_wire CheckpointRegion CHECKPOINT_MEMBERS 72
        (region_digest hw) None cp))) tp)) IMAGE_LIMIT) as [Hlim|]; [|done].
    injection Hx as <-. split; [|done|by exists p]. by exists hw, cp, tp.
  - intros [(hw & cp & tp & Hhw & Hcp & Hcl & Hfw & Htl & Hw) Hlim [p Hr]]. cbv zeta in Hw.
    destruct (replay_tail_for _ _ Hr) as [_ Hcount].
    rewrite Hhw, Ok_bind, Hcp, Ok_bind, Hr, Ok_bind. cbv zeta.
    rewrite (proj2 (seal_region_Ok _ _ _ _ _ _ _ _ (checkpoint_context hw)) (conj Hcl eq_refl)), Ok_bind.
    rewrite (finish_emits _ _ _ (emits_frames _ _ _ Hp Hfw)) by (vm_compute; split; congruence).
    rewrite (proj2 (Z.leb_le _ _)), Ok_bind by lia.
    assert (is_u16 (Z.of_nat (length (tail image))) = true) as Hu
      by (apply within_spec; unfold u16_max; lia).
    unfold checked. rewrite Hu. cbn [ok_or]. rewrite Ok_bind.
    rewrite (proj2 (seal_region_Ok _ _ _ _ _ _ _ _ (tail_context hw _)) (conj Htl eq_refl)), Ok_bind.
    rewrite (finish_emits _ _ _ (emits_andThen _ _ _ _ (emits_extend _) (emits_andThen _ _ _ _
      (emits_extend _) (emits_extend _)))) by (vm_compute; split; congruence).
    rewrite <- Hw. by rewrite (proj2 (Z.leb_le _ _)).
Qed.

(** What [rd_image] reads. *)
Definition image_regions (c : bytes) (x : ControlJournalHeader * CompleteCheckpoint * OpenRegion)
    : Prop :=
  exists hw cr,
    c = hw ++ exact_wire cr ++ exact_wire x.2
    /\ (length hw = 120%nat /\ is_bytes hw = true
        /\ decode_control_journal_header key hw = Ok x.1.1)
    /\ (opened CheckpointRegion (region_digest hw) None CHECKPOINT_LIMIT 72 cr
        /\ region_count cr = CHECKPOINT_MEMBERS
        /\ decode_checkpoint key (namespace_bytes (owner_namespace x.1.1)) (region_payload cr)
           = Ok x.1.2)
    /\ opened TailRegion (region_digest hw) (Some (region_digest (exact_wire cr))) TAIL_LIMIT 104 x.2.

Lemma exact_image : exact (rd_image key) image_regions.
Proof.
  unfold rd_image. eapply exact_iff; cycle 1.
  { apply exact_bind; [apply exact_take|intros hw].
    apply exact_bind; [apply exact_from|intros h].
    apply exact_bind; [apply exact_open_region, checkpoint_context|intros cr].
    apply exact_guard. apply exact_bind; [apply exact_from|intros cp].
    apply exact_last, exact_open_region, tail_context. }
  cbv beta. unfold image_regions. intros c [[h cp] tr]. split; intros Hx.
  - destruct Hx as (c1 & c2 & hw & -> & (-> & Hl & Hb) & c3 & c4 & h' & -> & [-> Hh]
      & c5 & c6 & cr & -> & [-> Hcr] & Hn & c7 & c8 & cp' & -> & [-> Hcp] & tr' & [-> Htr] & [= -> -> ->]).
    apply map_err_Ok in Hh. b2p. exists hw, cr. by rewrite Hh.
  - cbn [fst snd] in Hx.
    destruct Hx as (hw & cr & -> & (Hl & Hb & Hh) & (Hcr & Hn & Hcp) & Htr).
    exists hw, (exact_wire cr ++ exact_wire tr), hw. split; [done|]. split; [done|].
    exists [], (exact_wire cr ++ exact_wire tr), h. split; [done|].
    split; [split; [done|by apply map_err_Ok]|].
    exists (exact_wire cr), (exact_wire tr), cr. split; [done|]. split; [done|].
    split; [by rewrite Hn|]. exists [], (exact_wire tr), cp. split; [done|]. split; [done|].
    by exists tr.
Qed.

Lemma decode_image_wire image w :
  is_bytes w = true ->
  decode_control_journal_image key w = Ok image <->
  typed_image image = true /\ image_wire image w.
Proof.
  intros Hw. unfold decode_control_journal_image. split.
  - destruct (Z.ltb_spec IMAGE_LIMIT (len w)) as [|Hlim]; [done|].
    intros ([[h cp] tr] & Hr & Hx)%bind_Ok.
    apply (read_all_exact _ _ _ _ exact_image Hw) in Hr as (hw & cr & -> & (Hhl & Hhb & Hh)
      & (Hcr & Hn & Hcp) & Htr). cbn [fst snd] in *.
    destruct (_ || _) eqn:Hb; [done|]. b2p. destruct Hb as [Hcount Hdiv].
    apply bind_Ok in Hx as (tl & Htl & Hx). apply bind_Ok in Hx as (p & Hp%map_err_Ok & [= <-]).
    apply header_decode_sound in Hh as [Hth Heh]; [|done].
    apply (codec_exact (encode := encode_checkpoint key _)) in Hcp as [Htc Hec]; [|apply Hcr].
    assert (typed_head (covered_head cp) = true) as Hcov
      by (unfold typed_checkpoint in Htc; typed_inv; done).
    apply (read_all_exact _ _ _ _ (exact_tail_frames _ _ Hcov)) in Htl as [Hlen Hfw];
      [|apply Htr].
    destruct (frames_wire_facts _ _ _ Hcov Hfw) as (_ & _ & Htyped).
    pose proof (opened_count _ _ _ _ _ _ Htr) as Hu%u16_nonneg.
    destruct h as [[ns] hwm]. cbn [owner_namespace namespace_bytes branch_serial_high_water] in *.
    split.
    + unfold typed_image, typed_image_header. cbn [header checkpoint tail image_namespace image_high_water].
      rewrite Htc. change (array 24 ns && is_u64 hwm = true) in Hth. rewrite Hth.
      by apply forallb_Forall.
    + split; [|done|by exists p]. exists hw, (region_payload cr), (region_payload tr).
      cbn [header checkpoint tail image_namespace image_high_water].
      split; [by apply encode_image_header_Ok|]. split; [done|].
      split; [apply Hcr|]. split; [done|]. split; [apply Htr|]. cbv zeta.
      rewrite Hlen, Z2Nat.id by done.
      rewrite (opened_wire _ _ _ _ _ _ Htr), (opened_wire _ _ _ _ _ _ Hcr), Hn. done.
  - intros [Ht [(hw & cp & tp & Hhw & Hcp & Hcl & Hfw & Htl & He) Hlim [p Hp]]]. cbv zeta in He.
    rewrite (proj2 (Z.ltb_ge _ _)) by done.
    unfold typed_image in Ht. b2p. destruct Ht as [[Hth Htc] Htt].
    destruct (header_wire_length _ _ Hth Hhw) as [Hhl Hhb].
    destruct (replay_tail_for _ _ Hp) as [_ Hcount].
    assert (typed_head (covered_head (checkpoint image)) = true) as Hcov
      by (unfold typed_checkpoint in Htc; typed_inv; done).
    destruct (frames_wire_facts _ _ _ Hcov Hfw) as (Htb & Hmin & _).
    assert (is_bytes cp = true) as Hcb
      by (by apply (codec_bytes (encode := encode_checkpoint key (image_namespace (header image))) _ _ Htc)).
    set (cr := mkOpenRegion (region_wire CheckpointRegion CHECKPOINT_MEMBERS 72 (region_digest hw)
                 None cp) cp CHECKPOINT_MEMBERS) in *.
    set (tr := mkOpenRegion (region_wire TailRegion (Z.of_nat (length (tail image))) 104
                 (region_digest hw) (Some (region_digest (exact_wire cr))) tp) tp
                 (Z.of_nat (length (tail image)))).
    rewrite (proj2 (read_all_exact _ _ _ (component_of (header image), checkpoint image, tr)
      exact_image Hw)).
    2: { exists hw, cr. cbn [fst snd]. split; [done|]. split; [split; [done|split; [done|]]|].
         { apply encode_image_header_Ok in Hhw.
           by apply (codec_roundtrip (encode := encode_control_journal_header key)). }
         split; [split; [by split|split; [done|]]|].
         { by apply (codec_roundtrip (encode := encode_checkpoint key _)). }
         split; [done| |done|done]. apply within_spec. unfold u16_max. cbn. lia. }
    rewrite Ok_bind. cbn [fst snd region_count region_payload tr].
    rewrite (proj2 (Z.ltb_ge _ _)) by (unfold TAIL_COUNT_LIMIT; lia).
    rewrite (proj2 (Z.ltb_ge _ _)) by (apply Z.div_le_lower_bound; lia). cbn [orb].
    rewrite Nat2Z.id, (proj2 (read_all_exact _ _ _ (tail image) (exact_tail_frames _ _ Hcov) Htb))
      by done.
    rewrite Ok_bind. cbv zeta. cbn [owner_namespace namespace_bytes branch_serial_high_water].
    assert (mkImage (mkImageHeader (image_namespace (header image)) (image_high_water (header image)))
      (checkpoint image) (tail image) = image) as -> by by destruct image as [[] ? ?].
    by rewrite Hp.
Qed.

(** The decoder accepts exactly the wires the encoder writes for typed images. *)
#[export] Instance image_codec :
  WireCodec (encode_control_journal_image key) (decode_control_journal_image key) typed_image.
Proof.
  split.
  - intros w image Hw. rewrite decode_image_wire by done. split; intros [Ht Hx]; (split; [done|]).
    + by apply encode_image_wire.
    + by apply encode_image_wire.
  - intros image w Ht He. apply encode_image_wire in He as [(hw & cp & tp & Hhw & Hcp & Hcl & Hfw
      & Htl & ->) _ [p Hp]]; [|done].
    unfold typed_image in Ht. b2p. destruct Ht as [[Hth Htc] _].
    destruct (header_wire_length _ _ Hth Hhw) as [_ Hhb].
    destruct (replay_tail_for _ _ Hp) as [_ Hcount].
    assert (typed_head (covered_head (checkpoint image)) = true) as Hcov
      by (unfold typed_checkpoint in Htc; typed_inv; done).
    destruct (frames_wire_facts _ _ _ Hcov Hfw) as (Htb & _ & _).
    assert (is_bytes cp = true) as Hcb
      by (by apply (codec_bytes (encode := encode_checkpoint key (image_namespace (header image))) _ _ Htc)).
    rewrite !is_bytes_app, Hhb.
    destruct (drop_region_wire CheckpointRegion CHECKPOINT_MEMBERS _ _ cp _ _ (checkpoint_context hw))
      as [-> _]; [done..|].
    destruct (drop_region_wire TailRegion (Z.of_nat (length (tail image))) _ _ tp _ _
      (tail_context hw (region_wire CheckpointRegion CHECKPOINT_MEMBERS 72 (region_digest hw) None cp)))
      as [-> _]; [done| |done|done].
    apply within_spec. unfold u16_max. lia.
Qed.
End image_facts.
