(* ===== verification/Append.v ===== *)
(** * Growing a control-journal image
    ([initialization_key_pair/control_journal_image.rs] of [crates/msgriver/src],
    lines 1380-1507 and 2585-2639)

    An image grows by an addressed action, by a clock checkpoint and by a new clock
    authority. Each of them checks the image it starts from, and what it returns is an
    image that encodes: the step is appended to the tail or, when the tail is full,
    folded into a new checkpoint. *)

From S2P Require Import Prelude Bytes CoreError Generation Bounded Ring Sha256 Codec Clock.
From S2P Require Import Journal RecoveryRing GenerateProfile Pointer ImageWire Addressed.
From S2P Require Import Checkpoint CheckpointCodec Replay Image.

#[local] Open Scope Z_scope.

#[export] Instance ClockAuthorityHold_eq_dec : EqDecision ClockAuthority.ClockAuthorityHold.
Proof. solve_decision. Defined.

Section with_hmac.
Context `{HmacSha256}.

(** [try_fold] over the encoded lengths of the tail, from [total]. *)
Fixpoint tail_bytes (key : JournalIntegrityKey) (total : Z)
    (frames : list AuthenticatedTailFrame) : image_result Z :=
  match frames with
  | [] => Ok total
  | frame :: rest =>
    wire ← encode_tail_frame key (prior_head frame) frame;
    total ← ok_or (checked_add_u64 total (len wire)) INVALID;
    tail_bytes key total rest
  end.

(** Who may publish which step of a shutdown. *)
Definition shutdown_admitted (projection : CompleteCheckpoint) (action : AddressedAction)
    (current_process : bytes) (recovery : bool) : image_result unit :=
  value ← match action with
          | PublishRequest value => Ok value
          | _ => match cell_state projection 2 with
                 | Present value => Ok value
                 | Absent => Err INVALID
                 end
          end;
  let active := bool_decide (address value = ProcessInstance current_process) in
  match action with
  | PublishRequest _ => if active then Ok tt else Err INVALID
  | PublishPhase p _ =>
    if negb (active || (recovery && (p =? 4)))
       || ((phase value =? 1) && (p =? 4) && negb recovery)
    then Err INVALID else Ok tt
  | CommitMirror _ => if negb active && negb recovery then Err INVALID else Ok tt
  end.

(** A completed shutdown of another process than [current_process]. *)
Definition superseded_shutdown (checkpoint : CompleteCheckpoint) (current_process : bytes)
    : bool :=
  match cell_state checkpoint 3 with
  | Present value => negb (bool_decide (address value = ProcessInstance current_process))
  | Absent => false
  end.

Definition tail_record_of (operation : AddressedOperation) (action : AddressedAction)
    : TailRecord :=
  match operation with
  | ClockAcknowledge => TailClockAcknowledge action
  | SystemShutdown => TailSystemShutdown action
  end.

(** The record of [body] after [prior]: its wire and the head it leads to. *)
Definition authenticated_frame (key : JournalIntegrityKey) (kind : ControlJournalRecordKind)
    (body : bytes) (prior : JournalHead) : image_result (bytes * JournalHead) :=
  wire ← invalid (encode_control_journal_record key kind body (component_head prior));
  record ← invalid (decode_control_journal_record key wire (component_head prior));
  Ok (wire, mkJournalHead (record_sequence record) (record_digest record)).

(** [tail.clear()] with the generation counted up. *)
Definition folded_into (image : CompleteControlJournalImage) (checkpoint : CompleteCheckpoint)
    : image_result CompleteControlJournalImage :=
  generation ← ok_or (checked_add_u64 (generation checkpoint) 1) INVALID;
  Ok (mkImage (header image) (set_generation generation checkpoint) []).

Definition push_frame (image : CompleteControlJournalImage) (frame : AuthenticatedTailFrame)
    : CompleteControlJournalImage :=
  mkImage (header image) (checkpoint image) (tail image ++ [frame]).

Definition append_addressed_action (key : JournalIntegrityKey)
    (image : CompleteControlJournalImage) (operation : AddressedOperation)
    (action : AddressedAction) (current_process : bytes) (recovery : bool)
    : image_result CompleteControlJournalImage :=
  _ ← encode_control_journal_image key image;
  projection ← replay_tail image;
  if bool_decide (current_process = repeat 0 16) then Err INVALID
  else
    _ ← match operation with
        | SystemShutdown => shutdown_admitted projection action current_process recovery
        | ClockAcknowledge => Ok tt
        end;
    body ← encode_addressed_action operation action;
    let prior := covered_head projection in
    framed ← authenticated_frame key (operation_kind operation) body prior;
    let '(wire, head) := framed in
    action ← decode_addressed_action operation body head;
    checkpoint ← replay_addressed projection operation action head;
    let checkpoint := set_covered head checkpoint in
    total ← tail_bytes key 104 (tail image);
    let superseded :=
      match operation with
      | SystemShutdown => superseded_shutdown checkpoint current_process
      | ClockAcknowledge => false
      end in
    next ← if superseded || (Z.of_nat (length (tail image)) =? TAIL_COUNT_LIMIT)
              || (TAIL_LIMIT <? total + len wire)
           then folded_into image
                  (if superseded then set_state 3 Absent checkpoint else checkpoint)
           else Ok (push_frame image (mkTailFrame prior head (tail_record_of operation action)));
    _ ← encode_control_journal_image key next;
    Ok next.

(** A hold may be kept, or replaced by one of a later generation. *)
Definition hold_advances (prior clock : option ClockAuthority.ClockAuthorityHold) : bool :=
  match prior with
  | None => true
  | Some old =>
    match clock with
    | None => false
    | Some new =>
      negb ((ClockAuthority.generation new <? ClockAuthority.generation old)
            || ((ClockAuthority.generation new =? ClockAuthority.generation old)
                && negb (bool_decide (new = old))))
    end
  end.

(** The completed acknowledgement loses eligibility under another, later hold. *)
Definition retire_acknowledge (clock : ClockAuthority)
    (checkpoint : CompleteCheckpoint) : image_result CompleteCheckpoint :=
  match cell_state checkpoint 1 with
  | Present last =>
    if is_some (ClockAuthority.hold clock) && negb (addressed_hold_matches clock (address last))
    then
      match address last with
      | ClockHold generation _ =>
        if match ClockAuthority.hold clock with
           | Some hold => ClockAuthority.generation hold <=? generation
           | None => false
           end
        then Err INVALID else Ok (set_state 1 Absent checkpoint)
      | ProcessInstance _ => Err INVALID
      end
    else Ok checkpoint
  | Absent => Ok checkpoint
  end.

Definition publish_addressed_authority (key : JournalIntegrityKey)
    (image : CompleteControlJournalImage) (clock : ClockAuthority)
    (current_process : bytes) : image_result CompleteControlJournalImage :=
  _ ← encode_control_journal_image key image;
  next ← fold_control_journal_image image TailFrameLimit;
  let prior := clock_authority (checkpoint next) in
  if bool_decide (current_process = repeat 0 16)
     || (ClockAuthority.safe_time clock <? ClockAuthority.safe_time prior)
  then Err INVALID
  else if negb (hold_advances (ClockAuthority.hold prior) (ClockAuthority.hold clock))
  then Err INVALID
  else
    checkpoint ← retire_acknowledge clock (checkpoint next);
    let checkpoint :=
      if superseded_shutdown checkpoint current_process
      then set_state 3 Absent checkpoint else checkpoint in
    let next := mkImage (header next) (set_clock clock checkpoint) (tail next) in
    _ ← encode_control_journal_image key next;
    Ok next.

Definition append_clock_checkpoint (key : JournalIntegrityKey)
    (image : CompleteControlJournalImage) (body : ClockBody.ClockCheckpointBody)
    : image_result CompleteControlJournalImage :=
  _ ← encode_control_journal_image key image;
  encoded_body ← invalid (ClockBody.encode_clock_checkpoint_body body);
  let frame_size := 110 + len encoded_body in
  total ← tail_bytes key 0 (tail image);
  let total := 104 + total in
  let must_fold := (Z.of_nat (length (tail image)) =? TAIL_COUNT_LIMIT)
                   || (TAIL_LIMIT <? total + frame_size) in
  let prior := match last (tail image) with
               | Some frame => resulting_head frame
               | None => covered_head (checkpoint image)
               end in
  framed ← authenticated_frame key Journal.ClockCheckpoint encoded_body prior;
  let '(_, resulting_head) := framed in
  next ← if must_fold then
           checkpoint ← replay_tail image;
           checkpoint ← replay_clock_at checkpoint body resulting_head;
           folded_into image (set_covered resulting_head checkpoint)
         else Ok (push_frame image
                    (mkTailFrame prior resulting_head (ClockCheckpointEvent body)));
  _ ← encode_control_journal_image key next;
  Ok next.
End with_hmac.

(** ** What replay leaves stays in range *)

Definition typed_state (s : AddressedState) : bool :=
  match s with Absent => true | Present value => typed_value value end.

Lemma typed_cell_state c i : typed_checkpoint c = true -> typed_state (cell_state c i) = true.
Proof.
  unfold typed_checkpoint. intros Hc. typed_inv. unfold cell_state.
  destruct (addressed c !! i) as [cell|] eqn:Hi; [|done].
  match goal with Hf : forallb typed_cell _ = true |- _ =>
    rewrite forallb_forall in Hf; apply (Hf cell), list_elem_of_In; by eapply list_elem_of_lookup_2 end.
Qed.

Lemma typed_set_state i s c :
  typed_checkpoint c = true -> typed_state s = true -> typed_checkpoint (set_state i s c) = true.
Proof.
  unfold typed_checkpoint. intros Hc Hs. typed_inv.
  cbn [generation covered_head clock_authority active_pointer recovery_ring local_commands
       addressed set_state].
  rewrite length_alter. rewrite !andb_true_iff. split_and!; try done.
  apply forallb_forall. intros y Hy%list_elem_of_In. apply list_elem_of_lookup_1 in Hy as [j Hj].
  rewrite list_lookup_alter in Hj. case_decide as Hij.
  - destruct (addressed c !! i) as [x|]; subst; simplify_option_eq; done.
  - match goal with Hf : forallb typed_cell _ = true |- _ =>
      rewrite forallb_forall in Hf; apply Hf, list_elem_of_In; by eapply list_elem_of_lookup_2 end.
Qed.

Lemma typed_set_clock k c :
  typed_checkpoint c = true -> ClockAuthority.typed k = true -> typed_checkpoint (set_clock k c) = true.
Proof. unfold typed_checkpoint. intros Hc Hk. typed_inv. cbn. rewrite !andb_true_iff. by split_and!. Qed.

Lemma typed_set_covered h c :
  typed_checkpoint c = true -> typed_head h = true -> typed_checkpoint (set_covered h c) = true.
Proof. unfold typed_checkpoint. intros Hc Hk. typed_inv. cbn. rewrite !andb_true_iff. by split_and!. Qed.

Lemma typed_set_generation g c :
  typed_checkpoint c = true -> is_u64 g = true -> typed_checkpoint (set_generation g c) = true.
Proof. unfold typed_checkpoint. intros Hc Hk. typed_inv. cbn. rewrite !andb_true_iff. by split_and!. Qed.

Lemma typed_clock c : typed_checkpoint c = true -> ClockAuthority.typed (clock_authority c) = true.
Proof. unfold typed_checkpoint. intros Hc. by typed_inv. Qed.

Lemma typed_covered c : typed_checkpoint c = true -> typed_head (covered_head c) = true.
Proof. unfold typed_checkpoint. intros Hc. by typed_inv. Qed.

Lemma typed_with_safe_time t c :
  typed_checkpoint c = true -> is_i64 t = true -> typed_checkpoint (with_safe_time t c) = true.
Proof.
  intros Hc Ht. apply typed_set_clock; [done|]. apply typed_clock in Hc.
  unfold ClockAuthority.typed in *. typed_inv. rewrite !andb_true_iff. by split_and!.
Qed.

Lemma typed_without_hold c : typed_checkpoint c = true -> typed_checkpoint (without_hold c) = true.
Proof.
  intros Hc. apply typed_set_clock; [done|]. apply typed_clock in Hc.
  unfold ClockAuthority.typed in *. typed_inv. rewrite !andb_true_iff. by split_and!.
Qed.

Lemma typed_with_observation t c :
  typed_checkpoint c = true -> is_i64 t = true ->
  typed_checkpoint (with_shutdown_observation t c) = true.
Proof.
  intros Hc Ht. apply typed_set_clock; [done|]. apply typed_clock in Hc.
  unfold ClockAuthority.typed in *. typed_inv. rewrite !andb_true_iff. by split_and!.
Qed.

Lemma typed_set_phase p r a b m v :
  typed_value v = true -> is_byte p = true -> typed_result r = true -> typed_head a = true ->
  typed_head b = true -> typed_mirror m = true -> typed_value (set_phase p r a b m v) = true.
Proof. unfold typed_value. intros Hv ?????. typed_inv. cbn. rewrite !andb_true_iff. by split_and!. Qed.

Lemma typed_value_fields v :
  typed_value v = true ->
  is_byte (phase v) = true /\ typed_result (safe_result v) = true
  /\ typed_head (application_head v) = true /\ typed_mirror (mirror v) = true.
Proof. unfold typed_value. intros Hv. typed_inv. by split_and!. Qed.

Lemma typed_target v wall tick fixed selected target :
  typed_value v = true -> evidence v = AcknowledgeEvidence wall tick fixed selected target ->
  is_i64 target = true.
Proof. unfold typed_value. intros Hv He. typed_inv. rewrite He in *. cbn [typed_evidence] in *. by typed_inv. Qed.

Lemma typed_replayed_value c operation action head v :
  typed_checkpoint c = true -> typed_action action = true ->
  replayed_value c operation action head = Ok v -> typed_value v = true.
Proof.
  intros Hc Ha. pose proof (typed_cell_state c (slot operation) Hc) as Hcell.
  unfold replayed_value. destruct action as [request|p r|post].
  - by intros ([] & _ & [= <-])%bind_Ok.
  - destruct (cell_state _ _); [done|]. by intros [= <-].
  - destruct (cell_state _ _); [done|]. by intros [= <-].
Qed.

Lemma typed_replay_action c operation action v head c' v' :
  typed_checkpoint c = true -> typed_action action = true -> typed_value v = true ->
  typed_head head = true -> replay_action c operation action v head = Ok (c', v') ->
  typed_checkpoint c' = true /\ typed_value v' = true.
Proof.
  intros Hc Ha Hv Hh Hx. destruct (typed_value_fields v Hv) as (_ & _ & _ & Hm).
  destruct action as [request|p r|post]; cbn [replay_action typed_action] in *.
  - injection Hx as <- <-. split; [|done]. destruct operation; [done|]. by apply typed_set_state.
  - unfold replay_phase in Hx. destruct (_ || _); [done|]. typed_inv.
    apply bind_Ok in Hx as (c1 & Hc1 & [= <- <-]). split; [|by apply typed_set_phase].
    destruct (_ && _); [|by injection Hc1 as <-].
    destruct (evidence v) eqn:He; [|done]. destruct (_ || _); [done|]. injection Hc1 as <-.
    apply typed_with_safe_time; [done|]. by eapply typed_target.
  - unfold replay_commit in Hx. destruct (mirror v) as [|origin pre policy|] eqn:Hmv; [done| |done].
    destruct (_ || _); [done|].
    assert (typed_mirror (Committed origin pre policy post) = true) as Hmc.
    { cbn [typed_mirror] in *. by rewrite Hm, Ha. }
    destruct operation.
    + destruct (evidence v) eqn:He; [|done]. injection Hx as <- <-. split; [done|].
      apply typed_set_phase; try done. by eapply (typed_target v).
    + injection Hx as <- <-. split; [done|].
      destruct (typed_value_fields v Hv) as (?&?&?&_). by apply typed_set_phase.
Qed.

Lemma typed_settle c operation v :
  typed_checkpoint c = true -> typed_value v = true -> typed_checkpoint (settle c operation v) = true.
Proof.
  intros Hc Hv. unfold settle, complete_acknowledge. cbv zeta.
  destruct (addressed_complete v); [destruct operation; [destruct (addressed_hold_matches _ _)|]|];
    repeat match goal with
    | |- typed_checkpoint (set_state _ _ _) = true => apply typed_set_state
    | |- typed_checkpoint (without_hold _) = true => apply typed_without_hold
    end; done.
Qed.

Lemma typed_replay_addressed c operation action head c' :
  typed_checkpoint c = true -> typed_action action = true -> typed_head head = true ->
  replay_addressed c operation action head = Ok c' -> typed_checkpoint c' = true.
Proof.
  intros Hc Ha Hh. unfold replay_addressed. intros (v & Hv & Hx)%bind_Ok.
  apply typed_replayed_value in Hv; [|done..].
  apply bind_Ok in Hx as ([c1 v1] & Hr & Hx).
  apply typed_replay_action in Hr as [Hc1 Hv1]; [|done..].
  apply bind_Ok in Hx as ([] & _ & [= <-]). by apply typed_settle.
Qed.

Lemma typed_replay_clock_at c body head c' :
  typed_checkpoint c = true -> ClockBody.typed body = true -> typed_head head = true ->
  replay_clock_at c body head = Ok c' -> typed_checkpoint c' = true.
Proof.
  intros Hc Hb Hh. unfold replay_clock_at. cbv zeta. intros (c1 & Hc1 & Hx)%bind_Ok.
  assert (typed_checkpoint c1 = true) as Ht.
  { unfold replay_clock in Hc1. apply bind_Ok in Hc1 as (l & _ & Hc1).
    destruct (negb _); [done|]. apply bind_Ok in Hc1 as ([] & _ & Hc1).
    apply bind_Ok in Hc1 as ([] & _ & [= <-]). unfold ClockBody.typed in Hb. typed_inv.
    assert (typed_checkpoint (with_safe_time (ClockBody.new_safe_time body) c) = true)
      by by apply typed_with_safe_time.
    assert (forall b d, typed_checkpoint d = true ->
      typed_checkpoint (if b : bool then without_hold d else d) = true) as Hw
      by (intros [] ? ?; [by apply typed_without_hold|done]).
    destruct (is_clean_shutdown _); [apply typed_with_observation|]; auto. }
  destruct (is_settlement _); [|by injection Hx as <-].
  pose proof (typed_cell_state c1 0 Ht) as Hv.
  destruct (cell_state c1 0) as [|v]; [by injection Hx as <-|].
  destruct (addressed_hold_matches _ _); [|by injection Hx as <-].
  destruct (_ || _); [done|]. destruct (evidence v) eqn:He; [|done].
  destruct (_ <? _); [done|]. injection Hx as <-. cbn [typed_state] in Hv.
  apply typed_set_state; [by apply typed_set_state|]. cbn [typed_state].
  destruct (typed_value_fields v Hv) as (?&?&?&?). apply typed_set_phase; try done.
  by eapply (typed_target v).
Qed.

Lemma typed_replay_record c r head c' :
  typed_checkpoint c = true -> typed_tail_record r = true -> typed_head head = true ->
  replay_record c r head = Ok c' -> typed_checkpoint c' = true.
Proof.
  destruct r; cbn [replay_record typed_tail_record]; eauto using typed_replay_clock_at,
    typed_replay_addressed.
Qed.

Lemma typed_replay_frames c total l c' total' :
  typed_checkpoint c = true -> Forall (fun f => typed_frame f = true) l ->
  replay_frames c total l = Ok (c', total') -> typed_checkpoint c' = true.
Proof.
  intros Hc Hl. revert c total Hc. induction Hl as [|f l Hf _ IH]; intros c total Hc Hx.
  { by injection Hx as <- <-. }
  cbn [replay_frames] in Hx. apply bind_Ok in Hx as ([c1 t1] & Hr & Hx).
  apply replay_frame_Ok in Hr as (kind & body & c2 & _ & _ & _ & _ & Hr & -> & _).
  unfold typed_frame in Hf. typed_inv. eapply IH; [|done].
  apply typed_set_covered; [|done]. by eapply typed_replay_record.
Qed.

Lemma typed_replay_tail image p :
  typed_image image = true -> replay_tail image = Ok p -> typed_checkpoint p = true.
Proof.
  unfold typed_image. intros Ht [_ _ _ [total Hf] _]%replay_tail_Ok. typed_inv.
  eapply typed_replay_frames; [done| |done]. by apply forallb_Forall.
Qed.

(** ** One step more *)

#[local] Existing Instance ClockBody.clock_body_codec.

Section append_facts.
Context `{HmacOutput} (key : JournalIntegrityKey).

Lemma encode_image_replays image w :
  encode_control_journal_image key image = Ok w -> exists p, replay_tail image = Ok p.
Proof.
  unfold encode_control_journal_image. intros (hw & _ & Hx)%bind_Ok.
  apply bind_Ok in Hx as (cp & _ & Hx). apply bind_Ok in Hx as (p & Hp & _). by exists p.
Qed.

(** The head of [next] follows [prior] by the record of that kind and body. *)
Record head_follows (kind : ControlJournalRecordKind) (body : bytes) (prior next : JournalHead)
    : Prop := mkHeadFollows {
  follows_next : sequence next = sequence prior + 1;
  follows_hash : digest next = sha256 (frame_preimage kind body prior);
  follows_typed : typed_head next = true;
}.

Lemma authenticated_frame_Ok kind body prior wire head :
  typed_head prior = true -> is_bytes body = true ->
  authenticated_frame key kind body prior = Ok (wire, head) ->
  head_follows kind body prior head /\ len wire = 110 + len body.
Proof.
  intros Hp Hb. unfold authenticated_frame. rewrite component_head_id.
  intros (w & Hw%map_err_Ok & Hx)%bind_Ok. apply bind_Ok in Hx as (r & Hr%map_err_Ok & [= <- <-]).
  apply encode_record_wire in Hw as [d Hw].
  set (fr := mkControlJournalRecord kind (sequence prior + 1) d body) in Hw.
  assert (typed_record fr = true) as Htr by done.
  destruct (record_wire_framed key _ _ _ Htr Hp Hw) as ([Hwb _] & Hl & Hh).
  rewrite (proj2 (record_exact key w prior fr Hwb Hp) (conj Htr Hw)) in Hr. injection Hr as <-.
  split; [|done]. destruct Hw as (prefix & Hpre & _ & Hd & _). split; [done| |done].
  cbn [digest record_digest fr] in *. rewrite Hd. by apply prefix_digest.
Qed.

Lemma push_replays image p f q :
  replay_tail image = Ok p -> replay_tail (push_frame image f) = Ok q ->
  exists c, replay_record p (record f) (resulting_head f) = Ok c
            /\ q = set_covered (resulting_head f) c.
Proof.
  intros [_ _ _ [total Hf] _]%replay_tail_Ok [_ _ _ [total' Hq] _]%replay_tail_Ok.
  cbn [push_frame checkpoint tail] in Hq. rewrite replay_frames_app, Hf, Ok_bind in Hq.
  cbn [replay_frames fst snd] in Hq. apply bind_Ok in Hq as ([c1 t1] & Hr & [= <- <-]).
  apply replay_frame_Ok in Hr as (kind & body & c & _ & _ & _ & _ & Hr & -> & _). eauto.
Qed.

Lemma folded_replays image q :
  tail image = [] -> replay_tail image = Ok q -> q = checkpoint image.
Proof. intros Ht [_ _ _ [total Hf] _]%replay_tail_Ok. rewrite Ht in Hf. by injection Hf as <-. Qed.

Lemma folded_into_Ok image c next :
  folded_into image c = Ok next ->
  next = mkImage (header image) (set_generation (generation c + 1) c) []
  /\ is_u64 (generation c + 1) = true.
Proof. unfold folded_into. intros (g & [-> Hg]%ok_or_Ok%checked_Some & [= <-])%bind_Ok. done. Qed.

Lemma typed_fold image c :
  typed_image image = true -> typed_checkpoint c = true -> is_u64 (generation c + 1) = true ->
  typed_image (mkImage (header image) (set_generation (generation c + 1) c) []) = true.
Proof.
  unfold typed_image. intros Ht Hc Hg. typed_inv. cbn [header checkpoint tail forallb].
  rewrite !andb_true_iff. split_and!; try done. by apply typed_set_generation.
Qed.

Lemma typed_push image f :
  typed_image image = true -> typed_frame f = true -> typed_image (push_frame image f) = true.
Proof.
  unfold typed_image. intros Ht Hf. typed_inv. cbn [push_frame header checkpoint tail].
  rewrite forallb_app. cbn [forallb]. rewrite !andb_true_iff. by split_and!.
Qed.

(** [next] stands for [c], and is written and read back. *)
Record publishes (next : CompleteControlJournalImage) (c : CompleteCheckpoint) : Prop :=
  mkPublishes {
  publishes_typed : typed_image next = true;
  publishes_replay : replay_tail next = Ok c;
  publishes_wire : exists wire, encode_control_journal_image key next = Ok wire
                     /\ decode_control_journal_image key wire = Ok next;
}.

Lemma publishes_encoded next c w :
  typed_image next = true -> replay_tail next = Ok c ->
  encode_control_journal_image key next = Ok w -> publishes next c.
Proof.
  intros Ht Hr Hw. split; [done..|]. exists w. split; [done|].
  by apply (codec_roundtrip (encode := encode_control_journal_image key)).
Qed.

(** The two ways a step is recorded: a frame more, or a fold of what it leads to. *)
Lemma recorded image p f c c' next w :
  typed_image image = true -> replay_tail image = Ok p -> typed_frame f = true ->
  replay_record p (record f) (resulting_head f) = Ok c ->
  let stepped := set_covered (resulting_head f) c in
  c' = stepped \/ c' = set_state 3 Absent stepped ->
  next = push_frame image f \/ folded_into image c' = Ok next ->
  encode_control_journal_image key next = Ok w ->
  header next = header image
  /\ exists q, publishes next q
     /\ (next = push_frame image f /\ q = stepped
         \/ tail next = [] /\ q = set_generation (generation c' + 1) c').
Proof.
  intros Ht Hp Hf Hr stepped Hc' Hnext Hw. unfold typed_frame in Hf. pose proof Hf as Hf'.
  apply andb_true_iff in Hf' as [[Hfp Hfh]%andb_true_iff Hfr].
  assert (typed_checkpoint stepped = true) as Hst.
  { apply typed_set_covered; [|done]. eapply typed_replay_record; [|done..].
    by eapply typed_replay_tail. }
  destruct (encode_image_replays _ _ Hw) as [q Hq].
  destruct Hnext as [-> | Hfold].
  - split; [done|]. exists q. pose proof (push_replays _ _ _ _ Hp Hq) as (c1 & Hc1 & ->).
    rewrite Hr in Hc1. injection Hc1 as <-. split; [|by left].
    eapply publishes_encoded; [by apply typed_push|done..].
  - apply folded_into_Ok in Hfold as [-> Hg]. split; [done|]. exists q.
    assert (typed_checkpoint c' = true) as Htc'
      by (destruct Hc' as [-> | ->]; [done|by apply typed_set_state]).
    split; [eapply publishes_encoded; [by apply typed_fold|done..]|]. right. split; [done|].
    by apply folded_replays in Hq.
Qed.

(** ** Appending *)

(** An addressed action that is appended is one record: its head follows the
    projection's by hash and sequence, replaying it gives the new projection, a
    superseded shutdown result is dropped and anything else is kept, and the image
    returned is one that is written and read back; it is the old image with one frame
    more, or its fold. *)
Lemma append_action_facts image operation action process recovery next :
  typed_image image = true -> typed_action action = true ->
  append_addressed_action key image operation action process recovery = Ok next ->
  exists p body action' head c,
    replay_tail image = Ok p
    /\ encode_addressed_action operation action = Ok body
    /\ encode_addressed_action operation action' = Ok body
    /\ head_follows (operation_kind operation) body (covered_head p) head
    /\ replay_addressed p operation action' head = Ok c
    /\ header next = header image
    /\ exists q, publishes next q
       /\ (next = push_frame image (mkTailFrame (covered_head p) head
                                      (tail_record_of operation action'))
           /\ q = set_covered head c
           \/ tail next = []
              /\ exists superseded : bool,
                   let kept := if superseded then set_state 3 Absent (set_covered head c)
                               else set_covered head c in
                   (superseded = true ->
                    operation = SystemShutdown /\ superseded_shutdown c process = true)
                   /\ q = set_generation (generation kept + 1) kept).
Proof.
  intros Ht Ha. unfold append_addressed_action. intros (w0 & _ & Hx)%bind_Ok.
  apply bind_Ok in Hx as (p & Hp & Hx). case_bool_decide; [done|].
  apply bind_Ok in Hx as (_ & _ & Hx). apply bind_Ok in Hx as (body & Hbody & Hx).
  cbv zeta in Hx. apply bind_Ok in Hx as ([wire head] & Hfr & Hx).
  apply bind_Ok in Hx as (action' & Ha' & Hx). apply bind_Ok in Hx as (c & Hc & Hx).
  apply bind_Ok in Hx as (total & _ & Hx). apply bind_Ok in Hx as (next' & Hnext & Hx).
  apply bind_Ok in Hx as (w & Hw & [= ->]).
  pose proof (typed_replay_tail _ _ Ht Hp) as Htp. pose proof (typed_covered _ Htp) as Hcov.
  assert (is_bytes body = true) as Hbb.
  { apply encode_action_wire in Hbody as [? ->]; [|done]. by apply action_is_bytes. }
  apply authenticated_frame_Ok in Hfr as [Hh _]; [|done..].
  pose proof (follows_typed _ _ _ _ Hh) as Hhead.
  apply decode_action_exact in Ha' as (Hta & _ & Hea); [|done..].
  set (f := mkTailFrame (covered_head p) head (tail_record_of operation action')).
  set (superseded := match operation with
                     | SystemShutdown => superseded_shutdown (set_covered head c) process
                     | ClockAcknowledge => false
                     end) in Hnext.
  assert (typed_frame f = true) as Htf.
  { unfold typed_frame. cbn [prior_head resulting_head record f]. rewrite Hcov, Hhead.
    by destruct operation. }
  destruct (recorded image p f c (if superseded then set_state 3 Absent (set_covered head c)
    else set_covered head c) next w) as (Hhdr & q & Hq & Hcases); [done..| | | |done|].
  - by destruct operation.
  - destruct superseded; [by right|by left].
  - destruct (_ || _); [by right|]. left. by injection Hnext as <-.
  - exists p, body, action', head, c. do 6 (split; [done|]). exists q. split; [done|].
    destruct Hcases as [[-> ->] | [Htl ->]]; [by left|]. right. split; [done|].
    exists superseded. split; [|done]. intros Hs. unfold superseded in Hs. by destruct operation.
Qed.

(** A clock checkpoint that is appended is one record of the clock kind over the
    projection, whose replay gives the new projection. *)
Lemma append_clock_facts image body next :
  typed_image image = true -> ClockBody.typed body = true ->
  append_clock_checkpoint key image body = Ok next ->
  exists p l head c,
    replay_tail image = Ok p
    /\ ClockBody.encode_clock_checkpoint_body body = Ok l
    /\ head_follows Journal.ClockCheckpoint l (covered_head p) head
    /\ replay_clock_at p body head = Ok c
    /\ header next = header image
    /\ exists q, publishes next q
       /\ (next = push_frame image (mkTailFrame (covered_head p) head (ClockCheckpointEvent body))
           /\ q = set_covered head c
           \/ tail next = []
              /\ q = set_generation (generation p + 1) (set_covered head c)).
Proof.
  intros Ht Hb. unfold append_clock_checkpoint. intros (w0 & Hw0 & Hx)%bind_Ok.
  apply bind_Ok in Hx as (l & Hl%map_err_Ok & Hx). cbv zeta in Hx.
  apply bind_Ok in Hx as (total & _ & Hx). apply bind_Ok in Hx as ([wire head] & Hfr & Hx).
  apply bind_Ok in Hx as (next' & Hnext & Hx). apply bind_Ok in Hx as (w & Hw & [= ->]).
  destruct (encode_image_replays _ _ Hw0) as [p Hp].
  pose proof (typed_replay_tail _ _ Ht Hp) as Htp. pose proof (typed_covered _ Htp) as Hcov.
  rewrite <- (replay_tail_head _ _ Hp) in Hfr, Hnext.
  assert (is_bytes l = true) as Hlb
    by (by apply (codec_bytes (encode := ClockBody.encode_clock_checkpoint_body) body)).
  apply authenticated_frame_Ok in Hfr as [Hh _]; [|done..].
  pose proof (follows_typed _ _ _ _ Hh) as Hhead.
  set (f := mkTailFrame (covered_head p) head (ClockCheckpointEvent body)) in *.
  assert (typed_frame f = true) as Htf.
  { unfold typed_frame. cbn [prior_head resulting_head record f]. by rewrite Hcov, Hhead. }
  assert (exists c, replay_clock_at p body head = Ok c
    /\ (next = push_frame image f \/ folded_into image (set_covered head c) = Ok next))
    as (c & Hc & Hcases).
  { destruct (_ || _).
    - apply bind_Ok in Hnext as (p' & Hp' & Hnext). rewrite Hp in Hp'. injection Hp' as <-.
      apply bind_Ok in Hnext as (c & Hc & Hnext). eauto.
    - injection Hnext as <-. destruct (encode_image_replays _ _ Hw) as [q Hq].
      destruct (push_replays _ _ _ _ Hp Hq) as (c & Hc & _). eauto. }
  destruct (recorded image p f c (set_covered head c) next w)
    as (Hhdr & q & Hq & Hout); [done..|by left|done|done|].
  exists p, l, head, c. do 5 (split; [done|]). exists q. split; [done|].
  destruct Hout as [?|[? ->]]; [by left|right]. split; [done|].
  pose proof Hc as Hg%replay_clock_at_evolves%evolves_generation. cbn [generation set_covered].
  by rewrite Hg.
Qed.

(** ** A new clock authority *)

Lemma cell_state_other i j s c : i <> j -> cell_state (set_state i s c) j = cell_state c j.
Proof. intros Hij. unfold cell_state. cbn [addressed set_state]. by rewrite list_lookup_alter_ne. Qed.

Lemma cell_state_absent i c : cell_state (set_state i Absent c) i = Absent.
Proof.
  unfold cell_state. cbn [addressed set_state]. rewrite list_lookup_alter, decide_True by done.
  by destruct (addressed c !! i).
Qed.

(** The cells after some were dropped. *)
Ltac cells :=
  repeat first
    [ rewrite cell_state_absent
    | rewrite cell_state_other by done
    | match goal with |- context [cell_state (set_clock ?k ?c) ?i] =>
        change (cell_state (set_clock k c) i) with (cell_state c i) end
    | match goal with |- context [cell_state (set_generation ?g ?c) ?i] =>
        change (cell_state (set_generation g c) i) with (cell_state c i) end ];
  first [ done | by left | by right ].

Lemma retire_acknowledge_Ok clock c c' :
  retire_acknowledge clock c = Ok c' -> c' = c \/ c' = set_state 1 Absent c.
Proof.
  unfold retire_acknowledge. destruct (cell_state c 1) as [|last]; [intros [= <-]; by left|].
  destruct (_ && _); [|intros [= <-]; by left]. destruct (address last); [|done].
  destruct (match ClockAuthority.hold clock with Some _ => _ | None => _ end); [done|].
  intros [= <-]. by right.
Qed.

Lemma hold_advances_spec prior clock :
  hold_advances prior clock = true <->
  forall old, prior = Some old -> exists new, clock = Some new
    /\ (new = old \/ ClockAuthority.generation old < ClockAuthority.generation new).
Proof.
  unfold hold_advances. destruct prior as [old|]; [|naive_solver].
  destruct clock as [new|]; [|split; [done|intros Hx; by destruct (Hx old) as (? & ? & _)]].
  rewrite negb_true_iff, orb_false_iff, andb_false_iff, Z.ltb_ge, Z.eqb_neq. split.
  - intros [Hle Hn] old' [= <-]. exists new. split; [done|].
    destruct Hn as [?|Hn]; [right; lia|]. left. by case_bool_decide.
  - intros Hx. destruct (Hx old eq_refl) as (n & [= <-] & [-> | Hlt]); split; try lia; [|lia..].
    right. by rewrite bool_decide_true.
Qed.

(** A new authority is published only when it does not go back; the pending
    obligations stay exactly as they were, and of the completed ones none is altered:
    each is kept or dropped. *)
Lemma publish_authority_facts image clock process next :
  typed_image image = true -> ClockAuthority.typed clock = true ->
  publish_addressed_authority key image clock process = Ok next ->
  exists p q,
    replay_tail image = Ok p /\ publishes next q /\ header next = header image /\ tail next = []
    /\ clock_authority q = clock /\ clock_safe_time p <= ClockAuthority.safe_time clock
    /\ hold_advances (clock_hold p) (ClockAuthority.hold clock) = true
    /\ generation q = generation p + 1 /\ covered_head q = covered_head p
    /\ active_pointer q = active_pointer p /\ recovery_ring q = recovery_ring p
    /\ local_commands q = local_commands p
    /\ cell_state q 0 = cell_state p 0 /\ cell_state q 2 = cell_state p 2
    /\ (cell_state q 1 = cell_state p 1 \/ cell_state q 1 = Absent)
    /\ (cell_state q 3 = cell_state p 3 \/ cell_state q 3 = Absent).
Proof.
  intros Ht Hk. unfold publish_addressed_authority. intros (w0 & _ & Hx)%bind_Ok.
  apply bind_Ok in Hx as (folded & Hf & Hx). cbv zeta in Hx.
  apply bind_Ok in Hf as (p & Hp & Hf). fold (folded_into image p) in Hf.
  apply folded_into_Ok in Hf as [-> Hg]. cbn [checkpoint header tail] in Hx.
  destruct (_ || _) eqn:Hb; [done|]. apply orb_false_iff in Hb as [_ Hb]. b2p.
  destruct (hold_advances _ _) eqn:Hh; [cbn [negb] in Hx|done].
  apply bind_Ok in Hx as (c & Hc%retire_acknowledge_Ok & Hx).
  apply bind_Ok in Hx as (w & Hw & [= <-]).
  pose proof (typed_fold _ _ Ht (typed_replay_tail _ _ Ht Hp) Hg) as Htf.
  unfold typed_image in Htf. cbn [header checkpoint tail] in Htf.
  apply andb_true_iff in Htf as [[Hth Htg]%andb_true_iff _].
  set (d := if superseded_shutdown c process then set_state 3 Absent c else c) in *.
  assert (typed_checkpoint d = true) as Htd.
  { assert (typed_checkpoint c = true) by (destruct Hc as [-> | ->]; [done|by apply typed_set_state]).
    unfold d. destruct (superseded_shutdown _ _); [by apply typed_set_state|done]. }
  destruct (encode_image_replays _ _ Hw) as [q Hq]. pose proof Hq as Hq'.
  apply folded_replays in Hq'; [|done]. cbn [checkpoint] in Hq'.
  exists p, q. split; [done|]. split.
  { eapply publishes_encoded; [|done..]. unfold typed_image. cbn [header checkpoint tail forallb].
    rewrite Hth. by rewrite (typed_set_clock clock d). }
  rewrite Hq'. unfold d. destruct Hc as [-> | ->], (superseded_shutdown _ _);
    split_and!; try done; try lia; cells.
Qed.

(** ** Any history of growth *)

Inductive grows (image next : CompleteControlJournalImage) : Prop :=
| grows_action operation action process recovery :
    typed_action action = true ->
    append_addressed_action key image operation action process recovery = Ok next ->
    grows image next
| grows_clock body :
    ClockBody.typed body = true -> append_clock_checkpoint key image body = Ok next ->
    grows image next
| grows_authority clock process :
    ClockAuthority.typed clock = true ->
    publish_addressed_authority key image clock process = Ok next ->
    grows image next.

(** From projection [p] to projection [q]: nothing goes back, and what only other
    operations may change is kept. *)
Record advances (p q : CompleteCheckpoint) : Prop := mkAdvances {
  advances_generation : generation p <= generation q;
  advances_sequence : sequence (covered_head p) <= sequence (covered_head q);
  advances_head : sequence (covered_head p) = sequence (covered_head q) ->
                  covered_head p = covered_head q;
  advances_safe_time : clock_safe_time p <= clock_safe_time q;
  advances_pointer : active_pointer q = active_pointer p;
  advances_ring : recovery_ring q = recovery_ring p;
  advances_commands : local_commands q = local_commands p;
}.

#[export] Instance advances_preorder : PreOrder advances.
Proof.
  split; [by split|]. intros a b c [] []. split; try congruence; try lia.
  intros Heq. rewrite advances_head0 by lia. apply advances_head1. lia.
Qed.

(** A record over [p], and folds and drops of results after it. *)
Lemma evolves_advances p c head :
  evolves p c -> sequence head = sequence (covered_head p) + 1 ->
  advances p (set_covered head c).
Proof. intros [] Hs. split; cbn [set_covered generation covered_head]; try done; try lia. Qed.

Lemma advances_fold p c g :
  advances p c -> generation c <= g -> advances p (set_generation g c).
Proof. intros [] Hg. split; try done. cbn [set_generation generation]. lia. Qed.

Lemma advances_put p c i s : advances p c -> advances p (set_state i s c).
Proof. by intros []. Qed.

Lemma grows_advances image next p :
  typed_image image = true -> replay_tail image = Ok p -> grows image next ->
  header next = header image /\ exists q, publishes next q /\ advances p q.
Proof.
  intros Ht Hp Hgr. destruct Hgr as [op a pr rc Ha Hx|body Hb Hx|clock pr Hk Hx].
  - apply append_action_facts in Hx as (p' & b & a' & head & c & Hp' & _ & _ & Hh & Hc & Hhdr
      & q & Hq & Hcases); [|done..].
    rewrite Hp in Hp'. injection Hp' as <-. split; [done|]. exists q. split; [done|].
    assert (advances p (set_covered head c)) as Hadv
      by (eapply evolves_advances; [by eapply replay_addressed_evolves|apply Hh]).
    destruct Hcases as [[_ ->] | (_ & superseded & _ & ->)]; [done|].
    apply advances_fold; [|lia]. destruct superseded; [by apply advances_put|done].
  - apply append_clock_facts in Hx as (p' & l & head & c & Hp' & _ & Hh & Hc & Hhdr & q & Hq & Hcases);
      [|done..].
    rewrite Hp in Hp'. injection Hp' as <-. split; [done|]. exists q. split; [done|].
    apply replay_clock_at_evolves in Hc.
    assert (advances p (set_covered head c)) as Hadv by (eapply evolves_advances; [done|apply Hh]).
    destruct Hcases as [[_ ->] | [_ ->]]; [done|]. apply advances_fold; [done|].
    pose proof (evolves_generation _ _ Hc) as He. cbn [generation set_covered]. lia.
  - apply publish_authority_facts in Hx as (p' & q & Hp' & Hq & Hhdr & _ & Hcl & Hst & _ & Hg & Hch
      & Hap & Hrr & Hlc & _); [|done..].
    rewrite Hp in Hp'. injection Hp' as <-. split; [done|]. exists q. split; [done|].
    split; try done; try lia; rewrite ?Hch; try done. unfold clock_safe_time at 2. by rewrite Hcl.
Qed.

Lemma grown_advances image next p :
  typed_image image = true -> replay_tail image = Ok p -> rtc grows image next ->
  header next = header image /\ typed_image next = true
  /\ exists q, replay_tail next = Ok q /\ advances p q /\ (image = next \/ publishes next q).
Proof.
  intros Ht Hp Hr. revert p Ht Hp. induction Hr as [image|image mid next Hg _ IH]; intros p Ht Hp.
  { split; [done|]. split; [done|]. exists p. split; [done|]. split; [reflexivity|by left]. }
  destruct (grows_advances _ _ _ Ht Hp Hg) as (Hh & q & Hq & Hpq).
  destruct (IH q) as (Hh' & Ht' & q' & Hq' & Hqq & Hpub); [apply Hq..|].
  split; [congruence|]. split; [done|]. exists q'. split; [done|]. split; [by etrans|]. right.
  destruct Hpub as [<-|]; [|done]. rewrite (publishes_replay _ _ Hq) in Hq'. by injection Hq' as <-.
Qed.
End append_facts.
