(* ===== verification/History.v ===== *)
(** * What a head commits to

    The resulting head of a frame is a digest over its kind, its sequence, the digest
    before it and its body. Two tails after the same checkpoint that end in the same
    head are therefore the same tail, or they exhibit a SHA-256 collision between the
    preimages of two of their frames. *)

From S2P Require Import Prelude Bytes CoreError Generation Bounded Ring Sha256 Codec Clock.
From S2P Require Import Journal RecoveryRing GenerateProfile Pointer ImageWire Addressed.
From S2P Require Import Checkpoint CheckpointCodec Replay Image Append.

#[local] Open Scope Z_scope.

(** What the head of one of these frames is the digest of. *)
Definition hashed_in (l : list AuthenticatedTailFrame) (x : bytes) : Prop :=
  exists f kind body, f ∈ l /\ encode_tail_record (record f) = Ok (kind, body)
    /\ x = frame_preimage kind body (prior_head f).

Definition collide (l l' : list AuthenticatedTailFrame) : Prop :=
  exists x y, hashed_in l x /\ hashed_in l' y /\ x <> y /\ sha256 x = sha256 y.

Lemma hashed_in_app l k x : hashed_in l x -> hashed_in (l ++ k) x.
Proof.
  intros (f & kind & body & Hf & Hx). exists f, kind, body. split; [|done].
  apply elem_of_app. by left.
Qed.

Lemma collide_app l l' k k' : collide l l' -> collide (l ++ k) (l' ++ k').
Proof. intros (x & y & Hx & Hy & Hxy). exists x, y. split_and!; try by apply hashed_in_app. all: apply Hxy. Qed.

Lemma last_hashed l f kind body :
  encode_tail_record (record f) = Ok (kind, body) ->
  hashed_in (l ++ [f]) (frame_preimage kind body (prior_head f)).
Proof.
  intros He. exists f, kind, body. split; [|done]. apply elem_of_app. right.
  by apply list_elem_of_singleton.
Qed.

Lemma kind_code_inj k k' : kind_code k = kind_code k' -> k = k'.
Proof. by destruct k, k'. Qed.

(** A preimage determines what it was made of. *)
Lemma frame_preimage_inj kind kind' body body' prior prior' :
  typed_head prior = true -> typed_head prior' = true ->
  sequence prior = sequence prior' ->
  frame_preimage kind body prior = frame_preimage kind' body' prior' ->
  kind = kind' /\ body = body' /\ prior = prior'.
Proof.
  intros [_ Hd]%andb_true_iff [_ Hd']%andb_true_iff Hs Hx. unfold frame_preimage in Hx.
  apply app_inv_head in Hx.
  apply app_inj_length in Hx as [Hk Hx]; [|by rewrite !length_be_bytes].
  apply app_inj_length in Hx as [_ Hx]; [|by rewrite !length_be_bytes].
  apply app_inj_length in Hx as [Hp Hb]; [|by rewrite (array_len _ _ Hd), (array_len _ _ Hd')].
  split; [|split; [done|destruct prior, prior'; cbn in *; congruence]].
  apply kind_code_inj. apply (f_equal of_be_bytes) in Hk.
  rewrite !of_be_u16 in Hk by first [by destruct kind | by destruct kind']. done.
Qed.

Section history.
Context `{HmacOutput}.

(** A record is determined by its kind, its body and its head. *)
Lemma tail_record_inj r r' head kind body :
  typed_head head = true ->
  typed_tail_record r = true -> record_for r head -> encode_tail_record r = Ok (kind, body) ->
  typed_tail_record r' = true -> record_for r' head -> encode_tail_record r' = Ok (kind, body) ->
  r = r'.
Proof.
  intros Hh Ht Hf He Ht' Hf' He'. pose proof (tail_record_bytes r kind body Ht He) as Hb.
  set (fr := mkControlJournalRecord kind 0 [] body).
  assert (decode_tail_record fr head = Ok r) as Hr by by apply decode_tail_record_exact.
  assert (decode_tail_record fr head = Ok r') as Hr' by by apply decode_tail_record_exact.
  congruence.
Qed.

Lemma frames_committed c total l l' c1 c1' t t' :
  typed_checkpoint c = true ->
  Forall (fun f => typed_frame f = true) l -> Forall (fun f => typed_frame f = true) l' ->
  replay_frames c total l = Ok (c1, t) -> replay_frames c total l' = Ok (c1', t') ->
  covered_head c1 = covered_head c1' ->
  l = l' \/ collide l l'.
Proof.
  intros Hc Hl Hl' Hr Hr' Hcov.
  assert (length l = length l') as Hlen.
  { apply replay_frames_evolves in Hr as [_ Hs], Hr' as [_ Hs']. rewrite Hcov in Hs. lia. }
  revert l' c1 c1' t t' Hl' Hr Hr' Hcov Hlen.
  induction l as [|f l IH] using rev_ind; intros l' c1 c1' t t' Hl' Hr Hr' Hcov Hlen.
  { left. symmetry. by apply nil_length_inv. }
  destruct l' as [|f' l' _] using rev_ind; [rewrite length_app in Hlen; cbn in Hlen; lia|].
  rewrite !length_app in Hlen. cbn [length] in Hlen.
  apply Forall_app in Hl as [Hl Hf]. apply Forall_app in Hl' as [Hl' Hf'].
  rewrite Forall_singleton in Hf, Hf'. unfold typed_frame in Hf, Hf'.
  pose proof (replay_frames_for _ _ _ _ _ Hr) as [_ Hfor]%Forall_app.
  pose proof (replay_frames_for _ _ _ _ _ Hr') as [_ Hfor']%Forall_app.
  rewrite Forall_singleton in Hfor, Hfor'.
  rewrite replay_frames_app in Hr, Hr'.
  apply bind_Ok in Hr as ([d u] & Hd & Hr). apply bind_Ok in Hr' as ([d' u'] & Hd' & Hr').
  cbn [replay_frames fst snd] in Hr, Hr'.
  apply bind_Ok in Hr as ([e v] & Hr & [= <- <-]). apply bind_Ok in Hr' as ([e' v'] & Hr' & [= <- <-]).
  apply replay_frame_Ok in Hr as (kind & body & x & Hfo & _ & _ & _ & _ & -> & _).
  apply replay_frame_Ok in Hr' as (kind' & body' & x' & Hfo' & _ & _ & _ & _ & -> & _).
  cbn [covered_head set_covered] in Hcov. destruct Hfo as [Hp Hs _ _ He Hdg], Hfo' as [Hp' Hs' _ _ He' Hdg'].
  typed_inv.
  destruct (decide (frame_preimage kind body (covered_head d)
                    = frame_preimage kind' body' (covered_head d'))) as [Heq|Hne].
  - apply frame_preimage_inj in Heq as (-> & -> & Hdd).
    2, 3: rewrite <- ?Hp, <- ?Hp'; done.
    2: { rewrite Hcov in Hs. lia. }
    destruct (IH Hl l' d d' u u') as [-> | Hcol]; try done; [lia| |right; by apply collide_app].
    left. f_equal. f_equal. destruct f as [pf rf cf], f' as [pf' rf' cf'].
    cbn [prior_head resulting_head record] in *. subst rf'. f_equal; [congruence|].
    by apply (tail_record_inj cf cf' rf kind' body').
  - right. exists (frame_preimage kind body (prior_head f)), (frame_preimage kind' body' (prior_head f')).
    split_and!; [by apply last_hashed|by apply last_hashed|by rewrite Hp, Hp'|].
    rewrite Hp, Hp', <- Hdg, <- Hdg'. by rewrite Hcov.
Qed.

(** C6: The head of a projection commits to the tail that led to it: two typed images over
    the same checkpoint whose projections have the same head have the same tail, or two
    of their frames are a SHA-256 collision. *)
Theorem head_commits_to_tail image image' p p' :
  typed_image image = true -> typed_image image' = true ->
  checkpoint image = checkpoint image' ->
  replay_tail image = Ok p -> replay_tail image' = Ok p' ->
  covered_head p = covered_head p' ->
  tail image = tail image' \/ collide (tail image) (tail image').
Proof.
  intros Ht Ht' Hc [_ _ _ [t Hf] _]%replay_tail_Ok [_ _ _ [t' Hf'] _]%replay_tail_Ok Hh.
  unfold typed_image in Ht, Ht'. typed_inv. rewrite <- Hc in Hf'.
  apply (frames_committed (checkpoint image) 104 _ _ p p' t t'); try done; by apply forallb_Forall.
Qed.
End history.
