(* ===== verification/Host.v ===== *)
(** * The host of the journal directory's publishers

    What processes see of the retained directory, and what a power loss may leave of
    it. Every system call consumes one outcome of a list that the theorems quantify
    over; when the list runs out the process is killed at that call. A renamed or
    created name is durable once the directory is synced, the data of a file once the
    file is; until then a crash leaves any directory since the last sync, and of an
    unsynced file arbitrary data. The state-owner lock keeps other owners out, so
    between the system calls of one owner nobody else changes the directory.

    [runs] is the Hoare triple over directories with a postcondition for each end of a
    run, [idle] marks the runs that leave the directory as it is. *)

From S2P Require Import Prelude Bytes CoreError.

#[local] Open Scope Z_scope.

(** ** The host *)

Inductive FileType : Type := RegularFile | Symlink | OtherFile.

#[export] Instance FileType_eq_dec : EqDecision FileType.
Proof. solve_decision. Defined.

(** [i_mode] is [st_mode & 0o7777]; [i_synced] says that the data is on stable storage. *)
Record Inode : Type := mkInode {
  i_type : FileType;
  i_mode : Z;
  i_uid : Z;
  i_nlink : Z;
  i_data : bytes;
  i_synced : bool;
}.

(** [unsynced] are the directories since the last sync that a crash may bring back. *)
Record Directory : Type := mkDirectory {
  names : gmap bytes nat;
  unsynced : list (gmap bytes nat);
  inodes : gmap nat Inode;
}.

(** [d_mode] is [st_mode & 0o7777]. *)
Record DirStat : Type := mkDirStat {
  d_directory : bool;
  d_mode : Z;
  d_uid : Z;
  d_ino : Z;
  d_dev : Z;
}.

(** The settings of the process that [lib.rs] installs; an unlimited limit is [None]. *)
Record Process : Type := mkProcess {
  umask : Z;
  core_limits : option Z * option Z;
  dumpable : bool;
}.

(** How one system call ends; a read or a write moves at most [n] bytes. *)
Inductive Outcome : Type := Fails | Interrupted | Moves (n : Z).

(** The root has three views: by its path, by the identity reference that is kept with
    the lock, and by the descriptor the owner works with. [lock_contended]: another
    process holds the lock. *)
Record Host : Type := mkHost {
  directory : Directory;
  named_root : DirStat;
  reference_root : DirStat;
  opened_root : DirStat;
  euid : Z;
  pid : Z;
  lock_contended : bool;
  process : Process;
  temporary_serial : Z;
  outcomes : list Outcome;
}.

(** What a crash may leave of a directory. *)
Record crash (before after : Directory) : Prop := mkCrash {
  crash_names : names after = names before \/ names after ∈ unsynced before;
  crash_unsynced : unsynced after = [];
  crash_inodes : forall n i, inodes after !! n = Some i ->
    exists j, inodes before !! n = Some j /\ i_type i = i_type j /\ i_mode i = i_mode j
              /\ i_uid i = i_uid j /\ i_nlink i = i_nlink j
              /\ i_synced i = true /\ (i_synced j = true -> i_data i = i_data j);
  crash_kept : forall n, is_Some (inodes before !! n) -> is_Some (inodes after !! n);
}.

(** ** Runs *)

(** A run ends with a result, or the process is killed in the middle of it. *)
Inductive Run (E A : Type) : Type := Returned (r : result E A) | Killed.
Arguments Returned {E A} r.
Arguments Killed {E A}.

Definition Io (E A : Type) : Type := Host -> Host * Run E A.

#[export] Instance io_ret {E : Type} : MRet (Io E) := fun A a h => (h, Returned (Ok a)).
#[export] Instance io_bind {E : Type} : MBind (Io E) := fun A B f m h =>
  match m h with
  | (h, Returned (Ok a)) => f a h
  | (h, Returned (Err e)) => (h, Returned (Err e))
  | (h, Killed) => (h, Killed)
  end.

Definition pure {E A : Type} (r : result E A) : Io E A := fun h => (h, Returned r).
Definition ask {E A : Type} (f : Host -> A) : Io E A := fun h => (h, Returned (Ok (f h))).

(** [match m { Ok.. => .., Err.. => .. }] over a computation. *)
Definition caught {E A : Type} (m : Io E A) : Io E (result E A) := fun h =>
  match m h with
  | (h, Returned r) => (h, Returned (Ok r))
  | (h, Killed) => (h, Killed)
  end.

(** A failure seen as another error ([map_err]). *)
Definition mapped {E E' A : Type} (f : E -> E') (m : Io E A) : Io E' A := fun h =>
  match m h with
  | (h, Returned (Ok a)) => (h, Returned (Ok a))
  | (h, Returned (Err e)) => (h, Returned (Err (f e)))
  | (h, Killed) => (h, Killed)
  end.

Definition set_outcomes (os : list Outcome) (h : Host) : Host :=
  mkHost (directory h) (named_root h) (reference_root h) (opened_root h) (euid h) (pid h)
    (lock_contended h) (process h) (temporary_serial h) os.
Definition set_directory (d : Directory) (h : Host) : Host :=
  mkHost d (named_root h) (reference_root h) (opened_root h) (euid h) (pid h)
    (lock_contended h) (process h) (temporary_serial h) (outcomes h).
Definition set_serial (s : Z) (h : Host) : Host :=
  mkHost (directory h) (named_root h) (reference_root h) (opened_root h) (euid h) (pid h)
    (lock_contended h) (process h) s (outcomes h).
Definition set_process (p : Process) (h : Host) : Host :=
  mkHost (directory h) (named_root h) (reference_root h) (opened_root h) (euid h) (pid h)
    (lock_contended h) p (temporary_serial h) (outcomes h).

Definition next_outcome {E : Type} : Io E Outcome := fun h =>
  match outcomes h with
  | [] => (h, Killed)
  | o :: os => (set_outcomes os h, Returned (Ok o))
  end.

(** A call that either does its work or reports an error. *)
Definition system_call {E : Type} (e : E) : Io E unit :=
  o ← next_outcome;
  match o with Moves _ => mret tt | Fails | Interrupted => pure (Err e) end.

Definition update_process {E : Type} (f : Process -> Process) : Io E unit := fun h =>
  (set_process (f (process h)) h, Returned (Ok tt)).

Definition update_directory {E : Type} (f : Directory -> Directory) : Io E unit := fun h =>
  (set_directory (f (directory h)) h, Returned (Ok tt)).

(** ** Directory operations *)

Definition entry (d : Directory) (name : bytes) : option (nat * Inode) :=
  n ← names d !! name; i ← inodes d !! n; Some (n, i).

(** A change of the names: the directory before it may still come back. *)
Definition rename_names (f : gmap bytes nat -> gmap bytes nat) (d : Directory) : Directory :=
  mkDirectory (f (names d)) (names d :: unsynced d) (inodes d).

Definition create_file (name : bytes) (uid mode : Z) (d : Directory) : Directory :=
  let n := fresh (dom (inodes d)) in
  rename_names <[name := n]>
    (mkDirectory (names d) (unsynced d)
       (<[n := mkInode RegularFile mode uid 1 [] false]> (inodes d))).

Definition append_data (n : nat) (data : bytes) (d : Directory) : Directory :=
  mkDirectory (names d) (unsynced d)
    (alter (fun i => mkInode (i_type i) (i_mode i) (i_uid i) (i_nlink i) (i_data i ++ data) false)
       n (inodes d)).

Definition sync_data (n : nat) (d : Directory) : Directory :=
  mkDirectory (names d) (unsynced d)
    (alter (fun i => mkInode (i_type i) (i_mode i) (i_uid i) (i_nlink i) (i_data i) true)
       n (inodes d)).

Definition change_mode (n : nat) (mode : Z) (d : Directory) : Directory :=
  mkDirectory (names d) (unsynced d)
    (alter (fun i => mkInode (i_type i) mode (i_uid i) (i_nlink i) (i_data i) (i_synced i))
       n (inodes d)).

Definition sync_names (d : Directory) : Directory := mkDirectory (names d) [] (inodes d).

Definition rename_entry (from_name to_name : bytes) (d : Directory) : Directory :=
  match names d !! from_name with
  | Some n => rename_names (fun m => <[to_name := n]> (delete from_name m)) d
  | None => d
  end.

(** ** The calls the publishers share *)

(** [openat] with [CREATE], [EXCL] and [NOFOLLOW], mode 0600: [None] when the name exists. *)
Definition open_new {E : Type} (e : E) (name : bytes) : Io E (option nat) :=
  _ ← system_call e;
  d ← ask directory;
  uid ← ask euid;
  mask ← ask (umask ∘ process);
  match names d !! name with
  | Some _ => mret None
  | None =>
    _ ← update_directory (create_file name uid (Z.land 384 (Z.lnot mask)));
    mret (Some (fresh (dom (inodes d))))
  end.

(** [statat], or [openat] for reading: the entry, if the name has one. *)
Definition look_up {E : Type} (e : E) (name : bytes) : Io E (option (nat * Inode)) :=
  _ ← system_call e;
  ask (fun h => entry (directory h) name).

Definition sync_file {E : Type} (e : E) (file : nat) : Io E unit :=
  _ ← system_call e; update_directory (sync_data file).

Definition sync_directory {E : Type} (e : E) : Io E unit :=
  _ ← system_call e; update_directory sync_names.

(** [renameat], and with [NOREPLACE]. *)
Definition rename {E : Type} (e : E) (replace : bool) (from_name to_name : bytes) : Io E unit :=
  _ ← system_call e;
  d ← ask directory;
  if bool_decide (names d !! from_name = None)
     || (negb replace && negb (bool_decide (names d !! to_name = None)))
  then pure (Err e)
  else update_directory (rename_entry from_name to_name).

(** The loop over [write] that both publishers run, over what is left to write. *)
Fixpoint write_loop {E : Type} (e : E) (os : list Outcome) (file : nat) (l : bytes) (d : Directory)
    : list Outcome * Directory * Run E unit :=
  match l with
  | [] => (os, d, Returned (Ok tt))
  | _ =>
    match os with
    | [] => ([], d, Killed)
    | Fails :: os => (os, d, Returned (Err e))
    | Interrupted :: os => write_loop e os file l d
    | Moves n :: os =>
      let count := Z.to_nat (Z.min n (len l)) in
      if (count =? 0)%nat then (os, d, Returned (Err e))
      else write_loop e os file (drop count l) (append_data file (take count l) d)
    end
  end.

Definition write_file {E : Type} (e : E) (file : nat) (l : bytes) : Io E unit := fun h =>
  let '(os, d, r) := write_loop e (outcomes h) file l (directory h) in
  (set_directory d (set_outcomes os h), r).

(** One [write], and one [read] into a buffer: how far they got. *)
Definition write_once {E : Type} (e : E) (file : nat) (l : bytes) : Io E nat :=
  o ← next_outcome;
  match o with
  | Fails | Interrupted => pure (Err e)
  | Moves n =>
    let count := Z.to_nat (Z.min n (len l)) in
    _ ← update_directory (append_data file (take count l)); mret count
  end.

Definition read_once {E : Type} (e : E) (buffer : nat) (rest : bytes) : Io E bytes :=
  o ← next_outcome;
  match o with
  | Fails | Interrupted => pure (Err e)
  | Moves n => mret (take (Z.to_nat (Z.min (Z.max 1 n) (Z.of_nat buffer))) rest)
  end.

(** A regular file that only [uid] may read and write, under one name. *)
Definition owner_only (uid : Z) (i : Inode) : bool :=
  bool_decide (i_type i = RegularFile) && (i_mode i =? 384) && (i_uid i =? uid) && (i_nlink i =? 1).

(** ** Runs and the directories they pass through *)

Definition runs {E A : Type} (m : Io E A) (P : Directory -> Prop) (Q : A -> Directory -> Prop)
    (X : E -> Directory -> Prop) (K : Directory -> Prop) : Prop :=
  forall h, P (directory h) ->
    match m h with
    | (h', Returned (Ok a)) => Q a (directory h')
    | (h', Returned (Err e)) => X e (directory h')
    | (h', Killed) => K (directory h')
    end.

Section rules.
Context {E : Type} (X : E -> Directory -> Prop) (K : Directory -> Prop).

Lemma runs_bind {A B : Type} (m : Io E A) (f : A -> Io E B) P Q R :
  runs m P Q X K -> (forall a, runs (f a) (Q a) R X K) -> runs (m ≫= f) P R X K.
Proof.
  intros Hm Hf h Hh. specialize (Hm h Hh). unfold mbind, io_bind.
  destruct (m h) as [h' [[a|e]|]]; [by apply Hf|done..].
Qed.

Lemma runs_weaken {A : Type} (m : Io E A) (P P' : Directory -> Prop) (Q Q' : A -> Directory -> Prop) :
  (forall d, P' d -> P d) -> (forall a d, Q a d -> Q' a d) -> runs m P Q X K -> runs m P' Q' X K.
Proof.
  intros HP HQ Hm h Hh. specialize (Hm h (HP _ Hh)). destruct (m h) as [h' [[a|e]|]]; auto.
Qed.

(** A fact about no directory is a hypothesis of the run. *)
Lemma runs_fact {A : Type} (m : Io E A) P (F : Prop) Q :
  (F -> runs m P Q X K) -> runs m (fun d => P d /\ F) Q X K.
Proof. intros Hm h [Hh Hf]. by apply Hm. Qed.

Lemma runs_result {A : Type} (r : result E A) (P : Directory -> Prop) :
  (forall e d, r = Err e -> P d -> X e d) ->
  runs (pure r) P (fun a d => P d /\ r = Ok a) X K.
Proof. intros He h Hh. destruct r; cbn; auto. Qed.

Lemma runs_ret {A : Type} (a : A) P : runs (mret a) P (fun b d => b = a /\ P d) X K.
Proof. intros h Hh. done. Qed.

Lemma runs_pure {A : Type} (r : result E A) (P : Directory -> Prop) :
  (forall e d, r = Err e -> P d -> X e d) ->
  runs (pure r) P (fun a d => r = Ok a /\ P d) X K.
Proof. intros He h Hh. destruct r; cbn; auto. Qed.

Lemma runs_ask {A : Type} (f : Host -> A) P : runs (ask f) P (fun _ => P) X K.
Proof. intros h Hh. done. Qed.

Lemma runs_directory P : runs (ask directory) P (fun a d => a = d /\ P d) X K.
Proof. intros h Hh. done. Qed.

Lemma runs_next P : (forall d, P d -> K d) -> runs next_outcome P (fun _ => P) X K.
Proof. intros HK h Hh. unfold next_outcome. destruct (outcomes h); cbn; auto. Qed.

Lemma runs_call e P :
  (forall d, P d -> K d) -> (forall d, P d -> X e d) ->
  runs (system_call e) P (fun _ => P) X K.
Proof.
  intros HK HE. apply (runs_bind _ _ _ (fun _ => P)); [by apply runs_next|].
  intros [| |n] h Hh; cbn; auto.
Qed.

Lemma runs_update f P Q :
  (forall d, P d -> Q (f d)) -> runs (update_directory f) P (fun _ => Q) X K.
Proof. intros Hf h Hh. cbn. auto. Qed.
End rules.

Lemma runs_caught {E A : Type} (m : Io E A) P Q X X' K :
  runs m P Q X K ->
  runs (caught m) P (fun r d => match r with Ok a => Q a d | Err e => X e d end) X' K.
Proof.
  intros Hm h Hh. specialize (Hm h Hh). unfold caught.
  destruct (m h) as [h' [[a|e]|]]; done.
Qed.

Lemma runs_mapped {E E' A : Type} (f : E -> E') (m : Io E A) P Q X X' K :
  (forall e d, X e d -> X' (f e) d) -> runs m P Q X K -> runs (mapped f m) P Q X' K.
Proof.
  intros Hf Hm h Hh. specialize (Hm h Hh). unfold mapped. destruct (m h) as [h' [[a|e]|]]; auto.
Qed.

Lemma runs_ends {E A : Type} (m : Io E A) P Q (X X' : E -> Directory -> Prop) (K K' : Directory -> Prop) :
  (forall e d, X e d -> X' e d) -> (forall d, K d -> K' d) -> runs m P Q X K -> runs m P Q X' K'.
Proof.
  intros HX HK Hm h Hh. specialize (Hm h Hh). destruct (m h) as [h' [[a|e]|]]; auto.
Qed.

Lemma runs_and {E A : Type} (m : Io E A) P P' Q Q' (X X' : E -> Directory -> Prop) K K' :
  runs m P Q X K -> runs m P' Q' X' K' ->
  runs m (fun d => P d /\ P' d) (fun a d => Q a d /\ Q' a d) (fun e d => X e d /\ X' e d)
    (fun d => K d /\ K' d).
Proof.
  intros Hm Hm' h [Hh Hh']. specialize (Hm h Hh). specialize (Hm' h Hh').
  by destruct (m h) as [h' [[a|e]|]].
Qed.

(** A run that leaves the directory as it is. *)
Definition idle {E A : Type} (m : Io E A) : Prop := forall h, directory (m h).1 = directory h.

Lemma idle_runs {E A : Type} (m : Io E A) (P : Directory -> Prop) X K :
  idle m -> (forall e d, P d -> X e d) -> (forall d, P d -> K d) -> runs m P (fun _ => P) X K.
Proof.
  intros Hm HE HK h Hh. specialize (Hm h). rewrite <- Hm in Hh.
  destruct (m h) as [h' [[a|e]|]]; cbn in *; auto.
Qed.

Lemma idle_bind {E A B : Type} (m : Io E A) (f : A -> Io E B) :
  idle m -> (forall a, idle (f a)) -> idle (m ≫= f).
Proof.
  intros Hm Hf h. specialize (Hm h). unfold mbind, io_bind.
  destruct (m h) as [h' [[a|e]|]]; cbn in *; [by rewrite Hf|done..].
Qed.

Lemma idle_ret {E A : Type} (a : A) : idle (mret (M := Io E) a).
Proof. done. Qed.
Lemma idle_pure {E A : Type} (r : result E A) : idle (pure r).
Proof. done. Qed.
Lemma idle_ask {E A : Type} (f : Host -> A) : idle (ask (E := E) f).
Proof. done. Qed.
Lemma idle_next {E : Type} : idle (next_outcome (E := E)).
Proof. intros h. unfold next_outcome. by destruct (outcomes h). Qed.
Lemma idle_call {E : Type} (e : E) : idle (system_call e).
Proof. apply idle_bind; [apply idle_next|]. by intros []. Qed.

Lemma idle_look_up {E : Type} (e : E) name : idle (look_up e name).
Proof. apply idle_bind; [apply idle_call|]. intros _. apply idle_ask. Qed.
Lemma idle_mapped {E E' A : Type} (f : E -> E') (m : Io E A) : idle m -> idle (mapped f m).
Proof. intros Hm h. specialize (Hm h). unfold mapped. by destruct (m h) as [h' [[a|e]|]]. Qed.
Lemma idle_process {E : Type} f : idle (update_process (E := E) f).
Proof. done. Qed.

Lemma idle_read_once {E : Type} (e : E) buffer rest : idle (read_once e buffer rest).
Proof. apply idle_bind; [apply idle_next|]. by intros []. Qed.

Create HintDb idle.
#[export] Hint Resolve idle_ret idle_pure idle_ask idle_next idle_call idle_look_up idle_mapped
  idle_process idle_read_once idle_bind : idle.

Ltac idle :=
  repeat first
    [ apply idle_bind; [|intros ?]
    | progress auto with idle
    | case_match ].

(** ** Hosts whose calls work *)

Definition progress (o : Outcome) : bool := match o with Interrupted => false | _ => true end.

Definition healthy (o : Outcome) : Prop := exists n, o = Moves n /\ 1 <= n.

Lemma write_loop_ends {E : Type} (e : E) os n l d :
  (length l <= length (List.filter progress os))%nat -> (write_loop e os n l d).2 <> Killed.
Proof.
  revert l d. induction os as [|o os IH]; intros l d; destruct l as [|b l]; cbn [write_loop]; try done.
  - cbn. lia.
  - destruct o as [| |k]; [done| |].
    + apply IH.
    + cbn [List.filter progress length]. intros Hl.
      set (count := Z.to_nat (Z.min k (len (b :: l)))).
      destruct (Nat.eqb_spec count 0) as [Hc|Hc]; [done|]. apply IH. rewrite length_drop. cbn [length]. lia.
Qed.

Lemma append_data_app n l l' d : append_data n l' (append_data n l d) = append_data n (l ++ l') d.
Proof.
  unfold append_data. cbn [names unsynced inodes]. f_equal. apply map_eq. intros m.
  destruct (decide (m = n)) as [-> | Hm]; [|by rewrite !lookup_alter_ne].
  rewrite !lookup_alter_eq. destruct (inodes d !! n); [|done]. cbn. by rewrite <- app_assoc.
Qed.

Lemma write_loop_healthy {E : Type} (e : E) os n l d :
  Forall healthy os -> (length l <= length os)%nat -> l <> [] ->
  exists os', write_loop e os n l d = (os', append_data n l d, Returned (Ok tt)) /\ Forall healthy os'
    /\ (length os <= length os' + length l)%nat.
Proof.
  intros Hos. revert l d. induction Hos as [|o os (k & -> & Hk) Hos IH]; intros l d Hl Hne.
  { destruct l; [done|cbn in Hl; lia]. }
  destruct l as [|b l]; [done|]. cbn [write_loop].
  set (count := Z.to_nat (Z.min k (len (b :: l)))).
  assert (0 < count <= length (b :: l))%nat as Hc by (unfold count, len; cbn [length]; lia).
  destruct (Nat.eqb_spec count 0); [lia|].
  destruct (drop count (b :: l)) as [|c t] eqn:Hd.
  - exists os. split; [|split; [done|cbn [length]; lia]].
    assert (take count (b :: l) = b :: l) as ->.
    { rewrite <- (take_drop count (b :: l)) at 2. by rewrite Hd, app_nil_r. }
    by destruct os.
  - destruct (IH (c :: t) (append_data n (take count (b :: l)) d)) as (os' & -> & Hos' & Hlen); [|done|].
    + rewrite <- Hd, length_drop. cbn [length] in *. lia.
    + exists os'. rewrite append_data_app, <- Hd, take_drop. split; [done|]. split; [done|].
      rewrite <- Hd, length_drop in Hlen. cbn [length] in *. lia.
Qed.

Section working.
Context (host : Host).

(** The host in directory [d] with serial [s], all of whose calls work, [k] or more. *)
Record works (d : Directory) (s : Z) (k : nat) (h : Host) : Prop := mkWorks {
  works_same : h = set_outcomes (outcomes h) (set_serial s (set_directory d host));
  works_outcomes : Forall healthy (outcomes h);
  works_calls : (k <= length (outcomes h))%nat;
}.

Lemma works_directory d s k h : works d s k h -> directory h = d.
Proof. by intros [-> ]. Qed.

Lemma works_with d s k h d' s' k' os :
  works d s k h -> Forall healthy os -> (k' <= length os)%nat ->
  works d' s' k' (set_outcomes os (set_serial s' (set_directory d' h))).
Proof. by intros [-> _ _] Ho Hk. Qed.

Definition does {E A : Type} (m : Io E A) d s k (v : A) d' s' k' : Prop :=
  forall h, works d s k h -> exists h', m h = (h', Returned (Ok v)) /\ works d' s' k' h'.

Context {E : Type}.

Lemma does_bind {A B : Type} (m : Io E A) (f : A -> Io E B) d s k v d1 s1 k1 w d2 s2 k2 :
  does m d s k v d1 s1 k1 -> does (f v) d1 s1 k1 w d2 s2 k2 -> does (m ≫= f) d s k w d2 s2 k2.
Proof.
  intros Hm Hf h Hh. destruct (Hm h Hh) as (h1 & Hx & H1). unfold mbind, io_bind. rewrite Hx. by apply Hf.
Qed.

Lemma does_ret {A : Type} (v : A) d s k : does (mret (M := Io E) v) d s k v d s k.
Proof. intros h Hh. by exists h. Qed.

Lemma does_pure {A : Type} (r : result E A) v d s k : r = Ok v -> does (pure r) d s k v d s k.
Proof. intros -> h Hh. by exists h. Qed.

Lemma does_ask {A : Type} (f : Host -> A) v d s k :
  (forall h, works d s k h -> f h = v) -> does (ask (E := E) f) d s k v d s k.
Proof. intros Hf h Hh. exists h. unfold ask. by rewrite (Hf h Hh). Qed.

Lemma does_next {B : Type} (f : Outcome -> Io E B) d s k w d' s' k' :
  (forall n, does (f (Moves n)) d s k w d' s' k') -> does (next_outcome ≫= f) d s (S k) w d' s' k'.
Proof.
  intros Hf h [Hs Ho Hl]. unfold mbind, io_bind, next_outcome.
  destruct (outcomes h) as [|o os]; [cbn in Hl; lia|]. inversion Ho as [|? ? (n & -> & _) Hos]. subst h.
  apply Hf. split; [done..|]. cbn in *. lia.
Qed.

Lemma does_call (e : E) d s k : does (system_call e) d s (S k) tt d s k.
Proof. apply does_next. intros n. apply does_ret. Qed.

Lemma does_update f d s k : does (update_directory (E := E) f) d s k tt (f d) s k.
Proof. intros h [-> Ho Hl]. eexists. split; [done|]. by split. Qed.

Lemma does_look_up (e : E) name v d s k :
  entry d name = v -> does (look_up e name) d s (S k) v d s k.
Proof.
  intros Hv. eapply does_bind; [apply does_call|]. apply does_ask. by intros h [-> _ _].
Qed.

Lemma does_sync_file (e : E) n d s k : does (sync_file e n) d s (S k) tt (sync_data n d) s k.
Proof. eapply does_bind; [apply does_call|]. apply does_update. Qed.

Lemma does_sync_directory (e : E) d s k : does (sync_directory e) d s (S k) tt (sync_names d) s k.
Proof. eapply does_bind; [apply does_call|]. apply does_update. Qed.

Lemma does_rename (e : E) replace n old new d s k :
  names d !! old = Some n -> replace = true \/ names d !! new = None ->
  does (rename e replace old new) d s (S k) tt (rename_entry old new d) s k.
Proof.
  intros Ho Hn. eapply does_bind; [apply does_call|].
  eapply does_bind; [apply (does_ask _ d); by intros ? [-> _ _]|]. rewrite Ho. cbn.
  replace (negb replace && _) with false; [apply does_update|].
  destruct Hn as [-> | ->]; [done|]. by destruct replace.
Qed.

Lemma does_open_new (e : E) name d s k :
  names d !! name = None ->
  does (open_new e name) d s (S k) (Some (fresh (dom (inodes d))))
    (create_file name (euid host) (Z.land 384 (Z.lnot (umask (process host)))) d) s k.
Proof.
  intros Hn. eapply does_bind; [apply does_call|].
  eapply does_bind; [apply (does_ask _ d); by intros ? [-> _ _]|].
  eapply does_bind; [apply (does_ask _ (euid host)); by intros ? [-> _ _]|].
  eapply does_bind; [apply (does_ask _ (umask (process host))); by intros ? [-> _ _]|].
  rewrite Hn. eapply does_bind; [apply does_update|]. apply does_ret.
Qed.

Lemma does_caught {A : Type} (m : Io E A) d s k v d' s' k' :
  does m d s k v d' s' k' -> does (caught m) d s k (Ok v) d' s' k'.
Proof. intros Hm h Hh. destruct (Hm h Hh) as (h' & Hx & Hh'). exists h'. unfold caught. by rewrite Hx. Qed.

Lemma does_mapped {E' A : Type} (f : E -> E') (m : Io E A) d s k v d' s' k' :
  does m d s k v d' s' k' -> does (mapped f m) d s k v d' s' k'.
Proof. intros Hm h Hh. destruct (Hm h Hh) as (h' & Hx & Hh'). exists h'. unfold mapped. by rewrite Hx. Qed.

Lemma does_write (e : E) n l d s k :
  l <> [] -> does (write_file e n l) d s (length l + k) tt (append_data n l d) s k.
Proof.
  intros Hl h [-> Ho Hk]. unfold write_file.
  destruct (write_loop_healthy e (outcomes h) n l d) as (os & Hw & Hos & Hlen); [done|cbn in Hk; lia|done|].
  cbn. rewrite Hw. eexists. split; [done|]. split; [done..|]. cbn in *. lia.
Qed.
End working.

#[global] Arguments does_bind {host E A B} m f d s k v d1 s1 k1 w d2 s2 k2.
#[global] Arguments does_ret {host E A} v d s k.
#[global] Arguments does_pure {host E A} r v d s k.
#[global] Arguments does_ask {host E A} f v d s k.
#[global] Arguments does_next {host E B} f d s k w d' s' k'.
#[global] Arguments does_call {host E} e d s k.
#[global] Arguments does_update {host E} f d s k.
#[global] Arguments does_caught {host E A} m d s k v d' s' k'.
#[global] Arguments does_write {host E} e n l d s k.
#[global] Arguments does_look_up {host E} e name v d s k.
#[global] Arguments does_sync_file {host E} e n d s k.
#[global] Arguments does_sync_directory {host E} e d s k.
#[global] Arguments does_rename {host E} e replace n old new d s k.
#[global] Arguments does_open_new {host E} e name d s k.
#[global] Arguments does_mapped {host E E' A} f m d s k v d' s' k'.

(** The next step of a run keeps or establishes [Q]. *)
Tactic Notation "step" uconstr(Q) "as" simple_intropattern(p) :=
  apply (runs_bind _ _ _ _ _ Q); [|intros p].
Tactic Notation "step" uconstr(Q) := step Q as ?.

Lemma run_of {E A : Type} (m : Io E A) h r : snd (m h) = r -> m h = (fst (m h), r).
Proof. intros <-. apply surjective_pairing. Qed.

(** ** Runs that succeed *)

Lemma run_succeeds {E : Type} (r : Run E unit) : r = Returned (Ok tt) \/ r <> Returned (Ok tt).
Proof. by destruct r as [[[]|]|]; [left|right..]. Qed.

Section succeeds.
Context {E : Type}.

Lemma io_bind_Ok {A B : Type} (m : Io E A) (f : A -> Io E B) h h' b :
  (m ≫= f) h = (h', Returned (Ok b)) ->
  exists h1 a, m h = (h1, Returned (Ok a)) /\ f a h1 = (h', Returned (Ok b)).
Proof. unfold mbind, io_bind. destruct (m h) as [h1 [[a|e]|]]; [|done..]. eauto. Qed.

Lemma next_outcome_Ok h h' o :
  next_outcome (E := E) h = (h', Returned (Ok o)) -> h' = set_outcomes (outcomes h') h.
Proof. unfold next_outcome. destruct (outcomes h); [done|]. by intros [= <- _]. Qed.

Lemma system_call_Ok (e : E) h h' :
  system_call e h = (h', Returned (Ok tt)) -> h' = set_outcomes (outcomes h') h.
Proof.
  intros (h1 & o & Hn%next_outcome_Ok & Hx)%io_bind_Ok. unfold pure, mret, io_ret in Hx.
  destruct o; [done..|].
  by injection Hx as <-.
Qed.

Lemma mapped_Ok {E' A : Type} (f : E -> E') (m : Io E A) h h' a :
  mapped f m h = (h', Returned (Ok a)) -> m h = (h', Returned (Ok a)).
Proof. unfold mapped. destruct (m h) as [h1 [[b|e]|]]; [by intros [= <- <-]|done..]. Qed.

Lemma read_once_Ok (e : E) buffer rest h h' l :
  read_once e buffer rest h = (h', Returned (Ok l)) ->
  h' = set_outcomes (outcomes h') h
  /\ exists count, (1 <= count \/ buffer = 0)%nat /\ l = take count rest.
Proof.
  intros (h1 & o & H1%next_outcome_Ok & Hx)%io_bind_Ok. destruct o as [| |n]; [done..|].
  injection Hx as <- <-. split; [done|]. eexists. split; [|done]. lia.
Qed.

End succeeds.
