(* ===== verification/Durable.v ===== *)
(** * What a power loss leaves under a name

    A publisher writes a temporary, syncs it, renames it over its target and syncs the
    directory. [within t V v d] says that [d] holds [v] under the target [t], and that a
    crash brings back one of the values [V]; each call of a publisher keeps or widens
    [V], and the final sync narrows it to the value of now. The theory is
    shared by the publishers of the image, of the pointer and of the two keys. *)

From S2P Require Import Prelude Bytes CoreError Host.

#[local] Open Scope Z_scope.

(** What a directory holds under a name: the data of the file it names. *)
Definition named (t : bytes) (d : Directory) : option bytes :=
  n ← names d !! t; i ← inodes d !! n; Some (i_data i).

Lemma named_entry t d : named t d = i_data ∘ snd <$> entry d t.
Proof.
  unfold named, entry. destruct (names d !! t) as [n|]; [|done]. cbn. by destruct (inodes d !! n).
Qed.

(** A crash that brings back the names [m] finds [v] under [t]. *)
Definition stable (t : bytes) (v : option bytes) (d : Directory) (m : gmap bytes nat) : Prop :=
  match m !! t with
  | None => v = None
  | Some n => exists i, inodes d !! n = Some i /\ i_synced i = true /\ v = Some (i_data i)
  end.

Definition versions (d : Directory) : list (gmap bytes nat) := names d :: unsynced d.

Record within (t : bytes) (V : option bytes -> Prop) (v : option bytes) (d : Directory) : Prop :=
  mkWithin {
    within_now : stable t v d (names d);
    within_one : V v;
    within_unsynced : Forall (fun m => exists w, V w /\ stable t w d m) (unsynced d);
  }.

(** No version names the file [n] as the target. *)
Definition private (t : bytes) (n : nat) (d : Directory) : Prop :=
  Forall (fun m => m !! t <> Some n) (versions d).

(** Between publications: the names are durable, and so is what they name as [t]. *)
Record settled (t : bytes) (d : Directory) : Prop := mkSettled {
  settled_names : unsynced d = [];
  settled_file : forall n, names d !! t = Some n ->
    exists i, inodes d !! n = Some i /\ i_synced i = true;
}.

Section target.
Context (t : bytes).

Lemma stable_named v d : stable t v d (names d) -> v = named t d.
Proof.
  unfold stable, named. destruct (names d !! t) as [n|]; [|done]. cbn.
  by intros (i & -> & _ & ->).
Qed.

Lemma within_versions V v d :
  within t V v d -> Forall (fun m => exists w, V w /\ stable t w d m) (versions d).
Proof. intros []. constructor; eauto. Qed.

Lemma within_named V v d : within t V v d -> named t d = v.
Proof. intros [Hs _ _]. by rewrite (stable_named _ _ Hs). Qed.

Lemma within_weaken (V W : option bytes -> Prop) v d :
  (forall w, V w -> W w) -> within t V v d -> within t W v d.
Proof.
  intros Hvw [Hn Hv Hu]. split; [done|auto|]. eapply Forall_impl; [exact Hu|].
  intros m (w & Hw & Hs). eauto.
Qed.

Lemma settled_within d : settled t d -> within t (eq (named t d)) (named t d) d.
Proof.
  intros [Hu Hf]. split; [|done|by rewrite Hu]. unfold stable, named.
  destruct (names d !! t) as [n|] eqn:Hn; [|done]. destruct (Hf n eq_refl) as (i & Hi & Hs).
  exists i. cbn. by rewrite Hi.
Qed.

Lemma within_settled V v d : within t V v d -> unsynced d = [] -> settled t d.
Proof.
  intros [Hw _ _] Hu. split; [done|]. intros n Hn. unfold stable in Hw. rewrite Hn in Hw.
  destruct Hw as (i & ? & ? & _). eauto.
Qed.

(** ** Crashes *)

Lemma crash_within V v d d' : within t V v d -> crash d d' -> V (named t d') /\ settled t d'.
Proof.
  intros Hw%within_versions Hc.
  destruct (proj1 (Forall_forall _ _) Hw (names d')) as (w & Hv & Hs).
  { unfold versions. destruct (crash_names _ _ Hc) as [-> | Hin]; [left|by right]. }
  unfold stable in Hs. split.
  - unfold named. destruct (names d' !! t) as [n|]; [|cbn; by subst].
    destruct Hs as (i & Hi & Hsy & ->). destruct (crash_kept _ _ Hc n) as [i' Hi']; [by rewrite Hi|].
    destruct (crash_inodes _ _ Hc n i' Hi') as (j & Hj & _ & _ & _ & _ & _ & Hd). simplify_eq.
    cbn. rewrite Hi'. cbn. by rewrite Hd.
  - split; [apply Hc|]. intros n Hn. rewrite Hn in Hs. destruct Hs as (i & Hi & _).
    destruct (crash_kept _ _ Hc n) as [i' Hi']; [by rewrite Hi|]. exists i'. split; [done|].
    destruct (crash_inodes _ _ Hc n i' Hi') as (j & _ & _ & _ & _ & _ & Hsy & _). done.
Qed.

(** ** What the calls do to it *)

(** A call that keeps the names and the stable files a version names as the target. *)
Lemma stable_kept v d d' m :
  (forall n i, m !! t = Some n -> inodes d !! n = Some i -> i_synced i = true ->
    exists i', inodes d' !! n = Some i' /\ i_synced i' = true /\ i_data i' = i_data i) ->
  stable t v d m -> stable t v d' m.
Proof.
  intros Hk. unfold stable. destruct (m !! t) as [n|] eqn:Hn; [|done].
  intros (i & Hi & Hs & ->). destruct (Hk n i eq_refl Hi Hs) as (i' & ? & ? & <-). eauto.
Qed.

Lemma within_kept V v d d' :
  versions d' = versions d ->
  (forall m n i, m ∈ versions d -> m !! t = Some n -> inodes d !! n = Some i -> i_synced i = true ->
    exists i', inodes d' !! n = Some i' /\ i_synced i' = true /\ i_data i' = i_data i) ->
  within t V v d -> within t V v d'.
Proof.
  intros [= Hn Hu] Hk [Hs Hv Hw]. split; [rewrite Hn|done|rewrite Hu].
  - eapply stable_kept, Hs. intros n i. apply Hk. left.
  - apply Forall_forall. intros m Hm. destruct (proj1 (Forall_forall _ _) Hw m Hm) as (w & Hww & Hx).
    exists w. split; [done|]. eapply stable_kept, Hx. intros n i. apply Hk. by right.
Qed.

(** A file that a version names as the target exists. *)
Lemma within_exists V v d m n :
  within t V v d -> m ∈ versions d -> m !! t = Some n -> is_Some (inodes d !! n).
Proof.
  intros Hw%within_versions Hm Hn. destruct (proj1 (Forall_forall _ _) Hw m Hm) as (w & _ & Hs).
  unfold stable in Hs. rewrite Hn in Hs. destruct Hs as (i & -> & _). eauto.
Qed.

Lemma within_fresh V v d n : within t V v d -> inodes d !! n = None -> private t n d.
Proof.
  intros Hw Hn. apply Forall_forall. intros m Hm Hx.
  destruct (within_exists V v d m n Hw Hm Hx) as [i Hi]. congruence.
Qed.

(** Under other names. *)
Lemma within_rename V v d f :
  (forall m, f m !! t = m !! t) -> within t V v d -> within t V v (rename_names f d).
Proof.
  intros Hf [Hn Hv Hu]. split; [|done|constructor; eauto].
  unfold stable in *. cbn [rename_names names inodes]. by rewrite Hf.
Qed.

Lemma private_rename n d f :
  (forall m, f m !! t = m !! t) -> private t n d -> private t n (rename_names f d).
Proof.
  intros Hf Hp. constructor; [|exact Hp]. cbn. rewrite Hf.
  apply (proj1 (Forall_forall _ _) Hp). left.
Qed.

Lemma within_insert V v d n i :
  inodes d !! n = None -> within t V v d ->
  within t V v (mkDirectory (names d) (unsynced d) (<[n := i]> (inodes d))).
Proof.
  intros Hn. apply within_kept; [done|]. intros m n' i' Hm Hx Hi Hs. exists i'.
  cbn [inodes]. rewrite lookup_insert_ne; [done|]. intros <-. congruence.
Qed.

Lemma within_create V v name uid mode d :
  name <> t -> within t V v d ->
  let d' := create_file name uid mode d in
  within t V v d' /\ private t (fresh (dom (inodes d))) d'.
Proof.
  intros Hname Hw d'. assert (inodes d !! fresh (dom (inodes d)) = None) as Hn
    by apply not_elem_of_dom, is_fresh.
  assert (forall m : gmap bytes nat,
    <[name := fresh (dom (inodes d))]> m !! t = m !! t) as Hm by (intros; by rewrite lookup_insert_ne).
  split; [by apply within_rename, within_insert|]. apply private_rename; [done|].
  exact (within_fresh V v d _ Hw Hn).
Qed.

Lemma alter_kept {A} (f : A -> A) (m : gmap nat A) n n' i :
  m !! n' = Some i -> alter f n m !! n' = Some (if decide (n' = n) then f i else i).
Proof.
  intros Hi. destruct (decide (n' = n)) as [-> | Hn]; [by rewrite lookup_alter_eq, Hi|].
  by rewrite lookup_alter_ne.
Qed.

Lemma within_append V v n l d : private t n d -> within t V v d -> within t V v (append_data n l d).
Proof.
  intros Hp. apply within_kept; [done|]. intros m n' i Hm Hx Hi Hs. exists i.
  cbn [append_data inodes]. rewrite (alter_kept _ _ _ _ _ Hi), decide_False; [done|].
  intros ->. by apply (proj1 (Forall_forall _ _) Hp m Hm).
Qed.

Lemma within_sync V v n d : within t V v d -> within t V v (sync_data n d).
Proof.
  apply within_kept; [done|]. intros m n' i Hm Hx Hi Hs. eexists. split.
  - cbn [sync_data inodes]. by rewrite (alter_kept _ _ _ _ _ Hi).
  - by case_decide.
Qed.

Lemma within_mode V v n mode d : within t V v d -> within t V v (change_mode n mode d).
Proof.
  apply within_kept; [done|]. intros m n' i Hm Hx Hi Hs. eexists. split.
  - cbn [change_mode inodes]. by rewrite (alter_kept _ _ _ _ _ Hi).
  - by case_decide.
Qed.

Lemma within_unlink V v name d :
  name <> t -> within t V v d -> within t V v (rename_names (delete name) d).
Proof. intros Hn. apply within_rename. intros m. by rewrite lookup_delete_ne. Qed.

Lemma within_rename_other V v old new d :
  old <> t -> new <> t -> within t V v d -> within t V v (rename_entry old new d).
Proof.
  intros Ho Hn Hw. unfold rename_entry. destruct (names d !! old); [|done].
  apply within_rename; [|done]. intros m. by rewrite lookup_insert_ne, lookup_delete_ne.
Qed.

(** The rename over the target: what the file holds, or still one of the old values. *)
Lemma within_replace V v name n i d :
  names d !! name = Some n -> inodes d !! n = Some i -> i_synced i = true ->
  within t V v d ->
  within t (fun w => V w \/ w = Some (i_data i)) (Some (i_data i)) (rename_entry name t d).
Proof.
  intros Hname Hi Hs [Hn Hv Hu]. unfold rename_entry. rewrite Hname. split; [|by right|].
  - unfold stable. cbn [rename_names names inodes]. rewrite lookup_insert_eq. eauto.
  - constructor; [by exists v; split; [left|]|].
    eapply Forall_impl; [exact Hu|]. intros m (w & Hw & Hst). eauto.
Qed.

(** The sync of the directory: only the value of now is left. *)
Lemma within_names V v d : within t V v d -> within t (eq v) v (sync_names d).
Proof. intros [Hn _ _]. by split; [|done|constructor]. Qed.
End target.

(** The crash that keeps the names and the data of now. *)
Definition synced (i : Inode) : Inode :=
  mkInode (i_type i) (i_mode i) (i_uid i) (i_nlink i) (i_data i) true.
Definition lenient (d : Directory) : Directory := mkDirectory (names d) [] (synced <$> inodes d).

Lemma crash_of (d : Directory) : crash d (lenient d).
Proof.
  split; [by left|done| |].
  - intros n i Hi. cbn in Hi. apply lookup_fmap_Some in Hi as (j & <- & Hj). by exists j.
  - intros n [i Hi]. cbn. rewrite lookup_fmap, Hi. by eexists.
Qed.

(** ** The runs of the shared calls *)

Section runs.
Context {E : Type} (X : E -> Directory -> Prop) (K : Directory -> Prop).

Lemma runs_look_up e name (P : Directory -> Prop) :
  (forall d, P d -> K d) -> (forall d, P d -> X e d) ->
  runs (look_up e name) P (fun r d => P d /\ r = entry d name) X K.
Proof.
  intros HK HX. apply (runs_bind _ _ _ _ _ (fun _ => P)); [by apply runs_call|].
  intros _ h Hh. done.
Qed.

Lemma runs_open_new e name (P : Directory -> Prop) (Q : option nat -> Directory -> Prop) :
  (forall d, P d -> K d) -> (forall d, P d -> X e d) ->
  (forall d n, P d -> names d !! name = Some n -> Q None d) ->
  (forall d uid mode, P d -> names d !! name = None ->
    Q (Some (fresh (dom (inodes d)))) (create_file name uid mode d)) ->
  runs (open_new e name) P Q X K.
Proof.
  intros HK HX Ho Hn. unfold open_new.
  apply (runs_bind _ _ _ _ _ (fun _ => P)); [by apply runs_call|]. intros _ h Hh.
  unfold mbind, io_bind, ask, mret, io_ret.
  destruct (names (directory h) !! name) as [n|] eqn:Hx; cbn; eauto.
Qed.

Lemma runs_rename e replace old new (P : Directory -> Prop) (Q : unit -> Directory -> Prop) :
  (forall d, P d -> K d) -> (forall d, P d -> X e d) ->
  (forall d n, P d -> names d !! old = Some n -> replace = true \/ names d !! new = None ->
    Q tt (rename_entry old new d)) ->
  runs (rename e replace old new) P Q X K.
Proof.
  intros HK HX HQ. unfold rename.
  apply (runs_bind _ _ _ _ _ (fun _ => P)); [by apply runs_call|]. intros _ h Hh.
  unfold mbind, io_bind, ask, update_directory, pure. cbn.
  destruct (names (directory h) !! old) as [n|] eqn:Ho; cbn; [|auto].
  destruct replace; cbn; [by eapply HQ; [| |left]|].
  case_bool_decide; cbn; [by eapply HQ; [| |right]|auto].
Qed.

Lemma runs_sync_file e n (P : Directory -> Prop) (Q : unit -> Directory -> Prop) :
  (forall d, P d -> K d) -> (forall d, P d -> X e d) -> (forall d, P d -> Q tt (sync_data n d)) ->
  runs (sync_file e n) P Q X K.
Proof.
  intros HK HX HQ. apply (runs_bind _ _ _ _ _ (fun _ => P)); [by apply runs_call|].
  intros _ h Hh. cbn. auto.
Qed.

Lemma runs_sync_directory e (P : Directory -> Prop) (Q : unit -> Directory -> Prop) :
  (forall d, P d -> K d) -> (forall d, P d -> X e d) -> (forall d, P d -> Q tt (sync_names d)) ->
  runs (sync_directory e) P Q X K.
Proof.
  intros HK HX HQ. apply (runs_bind _ _ _ _ _ (fun _ => P)); [by apply runs_call|].
  intros _ h Hh. cbn. auto.
Qed.

(** The temporary [name] is the file [n], which holds [data] and is never the target. *)
Record writing (t : bytes) (V : option bytes -> Prop) (v : option bytes) (name : bytes) (n : nat) (data : bytes)
    (d : Directory) : Prop := mkWriting {
  writing_within : within t V v d;
  writing_private : private t n d;
  writing_name : names d !! name = Some n;
  writing_data : exists i, inodes d !! n = Some i /\ i_data i = data;
}.

Lemma create_writing t V v name uid mode d :
  name <> t -> within t V v d ->
  writing t V v name (fresh (dom (inodes d))) [] (create_file name uid mode d).
Proof.
  intros Hname Hw. destruct (within_create t V v name uid mode d Hname Hw) as [Hw' Hp].
  split; [done..| |].
  - cbn [create_file rename_names names]. by rewrite lookup_insert_eq.
  - cbn [create_file rename_names inodes]. rewrite lookup_insert_eq. eauto.
Qed.

Lemma append_writing t V v name n data l d :
  writing t V v name n data d -> writing t V v name n (data ++ l) (append_data n l d).
Proof.
  intros [Hw Hp Hn (i & Hi & <-)]. split; [by apply within_append|done..|].
  eexists. cbn [append_data inodes]. by rewrite lookup_alter_eq, Hi.
Qed.

Lemma write_loop_runs t V v e os name n data l d :
  writing t V v name n data d ->
  match write_loop (E := E) e os n l d with
  | (_, d', Returned (Ok _)) => writing t V v name n (data ++ l) d'
  | (_, d', Returned (Err e')) => e' = e /\ within t V v d'
  | (_, d', Killed) => within t V v d'
  end.
Proof.
  revert data l d. induction os as [|o os IH]; intros data l d Hw.
  { destruct l as [|b l]; cbn; [by rewrite app_nil_r|apply Hw]. }
  destruct l as [|b l]; cbn [write_loop]; [by rewrite app_nil_r|].
  destruct o as [| |k]; [split; [done|apply Hw]|by apply IH|].
  set (count := Z.to_nat (Z.min k (len (b :: l)))).
  destruct (count =? 0)%nat; [split; [done|apply Hw]|].
  specialize (IH (data ++ take count (b :: l)) (drop count (b :: l))
    (append_data n (take count (b :: l)) d)).
  rewrite <- app_assoc, take_drop in IH. by apply IH, append_writing.
Qed.

Lemma runs_write_file t V v e name n data l :
  (forall d, within t V v d -> K d) -> (forall d, within t V v d -> X e d) ->
  runs (write_file e n l) (writing t V v name n data)
    (fun _ => writing t V v name n (data ++ l)) X K.
Proof.
  intros HK HX h Hh. pose proof (write_loop_runs t V v e (outcomes h) name n data l (directory h) Hh) as Hw.
  unfold write_file. destruct (write_loop _ _ _ _ _) as [[os d] [[u|e']|]]; cbn; auto.
  destruct Hw as [-> ?]. auto.
Qed.

(** A written and synced temporary. *)
Definition written (t : bytes) (V : option bytes -> Prop) (v : option bytes) (name : bytes) (data : bytes)
    (d : Directory) : Prop :=
  within t V v d /\ exists n i, names d !! name = Some n /\ inodes d !! n = Some i
                              /\ i_data i = data /\ i_synced i = true.

Lemma sync_ready t V v name n data d :
  within t V v d -> names d !! name = Some n ->
  (exists i, inodes d !! n = Some i /\ i_data i = data) -> written t V v name data (sync_data n d).
Proof.
  intros Hw Hn (i & Hi & <-). split; [by apply within_sync|]. exists n. eexists.
  split; [done|]. cbn [sync_data inodes]. by rewrite lookup_alter_eq, Hi.
Qed.

Lemma sync_written t V v name n data d :
  writing t V v name n data d -> written t V v name data (sync_data n d).
Proof. intros [Hw _ Hn Hd]. by apply sync_ready. Qed.

Lemma replace_written t V v name data d :
  written t V v name data d ->
  within t (fun w => V w \/ w = Some data) (Some data) (rename_entry name t d).
Proof. intros (Hw & n & i & Hn & Hi & <- & Hs). by eapply within_replace. Qed.
End runs.
