(* ===== verification/Platform.v ===== *)
(** * Platform primitives ([crates/msgriver/src/lib.rs])

    The refusal to run as root, the start-up policy of the process, and the lock of the
    state owner. The lock is taken in the directory of [Host]: the entry is made on first
    use, and every later owner requires it to be a private regular file. *)

From S2P Require Import Prelude Bytes Text CoreError Host Durable.

#[local] Open Scope Z_scope.

(** ** The root refusal *)

Inductive LinuxRootRefusalError : Type := RootRefused | MissingGuard.

Definition ensure_linux_non_root_with (effective_uid : Z) : result LinuxRootRefusalError unit :=
  if effective_uid =? 0 then Err RootRefused else Ok tt.

Definition ensure_linux_non_root : Io LinuxRootRefusalError unit :=
  uid ← ask euid; pure (ensure_linux_non_root_with uid).

(** ** The start-up policy *)

Inductive LinuxStartupPolicyStep : Type :=
| InstallUmask | SetCoreLimits | SetNotDumpable | ReadCoreLimits | ReadDumpability.

Record LinuxStartupPolicyReadback : Type := mkLinuxStartupPolicyReadback {
  core_soft : Z;
  core_hard : Z;
  readback_dumpable : bool;
}.

Inductive LinuxStartupPolicyAdapterError : Type := Failed.
Inductive LinuxStartupPolicyError : Type := Install | Verification.

(** [trait LinuxStartupPolicyAdapter]. *)
Class LinuxStartupPolicyAdapter : Type := mkLinuxStartupPolicyAdapter {
  run_step : LinuxStartupPolicyStep -> Io LinuxStartupPolicyAdapterError unit;
  readback : Io LinuxStartupPolicyAdapterError LinuxStartupPolicyReadback;
}.

Definition policy_steps : list LinuxStartupPolicyStep :=
  [InstallUmask; SetCoreLimits; SetNotDumpable; ReadCoreLimits; ReadDumpability].

Fixpoint run_policy_steps `{LinuxStartupPolicyAdapter} (steps : list LinuxStartupPolicyStep)
    : Io LinuxStartupPolicyError unit :=
  match steps with
  | [] => mret tt
  | step :: steps => _ ← mapped (fun _ => Install) (run_step step); run_policy_steps steps
  end.

Definition apply_linux_startup_policy_with (adapter : LinuxStartupPolicyAdapter)
    : Io LinuxStartupPolicyError unit :=
  _ ← run_policy_steps policy_steps;
  r ← mapped (fun _ => Verification) readback;
  if negb (core_soft r =? 0) || negb (core_hard r =? 0) || readback_dumpable r
  then pure (Err Verification) else mret tt.

Definition set_umask (mask : Z) (p : Process) : Process := mkProcess mask (core_limits p) (dumpable p).
Definition set_core_limits (l : option Z * option Z) (p : Process) : Process :=
  mkProcess (umask p) l (dumpable p).
Definition set_dumpable (b : bool) (p : Process) : Process := mkProcess (umask p) (core_limits p) b.

(** [umask] and [getrlimit] cannot fail. *)
Definition rustix_run_step (step : LinuxStartupPolicyStep)
    : Io LinuxStartupPolicyAdapterError unit :=
  match step with
  | InstallUmask => _ ← next_outcome; update_process (set_umask 63)
  | SetCoreLimits => _ ← system_call Failed; update_process (set_core_limits (Some 0, Some 0))
  | SetNotDumpable => _ ← system_call Failed; update_process (set_dumpable false)
  | ReadCoreLimits => _ ← next_outcome; mret tt
  | ReadDumpability => system_call Failed
  end.

Definition rustix_readback : Io LinuxStartupPolicyAdapterError LinuxStartupPolicyReadback :=
  _ ← next_outcome;
  limits ← ask (core_limits ∘ process);
  _ ← system_call Failed;
  d ← ask (dumpable ∘ process);
  mret (mkLinuxStartupPolicyReadback (default u64_max limits.1) (default u64_max limits.2) d).

#[export] Instance RustixLinuxStartupPolicyAdapter : LinuxStartupPolicyAdapter :=
  mkLinuxStartupPolicyAdapter rustix_run_step rustix_readback.

Definition apply_linux_startup_policy : Io LinuxStartupPolicyError unit :=
  apply_linux_startup_policy_with RustixLinuxStartupPolicyAdapter.

(** ** The state root and the owner lock *)

Inductive StateOwnerLockError : Type := UnsafeRoot | UnsafeEntry | Open | Contended | Lock.

Definition LOCK_NAME : bytes := as_bytes "msgriver.lock".

Arguments LOCK_NAME : simpl never.

Definition is_private_root (uid : Z) (root : DirStat) : bool :=
  d_directory root && (d_mode root =? 448) && (d_uid root =? uid).
Definition same_root (a b : DirStat) : bool := (d_dev a =? d_dev b) && (d_ino a =? d_ino b).

(** [opened] is the view of the descriptor that is opened. [symlink_metadata] refuses a
    path with a NUL byte, so [CString::new] succeeds after it. *)
Definition open_private_root_with (opened : Host -> DirStat) : Io StateOwnerLockError unit :=
  _ ← system_call UnsafeRoot;
  metadata ← ask named_root;
  uid ← ask euid;
  if negb (d_directory metadata) || negb (Z.land (d_mode metadata) 511 =? 448)
     || negb (d_uid metadata =? uid)
  then pure (Err UnsafeRoot)
  else
    _ ← system_call UnsafeRoot;
    _ ← system_call UnsafeRoot;
    root ← ask opened;
    if negb (is_private_root uid root) || negb (same_root root metadata)
    then pure (Err UnsafeRoot) else mret tt.

Definition open_private_root : Io StateOwnerLockError unit := open_private_root_with opened_root.
Definition open_private_root_reference : Io StateOwnerLockError unit :=
  open_private_root_with reference_root.
Definition validate_private_root : Io StateOwnerLockError unit := open_private_root.

Definition validate_lock_metadata (uid : Z) (i : Inode) : result StateOwnerLockError unit :=
  if owner_only uid i then Ok tt else Err UnsafeEntry.

(** [same_identity] of entries of one directory: their inode numbers. *)
Definition same_identity (a b : nat) : bool := (a =? b)%nat.

Definition safe_lock_entry_metadata : Io StateOwnerLockError nat :=
  metadata ← look_up Open LOCK_NAME;
  uid ← ask euid;
  match metadata with
  | Some (n, i) => _ ← pure (validate_lock_metadata uid i); mret n
  | None => pure (Err Open)
  end.

Definition open_existing_lock_entry : Io StateOwnerLockError nat :=
  before ← safe_lock_entry_metadata;
  file ← look_up Open LOCK_NAME;
  uid ← ask euid;
  match file with
  | Some (n, i) =>
    if bool_decide (i_type i = Symlink) then pure (Err Open)
    else
      _ ← system_call Open;
      _ ← pure (validate_lock_metadata uid i);
      if negb (same_identity before n) then pure (Err UnsafeEntry)
      else
        after ← safe_lock_entry_metadata;
        if negb (same_identity n after) then pure (Err UnsafeEntry) else mret n
  | None => pure (Err Open)
  end.

Definition open_lock_entry : Io StateOwnerLockError nat :=
  file ← open_new Open LOCK_NAME;
  match file with
  | Some n =>
    _ ← system_call Open;
    _ ← update_directory (change_mode n 384);
    _ ← system_call Open;
    metadata ← ask (fun h => inodes (directory h) !! n);
    uid ← ask euid;
    match metadata with
    | Some i => _ ← pure (validate_lock_metadata uid i); mret n
    | None => pure (Err Open)
    end
  | None => open_existing_lock_entry
  end.

Definition acquire_owner_lock : Io StateOwnerLockError unit :=
  _ ← open_lock_entry;
  _ ← system_call Lock;
  contended ← ask lock_contended;
  if contended : bool then pure (Err Contended) else mret tt.

(** [StateOwnerLock::acquire], and with the reference to the root kept. *)
Definition acquire_with_private_root_reference : Io StateOwnerLockError unit :=
  _ ← open_private_root_reference; acquire_owner_lock.

(** The owner's working descriptor, checked against the reference. *)
Definition open_operational {E : Type} (e : E) : Io E unit :=
  _ ← system_call e;
  _ ← system_call e;
  _ ← system_call e;
  opened ← ask opened_root;
  referenced ← ask reference_root;
  uid ← ask euid;
  if negb (is_private_root uid opened) || negb (same_root opened referenced)
  then pure (Err e) else mret tt.

(** ** The policy that a successful start has installed *)

Definition restrictive : Process := mkProcess 63 (Some 0, Some 0) false.

Definition installed (step : LinuxStartupPolicyStep) : Process -> Process :=
  match step with
  | InstallUmask => set_umask 63
  | SetCoreLimits => set_core_limits (Some 0, Some 0)
  | SetNotDumpable => set_dumpable false
  | ReadCoreLimits | ReadDumpability => id
  end.

Lemma rustix_run_step_Ok step h h' :
  rustix_run_step step h = (h', Returned (Ok tt)) ->
  h' = set_outcomes (outcomes h') (set_process (installed step (process h)) h).
Proof.
  destruct step; cbn [rustix_run_step].
  1: intros (h1 & o & ->%next_outcome_Ok & [= <-])%io_bind_Ok; done.
  1,2: intros (h1 & [] & ->%system_call_Ok & [= <-])%io_bind_Ok; done.
  1: intros (h1 & o & ->%next_outcome_Ok & [= <-])%io_bind_Ok; by destruct h.
  intros ->%system_call_Ok. by destruct h.
Qed.

Lemma run_policy_steps_Ok steps h h' :
  run_policy_steps steps h = (h', Returned (Ok tt)) ->
  h' = set_outcomes (outcomes h')
         (set_process (foldl (fun p step => installed step p) (process h) steps) h).
Proof.
  revert h. induction steps as [|step steps IH]; intros h; cbn [run_policy_steps foldl].
  - intros [= <-]. by destruct h.
  - intros (h1 & [] & H1%mapped_Ok%rustix_run_step_Ok & H2%IH)%io_bind_Ok. by rewrite H2, H1.
Qed.

(** A start-up policy that was applied is in force, whichever calls fail: files are
    created for their owner only, no core is dumped, and nothing else has changed. *)
Theorem startup_policy_sound h h' :
  apply_linux_startup_policy h = (h', Returned (Ok tt)) ->
  h' = set_outcomes (outcomes h') (set_process restrictive h).
Proof.
  intros (h1 & [] & H1%run_policy_steps_Ok & (h2 & r & H2%mapped_Ok & H3)%io_bind_Ok)%io_bind_Ok.
  cbn [foldl policy_steps installed] in H1.
  assert (h2 = set_outcomes (outcomes h2) h1) as Hr.
  { apply io_bind_Ok in H2 as (h3 & o & H4%next_outcome_Ok & (h5 & l & [= <- <-] & H6)%io_bind_Ok).
    apply io_bind_Ok in H6 as (h6 & [] & H7%system_call_Ok & (h8 & d & [= <- <-] & [= <- _])%io_bind_Ok).
    by rewrite H7, H4. }
  destruct (_ || _) in H3; [done|]. injection H3 as <-. by rewrite Hr, H1.
Qed.

(** ** What taking the lock leaves *)

Lemma idle_policy : idle apply_linux_startup_policy.
Proof.
  assert (forall step, idle (rustix_run_step step)) as Hs by (intros []; cbn; idle).
  assert (idle rustix_readback) as Hr by (unfold rustix_readback; idle).
  assert (forall steps, idle (run_policy_steps steps)) as Hsteps.
  { induction steps as [|step steps IH]; cbn [run_policy_steps]; [apply idle_ret|].
    apply idle_bind; [apply idle_mapped, Hs|done]. }
  unfold apply_linux_startup_policy, apply_linux_startup_policy_with.
  apply idle_bind; [apply Hsteps|]. intros _. apply idle_bind; [by apply idle_mapped|].
  intros r. idle.
Qed.
Lemma idle_non_root : idle ensure_linux_non_root.
Proof. unfold ensure_linux_non_root. idle. Qed.
#[export] Hint Resolve idle_policy idle_non_root : idle.

Lemma idle_operational {E : Type} (e : E) : idle (open_operational e).
Proof. unfold open_operational. idle. Qed.
Lemma idle_root_with opened : idle (open_private_root_with opened).
Proof. unfold open_private_root_with. idle. Qed.
Lemma idle_lock_metadata : idle safe_lock_entry_metadata.
Proof. unfold safe_lock_entry_metadata. idle. Qed.
#[export] Hint Resolve idle_operational idle_root_with idle_lock_metadata : idle.

Lemma idle_existing_lock : idle open_existing_lock_entry.
Proof. unfold open_existing_lock_entry. idle. Qed.
#[export] Hint Resolve idle_existing_lock : idle.

Section lock.
Context (t : bytes) (V : option bytes -> Prop) (v : option bytes).
Hypothesis not_lock : LOCK_NAME <> t.

#[local] Abbreviation kept := (within t V v).

Lemma open_lock_entry_runs :
  runs open_lock_entry kept (fun _ => kept) (fun _ => kept) kept.
Proof.
  unfold open_lock_entry. step (fun _ => kept) as file.
  - apply runs_open_new; auto. intros d uid mode Hd _. by apply within_create.
  - destruct file as [n|]; [|apply idle_runs; auto with idle].
    step (fun _ => kept); [by apply runs_call|].
    step (fun _ => kept); [apply runs_update; intros d; by apply within_mode|].
    apply idle_runs; auto. idle.
Qed.

Lemma acquire_lock_runs :
  runs acquire_with_private_root_reference kept (fun _ => kept) (fun _ => kept) kept.
Proof.
  unfold acquire_with_private_root_reference, acquire_owner_lock.
  step (fun _ => kept); [apply idle_runs; auto; apply idle_root_with|].
  step (fun _ => kept); [apply open_lock_entry_runs|].
  apply idle_runs; auto. idle.
Qed.
End lock.

(** ** A lock that was taken *)

Lemma pure_Ok {E A : Type} (r : result E A) h h' a :
  pure r h = (h', Returned (Ok a)) -> h' = h /\ r = Ok a.
Proof. by intros [= -> ->]. Qed.

Lemma open_private_root_with_Ok opened h h' :
  (forall h os, opened (set_outcomes os h) = opened h) ->
  open_private_root_with opened h = (h', Returned (Ok tt)) ->
  h' = set_outcomes (outcomes h') h
  /\ is_private_root (euid h) (opened h) = true /\ same_root (opened h) (named_root h) = true.
Proof.
  intros Ho. unfold open_private_root_with.
  intros (h1 & [] & H1%system_call_Ok & (h2 & r & [= <- <-] & (h3 & u & [= <- <-] & Hx)%io_bind_Ok)%io_bind_Ok)%io_bind_Ok.
  destruct (_ || _); [done|].
  apply io_bind_Ok in Hx as (h4 & [] & H4%system_call_Ok & Hx).
  apply io_bind_Ok in Hx as (h5 & [] & H5%system_call_Ok & Hx).
  apply io_bind_Ok in Hx as (h6 & r & [= <- <-] & Hx).
  destruct (_ || _) eqn:Hb in Hx; [done|]. injection Hx as <-.
  apply orb_false_iff in Hb as [Hp%negb_false_iff Hs%negb_false_iff].
  rewrite H5, H4, H1 in *. rewrite !Ho in *. cbn in Hp, Hs. done.
Qed.

Lemma look_up_Ok {E : Type} (e : E) name h h' r :
  look_up e name h = (h', Returned (Ok r)) ->
  h' = set_outcomes (outcomes h') h /\ r = entry (directory h) name.
Proof.
  intros (h1 & [] & H1%system_call_Ok & [= <- <-])%io_bind_Ok. split; [done|]. by rewrite H1.
Qed.

Lemma validate_lock_metadata_Ok uid i u : validate_lock_metadata uid i = Ok u -> owner_only uid i = true.
Proof. unfold validate_lock_metadata. by destruct (owner_only uid i). Qed.

Definition locked_by (uid : Z) (d : Directory) : Prop :=
  exists n i, entry d LOCK_NAME = Some (n, i) /\ owner_only uid i = true.

Lemma safe_lock_entry_metadata_Ok h h' n :
  safe_lock_entry_metadata h = (h', Returned (Ok n)) ->
  h' = set_outcomes (outcomes h') h /\ locked_by (euid h) (directory h).
Proof.
  intros (h1 & r & [H1 ->]%look_up_Ok & (h2 & u & [= <- <-] & Hx)%io_bind_Ok)%io_bind_Ok.
  destruct (entry (directory h) LOCK_NAME) as [[m i]|] eqn:He; [|done].
  apply io_bind_Ok in Hx as (h3 & [] & [-> Hv%validate_lock_metadata_Ok]%pure_Ok & [= <- <-]).
  split; [done|]. exists m, i. rewrite He. split; [done|]. by rewrite H1 in Hv.
Qed.

Lemma open_existing_lock_entry_Ok h h' n :
  open_existing_lock_entry h = (h', Returned (Ok n)) ->
  h' = set_outcomes (outcomes h') h /\ locked_by (euid h) (directory h).
Proof.
  intros (h1 & m & [H1 Hl]%safe_lock_entry_metadata_Ok & Hx)%io_bind_Ok. split; [|done].
  apply io_bind_Ok in Hx as (h2 & r & [H2 _]%look_up_Ok & Hx).
  apply io_bind_Ok in Hx as (h3 & u & [= <- <-] & Hx). destruct r as [[k i]|]; [|done].
  destruct (bool_decide _); [done|].
  apply io_bind_Ok in Hx as (h3 & [] & H3%system_call_Ok & Hx).
  apply io_bind_Ok in Hx as (h4 & [] & [-> _]%pure_Ok & Hx).
  destruct (negb _); [done|].
  apply io_bind_Ok in Hx as (h5 & a & [H5 _]%safe_lock_entry_metadata_Ok & Hx).
  destruct (negb _); [done|]. injection Hx as <- <-. by rewrite H5, H3, H2, H1.
Qed.

(** The entry as it is made: created, and its mode set whatever the umask. *)
Definition lock_made (uid mode : Z) (d : Directory) : Directory :=
  change_mode (fresh (dom (inodes d))) 384 (create_file LOCK_NAME uid mode d).

Lemma lock_made_entry uid mode d :
  entry (lock_made uid mode d) LOCK_NAME
  = Some (fresh (dom (inodes d)), mkInode RegularFile 384 uid 1 [] false).
Proof.
  unfold lock_made, entry, change_mode, create_file. cbn [names inodes rename_names].
  rewrite lookup_insert_eq. cbn. by rewrite lookup_alter_eq, lookup_insert_eq.
Qed.

Lemma lock_made_locked uid mode d : locked_by uid (lock_made uid mode d).
Proof.
  exists (fresh (dom (inodes d))), (mkInode RegularFile 384 uid 1 [] false).
  split; [apply lock_made_entry|]. unfold owner_only. cbn. by rewrite Z.eqb_refl.
Qed.

(** The directory after the lock was taken in [d]. *)
Definition locked (h : Host) (d : Directory) : Directory :=
  match names d !! LOCK_NAME with
  | Some _ => d
  | None => lock_made (euid h) (Z.land 384 (Z.lnot (umask (process h)))) d
  end.

(** It touches no other entry. *)
Lemma locked_names h d name : name <> LOCK_NAME -> names (locked h d) !! name = names d !! name.
Proof.
  intros Hn. unfold locked. destruct (names d !! LOCK_NAME); [done|].
  cbn. by rewrite lookup_insert_ne.
Qed.

Lemma locked_entry h d name n i :
  name <> LOCK_NAME -> entry d name = Some (n, i) -> entry (locked h d) name = Some (n, i).
Proof.
  intros Hn He. unfold locked. destruct (names d !! LOCK_NAME) eqn:Hl; [done|].
  unfold entry in *. cbn. rewrite lookup_insert_ne by done.
  destruct (names d !! name) as [m|]; [|done]. cbn in *.
  destruct (inodes d !! m) as [j|] eqn:Hm; [|done]. cbn in He.
  assert (m <> fresh (dom (inodes d))).
  { intros ->. pose proof (is_fresh (dom (inodes d))) as Hf. apply not_elem_of_dom in Hf. congruence. }
  by rewrite lookup_alter_ne, lookup_insert_ne, Hm.
Qed.

Lemma locked_by_name uid d : locked_by uid d -> is_Some (names d !! LOCK_NAME).
Proof.
  intros (n & i & He & _). unfold entry in He. destruct (names d !! LOCK_NAME) as [m|]; [|done]. eauto.
Qed.

(** The lock is made once. *)
Lemma locked_by_locked h uid d : locked_by uid d -> locked h d = d.
Proof. intros [n Hn]%locked_by_name. unfold locked. by rewrite Hn. Qed.

Lemma open_lock_entry_Ok h h' n :
  open_lock_entry h = (h', Returned (Ok n)) ->
  h' = set_outcomes (outcomes h') (set_directory (locked h (directory h)) h)
  /\ locked_by (euid h) (directory h').
Proof.
  intros (h1 & r & H1 & Hx)%io_bind_Ok. unfold open_new in H1.
  apply io_bind_Ok in H1 as (h2 & [] & H2%system_call_Ok & H1).
  apply io_bind_Ok in H1 as (h3 & d & [= <- <-] & H1).
  apply io_bind_Ok in H1 as (h3 & uid & [= <- <-] & H1).
  apply io_bind_Ok in H1 as (h3 & mask & [= <- <-] & H1).
  rewrite H2 in H1. cbn in H1. unfold locked.
  destruct (names (directory h) !! LOCK_NAME) as [m|] eqn:Hn.
  - injection H1 as <- <-. apply open_existing_lock_entry_Ok in Hx as [Hh Hl]. cbn in Hl.
    rewrite Hh. cbn. by destruct h.
  - injection H1 as <- <-.
    apply io_bind_Ok in Hx as (h3 & [] & H3%system_call_Ok & Hx).
    apply io_bind_Ok in Hx as (h4 & [] & [= <-] & Hx).
    apply io_bind_Ok in Hx as (h4 & [] & H4%system_call_Ok & Hx).
    apply io_bind_Ok in Hx as (h5 & i & [= <- <-] & Hx).
    apply io_bind_Ok in Hx as (h5 & uid & [= <- <-] & Hx).
    destruct (inodes (directory h4) !! _); [|done].
    apply io_bind_Ok in Hx as (h5 & [] & [-> _]%pure_Ok & [= <- <-]).
    rewrite H3 in H4. rewrite H4. cbn. split; [done|]. apply lock_made_locked.
Qed.

(** The lock is taken only in a private root that the path still names, over a private
    regular entry, when no other process holds it; nothing but a missing entry is made. *)
Theorem acquire_lock_sound h h' :
  acquire_with_private_root_reference h = (h', Returned (Ok tt)) ->
  is_private_root (euid h) (reference_root h) = true
  /\ same_root (reference_root h) (named_root h) = true
  /\ lock_contended h = false
  /\ h' = set_outcomes (outcomes h') (set_directory (locked h (directory h)) h)
  /\ locked_by (euid h) (directory h').
Proof.
  intros (h1 & [] & (H1 & Hp & Hs)%open_private_root_with_Ok & Hx)%io_bind_Ok; [|done].
  split; [done|]. split; [done|]. unfold acquire_owner_lock in Hx.
  apply io_bind_Ok in Hx as (h2 & n & [H2 Hl]%open_lock_entry_Ok & Hx).
  apply io_bind_Ok in Hx as (h3 & [] & H3%system_call_Ok & Hx).
  apply io_bind_Ok in Hx as (h4 & c & [= <- <-] & Hx).
  rewrite H3, H2, H1 in Hx. cbn in Hx. destruct (lock_contended h) eqn:Hc; [done|]. injection Hx as <-.
  split; [done|]. cbn. split; [done|]. rewrite H2, H1 in Hl. by cbn in Hl.
Qed.

(** ** A host on which the lock can be taken *)

Section working.
Context (host : Host).

#[local] Abbreviation does := (does host).

(** What the root and the lock have to be, and the mask not to take from the file mode. *)
Record private_root : Prop := mkPrivateRoot {
  root_named : is_private_root (euid host) (named_root host) = true;
  root_reference : is_private_root (euid host) (reference_root host) = true;
  root_opened : is_private_root (euid host) (opened_root host) = true;
  root_same : same_root (reference_root host) (named_root host) = true;
  root_still : same_root (opened_root host) (reference_root host) = true;
  root_free : lock_contended host = false;
}.

Definition lock_ready (d : Directory) : Prop :=
  names d !! LOCK_NAME = None \/ locked_by (euid host) d.

Lemma locked_ready d : lock_ready d -> locked_by (euid host) (locked host d).
Proof.
  intros [Hn|Hl]; [|by rewrite (locked_by_locked _ _ _ Hl)].
  unfold locked. rewrite Hn. apply lock_made_locked.
Qed.

Hypothesis root : private_root.

Lemma does_fewer {E A : Type} (m : Io E A) d s k v d' s' j k' :
  does m d s k v d' s' k' -> (j <= k')%nat -> does m d s k v d' s' j.
Proof.
  intros Hm Hj h Hh. destruct (Hm h Hh) as (h' & Hx & [Hs Ho Hk]). exists h'. split; [done|].
  split; [done..|lia].
Qed.

Lemma does_root d s k : does open_private_root_reference d s (3 + k) tt d s k.
Proof.
  destruct root as [Hn Hr _ Hs _ _]. unfold open_private_root_reference, open_private_root_with.
  eapply does_bind; [apply does_call|].
  eapply does_bind; [apply (does_ask _ (named_root host)); by intros ? [-> _ _]|].
  eapply does_bind; [apply (does_ask _ (euid host)); by intros ? [-> _ _]|].
  unfold is_private_root in Hn. apply andb_true_iff in Hn as [[Hd ->%Z.eqb_eq]%andb_true_iff ->].
  rewrite Hd. cbn [negb orb].
  eapply does_bind; [apply does_call|]. eapply does_bind; [apply does_call|].
  eapply does_bind; [apply (does_ask _ (reference_root host)); by intros ? [-> _ _]|].
  rewrite Hr, Hs. apply does_ret.
Qed.

Lemma does_operational {E : Type} (e : E) d s k : does (open_operational e) d s (3 + k) tt d s k.
Proof.
  destruct root as [_ _ Ho _ Hs _]. unfold open_operational.
  do 3 (eapply does_bind; [apply does_call|]).
  eapply does_bind; [apply (does_ask _ (opened_root host)); by intros ? [-> _ _]|].
  eapply does_bind; [apply (does_ask _ (reference_root host)); by intros ? [-> _ _]|].
  eapply does_bind; [apply (does_ask _ (euid host)); by intros ? [-> _ _]|].
  rewrite Ho, Hs. apply does_ret.
Qed.

Lemma does_lock_metadata n i d s k :
  entry d LOCK_NAME = Some (n, i) -> owner_only (euid host) i = true ->
  does safe_lock_entry_metadata d s (S k) n d s k.
Proof.
  intros He Hi. eapply does_bind; [by apply does_look_up|].
  eapply does_bind; [apply (does_ask _ (euid host)); by intros ? [-> _ _]|]. cbn beta iota.
  eapply does_bind; [apply does_pure; unfold validate_lock_metadata; by rewrite Hi|]. apply does_ret.
Qed.

Lemma does_existing_lock n i d s k :
  entry d LOCK_NAME = Some (n, i) -> owner_only (euid host) i = true ->
  does open_existing_lock_entry d s (4 + k) n d s k.
Proof.
  intros He Hi. unfold open_existing_lock_entry.
  eapply does_bind; [by eapply does_lock_metadata|].
  eapply does_bind; [by apply does_look_up|].
  eapply does_bind; [apply (does_ask _ (euid host)); by intros ? [-> _ _]|]. cbn beta iota.
  replace (bool_decide (i_type i = Symlink)) with false.
  2: { symmetry. apply bool_decide_eq_false. intros Ht. unfold owner_only in Hi. by rewrite Ht in Hi. }
  eapply does_bind; [apply does_call|].
  eapply does_bind; [apply does_pure; unfold validate_lock_metadata; by rewrite Hi|].
  unfold same_identity. rewrite Nat.eqb_refl. cbn [negb].
  eapply does_bind; [by eapply does_lock_metadata|]. rewrite Nat.eqb_refl. apply does_ret.
Qed.

Lemma does_new_lock d s k :
  names d !! LOCK_NAME = None ->
  does open_lock_entry d s (3 + k) (fresh (dom (inodes d))) (locked host d) s k.
Proof.
  intros Hn. unfold open_lock_entry, locked. rewrite Hn.
  eapply does_bind; [by apply does_open_new|]. cbn beta iota.
  eapply does_bind; [apply does_call|]. eapply does_bind; [apply does_update|].
  eapply does_bind; [apply does_call|].
  set (d' := lock_made (euid host) (Z.land 384 (Z.lnot (umask (process host)))) d).
  assert (inodes d' !! fresh (dom (inodes d)) = Some (mkInode RegularFile 384 (euid host) 1 [] false))
    as Hi by (cbn; by rewrite lookup_alter_eq, lookup_insert_eq).
  eapply does_bind; [apply (does_ask _ (Some (mkInode RegularFile 384 (euid host) 1 [] false)));
    by intros ? [-> _ _]|].
  eapply does_bind; [apply (does_ask _ (euid host)); by intros ? [-> _ _]|].
  eapply does_bind; [apply does_pure|apply does_ret]. unfold validate_lock_metadata, owner_only. cbn.
  by rewrite Z.eqb_refl.
Qed.

Lemma does_old_lock d s k :
  locked_by (euid host) d ->
  exists n, does open_lock_entry d s (5 + k) n (locked host d) s k.
Proof.
  intros (n & i & He & Hi). exists n. unfold locked.
  assert (names d !! LOCK_NAME = Some n) as Hn.
  { unfold entry in He. destruct (names d !! LOCK_NAME) as [m|]; [|done]. cbn in He.
    destruct (inodes d !! m); [|done]. by injection He as -> _. }
  rewrite Hn. unfold open_lock_entry. eapply (does_bind _ _ _ _ _ None).
  - eapply does_bind; [apply does_call|].
    eapply does_bind; [apply (does_ask _ d); by intros ? [-> _ _]|].
    eapply does_bind; [apply (does_ask _ (euid host)); by intros ? [-> _ _]|].
    eapply does_bind; [apply (does_ask _ (umask (process host))); by intros ? [-> _ _]|].
    rewrite Hn. apply does_ret.
  - by eapply does_existing_lock.
Qed.

Lemma does_lock d s k :
  lock_ready d ->
  does acquire_with_private_root_reference d s (9 + k) tt (locked host d) s k.
Proof.
  intros Hl. change (9 + k)%nat with (3 + (6 + k))%nat.
  eapply does_bind; [apply does_root|]. unfold acquire_owner_lock.
  assert (exists n, does open_lock_entry d s (6 + k) n (locked host d) s (1 + k)) as [n Hn].
  { destruct Hl as [Hn|Hl].
    - exists (fresh (dom (inodes d))). change (6 + k)%nat with (3 + (3 + k))%nat.
      eapply does_fewer; [by apply does_new_lock|lia].
    - change (6 + k)%nat with (5 + (1 + k))%nat. by apply does_old_lock. }
  eapply does_bind; [exact Hn|]. eapply does_bind; [apply does_call|].
  eapply does_bind; [apply (does_ask _ false); by intros ? [-> _ _]; destruct root|]. apply does_ret.
Qed.

End working.
