(* ===== verification/Bootstrap.v ===== *)
(** * The ordered service bootstrap ([crates/msgriver/src/service_bootstrap.rs])

    Adapters with a state of their own run the prerequisites of a start one after the
    other. [BootstrapAdapter] is the trait; [OrderedAdapter] is what an adapter that owns
    a prefix of the order promises on top of it, and every such adapter keeps the order
    whatever its callers ask for ([calls_in_order]). *)

From S2P Require Import Prelude Bytes CoreError Host Durable Platform.

#[local] Open Scope Z_scope.

Inductive BootstrapStep : Type :=
| ProcessPolicy | NonRoot | TrustedRoot | OwnerLock
| SelectedState | Store | StructuralConfiguration | ProviderCatalog.

#[export] Instance BootstrapStep_eq_dec : EqDecision BootstrapStep.
Proof. solve_decision. Defined.

Definition BOOTSTRAP_ORDER : list BootstrapStep :=
  [ProcessPolicy; NonRoot; TrustedRoot; OwnerLock;
   SelectedState; Store; StructuralConfiguration; ProviderCatalog].

Inductive BootstrapAdapterError : Type := Failed.
Inductive BootstrapError : Type := MissingBootstrap | Rejected.

(** ** Methods of an object on the host *)

(** [&mut self] of type [A]: the object and the host after the call, whatever it returns. *)
Definition Method (A E X : Type) : Type := A -> Host -> A * Host * Run E X.

#[export] Instance method_ret {A E : Type} : MRet (Method A E) :=
  fun X x a h => (a, h, Returned (Ok x)).
#[export] Instance method_bind {A E : Type} : MBind (Method A E) := fun X Y f m a h =>
  match m a h with
  | (a, h, Returned (Ok x)) => f x a h
  | (a, h, Returned (Err e)) => (a, h, Returned (Err e))
  | (a, h, Killed) => (a, h, Killed)
  end.

Section methods.
Context {A E X : Type}.

Definition refuse (e : E) : Method A E X := fun a h => (a, h, Returned (Err e)).
Definition self (f : A -> X) : Method A E X := fun a h => (a, h, Returned (Ok (f a))).
Definition update (f : A -> A) : Method A E unit := fun a h => (f a, h, Returned (Ok tt)).

(** A computation on the host, its failures as [e]. *)
Definition on_host {E' : Type} (e : E) (m : Io E' X) : Method A E X := fun a h =>
  let (h, r) := mapped (fun _ => e) m h in (a, h, r).

(** A call of a field's method. *)
Definition field {B : Type} (get : A -> B) (set : B -> A -> A) (m : Method B E X) : Method A E X :=
  fun a h => let '(b, h, r) := m (get a) h in (set b a, h, r).
End methods.

Class BootstrapAdapter (A : Type) : Type :=
  run : BootstrapStep -> Method A BootstrapAdapterError unit.

Class BootstrapProcessPrimitive (P : Type) : Type := mkBootstrapProcessPrimitive {
  apply_policy : Method P BootstrapAdapterError unit;
  require_non_root : Method P BootstrapAdapterError unit;
}.

Inductive LinuxBootstrapProcessPrimitive : Type := mkLinuxBootstrapProcessPrimitive.

#[export] Instance linux_process_primitive : BootstrapProcessPrimitive LinuxBootstrapProcessPrimitive :=
  mkBootstrapProcessPrimitive _ (on_host Failed apply_linux_startup_policy)
    (on_host Failed ensure_linux_non_root).

(** ** The adapters *)

Module LinuxProcess.

Record LinuxProcessBootstrapAdapter (P A : Type) : Type := mkAdapter {
  primitive : P;
  delegate : A;
  policy_applied : bool;
  non_root_confirmed : bool;
}.
Arguments mkAdapter {P A}.
Arguments primitive {P A}.
Arguments delegate {P A}.
Arguments policy_applied {P A}.
Arguments non_root_confirmed {P A}.

Section adapter.
Context {P A : Type} `{BootstrapProcessPrimitive P} `{BootstrapAdapter A}.

#[local] Abbreviation Adapter := (LinuxProcessBootstrapAdapter P A).

Definition new (p : P) (a : A) : Adapter := mkAdapter p a false false.

Definition set_primitive (p : P) (s : Adapter) : Adapter :=
  mkAdapter p (delegate s) (policy_applied s) (non_root_confirmed s).
Definition set_delegate (a : A) (s : Adapter) : Adapter :=
  mkAdapter (primitive s) a (policy_applied s) (non_root_confirmed s).
Definition set_policy_applied (s : Adapter) : Adapter :=
  mkAdapter (primitive s) (delegate s) true (non_root_confirmed s).
Definition set_non_root_confirmed (s : Adapter) : Adapter :=
  mkAdapter (primitive s) (delegate s) (policy_applied s) true.

Definition process_run (step : BootstrapStep) : Method Adapter BootstrapAdapterError unit :=
  applied ← self policy_applied;
  confirmed ← self non_root_confirmed;
  match step with
  | ProcessPolicy =>
    if applied : bool then refuse Failed
    else _ ← field primitive set_primitive apply_policy; update set_policy_applied
  | NonRoot =>
    if negb applied || confirmed then refuse Failed
    else _ ← field primitive set_primitive require_non_root; update set_non_root_confirmed
  | _ =>
    if negb confirmed then refuse Failed else field delegate set_delegate (run step)
  end.

#[global] Instance process_adapter : BootstrapAdapter Adapter := process_run.
End adapter.

Definition production {A : Type} (a : A) : LinuxProcessBootstrapAdapter LinuxBootstrapProcessPrimitive A :=
  new mkLinuxBootstrapProcessPrimitive a.

End LinuxProcess.

(** [owner_lock]: whether the lock is held. The root is the one of [Host]. *)
Record RootLockAdapter : Type := mkRootLockAdapter {
  trusted_root : bool;
  owner_lock : bool;
}.

Definition RootLockAdapter_new : RootLockAdapter := mkRootLockAdapter false false.
Definition retains_owner_lock (s : RootLockAdapter) : bool := owner_lock s.

Definition run_root_step (step : BootstrapStep) : Method RootLockAdapter BootstrapAdapterError unit :=
  match step with
  | TrustedRoot =>
    _ ← on_host Failed validate_private_root;
    update (fun s => mkRootLockAdapter true (owner_lock s))
  | OwnerLock =>
    trusted ← self trusted_root;
    held ← self owner_lock;
    if negb trusted then refuse Failed
    else if held : bool then mret tt
    else
      _ ← on_host Failed acquire_with_private_root_reference;
      update (fun s => mkRootLockAdapter (trusted_root s) true)
  | _ => refuse Failed
  end.

Module RootLock.

Record RootLockBootstrapAdapter (A : Type) : Type := mkAdapter {
  root_lock : RootLockAdapter;
  delegate : A;
  process_policy_applied : bool;
  non_root_confirmed : bool;
  root_trusted : bool;
  owner_lock_acquired : bool;
}.
Arguments mkAdapter {A}.
Arguments root_lock {A}.
Arguments delegate {A}.
Arguments process_policy_applied {A}.
Arguments non_root_confirmed {A}.
Arguments root_trusted {A}.
Arguments owner_lock_acquired {A}.

Section adapter.
Context {A : Type} `{BootstrapAdapter A}.

#[local] Abbreviation Adapter := (RootLockBootstrapAdapter A).

Definition new (r : RootLockAdapter) (a : A) : Adapter := mkAdapter r a false false false false.

Definition set_root_lock (r : RootLockAdapter) (s : Adapter) : Adapter :=
  mkAdapter r (delegate s) (process_policy_applied s) (non_root_confirmed s) (root_trusted s)
    (owner_lock_acquired s).
Definition set_delegate (a : A) (s : Adapter) : Adapter :=
  mkAdapter (root_lock s) a (process_policy_applied s) (non_root_confirmed s) (root_trusted s)
    (owner_lock_acquired s).

(** The flag of the step is set. *)
Definition mark (step : BootstrapStep) (s : Adapter) : Adapter :=
  let set step' b := bool_decide (step = step') || b in
  mkAdapter (root_lock s) (delegate s) (set ProcessPolicy (process_policy_applied s))
    (set NonRoot (non_root_confirmed s)) (set TrustedRoot (root_trusted s))
    (set OwnerLock (owner_lock_acquired s)).

Definition root_lock_run (step : BootstrapStep) : Method Adapter BootstrapAdapterError unit :=
  policy ← self process_policy_applied;
  non_root ← self non_root_confirmed;
  trusted ← self root_trusted;
  acquired ← self owner_lock_acquired;
  match step with
  | ProcessPolicy =>
    if policy : bool then refuse Failed
    else _ ← field delegate set_delegate (run step); update (mark step)
  | NonRoot =>
    if negb policy || non_root then refuse Failed
    else _ ← field delegate set_delegate (run step); update (mark step)
  | TrustedRoot =>
    if negb non_root || trusted then refuse Failed
    else _ ← field root_lock set_root_lock (run_root_step step); update (mark step)
  | OwnerLock =>
    if negb trusted || acquired then refuse Failed
    else _ ← field root_lock set_root_lock (run_root_step step); update (mark step)
  | _ =>
    if negb acquired then refuse Failed else field delegate set_delegate (run step)
  end.

#[global] Instance root_lock_adapter : BootstrapAdapter Adapter := root_lock_run.
End adapter.

End RootLock.

(** ** [bootstrap_with] and [bootstrap_owned] *)

Section bootstrap.
Context {A : Type} `{BootstrapAdapter A}.

(** The loop over the steps. *)
Fixpoint run_all (steps : list BootstrapStep) : Method A BootstrapAdapterError unit :=
  match steps with
  | [] => mret tt
  | step :: steps => _ ← run step; run_all steps
  end.

Definition bootstrap_with : Method A BootstrapError unit := fun a h =>
  match run_all BOOTSTRAP_ORDER a h with
  | (a, h, Returned (Ok _)) => (a, h, Returned (Ok tt))
  | (a, h, Returned (Err _)) => (a, h, Returned (Err Rejected))
  | (a, h, Killed) => (a, h, Killed)
  end.

(** The adapter is kept in the runtime on success and dropped, its lock with it, otherwise. *)
Definition bootstrap_owned (adapter : A) : Io BootstrapError A := fun h =>
  match bootstrap_with adapter h with
  | (a, h, Returned (Ok _)) => (h, Returned (Ok a))
  | (_, h, Returned (Err e)) => (h, Returned (Err e))
  | (_, h, Killed) => (h, Killed)
  end.
End bootstrap.

(** ** Adapters that keep the order *)

(** [position] of the steps in [owned] have been taken; [admitted] is what may come next:
    the next owned step, or, once all are taken, any other. *)
Definition admitted (owned : list BootstrapStep) (position : nat) (step : BootstrapStep) : Prop :=
  owned !! position = Some step \/ position = length owned /\ step ∉ owned.

Class OrderedAdapter (A : Type) `{BootstrapAdapter A} (owned : list BootstrapStep) : Type := {
  position : A -> nat;
  consistent : A -> Prop;
  position_bound a : consistent a -> (position a <= length owned)%nat;
  refused step a h :
    consistent a -> ~ admitted owned (position a) step -> run step a h = (a, h, Returned (Err Failed));
  ran step a h a' h' r :
    consistent a -> run step a h = (a', h', r) ->
    consistent a'
    /\ position a' = match r with
                     | Returned (Ok tt) => Nat.min (S (position a)) (length owned)
                     | _ => position a
                     end;
}.

(** The calls made of an adapter, in any order, on whatever hosts: those that succeeded. *)
Inductive history `{BootstrapAdapter A} : A -> list BootstrapStep -> A -> Prop :=
| history_nil a : history a [] a
| history_call a log b h step b' h' r :
    history a log b -> run step b h = (b', h', r) ->
    history a (log ++ match r with Returned (Ok tt) => [step] | _ => [] end) b'.

Section ordered.
Context `{OrderedAdapter A owned}.

(** Whatever is called, the steps that succeed are the owned ones first, in their order
    and once each, and others only after all of them. *)
Lemma history_ordered a log b :
  consistent a -> position a = 0%nat -> history a log b ->
  consistent b /\ exists rest, log = take (position b) owned ++ rest /\ Forall (.∉ owned) rest
                               /\ ((position b < length owned)%nat -> rest = []).
Proof.
  intros Hc Hp Hh. induction Hh as [a|a log b h step b' h' r Hh IH Hr].
  - split; [done|]. exists []. by rewrite Hp.
  - destruct (IH Hc Hp) as (Hb & rest & -> & Hf & Hn).
    destruct (ran _ _ _ _ _ _ Hb Hr) as [Hb' Hp']. split; [done|].
    pose proof (position_bound b Hb) as Hle.
    destruct r as [[[]|e]|]; [|exists rest; rewrite Hp', app_nil_r; done..].
    destruct (decide (admitted owned (position b) step)) as [[Hs|[Hl Hs]]|Hna].
    + apply lookup_lt_Some in Hs as Hlt. rewrite Hp', Nat.min_l by lia.
      exists []. rewrite (Hn Hlt), !app_nil_r, (take_S_r _ _ _ Hs). done.
    + rewrite Hp', Nat.min_r by lia. exists (rest ++ [step]). rewrite Hl, app_assoc.
      split; [done|]. split; [|lia]. by apply Forall_app_2; [|constructor].
    + rewrite (refused step b h Hb Hna) in Hr. done.
Qed.
End ordered.

(** Flags that are set in order, and how many. *)
Fixpoint flags_ordered (l : list bool) : bool :=
  match l with
  | true :: l => flags_ordered l
  | _ => forallb negb l
  end.
Definition flags_set (l : list bool) : nat := length (List.filter id l).

Lemma flags_set_bound l : (flags_set l <= length l)%nat.
Proof. unfold flags_set. induction l as [|[] l IH]; cbn in *; lia. Qed.

Definition ROOT_LOCK_STEPS : list BootstrapStep := [ProcessPolicy; NonRoot; TrustedRoot; OwnerLock].
Definition PROCESS_STEPS : list BootstrapStep := [ProcessPolicy; NonRoot].

#[export] Instance process_ordered {P A : Type} `{BootstrapProcessPrimitive P} `{BootstrapAdapter A} :
  OrderedAdapter (LinuxProcess.LinuxProcessBootstrapAdapter P A) PROCESS_STEPS.
Proof.
  set (flags := fun s : LinuxProcess.LinuxProcessBootstrapAdapter P A =>
    [LinuxProcess.policy_applied s; LinuxProcess.non_root_confirmed s]).
  refine (@Build_OrderedAdapter _ _ PROCESS_STEPS (flags_set ∘ flags) (fun s => flags_ordered (flags s)) _ _ _).
  - intros s _. apply (flags_set_bound (flags s)).
  - intros step [p a pol non] h Hc Hna. destruct pol, non; try done; destruct step; try reflexivity;
      destruct Hna; first [by left|right; split; [done|]; set_solver].
  - intros step [p a pol non] h s' h' r Hc Hr. change (run step) with (LinuxProcess.process_run step) in Hr.
    unfold LinuxProcess.process_run, mbind, method_bind, self, refuse, field, update in Hr.
    destruct pol, non; try done; destruct step; cbn in Hr; repeat case_match; by simplify_eq/=.
Defined.

#[export] Instance root_lock_ordered {A : Type} `{BootstrapAdapter A} :
  OrderedAdapter (RootLock.RootLockBootstrapAdapter A) ROOT_LOCK_STEPS.
Proof.
  set (flags := fun s : RootLock.RootLockBootstrapAdapter A =>
    [RootLock.process_policy_applied s; RootLock.non_root_confirmed s; RootLock.root_trusted s;
     RootLock.owner_lock_acquired s]).
  refine (@Build_OrderedAdapter _ _ ROOT_LOCK_STEPS (flags_set ∘ flags) (fun s => flags_ordered (flags s)) _ _ _).
  - intros s _. apply (flags_set_bound (flags s)).
  - intros step [l a f1 f2 f3 f4] h Hc Hna. destruct f1, f2, f3, f4; try done; destruct step; try reflexivity;
      destruct Hna; first [by left|right; split; [done|]; set_solver].
  - intros step [l a f1 f2 f3 f4] h s' h' r Hc Hr. change (run step) with (RootLock.root_lock_run step) in Hr.
    unfold RootLock.root_lock_run, mbind, method_bind, self, refuse, field, update in Hr.
    destruct f1, f2, f3, f4; try done; destruct step; cbn -[run_root_step] in Hr; repeat case_match;
      by simplify_eq/=.
Defined.

(** What a call of either adapter does to its delegate: nothing, or the same call, and a step
    that comes after the lock only once the lock was taken. *)
Lemma process_run_delegate {P A : Type} `{BootstrapProcessPrimitive P} `{BootstrapAdapter A}
    step (s : LinuxProcess.LinuxProcessBootstrapAdapter P A) h s' h' r :
  run step s h = (s', h', r) ->
  LinuxProcess.delegate s' = LinuxProcess.delegate s /\ (r = Returned (Ok tt) -> step ∈ PROCESS_STEPS)
  \/ step ∉ PROCESS_STEPS
     /\ run step (LinuxProcess.delegate s) h = (LinuxProcess.delegate s', h', r).
Proof.
  intros Hr. change (run step) with (LinuxProcess.process_run step) in Hr.
  unfold LinuxProcess.process_run, mbind, method_bind, self, refuse, field, update in Hr.
  destruct s as [p a pol non]. destruct pol, non, step; cbn in Hr;
    repeat case_match; simplify_eq/=; first [by left|left; split; [done|set_solver]|right; split; [set_solver|assumption]].
Qed.

Lemma root_lock_run_delegate {A : Type} `{BootstrapAdapter A}
    step (s : RootLock.RootLockBootstrapAdapter A) h s' h' r :
  consistent s -> run step s h = (s', h', r) ->
  RootLock.delegate s' = RootLock.delegate s
    /\ (r = Returned (Ok tt) -> step ∈ [TrustedRoot; OwnerLock])
  \/ step ∉ [TrustedRoot; OwnerLock]
     /\ (step ∉ ROOT_LOCK_STEPS -> position s = 4%nat)
     /\ run step (RootLock.delegate s) h = (RootLock.delegate s', h', r).
Proof.
  intros Hc Hr. change (run step) with (RootLock.root_lock_run step) in Hr.
  unfold RootLock.root_lock_run, mbind, method_bind, self, refuse, field, update in Hr.
  destruct s as [l a f1 f2 f3 f4]. destruct f1, f2, f3, f4; try (exfalso; exact Hc);
    destruct step; cbn -[run_root_step] in Hr; repeat case_match; simplify_eq/=;
    repeat match goal with u : unit |- _ => destruct u end;
    first [by left|left; split; [done|set_solver]|right; split; [set_solver|split; [done|assumption]]
          |right; split; [set_solver|split; [set_solver|assumption]]].
Qed.

(** ** The composition of both adapters over the prerequisites [D] that follow

    It is the one of [tests/red_process_policy_bootstrap_composition.rs], over the primitive
    of Linux; the service composes none yet. *)

Abbreviation Composed D :=
  (RootLock.RootLockBootstrapAdapter
     (LinuxProcess.LinuxProcessBootstrapAdapter LinuxBootstrapProcessPrimitive D)).

Definition composed {D : Type} (d : D) : Composed D :=
  RootLock.new RootLockAdapter_new (LinuxProcess.production d).
Definition later {D : Type} (s : Composed D) : D := LinuxProcess.delegate (RootLock.delegate s).

Section composed.
Context {D : Type} `{BootstrapAdapter D}.

Lemma production_run step (s : Composed D) h s' h' r :
  consistent s -> run step s h = (s', h', r) ->
  later s' = later s /\ (r = Returned (Ok tt) -> step ∈ ROOT_LOCK_STEPS)
  \/ step ∉ ROOT_LOCK_STEPS /\ position s = 4%nat /\ run step (later s) h = (later s', h', r).
Proof.
  intros Hc Hr. unfold later.
  destruct (root_lock_run_delegate step s h s' h' r Hc Hr) as [[-> Hs]|(Hs & Hp & Hd)].
  - left. split; [done|]. intros H1%Hs. set_solver.
  - destruct (process_run_delegate _ _ _ _ _ _ Hd) as [[-> Hs']|[Hs' Hr']].
    + left. split; [done|]. intros H1%Hs'. set_solver.
    + right. assert (step ∉ ROOT_LOCK_STEPS) as Hn by set_solver. auto.
Qed.

Lemma filter_gone (P : BootstrapStep -> Prop) `{forall x, Decision (P x)} l :
  Forall (fun x => ~ P x) l -> filter P l = [].
Proof. induction 1 as [|x l Hx _ IH]; [done|]. by rewrite filter_cons_False. Qed.

Lemma filter_rest (P : BootstrapStep -> Prop) `{forall x, Decision (P x)} l :
  Forall P l -> filter P l = l.
Proof. induction 1 as [|x l Hx _ IH]; [done|]. rewrite filter_cons_True by done. by f_equal. Qed.

(** What the prerequisites that follow have seen. *)
Lemma production_later (d : D) log s :
  history (composed d) log s ->
  consistent s /\ history d (filter (.∉ ROOT_LOCK_STEPS) log) (later s)
  /\ ((position s < 4)%nat -> later s = d).
Proof.
  remember (composed d) as s0 eqn:Hs0. intros Hh.
  induction Hh as [s0|s0 log s h step s' h' r Hh IH Hr].
  { subst s0. split; [done|]. split; [constructor|done]. }
  destruct (IH Hs0) as (Hc & Hd & Hl). destruct (ran _ _ _ _ _ _ Hc Hr) as [Hc' Hp'].
  change (length ROOT_LOCK_STEPS) with 4%nat in Hp'. split; [done|]. rewrite filter_app.
  destruct (production_run _ _ _ _ _ _ Hc Hr) as [[-> Hs]|(Hs & Hp & Hr')].
  - split.
    + replace (filter _ (match r with Returned (Ok tt) => [step] | _ => [] end)) with (@nil BootstrapStep);
        [by rewrite app_nil_r|].
      destruct r as [[[]|e]|]; [|done..]. rewrite filter_cons_False; [done|]. intros Hn. by apply Hn, Hs.
    + intros Hlt. apply Hl. destruct r as [[[]|e]|]; lia.
  - split.
    + replace (filter _ (match r with Returned (Ok tt) => [step] | _ => [] end))
        with (match r with Returned (Ok tt) => [step] | _ => [] end); [by eapply history_call|].
      destruct r as [[[]|e]|]; [|done..]. by rewrite filter_cons_True.
    + rewrite Hp', Hp. destruct r as [[[]|e]|]; cbn; lia.
Qed.

(** C40: Whatever is asked of the adapter, in whatever order and on whatever hosts, succeeds in
    the order of the bootstrap: policy, non-root check, root and lock once each and first.
    What follows is never run before that, and exactly its own successful steps are what
    the adapter reports beyond the four. *)
Theorem prerequisites_first (d : D) log s :
  history (composed d) log s ->
  exists n rest,
    log = take n ROOT_LOCK_STEPS ++ rest /\ (n <= 4)%nat /\ Forall (.∉ ROOT_LOCK_STEPS) rest
    /\ history d rest (later s)
    /\ ((n < 4)%nat -> rest = [] /\ later s = d).
Proof.
  intros Hh. destruct (production_later d log s Hh) as (Hc & Hd & Hl).
  assert (consistent (composed d)) as Hc0 by done.
  destruct (history_ordered _ _ _ Hc0 eq_refl Hh) as (_ & rest & -> & Hf & Hn).
  exists (position s), rest. split; [done|]. split; [exact (position_bound s Hc)|]. split; [done|].
  split; [|auto]. rewrite filter_app, (filter_rest _ rest Hf), filter_gone in Hd; [done|].
  apply Forall_forall. intros x (i & Hx%list_elem_of_lookup_2 & _)%elem_of_take Hn'. by apply Hn'.
Qed.

(** ** What a bootstrap comes to *)

Definition prerequisites : Io BootstrapError unit :=
  _ ← mapped (fun _ => Rejected) apply_linux_startup_policy;
  _ ← mapped (fun _ => Rejected) ensure_linux_non_root;
  _ ← mapped (fun _ => Rejected) validate_private_root;
  mapped (fun _ => Rejected) acquire_with_private_root_reference.

Definition LATER_STEPS : list BootstrapStep :=
  [SelectedState; Store; StructuralConfiguration; ProviderCatalog].

Definition run_later (d : D) : Io BootstrapError D := fun h =>
  match run_all LATER_STEPS d h with
  | (d, h, Returned (Ok _)) => (h, Returned (Ok d))
  | (_, h, Returned (Err _)) => (h, Returned (Err Rejected))
  | (_, h, Killed) => (h, Killed)
  end.

Definition bootstrap_spec (d : D) : Io BootstrapError D := _ ← prerequisites; run_later d.

(** The adapter when [n] of the four prerequisites hold, and when all of them do. *)
Definition stage (n : nat) (d : D) : Composed D :=
  RootLock.mkAdapter (mkRootLockAdapter (3 <=? n)%nat (4 <=? n)%nat)
    (LinuxProcess.mkAdapter mkLinuxBootstrapProcessPrimitive d (1 <=? n)%nat (2 <=? n)%nat)
    (1 <=? n)%nat (2 <=? n)%nat (3 <=? n)%nat (4 <=? n)%nat.
#[local] Abbreviation ready := (stage 4).

(** A prerequisite decides whether the next stage is reached. *)
Definition reaches_stage {E : Type} (m : Io E unit) (n : nat) (d : D) (h : Host)
    : Composed D * Host * Run BootstrapAdapterError unit :=
  match m h with
  | (h, Returned (Ok _)) => (stage (S n) d, h, Returned (Ok tt))
  | (h, Returned (Err _)) => (stage n d, h, Returned (Err Failed))
  | (h, Killed) => (stage n d, h, Killed)
  end.

Lemma run_policy d h : run ProcessPolicy (stage 0 d) h = reaches_stage apply_linux_startup_policy 0 d h.
Proof.
  cbv -[apply_linux_startup_policy]. by destruct (apply_linux_startup_policy h) as [h' [[[]|e]|]].
Qed.
Lemma run_non_root d h : run NonRoot (stage 1 d) h = reaches_stage ensure_linux_non_root 1 d h.
Proof. cbv -[ensure_linux_non_root]. by destruct (ensure_linux_non_root h) as [h' [[[]|e]|]]. Qed.
Lemma run_trusted d h : run TrustedRoot (stage 2 d) h = reaches_stage validate_private_root 2 d h.
Proof. cbv -[validate_private_root]. by destruct (validate_private_root h) as [h' [[[]|e]|]]. Qed.
Lemma run_lock d h :
  run OwnerLock (stage 3 d) h = reaches_stage acquire_with_private_root_reference 3 d h.
Proof.
  cbv -[acquire_with_private_root_reference].
  by destruct (acquire_with_private_root_reference h) as [h' [[[]|e]|]].
Qed.

Lemma bind_run {A X Y : Type} (m : Method A BootstrapAdapterError X)
    (f : X -> Method A BootstrapAdapterError Y) a h :
  (m ≫= f) a h = match m a h with
                 | (a, h, Returned (Ok x)) => f x a h
                 | (a, h, Returned (Err e)) => (a, h, Returned (Err e))
                 | (a, h, Killed) => (a, h, Killed)
                 end.
Proof. done. Qed.

Lemma run_ready steps (d : D) h :
  Forall (.∉ ROOT_LOCK_STEPS) steps ->
  run_all steps (ready d) h = let '(d', h', r) := run_all steps d h in (ready d', h', r).
Proof.
  intros Hf. revert d h. induction Hf as [|step steps Hs _ IH]; intros d h; [done|].
  cbn [run_all]. unfold mbind, method_bind.
  assert (run step (ready d) h = let '(d', h', r) := run step d h in (ready d', h', r)) as ->.
  { destruct step; try (exfalso; apply Hs; apply list_elem_of_In; cbn; tauto).
    all: match goal with |- run ?s _ _ = _ => change (run s (ready d) h) with
      (let '(b, h', r) :=
         (let '(b, h', r) := run s d h in (LinuxProcess.set_delegate b (RootLock.delegate (ready d)), h', r))
       in (RootLock.set_delegate b (ready d), h', r)) end; by destruct (run _ d h) as [[d' h'] r]. }
  destruct (run step d h) as [[d' h'] [[[]|e]|]]; [apply IH|done..].
Qed.

(** Bootstrapping the service's adapter is: the policy, the check, the root and the lock,
    and then the steps of what follows, on the host as these have left it; every failure is
    [Rejected], and a success holds the lock. *)
Lemma bootstrap_refines (d : D) h :
  match bootstrap_owned (composed d) h with
  | (h', Returned (Ok a)) => bootstrap_spec d h = (h', Returned (Ok (later a)))
                             /\ retains_owner_lock (RootLock.root_lock a) = true
  | (h', Returned (Err e)) => bootstrap_spec d h = (h', Returned (Err e)) /\ e = Rejected
  | (h', Killed) => bootstrap_spec d h = (h', Killed)
  end.
Proof.
  change (composed d) with (stage 0 d). unfold bootstrap_owned, bootstrap_with.
  change BOOTSTRAP_ORDER with (ROOT_LOCK_STEPS ++ LATER_STEPS).
  unfold bootstrap_spec, prerequisites, mbind, io_bind, mapped. cbn [run_all app ROOT_LOCK_STEPS].
  rewrite bind_run, run_policy. unfold reaches_stage.
  destruct (apply_linux_startup_policy h) as [h1 [[[]|e]|]]; [|done..].
  rewrite bind_run, run_non_root. unfold reaches_stage.
  destruct (ensure_linux_non_root h1) as [h2 [[[]|e]|]]; [|done..].
  rewrite bind_run, run_trusted. unfold reaches_stage.
  destruct (validate_private_root h2) as [h3 [[[]|e]|]]; [|done..].
  rewrite bind_run, run_lock. unfold reaches_stage.
  destruct (acquire_with_private_root_reference h3) as [h4 [[[]|e]|]]; [|done..].
  rewrite run_ready by (repeat constructor; set_solver). unfold run_later.
  by destruct (run_all LATER_STEPS d h4) as [[d' h'] [[[]|e]|]].
Qed.

(** C20: A bootstrap that succeeds runs in a process that is not root's and dumps no core, over a
    private root that its path still names, and holds the lock over a private entry; what
    follows was run in this order from the host as the lock left it. *)
Theorem bootstrap_owned_sound (d : D) h h' a :
  bootstrap_owned (composed d) h = (h', Returned (Ok a)) ->
  exists h1,
    euid h <> 0 /\ lock_contended h = false
    /\ is_private_root (euid h) (opened_root h) = true /\ same_root (opened_root h) (named_root h) = true
    /\ is_private_root (euid h) (reference_root h) = true
    /\ same_root (reference_root h) (named_root h) = true
    /\ h1 = set_outcomes (outcomes h1) (set_directory (locked (set_process restrictive h) (directory h))
                                           (set_process restrictive h))
    /\ locked_by (euid h) (directory h1)
    /\ run_all LATER_STEPS d h1 = (later a, h', Returned (Ok tt)).
Proof.
  intros Hb. pose proof (bootstrap_refines d h) as Hr. rewrite Hb in Hr. destruct Hr as [Hr _].
  apply io_bind_Ok in Hr as (h4 & [] & Hp & Hl). exists h4.
  apply io_bind_Ok in Hp as (h1 & [] & H1%mapped_Ok%startup_policy_sound & Hp).
  apply io_bind_Ok in Hp as (h2 & [] & H2%mapped_Ok & Hp).
  apply io_bind_Ok in H2 as (h5 & uid & [= <- <-] & [-> Hu]%pure_Ok).
  apply io_bind_Ok in Hp as (h3 & [] & (H3 & Hop & Hos)%mapped_Ok%open_private_root_with_Ok & Hp); [|done].
  apply mapped_Ok, acquire_lock_sound in Hp as (Hrp & Hrs & Hc & H4 & Hlk).
  assert (run_all LATER_STEPS d h4 = (later a, h', Returned (Ok tt))) as Hrun.
  { unfold run_later in Hl. destruct (run_all LATER_STEPS d h4) as [[d' h''] [[[]|e]|]]; [|done..].
    by injection Hl as -> ->. }
  rewrite H3, H1 in H4, Hrp, Hrs, Hc, Hlk. rewrite H1 in Hop, Hos, Hu. cbn in *.
  split; [intros Hz; unfold ensure_linux_non_root_with in Hu; by rewrite Hz in Hu|].
  repeat (split; [assumption|]). assumption.
Qed.
End composed.

(** ** A start on a host whose calls work, over prerequisites that note what is asked *)

#[local] Instance recorder : BootstrapAdapter (list BootstrapStep) :=
  fun step l h => (l ++ [step], h, Returned (Ok tt)).

Definition start_root : DirStat := mkDirStat true 448 1000 2 3.
Definition start_host : Host :=
  mkHost (mkDirectory ∅ [] ∅) start_root start_root start_root 1000 7 false
    (mkProcess 18 (None, None) true) 0 (repeat (Moves 64) 32).

Lemma start_succeeds :
  (bootstrap_owned (composed []) start_host).2 = Returned (Ok (stage 4 LATER_STEPS)).
Proof. by vm_compute. Qed.

Lemma bootstrap_owned_sound_witness :
  exists h', bootstrap_owned (composed []) start_host = (h', Returned (Ok (stage 4 LATER_STEPS)))
  /\ locked_by 1000 (directory h').
Proof.
  pose proof (run_of _ _ _ start_succeeds) as Hr. eexists. split; [exact Hr|].
  destruct (bootstrap_owned_sound _ _ _ _ Hr) as (h1 & _ & _ & _ & _ & _ & _ & _ & Hl & Hx).
  cbn in Hx. injection Hx as <-. exact Hl.
Defined.

(** A step of the store that is asked for first is refused, the policy then is not. *)
Lemma start_history : history (composed (D := list BootstrapStep) []) [ProcessPolicy] (stage 1 []).
Proof.
  apply (history_call _ [] (composed []) start_host ProcessPolicy _
    (run ProcessPolicy (composed (D := list BootstrapStep) []) start_host).1.2 (Returned (Ok tt)));
    [|by vm_compute].
  apply (history_call _ [] (composed []) start_host Store _ start_host (Returned (Err Failed)));
    [constructor|done].
Qed.

Lemma prerequisites_first_witness :
  exists n, [ProcessPolicy] = take n ROOT_LOCK_STEPS /\ (n < 4)%nat.
Proof.
  destruct (prerequisites_first [] [ProcessPolicy] (stage 1 []) start_history)
    as (n & rest & Hlog & Hn & Hf & _ & Hr).
  exists n. destruct (decide (n < 4)%nat) as [Hlt|Hge].
  - destruct (Hr Hlt) as [-> _]. by rewrite app_nil_r in Hlog.
  - assert (n = 4%nat) as -> by lia. done.
Defined.
