(* ===== verification/Envelope.v ===== *)
(** * The bootstrap envelope ([crates/msgriver/src/bootstrap_envelope.rs])

    The one configuration file of the release: its parser, which admits six literal
    values, and the reader that admits the file only while it stays one private regular
    file of a trusted parent. What the file system answers at each call is [EnvelopeFiles],
    so an entry that is exchanged between two calls is covered; the TOML grammar is the
    [toml_edit] crate's and a parameter. *)

From S2P Require Import Prelude Bytes Text CoreError Host Durable Platform Bootstrap.

#[local] Open Scope Z_scope.

Definition RELEASE_ENVELOPE_PARENT : bytes := as_bytes "/etc/msgriver".
Definition RELEASE_ENVELOPE_NAME : bytes := as_bytes "bootstrap.toml".
Definition ENVELOPE_MAX_LEN : Z := 4096.

Record EnvelopeExpectation : Type := mkEnvelopeExpectation {
  state_root : bytes;
  service_user : bytes;
  credential_root : bytes;
  resource_ceiling_profile : bytes;
}.

Definition RELEASE_EXPECTATION : EnvelopeExpectation :=
  mkEnvelopeExpectation (as_bytes "/srv/msgriver/data") (as_bytes "msgriver")
    (as_bytes "/run/credentials/msgriver") (as_bytes "baseline-v1").

Record EnvelopeTrust : Type := mkEnvelopeTrust {
  expected_uid : Z;
  effective_gid : Z;
}.

Inductive BootstrapEnvelopeError : Type :=
| Missing | UntrustedParent | UntrustedFile | Replaced | Oversized | Malformed | EnvelopeRejected.

Record BootstrapEnvelopeV1 : Type := mkBootstrapEnvelopeV1 {
  accepted_root : bytes;
}.

(** ** The parser *)

(** An item of a TOML table: a value, or a table ([NoValue]). *)
Inductive TomlItem : Type :=
| Integer (value : Z) | Str (value : bytes) | Array (items : list TomlItem) | OtherValue | NoValue.

(** [DocumentMut::from_str], to the entries of the root table under their decoded keys. *)
Class TomlParser : Type := parse_toml : bytes -> option (gmap bytes TomlItem).

Definition as_integer (item : TomlItem) : option Z :=
  match item with Integer value => Some value | _ => None end.
Definition as_str (item : TomlItem) : option bytes :=
  match item with Str value => Some value | _ => None end.
Definition is_empty_array (item : TomlItem) : bool :=
  match item with Array [] => true | _ => false end.
Definition is_value (item : TomlItem) : bool :=
  match item with NoValue => false | _ => true end.

Definition ENVELOPE_KEYS : list bytes :=
  as_bytes <$> ["version"; "state_root"; "service_user"; "credential_root"; "socket_names";
                "resource_ceiling_profile"]%string.

Definition expected_table (table : gmap bytes TomlItem) (expectation : EnvelopeExpectation) : bool :=
  let str key := table !! as_bytes key ≫= as_str in
  (size table =? 6)%nat
  && bool_decide (table !! as_bytes "version" ≫= as_integer = Some 1)
  && bool_decide (str "state_root"%string = Some (state_root expectation))
  && bool_decide (str "service_user"%string = Some (service_user expectation))
  && bool_decide (str "credential_root"%string = Some (credential_root expectation))
  && bool_decide (str "resource_ceiling_profile"%string = Some (resource_ceiling_profile expectation))
  && match table !! as_bytes "socket_names" with Some item => is_empty_array item | None => false end
  && forallb (fun key => match table !! key with Some item => is_value item | None => false end)
       ENVELOPE_KEYS.

Definition parse_envelope_v1 `{TomlParser} (l : bytes) (expectation : EnvelopeExpectation)
    : result BootstrapEnvelopeError BootstrapEnvelopeV1 :=
  if ENVELOPE_MAX_LEN <? len l then Err Oversized
  else if starts_with [239; 187; 191] l || contains_any [0] l then Err Malformed
  else if negb (is_utf8 l) then Err Malformed
  else match parse_toml l with
       | None => Err Malformed
       | Some table =>
         if negb (expected_table table expectation) then Err Malformed
         else Ok (mkBootstrapEnvelopeV1 (state_root expectation))
       end.

(** ** The trusted reader *)

Inductive FileKind : Type := KindRegular | KindDirectory | KindOther.

#[export] Instance FileKind_eq_dec : EqDecision FileKind.
Proof. solve_decision. Defined.

(** [st_mode] is the twelve permission bits. *)
Record Stat : Type := mkStat {
  st_kind : FileKind;
  st_mode : Z;
  st_uid : Z;
  st_gid : Z;
  st_nlink : Z;
  st_size : Z;
  st_dev : Z;
  st_ino : Z;
}.

(** What the calls answer, in the order they are made: the parent's metadata, the entry's
    before it is opened, the opened file's, what reading it yields, the entry's after. *)
Class EnvelopeFiles : Type := mkEnvelopeFiles {
  parent_stat : Stat;
  stat_before : Stat;
  stat_opened : Stat;
  content : bytes;
  stat_after : Stat;
}.

Definition trusted_parent (trust : EnvelopeTrust) (s : Stat) : bool :=
  bool_decide (st_kind s = KindDirectory) && (st_mode s =? 488)
  && (st_uid s =? expected_uid trust) && (st_gid s =? effective_gid trust).

Definition validate_envelope_stat (s : Stat) (trust : EnvelopeTrust)
    : result BootstrapEnvelopeError unit :=
  if negb (bool_decide (st_kind s = KindRegular)) || negb (st_mode s =? 416)
     || negb (st_uid s =? expected_uid trust) || negb (st_gid s =? effective_gid trust)
     || negb (st_nlink s =? 1) || (st_size s <? 0)
  then Err UntrustedFile else Ok tt.

Definition same_envelope_identity (a b : Stat) : bool :=
  (st_dev a =? st_dev b) && (st_ino a =? st_ino b) && bool_decide (st_kind a = st_kind b)
  && (st_mode a =? st_mode b) && (st_uid a =? st_uid b) && (st_gid a =? st_gid b)
  && (st_nlink a =? st_nlink b) && (st_size a =? st_size b).

(** The loop over [read], over what is left of the file and what was read of it. *)
Fixpoint read_envelope (os : list Outcome) (rest acc : bytes)
    : list Outcome * Run BootstrapEnvelopeError bytes :=
  match os with
  | [] => ([], Killed)
  | (Fails | Interrupted) :: os => (os, Returned (Err UntrustedFile))
  | Moves n :: os =>
    let remaining := ENVELOPE_MAX_LEN + 1 - len acc in
    let count := Z.to_nat (Z.min (Z.max 1 n) (Z.min remaining 1024)) in
    match take count rest with
    | [] => (os, Returned (Ok acc))
    | chunk =>
      let acc := acc ++ chunk in
      if ENVELOPE_MAX_LEN <? len acc then (os, Returned (Err Oversized))
      else read_envelope os (drop count rest) acc
    end
  end.

Section reader.
Context `{TomlParser} `{EnvelopeFiles}.

Definition read_all (l : bytes) : Io BootstrapEnvelopeError bytes := fun h =>
  let '(os, r) := read_envelope (outcomes h) l [] in (set_outcomes os h, r).

(** [envelope_stat]: the call, and what it shows. *)
Definition envelope_stat (s : Stat) : Io BootstrapEnvelopeError Stat :=
  _ ← system_call UntrustedFile; mret s.

Definition read_trusted_envelope (parent : bytes) (trust : EnvelopeTrust)
    (expectation : EnvelopeExpectation) : Io BootstrapEnvelopeError BootstrapEnvelopeV1 :=
  if negb (starts_with (as_bytes "/") parent) then pure (Err UntrustedParent)
  else if contains_any [0] parent then pure (Err UntrustedParent)
  else
    _ ← system_call UntrustedParent;
    _ ← system_call UntrustedParent;
    if negb (trusted_parent trust parent_stat) then pure (Err UntrustedParent)
    else
      before ← envelope_stat stat_before;
      _ ← pure (validate_envelope_stat before trust);
      if ENVELOPE_MAX_LEN <? st_size before then pure (Err Oversized)
      else
        _ ← system_call UntrustedFile;
        _ ← system_call UntrustedFile;
        let opened := stat_opened in
        _ ← pure (validate_envelope_stat opened trust);
        if negb (same_envelope_identity before opened) then pure (Err Replaced)
        else
          l ← read_all content;
          if ENVELOPE_MAX_LEN <? len l then pure (Err Oversized)
          else if negb (len l =? st_size opened) then pure (Err Replaced)
          else
            after ← envelope_stat stat_after;
            _ ← pure (validate_envelope_stat after trust);
            if negb (same_envelope_identity opened after) then pure (Err Replaced)
            else pure (parse_envelope_v1 l expectation).
End reader.

(** ** The documents that are accepted *)

Definition envelope_table (e : EnvelopeExpectation) : gmap bytes TomlItem :=
  list_to_map [(as_bytes "version", Integer 1); (as_bytes "state_root", Str (state_root e));
               (as_bytes "service_user", Str (service_user e));
               (as_bytes "credential_root", Str (credential_root e));
               (as_bytes "socket_names", Array []);
               (as_bytes "resource_ceiling_profile", Str (resource_ceiling_profile e))].

Lemma as_integer_Some o n : o ≫= as_integer = Some n -> o = Some (Integer n).
Proof. destruct o as [[]|]; cbn; congruence. Qed.
Lemma as_str_Some o s : o ≫= as_str = Some s -> o = Some (Str s).
Proof. destruct o as [[]|]; cbn; congruence. Qed.

Lemma expected_table_exact table e : expected_table table e = true <-> table = envelope_table e.
Proof.
  split.
  - unfold expected_table. rewrite !andb_true_iff.
    intros [[[[[[[Hs%Nat.eqb_eq Hv%bool_decide_eq_true] Hr%bool_decide_eq_true]
      Hu%bool_decide_eq_true] Hc%bool_decide_eq_true] Hp%bool_decide_eq_true] Ha] _].
    apply as_integer_Some in Hv. apply as_str_Some in Hr, Hu, Hc, Hp.
    destruct (table !! as_bytes "socket_names") as [[| |[]| |]|] eqn:Hn; try done.
    symmetry. apply map_subseteq_size_eq; [|by rewrite Hs].
    unfold envelope_table, list_to_map. cbn [foldr fst snd].
    repeat (apply insert_subseteq_l; [assumption|]). apply map_empty_subseteq.
  - intros ->. unfold expected_table.
    assert (size (envelope_table e) = 6%nat) as -> by reflexivity.
    unfold ENVELOPE_KEYS. cbn [fmap list_fmap forallb].
    assert (envelope_table e !! as_bytes "version" = Some (Integer 1)) as -> by reflexivity.
    assert (envelope_table e !! as_bytes "state_root" = Some (Str (state_root e))) as -> by reflexivity.
    assert (envelope_table e !! as_bytes "service_user" = Some (Str (service_user e))) as ->
      by reflexivity.
    assert (envelope_table e !! as_bytes "credential_root" = Some (Str (credential_root e))) as ->
      by reflexivity.
    assert (envelope_table e !! as_bytes "socket_names" = Some (Array [])) as -> by reflexivity.
    assert (envelope_table e !! as_bytes "resource_ceiling_profile"
            = Some (Str (resource_ceiling_profile e))) as -> by reflexivity.
    cbn. by rewrite !bool_decide_eq_true_2.
Qed.

(** ** What the parser and the reader accept *)

Definition document_ok `{TomlParser} (e : EnvelopeExpectation) (l : bytes) : Prop :=
  len l <= ENVELOPE_MAX_LEN /\ starts_with [239; 187; 191] l = false /\ contains_any [0] l = false
  /\ is_utf8 l = true /\ parse_toml l = Some (envelope_table e).

Lemma parse_envelope_exact `{TomlParser} l e env :
  parse_envelope_v1 l e = Ok env <-> document_ok e l /\ env = mkBootstrapEnvelopeV1 (state_root e).
Proof.
  unfold parse_envelope_v1, document_ok. split.
  - destruct (Z.ltb_spec ENVELOPE_MAX_LEN (len l)); [done|].
    destruct (_ || _) eqn:Hb; [done|]. apply orb_false_iff in Hb as [-> ->].
    destruct (is_utf8 l); [|done]. destruct (parse_toml l) as [t|]; [|done].
    destruct (expected_table t e) eqn:Ht; [|done]. apply expected_table_exact in Ht as ->.
    by intros [= <-].
  - intros [(Hl & -> & -> & -> & ->) ->]. rewrite (proj2 (Z.ltb_ge _ _) Hl).
    cbn -[expected_table envelope_table].
    by rewrite (proj2 (expected_table_exact _ e) eq_refl).
Qed.

Section exact.
Context `{TomlParser} `{EnvelopeFiles}.

(** The parent, and one private file with one link under it: before it is opened, when it
    is open and after it was read whole. *)
Record trusted_view (parent : bytes) (trust : EnvelopeTrust) : Prop := mkTrustedView {
  view_absolute : starts_with (as_bytes "/") parent = true;
  view_no_nul : contains_any [0] parent = false;
  view_parent : st_kind parent_stat = KindDirectory /\ st_mode parent_stat = 488
    /\ st_uid parent_stat = expected_uid trust /\ st_gid parent_stat = effective_gid trust;
  view_entry : st_kind stat_before = KindRegular /\ st_mode stat_before = 416
    /\ st_uid stat_before = expected_uid trust /\ st_gid stat_before = effective_gid trust
    /\ st_nlink stat_before = 1;
  view_opened : stat_opened = stat_before;
  view_after : stat_after = stat_before;
  view_size : st_size stat_before = len content;
}.

Lemma trusted_parent_true trust s :
  trusted_parent trust s = true <-> st_kind s = KindDirectory /\ st_mode s = 488
    /\ st_uid s = expected_uid trust /\ st_gid s = effective_gid trust.
Proof. unfold trusted_parent. rewrite !andb_true_iff, bool_decide_eq_true, !Z.eqb_eq. tauto. Qed.

Lemma validate_stat_Ok s trust :
  validate_envelope_stat s trust = Ok tt <-> (st_kind s = KindRegular /\ st_mode s = 416
    /\ st_uid s = expected_uid trust /\ st_gid s = effective_gid trust /\ st_nlink s = 1) /\ 0 <= st_size s.
Proof.
  unfold validate_envelope_stat. case_bool_decide as Hk; cbn [negb orb]; [|naive_solver].
  destruct (Z.eqb_spec (st_mode s) 416), (Z.eqb_spec (st_uid s) (expected_uid trust)),
    (Z.eqb_spec (st_gid s) (effective_gid trust)), (Z.eqb_spec (st_nlink s) 1), (Z.ltb_spec (st_size s) 0);
    cbn; naive_solver lia.
Qed.

(** Every field is compared. *)
Lemma same_identity_eq a b : same_envelope_identity a b = true <-> b = a.
Proof.
  unfold same_envelope_identity. rewrite !andb_true_iff, bool_decide_eq_true, !Z.eqb_eq.
  split; [|by intros ->]. intros [[[[[[[? ?] ?] ?] ?] ?] ?] ?]. destruct a, b. cbn in *. congruence.
Qed.

Lemma read_envelope_Ok os rest acc os' l :
  read_envelope os rest acc = (os', Returned (Ok l)) ->
  len acc <= ENVELOPE_MAX_LEN -> l = acc ++ rest.
Proof.
  revert rest acc. induction os as [|[| |n] os IH]; intros rest acc; cbn [read_envelope]; try done.
  set (count := Z.to_nat _). intros Hr Hacc.
  assert (0 < count)%nat as Hc by (clear Hr; subst count; unfold ENVELOPE_MAX_LEN in *; lia).
  destruct (take count rest) as [|b chunk] eqn:Ht.
  - injection Hr as _ <-. destruct rest; [by rewrite app_nil_r|]. destruct count; [lia|done].
  - rewrite <- Ht in Hr. destruct (Z.ltb_spec ENVELOPE_MAX_LEN (len (acc ++ take count rest))); [done|].
    apply IH in Hr; [|done]. by rewrite Hr, <- app_assoc, take_drop.
Qed.

Lemma read_all_Ok h h' l :
  read_all content h = (h', Returned (Ok l)) -> l = content.
Proof.
  unfold read_all. destruct (read_envelope _ _ _) as [os r] eqn:Hr. intros [= _ ->].
  by apply read_envelope_Ok in Hr; [|unfold len, ENVELOPE_MAX_LEN; cbn; lia].
Qed.

(** An envelope that was accepted is the whole content of one file that only its owner may
    write and its group read, under the trusted parent, unchanged from before it was opened
    until after it was read, and holds exactly the six values expected. *)
Lemma read_trusted_envelope_Ok parent trust e h h' env :
  read_trusted_envelope parent trust e h = (h', Returned (Ok env)) ->
  trusted_view parent trust /\ document_ok e content /\ env = mkBootstrapEnvelopeV1 (state_root e).
Proof.
  unfold read_trusted_envelope.
  destruct (starts_with (as_bytes "/") parent) eqn:Ha; [|done].
  destruct (contains_any [0] parent) eqn:Hn; [done|]. cbn [negb].
  intros (h1 & [] & _ & (h2 & [] & _ & Hx)%io_bind_Ok)%io_bind_Ok.
  destruct (trusted_parent trust parent_stat) eqn:Hp; [|done].
  apply io_bind_Ok in Hx as (h3 & b & (? & [] & _ & [= _ <-])%io_bind_Ok & Hx).
  apply io_bind_Ok in Hx as (h4 & [] & [_ Hb]%pure_Ok & Hx).
  destruct (Z.ltb_spec ENVELOPE_MAX_LEN (st_size stat_before)) as [|Hs]; [done|].
  apply io_bind_Ok in Hx as (h5 & [] & _ & (h6 & [] & _ & Hx)%io_bind_Ok).
  apply io_bind_Ok in Hx as (h7 & [] & [_ Ho]%pure_Ok & Hx).
  destruct (same_envelope_identity stat_before stat_opened) eqn:Hi; [|done].
  apply io_bind_Ok in Hx as (h8 & l & ->%read_all_Ok & Hx).
  destruct (Z.ltb_spec ENVELOPE_MAX_LEN (len content)) as [|Hlen]; [done|].
  destruct (Z.eqb_spec (len content) (st_size stat_opened)) as [Hsize|]; [|done].
  apply io_bind_Ok in Hx as (h9 & a & (? & [] & _ & [= _ <-])%io_bind_Ok & Hx).
  apply io_bind_Ok in Hx as (h10 & [] & [_ Haft]%pure_Ok & Hx).
  destruct (same_envelope_identity stat_opened stat_after) eqn:Hj; [|done].
  apply pure_Ok in Hx as [_ [Hd ->]%parse_envelope_exact].
  apply trusted_parent_true in Hp. apply validate_stat_Ok in Hb as [Hb _].
  apply same_identity_eq in Hi, Hj. split; [|by split]. split; [done..| |congruence].
  by rewrite Hj.
Qed.

(** A read that moves something each time comes to the end. *)
Lemma read_envelope_healthy os rest acc :
  Forall healthy os -> (length rest < length os)%nat -> len (acc ++ rest) <= ENVELOPE_MAX_LEN ->
  exists os', read_envelope os rest acc = (os', Returned (Ok (acc ++ rest))) /\ Forall healthy os'
    /\ (length os <= length os' + S (length rest))%nat.
Proof.
  intros Hos. revert rest acc. induction Hos as [|o os (n & -> & Hn) Hos IH]; intros rest acc Hl Hlen;
    [cbn in Hl; lia|]. cbn [read_envelope].
  rewrite len_cat in Hlen. assert (0 <= len rest) as Hpos by (unfold len; lia).
  set (count := Z.to_nat _).
  assert (0 < count)%nat as Hc by (subst count; unfold ENVELOPE_MAX_LEN in *; lia).
  destruct (take count rest) as [|b chunk] eqn:Ht.
  - assert (rest = []) as -> by (destruct rest; [done|]; destruct count; [lia|done]).
    rewrite app_nil_r. exists os. split; [done|]. split; [done|cbn; lia].
  - rewrite <- Ht. pose proof (take_drop count rest) as Htd.
    assert (len (take count rest) <= len rest) as Htl by (unfold len; rewrite length_take; lia).
    rewrite (proj2 (Z.ltb_ge _ _)) by (rewrite len_cat; lia).
    assert (length rest = length (take count rest) + length (drop count rest))%nat as Hsum
      by (rewrite <- Htd at 1; apply length_app).
    assert (0 < length (take count rest))%nat by (rewrite Ht; cbn; lia). cbn [length] in Hl.
    destruct (IH (drop count rest) (acc ++ take count rest)) as (os' & -> & Hos' & Hle);
      [lia|rewrite <- app_assoc, Htd, len_cat; lia|].
    exists os'. rewrite <- app_assoc, Htd. split; [done|]. split; [done|]. cbn [length]. lia.
Qed.

Lemma does_read_all host d s k :
  len content <= ENVELOPE_MAX_LEN ->
  does host (read_all content) d s (S (length content) + k) content d s k.
Proof.
  intros Hc h [Hs Ho Hk]. unfold read_all.
  destruct (read_envelope_healthy (outcomes h) content []) as (os & -> & Hos & Hle); [done|lia|done|].
  eexists. split; [done|]. rewrite Hs. split; [done|done|]. cbn. lia.
Qed.

Lemma does_envelope_stat host x d s k : does host (envelope_stat x) d s (S k) x d s k.
Proof. eapply does_bind; [apply does_call|]. apply does_ret. Qed.

Lemma does_read_trusted_envelope host parent trust e d s k :
  trusted_view parent trust -> document_ok e content ->
  does host (read_trusted_envelope parent trust e) d s (5 + (S (length content) + (1 + k)))
    (mkBootstrapEnvelopeV1 (state_root e)) d s k.
Proof.
  intros [Ha Hn Hp%trusted_parent_true Hb Ho Hj Hs] Hd. unfold read_trusted_envelope. rewrite Ha, Hn. cbn [negb].
  eapply does_bind; [apply does_call|]. eapply does_bind; [apply does_call|]. rewrite Hp. cbn [negb].
  assert (validate_envelope_stat stat_before trust = Ok tt) as Hv
    by (apply validate_stat_Ok; split; [done|]; rewrite Hs; apply len_nonneg).
  assert (forall a, same_envelope_identity a a = true) as Hi by (intros a; by apply same_identity_eq).
  pose proof Hd as [Hlen _]. rewrite Ho, Hj.
  eapply does_bind; [apply does_envelope_stat|]. cbn beta.
  eapply does_bind; [by apply does_pure|]. rewrite (proj2 (Z.ltb_ge _ _)) by lia.
  eapply does_bind; [apply does_call|]. eapply does_bind; [apply does_call|].
  eapply does_bind; [by apply does_pure|]. rewrite Hi. cbn [negb].
  eapply does_bind; [by apply (does_read_all _ _ _ (1 + k))|]. cbn beta.
  rewrite (proj2 (Z.ltb_ge _ _) Hlen), Hs, Z.eqb_refl. cbn [negb].
  eapply does_bind; [apply does_envelope_stat|]. cbn beta.
  eapply does_bind; [by apply does_pure|]. rewrite Hi. cbn [negb].
  apply does_pure. by apply parse_envelope_exact.
Qed.

(** C39: The reader accepts exactly the trusted envelopes. What it accepts was, at every call, one
    private file under the trusted parent, was read whole, and holds exactly the six expected
    values, whichever calls are short or fail; and such an envelope is accepted when the calls
    work, however short the reads are. *)
Theorem trusted_envelope_exact parent trust e :
  (forall h h' env, read_trusted_envelope parent trust e h = (h', Returned (Ok env)) ->
     trusted_view parent trust /\ document_ok e content /\ accepted_root env = state_root e)
  /\ (trusted_view parent trust -> document_ok e content ->
      forall h, Forall healthy (outcomes h) -> (length content + 7 <= length (outcomes h))%nat ->
      exists h', read_trusted_envelope parent trust e h
                 = (h', Returned (Ok (mkBootstrapEnvelopeV1 (state_root e)))) /\ directory h' = directory h).
Proof.
  split.
  - intros h h' env (Hv & Hd & ->)%read_trusted_envelope_Ok. done.
  - intros Hv Hd h Ho Hk.
    destruct (does_read_trusted_envelope h parent trust e (directory h) (temporary_serial h) 0 Hv Hd h)
      as (h' & Hx & Hw); [split; [by destruct h|done|lia]|].
    exists h'. split; [done|]. by eapply works_directory.
Qed.
End exact.

(** ** The adapter of the root that the envelope names *)

Section adapter.
Context `{TomlParser} `{EnvelopeFiles} {A : Type} `{BootstrapAdapter A}.

Record EnvelopeRootAdapter : Type := mkEnvelopeRootAdapter {
  parent : bytes;
  trust : EnvelopeTrust;
  expectation : EnvelopeExpectation;
  delegate : A;
  root_lock : option RootLockAdapter;
  process_policy_applied : bool;
  non_root_confirmed : bool;
  root_trusted : bool;
  owner_lock_acquired : bool;
}.

Definition EnvelopeRootAdapter_new (p : bytes) (t : EnvelopeTrust) (e : EnvelopeExpectation) (a : A)
    : EnvelopeRootAdapter :=
  mkEnvelopeRootAdapter p t e a None false false false false.

Definition set_delegate (a : A) (s : EnvelopeRootAdapter) : EnvelopeRootAdapter :=
  mkEnvelopeRootAdapter (parent s) (trust s) (expectation s) a (root_lock s)
    (process_policy_applied s) (non_root_confirmed s) (root_trusted s) (owner_lock_acquired s).
Definition set_root_lock (r : RootLockAdapter) (s : EnvelopeRootAdapter) : EnvelopeRootAdapter :=
  mkEnvelopeRootAdapter (parent s) (trust s) (expectation s) (delegate s) (Some r)
    (process_policy_applied s) (non_root_confirmed s) (root_trusted s) (owner_lock_acquired s).

(** The flag of the step is set. *)
Definition mark (step : BootstrapStep) (s : EnvelopeRootAdapter) : EnvelopeRootAdapter :=
  let set step' b := bool_decide (step = step') || b in
  mkEnvelopeRootAdapter (parent s) (trust s) (expectation s) (delegate s) (root_lock s)
    (set ProcessPolicy (process_policy_applied s)) (set NonRoot (non_root_confirmed s))
    (set TrustedRoot (root_trusted s)) (set OwnerLock (owner_lock_acquired s)).

(** A method of a local value: the value as the call leaves it. *)
Definition locally {S B E : Type} (b : B) (m : Method B E unit) : Method S E B := fun a h =>
  match m b h with
  | (b, h, Returned (Ok _)) => (a, h, Returned (Ok b))
  | (_, h, Returned (Err e)) => (a, h, Returned (Err e))
  | (_, h, Killed) => (a, h, Killed)
  end.

Definition envelope_run (step : BootstrapStep) : Method EnvelopeRootAdapter BootstrapAdapterError unit :=
  policy ← self process_policy_applied;
  non_root ← self non_root_confirmed;
  trusted ← self root_trusted;
  acquired ← self owner_lock_acquired;
  match step with
  | ProcessPolicy =>
    if policy : bool then refuse Failed
    else _ ← field delegate set_delegate (run step); update (mark step)
  | NonRoot =>
    if negb policy || non_root then refuse Failed
    else _ ← field delegate set_delegate (run step); update (mark step)
  | TrustedRoot =>
    if negb non_root || trusted then refuse Failed
    else
      s ← self id;
      _ ← on_host Failed (read_trusted_envelope (parent s) (trust s) (expectation s));
      r ← locally RootLockAdapter_new (run_root_step step);
      _ ← update (set_root_lock r);
      update (mark step)
  | OwnerLock =>
    if negb trusted || acquired then refuse Failed
    else
      r ← self root_lock;
      match r with
      | None => refuse Failed
      | Some r =>
        _ ← field (fun _ => r) set_root_lock (run_root_step step); update (mark step)
      end
  | _ =>
    if negb acquired then refuse Failed else field delegate set_delegate (run step)
  end.

#[global] Instance envelope_adapter : BootstrapAdapter EnvelopeRootAdapter := envelope_run.

(** It keeps the order of the bootstrap like [RootLockBootstrapAdapter]. *)
#[global] Instance envelope_ordered : OrderedAdapter EnvelopeRootAdapter ROOT_LOCK_STEPS.
Proof.
  set (flags := fun s => [process_policy_applied s; non_root_confirmed s; root_trusted s;
                          owner_lock_acquired s]).
  refine (@Build_OrderedAdapter _ _ ROOT_LOCK_STEPS (flags_set ∘ flags) (fun s => flags_ordered (flags s)) _ _ _).
  - intros s _. apply (flags_set_bound (flags s)).
  - intros step [p t e a l f1 f2 f3 f4] h Hc Hna. destruct f1, f2, f3, f4; try done; destruct step;
      try reflexivity; destruct Hna; first [by left|right; split; [done|]; set_solver].
  - intros step [p t e a l f1 f2 f3 f4] h s' h' r Hc Hr. change (run step) with (envelope_run step) in Hr.
    unfold envelope_run, mbind, method_bind, self, refuse, field, locally, update, on_host in Hr.
    destruct f1, f2, f3, f4; try done; destruct step; cbn -[run_root_step read_trusted_envelope] in Hr;
      repeat case_match; by simplify_eq/=.
Defined.

Lemma envelope_run_trusted step s h s' h' r :
  run step s h = (s', h', r) ->
  parent s' = parent s /\ trust s' = trust s /\ expectation s' = expectation s
  /\ (root_trusted s' = true -> root_trusted s = true
      \/ exists h1 h2 env, read_trusted_envelope (parent s) (trust s) (expectation s) h1
                           = (h2, Returned (Ok env))).
Proof.
  intros Hr. change (run step) with (envelope_run step) in Hr.
  unfold envelope_run, mbind, method_bind, self, refuse, field, locally, update, on_host in Hr.
  destruct s as [p t e a l f1 f2 f3 f4].
  destruct f1, f2, f3, f4, step; cbn -[run_root_step read_trusted_envelope] in Hr;
    repeat case_match; simplify_eq/=; repeat (split; [done|]); try (by left); try (by intros ?; left).
  all: intros _; right; do 3 eexists; eapply mapped_Ok; eassumption.
Qed.

Lemma envelope_history p t e a log s :
  history (EnvelopeRootAdapter_new p t e a) log s ->
  parent s = p /\ trust s = t /\ expectation s = e
  /\ (root_trusted s = true -> trusted_view p t /\ document_ok e content).
Proof.
  remember (EnvelopeRootAdapter_new p t e a) as s0 eqn:Hs0. intros Hh.
  induction Hh as [s0|s0 log s h step s' h' r Hh IH Hr]; [by subst s0|].
  destruct (IH Hs0) as (Hp & Ht & He & Hv).
  destruct (envelope_run_trusted _ _ _ _ _ _ Hr) as (Hp' & Ht' & He' & Hv').
  rewrite Hp', Ht', He'. repeat (split; [done|]).
  intros [Hx|(h1 & h2 & env & (Hview & Hdoc & _)%read_trusted_envelope_Ok)]%Hv'; [auto|].
  rewrite Hp, Ht in Hview. by rewrite He in Hdoc.
Qed.

(** Whatever is asked of the adapter and on whatever hosts: the root was trusted and the
    lock taken only after the policy and the non-root check and only because the envelope
    was accepted as a trusted file with exactly the expected values. *)
Theorem envelope_first p t e a log s :
  history (EnvelopeRootAdapter_new p t e a) log s ->
  TrustedRoot ∈ log \/ OwnerLock ∈ log ->
  trusted_view p t /\ document_ok e content
  /\ exists rest, log = ProcessPolicy :: NonRoot :: TrustedRoot :: rest.
Proof.
  intros Hh Hin. destruct (envelope_history p t e a log s Hh) as (_ & _ & _ & Hv).
  assert (consistent (EnvelopeRootAdapter_new p t e a)) as Hc by done.
  destruct (history_ordered _ _ _ Hc eq_refl Hh) as (Hs & rest & -> & Hf & Hn).
  assert (forall step, step ∈ [TrustedRoot; OwnerLock] -> step ∈ take (position s) ROOT_LOCK_STEPS ++ rest ->
    step ∈ take (position s) ROOT_LOCK_STEPS) as Hown.
  { intros step Hstep [|Hx]%elem_of_app; [done|]. rewrite Forall_forall in Hf.
    exfalso. apply (Hf _ Hx). set_solver. }
  assert (TrustedRoot ∈ take (position s) ROOT_LOCK_STEPS \/ OwnerLock ∈ take (position s) ROOT_LOCK_STEPS)
    as Hx by (destruct Hin; [left|right]; apply Hown; set_solver).
  destruct s as [? ? ? ? ? f1 f2 f3 f4]. destruct f1, f2, f3, f4; try (exfalso; exact Hs); cbn in Hx, Hv |- *.
  all: try (exfalso; clear -Hx; set_solver).
  all: destruct (Hv eq_refl); eauto.
Qed.
End adapter.

(** ** The release's envelope, and a parser of its few forms *)

Definition simple_item (v : bytes) : TomlItem :=
  if bool_decide (v = as_bytes "[]") then Array []
  else match v with
       | 34 :: rest => Str (removelast rest)
       | _ => if bool_decide (v = as_bytes "1") then Integer 1 else OtherValue
       end.

(** Lines "key = value". *)
Definition simple_line (l : bytes) : option (bytes * TomlItem) :=
  '(k, v) ← split_once 61 l; Some (removelast k, simple_item (List.tl v)).

#[local] Instance simple_toml : TomlParser := fun l =>
  list_to_map <$> mapM simple_line (List.filter (fun x => negb (bool_decide (x = []))) (split_on 10 l)).

Definition release_lines : list bytes :=
  [as_bytes "version = 1"; as_bytes "state_root = " ++ [34] ++ as_bytes "/srv/msgriver/data" ++ [34];
   as_bytes "service_user = " ++ [34] ++ as_bytes "msgriver" ++ [34];
   as_bytes "credential_root = " ++ [34] ++ as_bytes "/run/credentials/msgriver" ++ [34];
   as_bytes "socket_names = []";
   as_bytes "resource_ceiling_profile = " ++ [34] ++ as_bytes "baseline-v1" ++ [34]].

Definition release_document : bytes := Eval vm_compute in concat (map (fun l => l ++ [10]) release_lines).

Definition release_trust : EnvelopeTrust := mkEnvelopeTrust 0 1000.
Definition release_stat : Stat := mkStat KindRegular 416 0 1000 1 (len release_document) 3 9.

#[local] Instance release_files : EnvelopeFiles :=
  mkEnvelopeFiles (mkStat KindDirectory 488 0 1000 2 4096 3 8) release_stat release_stat release_document
    release_stat.

Lemma release_view : trusted_view RELEASE_ENVELOPE_PARENT release_trust.
Proof. by split. Qed.

Lemma release_document_ok : document_ok RELEASE_EXPECTATION release_document.
Proof.
  assert (match parse_toml release_document with
          | Some table => expected_table table RELEASE_EXPECTATION
          | None => false
          end = true) as Ht by (vm_compute; reflexivity).
  unfold document_ok. destruct (parse_toml release_document) as [t|]; [|done].
  apply expected_table_exact in Ht as ->.
  repeat (split; [first [by apply Z.leb_le|vm_compute; reflexivity]|]). done.
Qed.

Definition reading_host : Host :=
  mkHost (mkDirectory ∅ [] ∅) start_root start_root start_root 1000 7 false
    (mkProcess 63 (Some 0, Some 0) false) 0 (repeat (Moves 2) 300).

Lemma reading_calls :
  Forall healthy (outcomes reading_host) /\ (length release_document + 7 <= length (outcomes reading_host))%nat.
Proof.
  split; [|by apply Nat.leb_le]. apply Forall_forall. intros o Ho. apply list_elem_of_In in Ho. apply repeat_spec in Ho as ->. by exists 2.
Qed.

Lemma trusted_envelope_exact_witness :
  exists h', read_trusted_envelope RELEASE_ENVELOPE_PARENT release_trust RELEASE_EXPECTATION reading_host
             = (h', Returned (Ok (mkBootstrapEnvelopeV1 (as_bytes "/srv/msgriver/data")))).
Proof.
  destruct (trusted_envelope_exact RELEASE_ENVELOPE_PARENT release_trust RELEASE_EXPECTATION) as [_ Hx].
  destruct (Hx release_view release_document_ok reading_host (proj1 reading_calls) (proj2 reading_calls))
    as (h' & Hr & _). exists h'. exact Hr.
Defined.
