(* ===== verification/StateMacKeys.v ===== *)
(** * State MAC keys: their files, rows and selected snapshot
    ([initialization_key_pair/state_mac_key_file.rs], [state_mac_key_path.rs],
    [state_mac_key_manifest_row.rs], [state_mac_key_meta_row.rs],
    [state_mac_key_manifest.rs], [state_mac_key_high_water.rs] and
    [state_mac_key_snapshot.rs] of [crates/msgriver/src])

    The authenticated 106-byte file of one key, the path it lies at, and the checks that
    make raw database rows a usable set of keys. The [u8] and [Option<u64>] arrays over the
    eleven purposes are lists of that length. *)

From S2P Require Import Prelude Bytes Generation Ring Sha256 Codec Journal.

#[local] Open Scope Z_scope.

(** [match value { 1 => .., 11 => .., _ => Err }], as all three decoders have it. *)
Definition purpose_from {E : Type} (e : E) (code : Z) : result E MacPurpose :=
  match code with
  | 1 => Ok ApiKeyVerifyV1
  | 2 => Ok IdempotencyLookupV1
  | 3 => Ok IdempotencyFingerprintV1
  | 4 => Ok ReplayLookupV1
  | 5 => Ok ReplayFingerprintV1
  | 6 => Ok CommandLookupV1
  | 7 => Ok CommandSemanticFingerprintV1
  | 8 => Ok CommandPhaseFingerprintV1
  | 9 => Ok RetryJitterV1
  | 10 => Ok ArtifactInternalAuthV1
  | 11 => Ok PortableReservationV1
  | _ => Err e
  end.

(** ** [state_mac_key_file.rs] *)

Module KeyFile.

Definition VERSION : Z := 1.
Definition DOMAIN : bytes := as_bytes "msgriver/state-mac-key/v1".
Definition PRECEDING_BYTES : nat := 74.
Definition TAG_BYTES : nat := 32.
Definition WIRE_BYTES : nat := PRECEDING_BYTES + TAG_BYTES.

Record StateMacKeySecret : Type := mkStateMacKeySecret { secret_bytes : bytes }.

Inductive StateMacKeyFileError : Type := MissingStateMacKeyFile | InvalidStateMacKeyFile.

Abbreviation file_result := (result StateMacKeyFileError).

Definition validate_reference (reference : MacKeyRef) : file_result unit :=
  if all_zero (drop 32 (key_id reference)) then Err InvalidStateMacKeyFile else Ok tt.

Definition purpose_from_byte : Z -> file_result MacPurpose := purpose_from InvalidStateMacKeyFile.

Section with_hmac.
Context `{HmacSha256}.

Definition state_mac_key_file_tag (self : JournalIntegrityKey) (preceding : bytes) : bytes :=
  hmac (key_bytes self) (DOMAIN ++ preceding).

Definition verify_state_mac_key_file_tag (self : JournalIntegrityKey) (preceding tag : bytes)
    : file_result unit :=
  if bool_decide (hmac (key_bytes self) (DOMAIN ++ preceding) = tag) then Ok tt
  else Err InvalidStateMacKeyFile.

(** The wire without its tag. *)
Definition preceding (expected : MacKeyRef) (secret : StateMacKeySecret) : bytes :=
  [VERSION; purpose_code (purpose expected)] ++ key_id expected ++ secret_bytes secret.

Definition encode_state_mac_key_file (key : JournalIntegrityKey) (expected : MacKeyRef)
    (secret : StateMacKeySecret) : file_result bytes :=
  _ ← validate_reference expected;
  if all_zero (secret_bytes secret) then Err InvalidStateMacKeyFile
  else
    let wire := preceding expected secret in
    Ok (wire ++ state_mac_key_file_tag key wire).

Definition decode_state_mac_key_file (key : JournalIntegrityKey) (expected : MacKeyRef)
    (wire : bytes) : file_result StateMacKeySecret :=
  _ ← validate_reference expected;
  if negb (length wire =? WIRE_BYTES)%nat then Err InvalidStateMacKeyFile
  else
    _ ← verify_state_mac_key_file_tag key (take PRECEDING_BYTES wire) (drop PRECEDING_BYTES wire);
    if negb (at_ wire 0 =? VERSION) then Err InvalidStateMacKeyFile
    else
      p ← purpose_from_byte (at_ wire 1);
      id ← try_array 40 (slice wire 2 42) InvalidStateMacKeyFile;
      let actual := mkMacKeyRef p id in
      _ ← validate_reference actual;
      if negb (bool_decide (actual = expected)) then Err InvalidStateMacKeyFile
      else
        raw ← try_array 32 (slice wire 42 PRECEDING_BYTES) InvalidStateMacKeyFile;
        if all_zero raw then Err InvalidStateMacKeyFile else Ok (mkStateMacKeySecret raw).
End with_hmac.

End KeyFile.

(** ** [state_mac_key_path.rs] *)

Definition state_mac_key_relative_path (reference : MacKeyRef) : bytes :=
  as_bytes "mac/" ++ hex_byte (purpose_code (purpose reference)) ++ as_bytes "/mk_"
  ++ hex_bytes (key_id reference).

(** ** [state_mac_key_manifest_row.rs] *)

Module ManifestRow.

Record RawStateMacKeyManifestRow : Type := mkRaw {
  raw_purpose : Z;
  raw_origin : bytes;
  raw_serial_hi : Z;
  raw_serial_lo : Z;
  raw_status : Z;
  raw_created_at : Z;
}.

Inductive StateMacKeyManifestStatus : Type := Active | Retained.

#[export] Instance StateMacKeyManifestStatus_eq_dec : EqDecision StateMacKeyManifestStatus.
Proof. solve_decision. Defined.

Record StateMacKeyManifestRow : Type := mkRow {
  reference : MacKeyRef;
  status : StateMacKeyManifestStatus;
  created_at : Z;
}.

Inductive StateMacKeyManifestRowError : Type :=
| MissingStateMacKeyManifestRowDecoder | InvalidPurpose | InvalidStatus | InvalidOriginLength
| LimbOutOfRange | ZeroSerial.

Definition status_from_i64 (value : Z) : result StateMacKeyManifestRowError StateMacKeyManifestStatus :=
  match value with 1 => Ok Active | 2 => Ok Retained | _ => Err InvalidStatus end.

(** [u32::try_from]. *)
Definition limb_from_i64 (value : Z) : result StateMacKeyManifestRowError Z :=
  if is_u32 value then Ok value else Err LimbOutOfRange.

Definition decode_state_mac_key_manifest_row (raw : RawStateMacKeyManifestRow)
    : result StateMacKeyManifestRowError StateMacKeyManifestRow :=
  purpose ← purpose_from InvalidPurpose (raw_purpose raw);
  status ← status_from_i64 (raw_status raw);
  origin ← try_array 32 (raw_origin raw) InvalidOriginLength;
  serial_hi ← limb_from_i64 (raw_serial_hi raw);
  serial_lo ← limb_from_i64 (raw_serial_lo raw);
  if (serial_hi =? 0) && (serial_lo =? 0) then Err ZeroSerial
  else Ok (mkRow (mkMacKeyRef purpose (origin ++ be_bytes 4 serial_hi ++ be_bytes 4 serial_lo))
             status (raw_created_at raw)).

End ManifestRow.
Import ManifestRow.

(** ** [state_mac_key_high_water.rs]: the facts *)

Record StateMacKeyHighWater : Type := mkHighWater {
  hw_purpose : MacPurpose;
  serial_hi : Z;
  serial_lo : Z;
}.

(** ** [state_mac_key_meta_row.rs] *)

Module MetaRow.

Record RawStateMacKeyHighWater : Type := mkRaw {
  raw_purpose : Z;
  raw_serial_hi : Z;
  raw_serial_lo : Z;
}.

Record StateMacKeyMetaFacts : Type := mkFacts {
  selected_origin : bytes;
  high_waters : list StateMacKeyHighWater;
}.

Inductive StateMacKeyMetaRowError : Type :=
| MissingStateMacKeyMetaRowDecoder | InvalidSelectedOriginLength | InvalidPurpose | LimbOutOfRange.

(** The closure over one row. *)
Definition decode_high_water (row : RawStateMacKeyHighWater)
    : result StateMacKeyMetaRowError StateMacKeyHighWater :=
  purpose ← purpose_from InvalidPurpose (raw_purpose row);
  hi ← (if is_u32 (raw_serial_hi row) then Ok (raw_serial_hi row) else Err LimbOutOfRange);
  lo ← (if is_u32 (raw_serial_lo row) then Ok (raw_serial_lo row) else Err LimbOutOfRange);
  Ok (mkHighWater purpose hi lo).

Definition decode_state_mac_key_meta_rows (origin : bytes) (rows : list RawStateMacKeyHighWater)
    : result StateMacKeyMetaRowError StateMacKeyMetaFacts :=
  origin ← try_array 32 origin InvalidSelectedOriginLength;
  high_waters ← mapM decode_high_water rows;
  Ok (mkFacts origin high_waters).

End MetaRow.

(** ** Arrays over the purposes *)

Definition purpose_index (p : MacPurpose) : nat := Z.to_nat (purpose_code p - 1).

(** ** [state_mac_key_manifest.rs] *)

Module Manifest.

Inductive StateMacKeyManifestError : Type :=
| MissingStateMacKeyManifestValidator | OutOfOrderOrDuplicate | TooManyRowsForPurpose
| MissingActivePurpose | MultipleActiveRowsForPurpose | ActiveOriginMismatch.

(** [order <= prior] of the pairs of purpose and identity. *)
Definition order_le (order prior : Z * bytes) : bool :=
  match order.1 ?= prior.1 with
  | Lt => true
  | Eq => match bytes_cmp order.2 prior.2 with Gt => false | _ => true end
  | Gt => false
  end.

Definition row_order (row : StateMacKeyManifestRow) : Z * bytes :=
  (purpose_code (purpose (reference row)), key_id (reference row)).

Definition count_up (p : MacPurpose) (counts : list Z) : list Z :=
  alter (fun n => n + 1) (purpose_index p) counts.

(** The loop over the rows, with its three variables; it leaves the active counts. *)
Fixpoint manifest_loop (selected prebootstrap : bytes) (previous : option (Z * bytes))
    (rows_per active_per : list Z) (rows : list StateMacKeyManifestRow)
    : result StateMacKeyManifestError (list Z) :=
  match rows with
  | [] => Ok active_per
  | row :: rows =>
    let p := purpose (reference row) in
    if match previous with Some prior => order_le (row_order row) prior | None => false end
    then Err OutOfOrderOrDuplicate
    else
      let previous := Some (row_order row) in
      let rows_per := count_up p rows_per in
      if 16 <? nth (purpose_index p) rows_per 0 then Err TooManyRowsForPurpose
      else if bool_decide (status row = Active) then
        let active_per := count_up p active_per in
        if 1 <? nth (purpose_index p) active_per 0 then Err MultipleActiveRowsForPurpose
        else
          let expected_origin := if purpose_code p =? 11 then prebootstrap else selected in
          if negb (bool_decide (take 32 (key_id (reference row)) = expected_origin))
          then Err ActiveOriginMismatch
          else manifest_loop selected prebootstrap previous rows_per active_per rows
      else manifest_loop selected prebootstrap previous rows_per active_per rows
  end.

Definition validate_state_mac_key_manifest (rows : list StateMacKeyManifestRow)
    (selected_origin prebootstrap_origin : bytes) : result StateMacKeyManifestError unit :=
  active_per_purpose ← manifest_loop selected_origin prebootstrap_origin None (repeat 0 11)
    (repeat 0 11) rows;
  if existsb (fun count => negb (count =? 1)) active_per_purpose
  then Err MissingActivePurpose else Ok tt.

End Manifest.

(** ** [state_mac_key_high_water.rs] *)

Module HighWater.

Inductive StateMacKeyHighWaterError : Type :=
| MissingStateMacKeyHighWaterValidator | DuplicateHighWaterPurpose | MissingHighWaterPurpose
| SelectedOriginSerialAboveHighWater.

Definition joined_serial (h : StateMacKeyHighWater) : Z :=
  Z.lor (Z.shiftl (serial_hi h) 32) (serial_lo h).

Fixpoint by_purpose_loop (by_purpose : list (option Z)) (high_waters : list StateMacKeyHighWater)
    : result StateMacKeyHighWaterError (list (option Z)) :=
  match high_waters with
  | [] => Ok by_purpose
  | h :: high_waters =>
    let index := purpose_index (hw_purpose h) in
    match nth index by_purpose None with
    | Some _ => Err DuplicateHighWaterPurpose
    | None => by_purpose_loop (<[index := Some (joined_serial h)]> by_purpose) high_waters
    end
  end.

Fixpoint serials_loop (selected : bytes) (resolved : list Z) (rows : list StateMacKeyManifestRow)
    : result StateMacKeyHighWaterError unit :=
  match rows with
  | [] => Ok tt
  | row :: rows =>
    let id := key_id (reference row) in
    if negb (bool_decide (take 32 id = selected)) then serials_loop selected resolved rows
    else if nth (purpose_index (purpose (reference row))) resolved 0 <? of_be_bytes (drop 32 id)
    then Err SelectedOriginSerialAboveHighWater
    else serials_loop selected resolved rows
  end.

Definition validate_state_mac_key_high_water (rows : list StateMacKeyManifestRow)
    (selected_origin : bytes) (high_waters : list StateMacKeyHighWater)
    : result StateMacKeyHighWaterError unit :=
  by_purpose ← by_purpose_loop (repeat None 11) high_waters;
  resolved ← mapM (fun value => ok_or value MissingHighWaterPurpose) by_purpose;
  serials_loop selected_origin resolved rows.

End HighWater.

(** ** [state_mac_key_snapshot.rs] *)

Module Snapshot.

(** [msgriver_store::SelectedKeySnapshotRaw]; its cells have the fields of the raw rows. *)
Record SelectedKeySnapshotRaw : Type := mkSnapshotRaw {
  raw_selected_origin : bytes;
  raw_high_waters : list MetaRow.RawStateMacKeyHighWater;
  raw_manifest_rows : list RawStateMacKeyManifestRow;
}.

Record StateMacKeySnapshotFacts : Type := mkSnapshotFacts {
  selected_origin : bytes;
  high_waters : list StateMacKeyHighWater;
  manifest_rows : list StateMacKeyManifestRow;
}.

Inductive StateMacKeySnapshotError : Type := MissingStateMacKeySnapshotComposer | InvalidSnapshot.

Definition invalid {E A : Type} (r : result E A) : result StateMacKeySnapshotError A :=
  map_err (fun _ => InvalidSnapshot) r.

Definition compose_state_mac_key_snapshot (raw : SelectedKeySnapshotRaw) (prebootstrap_origin : bytes)
    : result StateMacKeySnapshotError StateMacKeySnapshotFacts :=
  meta ← invalid (MetaRow.decode_state_mac_key_meta_rows (raw_selected_origin raw) (raw_high_waters raw));
  rows ← invalid (mapM decode_state_mac_key_manifest_row (raw_manifest_rows raw));
  _ ← invalid (Manifest.validate_state_mac_key_manifest rows (MetaRow.selected_origin meta)
                 prebootstrap_origin);
  _ ← invalid (HighWater.validate_state_mac_key_high_water rows (MetaRow.selected_origin meta)
                 (MetaRow.high_waters meta));
  Ok (mkSnapshotFacts (MetaRow.selected_origin meta) (MetaRow.high_waters meta) rows).

End Snapshot.

(** ** Lemmas: purposes *)

Lemma purpose_from_Ok {E : Type} (e : E) c p : purpose_from e c = Ok p <-> c = purpose_code p.
Proof.
  split.
  - unfold purpose_from. repeat case_match; intros Heq; inversion Heq; done.
  - intros ->. by destruct p.
Qed.

(** All purposes, in the order of the arrays. *)
Definition ALL_PURPOSES : list MacPurpose :=
  [ApiKeyVerifyV1; IdempotencyLookupV1; IdempotencyFingerprintV1; ReplayLookupV1;
   ReplayFingerprintV1; CommandLookupV1; CommandSemanticFingerprintV1; CommandPhaseFingerprintV1;
   RetryJitterV1; ArtifactInternalAuthV1; PortableReservationV1].

Lemma nth_purposes {A : Type} (f : MacPurpose -> A) p x : nth (purpose_index p) (map f ALL_PURPOSES) x = f p.
Proof. by destruct p. Qed.

Lemma alter_purposes {A : Type} (g : A -> A) (f : MacPurpose -> A) p :
  alter g (purpose_index p) (map f ALL_PURPOSES)
  = map (fun q => if decide (q = p) then g (f q) else f q) ALL_PURPOSES.
Proof. by destruct p. Qed.

Lemma insert_purposes {A : Type} (x : A) (f : MacPurpose -> A) p :
  <[purpose_index p := x]> (map f ALL_PURPOSES)
  = map (fun q => if decide (q = p) then x else f q) ALL_PURPOSES.
Proof. by destruct p. Qed.

Lemma all_purposes p : p ∈ ALL_PURPOSES.
Proof. apply list_elem_of_In. destruct p; cbn; tauto. Qed.

Lemma mapM_Ok {E A B : Type} (f : A -> result E B) l k :
  mapM f l = Ok k <-> Forall2 (fun x y => f x = Ok y) l k.
Proof.
  revert k. induction l as [|x l IH]; intros k; cbn.
  - split; [intros <-%Ok_inj; constructor|by inversion 1].
  - rewrite bind_Ok. split.
    + intros (y & Hy & (k' & Hk & <-%Ok_inj)%bind_Ok). constructor; [done|by apply IH].
    + inversion 1 as [|? y ? k' Hy Hk]; subst. exists y. split; [done|]. by rewrite (proj2 (IH k') Hk).
Qed.

(** ** Lemmas: the key file *)

Section key_file.
Context `{HmacOutput} (key : JournalIntegrityKey) (expected : MacKeyRef).
Hypothesis expected_typed : array 40 (key_id expected) = true.

Import KeyFile.

Definition typed_secret (s : StateMacKeySecret) : bool := array 32 (secret_bytes s).

Lemma key_file_decode_sound wire s :
  is_bytes wire = true -> decode_state_mac_key_file key expected wire = Ok s ->
  typed_secret s = true /\ encode_state_mac_key_file key expected s = Ok wire.
Proof.
  intros Hw Hd. unfold decode_state_mac_key_file, verify_state_mac_key_file_tag, WIRE_BYTES,
    PRECEDING_BYTES, TAG_BYTES, purpose_from_byte in Hd. cbv zeta in Hd. decode_inv Hd.
  apply purpose_from_Ok in Hx0.
  apply negb_false_iff, Nat.eqb_eq in Hb. apply bool_decide_eq_true in Hb0.
  apply negb_false_iff, Z.eqb_eq in Hb1. apply negb_false_iff, bool_decide_eq_true in Hb2.
  assert (preceding expected (mkStateMacKeySecret (slice wire 42 74)) = slice wire 0 74) as Hp.
  { unfold preceding. rewrite <- Hb2. cbn [purpose key_id secret_bytes].
    rewrite <- Hb1, <- Hx0. change [at_ wire 0; at_ wire 1] with ([at_ wire 0] ++ [at_ wire 1]).
    rewrite <- !slice_one by lia. rewrite <- !app_assoc, !slice_join by lia. done. }
  rewrite take_slice, drop_slice, Hb in Hb0. cbn [Nat.add] in *.
  split; [by apply array_slice; [|lia..]|].
  unfold encode_state_mac_key_file. rewrite Hx, Ok_bind. cbn [secret_bytes]. rewrite Hb3, Hp.
  unfold state_mac_key_file_tag. rewrite Hb0, slice_join by lia. f_equal. by apply slice_all.
Qed.

Lemma key_file_encode_complete wire s :
  typed_secret s = true -> encode_state_mac_key_file key expected s = Ok wire ->
  decode_state_mac_key_file key expected wire = Ok s.
Proof.
  intros Ht He. unfold encode_state_mac_key_file in He. encode_inv He. cbv zeta in He. encode_inv He.
  unfold typed_secret in Ht. unfold state_mac_key_file_tag in He. set (tag := hmac _ _) in He.
  assert (Len (key_id expected) 40) by (by apply array_len).
  assert (Len (secret_bytes s) 32) by (by apply array_len).
  assert (Len tag 32) by apply hmac_length.
  assert (length (preceding expected s) = 74%nat) as Hlp.
  { unfold preceding. rewrite !length_app. cbn [length].
    rewrite (array_len 40 (key_id expected)), (array_len 32 (secret_bytes s)) by done. done. }
  assert (length wire = 106%nat) as Hlw by (rewrite He, length_app, Hlp; unfold tag; by rewrite hmac_length).
  assert (take 74 wire = preceding expected s) as Hpre by (rewrite He; by apply take_app_length').
  assert (drop 74 wire = tag) as Hdrop by (rewrite He; by apply drop_app_length').
  unfold decode_state_mac_key_file. rewrite Hx, Ok_bind.
  change WIRE_BYTES with 106%nat. change PRECEDING_BYTES with 74%nat.
  rewrite Hlw, Hpre, Hdrop. cbn [Nat.eqb negb]. unfold verify_state_mac_key_file_tag.
  unfold tag at 1. rewrite bool_decide_true, Ok_bind by done.
  unfold preceding in He. rewrite <- !app_assoc in He.
  assert (at_ wire 0 = VERSION) as -> by (rewrite He; segment). rewrite Z.eqb_refl. cbn [negb].
  assert (at_ wire 1 = purpose_code (purpose expected)) as -> by (rewrite He; reflexivity).
  unfold purpose_from_byte. rewrite (proj2 (purpose_from_Ok _ _ (purpose expected)) eq_refl), Ok_bind.
  assert (slice wire 2 42 = key_id expected) as -> by (rewrite He; segment).
  assert (slice wire 42 74 = secret_bytes s) as -> by (rewrite He; segment).
  rewrite !try_array_len by typeclasses eauto. rewrite !Ok_bind.
  assert (mkMacKeyRef (purpose expected) (key_id expected) = expected) as -> by (by destruct expected).
  rewrite Hx, Ok_bind, bool_decide_true by done. cbn [negb]. rewrite Hb. by destruct s.
Qed.

Lemma key_file_encode_bytes s wire :
  typed_secret s = true -> encode_state_mac_key_file key expected s = Ok wire -> is_bytes wire = true.
Proof.
  intros Ht He. unfold encode_state_mac_key_file in He. encode_inv He. cbv zeta in He. encode_inv He.
  subst wire. unfold typed_secret in Ht. unfold state_mac_key_file_tag, preceding.
  cbn [app]. bytes_fields.
Qed.

#[export] Instance state_mac_key_file_codec :
  WireCodec (encode_state_mac_key_file key expected) (decode_state_mac_key_file key expected) typed_secret.
Proof.
  split; [|exact key_file_encode_bytes]. intros wire s Hw.
  split; [by apply key_file_decode_sound|]. intros [??]. by apply key_file_encode_complete.
Qed.
End key_file.

(** ** What a valid manifest and valid high waters are *)

Definition of_purpose (p : MacPurpose) (row : StateMacKeyManifestRow) : bool :=
  bool_decide (purpose (reference row) = p).
Definition active_of (p : MacPurpose) (row : StateMacKeyManifestRow) : bool :=
  of_purpose p row && bool_decide (status row = Active).

(** How many of [l] satisfy [f], as the counters count. *)
Definition count_of {A : Type} (f : A -> bool) (l : list A) : Z := Z.of_nat (length (List.filter f l)).

Lemma count_of_nil {A : Type} (f : A -> bool) : count_of f [] = 0.
Proof. done. Qed.

Lemma count_of_cons {A : Type} (f : A -> bool) x l :
  count_of f (x :: l) = (if f x then 1 else 0) + count_of f l.
Proof. unfold count_of. cbn [List.filter]. destruct (f x); cbn [length]; lia. Qed.

Lemma count_of_pos {A : Type} (f : A -> bool) l : 0 <= count_of f l.
Proof. unfold count_of. lia. Qed.

(** The incarnation an active key of the purpose has to come from. *)
Definition origin_for (selected prebootstrap : bytes) (p : MacPurpose) : bytes :=
  if decide (p = PortableReservationV1) then prebootstrap else selected.

Definition row_lt (a b : StateMacKeyManifestRow) : Prop :=
  Manifest.order_le (Manifest.row_order b) (Manifest.row_order a) = false.

(** Strictly increasing, at most sixteen rows per purpose, exactly one of them active, and
    that one of the right origin. *)
Record manifest_ok (rows : list StateMacKeyManifestRow) (selected prebootstrap : bytes) : Prop :=
  mkManifestOk {
  manifest_sorted : Sorted row_lt rows;
  manifest_bound p : count_of (of_purpose p) rows <= 16;
  manifest_active p : count_of (active_of p) rows = 1;
  manifest_origin row : row ∈ rows -> status row = Active ->
    take 32 (key_id (reference row)) = origin_for selected prebootstrap (purpose (reference row));
}.

(** One high water per purpose, and no key of the selected origin above its own. *)
Record high_water_ok (rows : list StateMacKeyManifestRow) (selected : bytes)
    (high_waters : list StateMacKeyHighWater) : Prop := mkHighWaterOk {
  high_water_unique p : count_of (fun h => bool_decide (hw_purpose h = p)) high_waters = 1;
  high_water_bound row h : row ∈ rows -> h ∈ high_waters ->
    hw_purpose h = purpose (reference row) -> take 32 (key_id (reference row)) = selected ->
    of_be_bytes (drop 32 (key_id (reference row))) <= HighWater.joined_serial h;
}.

Section manifest.
Context (selected prebootstrap : bytes).

Import Manifest.

Definition origin_ok (row : StateMacKeyManifestRow) : Prop :=
  status row = Active ->
  take 32 (key_id (reference row)) = origin_for selected prebootstrap (purpose (reference row)).

Definition follows (previous : option (Z * bytes)) (rows : list StateMacKeyManifestRow) : Prop :=
  match previous, rows with
  | Some prior, row :: _ => order_le (row_order row) prior = false
  | _, _ => True
  end.

Lemma expected_origin p :
  (if purpose_code p =? 11 then prebootstrap else selected) = origin_for selected prebootstrap p.
Proof. by destruct p. Qed.

(** The counters after a row: one more for its purpose. *)
Definition counted (c : MacPurpose -> Z) (f : MacPurpose -> StateMacKeyManifestRow -> bool)
    (row : StateMacKeyManifestRow) (p : MacPurpose) : Z := c p + if f p row then 1 else 0.

Lemma count_up_purposes c row :
  count_up (purpose (reference row)) (map c ALL_PURPOSES) = map (counted c of_purpose row) ALL_PURPOSES.
Proof.
  unfold count_up. rewrite alter_purposes. apply map_ext. intros q. unfold counted, of_purpose.
  case_decide as Hq; [|rewrite bool_decide_false by done; lia]. by rewrite bool_decide_true.
Qed.

Lemma count_up_active c row :
  status row = Active ->
  count_up (purpose (reference row)) (map c ALL_PURPOSES) = map (counted c active_of row) ALL_PURPOSES.
Proof.
  intros Ha. rewrite count_up_purposes. apply map_ext. intros q. unfold counted, active_of.
  by rewrite (bool_decide_true _ Ha), andb_true_r.
Qed.

Lemma counted_inactive c row :
  status row <> Active -> map (counted c active_of row) ALL_PURPOSES = map c ALL_PURPOSES.
Proof.
  intros Ha. apply map_ext. intros q. unfold counted, active_of.
  rewrite (bool_decide_false _ Ha), andb_false_r. lia.
Qed.

Lemma manifest_loop_Ok rows previous c a result :
  (forall p, c p <= 16) -> (forall p, a p <= 1) ->
  manifest_loop selected prebootstrap previous (map c ALL_PURPOSES) (map a ALL_PURPOSES) rows = Ok result
  <-> follows previous rows /\ Sorted row_lt rows
      /\ (forall p, c p + count_of (of_purpose p) rows <= 16)
      /\ (forall p, a p + count_of (active_of p) rows <= 1)
      /\ Forall origin_ok rows
      /\ result = map (fun p => a p + count_of (active_of p) rows) ALL_PURPOSES.
Proof.
  revert previous c a. induction rows as [|row rows IH]; intros previous c a Hc Ha.
  - cbn [manifest_loop]. split.
    + intros <-%Ok_inj. split; [by destruct previous|]. split; [constructor|].
      split; [intros p; specialize (Hc p); rewrite count_of_nil; lia|]. split; [intros p; specialize (Ha p); rewrite count_of_nil; lia|].
      split; [done|]. apply map_ext. intros p. rewrite count_of_nil. lia.
    + intros (_ & _ & _ & _ & _ & ->). apply (f_equal Ok). apply map_ext. intros p. rewrite count_of_nil. lia.
  - cbn [manifest_loop]. rewrite count_up_purposes, nth_purposes, expected_origin.
    set (p := purpose (reference row)).
    assert (forall q, counted c of_purpose row q + count_of (of_purpose q) rows
                      = c q + count_of (of_purpose q) (row :: rows)) as Hcc
      by (intros q; rewrite count_of_cons; unfold counted; lia).
    assert (forall q, counted a active_of row q + count_of (active_of q) rows
                      = a q + count_of (active_of q) (row :: rows)) as Hca
      by (intros q; rewrite count_of_cons; unfold counted; lia).
    assert (follows previous (row :: rows) <->
      match previous with Some prior => order_le (row_order row) prior | None => false end = false) as ->
      by (by destruct previous).
    destruct (match previous with Some prior => _ | None => _ end); [split; [done|by intros []]|].
    assert (Sorted row_lt (row :: rows) <-> Sorted row_lt rows /\ follows (Some (row_order row)) rows) as ->.
    { split; [intros Hs; inversion Hs as [|? ? Hss Hd]; split; [done|]; by destruct Hd|].
      intros [Hs Hf]. constructor; [done|]. by destruct rows; constructor. }
    assert (counted c of_purpose row p = c p + 1) as Hcp
      by (unfold counted, of_purpose; by rewrite bool_decide_true).
    destruct (Z.ltb_spec 16 (counted c of_purpose row p)) as [Hlt|Hle].
    { split; [done|]. intros (_ & _ & Hb & _). specialize (Hb p). rewrite <- Hcc in Hb.
      pose proof (count_of_pos (of_purpose p) rows). lia. }
    assert (forall q, counted c of_purpose row q <= 16) as Hc'.
    { intros q. destruct (decide (q = p)) as [-> | Hq]; [done|]. specialize (Hc q).
      unfold counted, of_purpose. rewrite bool_decide_false by (by intros <-). lia. }
    assert ((forall q, counted a active_of row q <= 1) -> origin_ok row ->
      manifest_loop selected prebootstrap (Some (row_order row)) (map (counted c of_purpose row) ALL_PURPOSES)
        (map (counted a active_of row) ALL_PURPOSES) rows = Ok result
      <-> false = false /\ (Sorted row_lt rows /\ follows (Some (row_order row)) rows)
          /\ (forall p, c p + count_of (of_purpose p) (row :: rows) <= 16)
          /\ (forall p, a p + count_of (active_of p) (row :: rows) <= 1)
          /\ Forall origin_ok (row :: rows)
          /\ result = map (fun p => a p + count_of (active_of p) (row :: rows)) ALL_PURPOSES) as Hend.
    { intros Ha' Ho. rewrite (IH _ _ _ Hc' Ha'), Forall_cons, (map_ext _ _ Hca).
      setoid_rewrite Hcc. setoid_rewrite Hca. tauto. }
    case_bool_decide as Hst.
    + unfold p. rewrite (count_up_active _ _ Hst), nth_purposes. fold p.
      assert (counted a active_of row p = a p + 1) as Hap.
      { unfold counted, active_of, of_purpose. by rewrite !bool_decide_true. }
      destruct (Z.ltb_spec 1 (counted a active_of row p)) as [Hlt|Hle'].
      { split; [done|]. intros (_ & _ & _ & Hb & _). specialize (Hb p). rewrite <- Hca in Hb.
        pose proof (count_of_pos (active_of p) rows). lia. }
      destruct (bool_decide (take 32 _ = _)) eqn:Ho; cbn [negb].
      * apply Hend; [|intros _; by apply bool_decide_eq_true in Ho]. intros q.
        destruct (decide (q = p)) as [-> | Hq]; [done|]. specialize (Ha q).
        unfold counted, active_of, of_purpose. rewrite bool_decide_false by (by intros <-). cbn. lia.
      * split; [done|]. intros (_ & _ & _ & _ & [Hor _]%Forall_cons & _).
        apply bool_decide_eq_false in Ho. by destruct (Ho (Hor Hst)).
    + rewrite <- (counted_inactive a row Hst). apply Hend; [|by intros Hx; destruct (Hst Hx)]. intros q. specialize (Ha q).
      unfold counted, active_of. rewrite (bool_decide_false _ Hst), andb_false_r. lia.
Qed.

(** The validator accepts exactly the valid manifests. *)
Lemma validate_manifest_exact rows :
  validate_state_mac_key_manifest rows selected prebootstrap = Ok tt
  <-> manifest_ok rows selected prebootstrap.
Proof.
  unfold validate_state_mac_key_manifest.
  change (repeat 0 11) with (map (fun _ : MacPurpose => 0) ALL_PURPOSES). rewrite bind_Ok. split.
  - intros (result & (_ & Hs & Hb & _ & Ho & ->)%manifest_loop_Ok & Hx); [|done..].
    split; [done|intros p; specialize (Hb p); lia|..].
    + intros p. destruct (existsb _ _) eqn:He; [done|].
      assert (forall x, In x (map (fun p => 0 + count_of (active_of p) rows) ALL_PURPOSES) -> x = 1) as Hall.
      { intros x Hin. destruct (Z.eqb_spec x 1) as [|Hne]; [done|].
        assert (existsb (fun count => negb (count =? 1)) (map (fun p => 0 + count_of (active_of p) rows)
          ALL_PURPOSES) = true) as Ht; [|congruence].
        apply existsb_exists. exists x. split; [done|]. by rewrite (proj2 (Z.eqb_neq _ _) Hne). }
      apply Hall, in_map_iff. exists p. split; [lia|]. apply list_elem_of_In, all_purposes.
    + intros row Hin. rewrite Forall_forall in Ho. by apply Ho.
  - intros [Hs Hb Ha Ho]. eexists. split.
    + apply manifest_loop_Ok; [done..|]. split; [done|]. split; [done|].
      split; [intros p; specialize (Hb p); lia|]. split; [intros p; rewrite Ha; lia|].
      split; [|done]. apply Forall_forall. intros row Hin Hact. by apply Ho.
    + rewrite (map_ext _ (fun _ => 1)) by (intros p; rewrite Ha; lia). done.
Qed.
End manifest.

Section high_water.
Context (selected : bytes).

Import HighWater.

Definition hw_of (p : MacPurpose) (h : StateMacKeyHighWater) : bool := bool_decide (hw_purpose h = p).

(** The high water that the list holds for a purpose. *)
Definition hw_find (p : MacPurpose) (l : list StateMacKeyHighWater) : option Z :=
  joined_serial <$> List.find (hw_of p) l.

Lemma by_purpose_loop_Ok l f result :
  by_purpose_loop (map f ALL_PURPOSES) l = Ok result
  <-> (forall p, count_of (hw_of p) l <= (if f p is Some _ then 0 else 1))
      /\ result = map (fun p => match f p with Some x => Some x | None => hw_find p l end) ALL_PURPOSES.
Proof.
  revert f. induction l as [|h l IH]; intros f; cbn [by_purpose_loop].
  - split.
    + intros <-%Ok_inj. split; [intros p; rewrite count_of_nil; by case_match|].
      apply map_ext. intros p. by destruct (f p).
    + intros [_ ->]. apply (f_equal Ok), map_ext. intros p. by destruct (f p).
  - rewrite nth_purposes. destruct (f (hw_purpose h)) as [x|] eqn:Hf.
    + split; [done|]. intros [Hc _]. specialize (Hc (hw_purpose h)).
      rewrite Hf, count_of_cons in Hc. unfold hw_of at 1 in Hc. rewrite bool_decide_true in Hc by done.
      pose proof (count_of_pos (hw_of (hw_purpose h)) l). lia.
    + rewrite insert_purposes, IH. split.
      * intros [Hc ->]. split.
        -- intros p. specialize (Hc p). rewrite count_of_cons. unfold hw_of at 1.
           pose proof (count_of_pos (hw_of p) l).
           destruct (decide (p = hw_purpose h)) as [-> | Hp].
           ++ rewrite bool_decide_true, Hf by done. cbn in Hc. lia.
           ++ rewrite bool_decide_false by done. by case_match; lia.
        -- apply map_ext. intros p. unfold hw_find, hw_of. cbn [List.find].
           destruct (decide (p = hw_purpose h)) as [-> | Hp].
           ++ by rewrite Hf, bool_decide_true.
           ++ rewrite (bool_decide_false _ (not_eq_sym Hp)). done.
      * intros [Hc ->]. split.
        -- intros p. specialize (Hc p). rewrite count_of_cons in Hc. unfold hw_of at 1 in Hc.
           destruct (decide (p = hw_purpose h)) as [-> | Hp].
           ++ rewrite bool_decide_true, Hf in Hc by done. lia.
           ++ rewrite bool_decide_false in Hc by done. by case_match; lia.
        -- apply map_ext. intros p. unfold hw_find, hw_of. cbn [List.find].
           destruct (decide (p = hw_purpose h)) as [-> | Hp].
           ++ by rewrite Hf, bool_decide_true.
           ++ rewrite (bool_decide_false _ (not_eq_sym Hp)). done.
Qed.

(** One entry of a purpose is the one that is found. *)
Lemma hw_find_unique p l :
  count_of (hw_of p) l <= 1 ->
  match hw_find p l with
  | Some x => count_of (hw_of p) l = 1
              /\ forall h, h ∈ l -> hw_purpose h = p -> x = joined_serial h
  | None => count_of (hw_of p) l = 0
  end.
Proof.
  intros Hc. unfold hw_find. induction l as [|h l IH]; [done|]. cbn [List.find].
  rewrite count_of_cons in Hc |- *. pose proof (count_of_pos (hw_of p) l) as Hpos.
  destruct (hw_of p h) eqn:Hh.
  - cbn [fmap option_fmap option_map]. split; [lia|]. intros k Hk Hp.
    apply list_elem_of_In in Hk as [-> | Hk]; [done|]. exfalso.
    assert (0 < count_of (hw_of p) l); [|lia]. unfold count_of.
    assert (In k (List.filter (hw_of p) l)) as Hin
      by (apply filter_In; split; [done|by apply bool_decide_eq_true]).
    destruct (List.filter (hw_of p) l); [done|cbn; lia].
  - specialize (IH ltac:(lia)). destruct (joined_serial <$> List.find (hw_of p) l) as [x|].
    + destruct IH as [-> IH]. split; [done|]. intros k Hk Hp.
      apply list_elem_of_In in Hk as [-> | Hk].
      * unfold hw_of in Hh. by rewrite bool_decide_true in Hh.
      * apply IH; [by apply list_elem_of_In|done].
    + lia.
Qed.

Lemma serials_loop_Ok (g : MacPurpose -> Z) rows :
  serials_loop selected (map g ALL_PURPOSES) rows = Ok tt
  <-> forall row, row ∈ rows -> take 32 (key_id (reference row)) = selected ->
      of_be_bytes (drop 32 (key_id (reference row))) <= g (purpose (reference row)).
Proof.
  setoid_rewrite list_elem_of_In. induction rows as [|row rows IH]; [by split|].
  cbn [serials_loop In]. rewrite nth_purposes. case_bool_decide as Hs; cbn [negb].
  - destruct (Z.ltb_spec (g (purpose (reference row))) (of_be_bytes (drop 32 (key_id (reference row)))))
      as [Hlt|Hle].
    + split; [done|]. intros Hr. specialize (Hr row (or_introl eq_refl) Hs). lia.
    + rewrite IH. split; [|by auto]. intros Hr r [<-|Hin]; auto.
  - rewrite IH. split; [|by auto]. intros Hr r [<-|Hin] Ht; [done|auto].
Qed.

(** The validator accepts exactly the valid high waters. *)
Lemma validate_high_water_exact rows l :
  validate_state_mac_key_high_water rows selected l = Ok tt <-> high_water_ok rows selected l.
Proof.
  unfold validate_state_mac_key_high_water. rewrite bind_Ok.
  change (repeat (@None Z) 11) with (map (fun _ : MacPurpose => @None Z) ALL_PURPOSES).
  setoid_rewrite by_purpose_loop_Ok. split.
  - intros (bp & [Hc ->] & (resolved & Hm & Hs)%bind_Ok).
    assert (exists g, (forall p, hw_find p l = Some (g p)) /\ resolved = map g ALL_PURPOSES) as (g & Hg & ->).
    { apply mapM_Ok in Hm. exists (fun p => nth (purpose_index p) resolved 0).
      unfold ALL_PURPOSES in Hm. cbn [map] in Hm.
      do 11 (apply Forall2_cons_inv_l in Hm as (? & ? & ?%ok_or_Ok & Hm & ->)).
      apply Forall2_nil_inv_l in Hm as ->. split; [by intros []|done]. }
    pose proof (proj1 (serials_loop_Ok g rows) Hs) as Hs'. split.
    + intros p. pose proof (hw_find_unique p l (Hc p)) as Hu. rewrite Hg in Hu. apply Hu.
    + intros row h Hrow Hh Hp Ht. pose proof (hw_find_unique (purpose (reference row)) l (Hc _)) as Hu.
      rewrite Hg in Hu. destruct Hu as [_ Hu]. rewrite <- (Hu h Hh Hp). by apply Hs'.
  - intros [Hc Hs].
    assert (forall p, exists x, hw_find p l = Some x) as Hf.
    { intros p. pose proof (hw_find_unique p l) as Hu. fold (hw_of p) in Hc. unfold hw_of in Hu.
      specialize (Hc p). destruct (hw_find p l) as [x|]; [by exists x|].
      unfold hw_of in Hu. rewrite Hc in Hu. specialize (Hu ltac:(lia)). lia. }
    set (g p := default 0 (hw_find p l)).
    assert (forall p, hw_find p l = Some (g p)) as Hg
      by (intros p; unfold g; by destruct (Hf p) as [x ->]).
    eexists. split; [split; [|done]; intros p; change (count_of (hw_of p) l <= 1); unfold hw_of; rewrite Hc; lia|].
    apply bind_Ok. exists (map g ALL_PURPOSES). split.
    + apply mapM_Ok. unfold ALL_PURPOSES. cbn [map]. rewrite !Hg. repeat constructor.
    + apply serials_loop_Ok. intros row Hrow Ht.
      specialize (Hg (purpose (reference row))). unfold hw_find in Hg.
      apply fmap_Some in Hg as (h & [Hin Hp%bool_decide_eq_true]%find_some & ->).
      apply Hs; [done|by apply list_elem_of_In|done|done].
Qed.
End high_water.

(** ** What a snapshot is read from *)

Definition high_water_of (raw : MetaRow.RawStateMacKeyHighWater) (h : StateMacKeyHighWater) : Prop :=
  MetaRow.raw_purpose raw = purpose_code (hw_purpose h)
  /\ MetaRow.raw_serial_hi raw = serial_hi h /\ MetaRow.raw_serial_lo raw = serial_lo h
  /\ is_u32 (serial_hi h) = true /\ is_u32 (serial_lo h) = true.

Definition status_code (s : StateMacKeyManifestStatus) : Z :=
  match s with Active => 1 | Retained => 2 end.

(** The identity is the origin followed by the serial, which is not zero. *)
Definition row_of (raw : RawStateMacKeyManifestRow) (row : StateMacKeyManifestRow) : Prop :=
  raw_purpose raw = purpose_code (purpose (reference row))
  /\ raw_status raw = status_code (status row) /\ raw_created_at raw = created_at row
  /\ length (raw_origin raw) = 32%nat
  /\ is_u32 (raw_serial_hi raw) = true /\ is_u32 (raw_serial_lo raw) = true
  /\ (raw_serial_hi raw <> 0 \/ raw_serial_lo raw <> 0)
  /\ key_id (reference row)
     = raw_origin raw ++ be_bytes 4 (raw_serial_hi raw) ++ be_bytes 4 (raw_serial_lo raw).

Lemma decode_high_water_Ok raw h : MetaRow.decode_high_water raw = Ok h <-> high_water_of raw h.
Proof.
  unfold MetaRow.decode_high_water, high_water_of. rewrite bind_Ok. setoid_rewrite purpose_from_Ok. split.
  - intros (p & Hp & Hx). destruct (is_u32 (MetaRow.raw_serial_hi raw)) eqn:Hhi; [|done].
    rewrite Ok_bind in Hx. destruct (is_u32 (MetaRow.raw_serial_lo raw)) eqn:Hlo; [|done].
    by injection Hx as <-.
  - intros (Hp & Hhi & Hlo & Uhi & Ulo). exists (hw_purpose h). split; [done|].
    rewrite Hhi, Hlo, Uhi, Ulo. by destruct h.
Qed.

Lemma status_from_Ok c s : status_from_i64 c = Ok s <-> c = status_code s.
Proof.
  split; [unfold status_from_i64; repeat case_match; intros Heq; inversion Heq; done|].
  intros ->. by destruct s.
Qed.

Lemma limb_from_Ok v n : limb_from_i64 v = Ok n <-> n = v /\ is_u32 v = true.
Proof. unfold limb_from_i64. destruct (is_u32 v); naive_solver. Qed.

Lemma decode_row_Ok raw row : decode_state_mac_key_manifest_row raw = Ok row <-> row_of raw row.
Proof.
  unfold decode_state_mac_key_manifest_row, row_of. rewrite bind_Ok. setoid_rewrite purpose_from_Ok.
  setoid_rewrite bind_Ok. setoid_rewrite status_from_Ok. setoid_rewrite bind_Ok. setoid_rewrite try_array_Ok.
  setoid_rewrite bind_Ok. setoid_rewrite limb_from_Ok. setoid_rewrite bind_Ok. setoid_rewrite limb_from_Ok. split.
  - intros (p & Hp & s & Hs & o & [Ho ->] & hi & [-> Hhi] & lo & [-> Hlo] & Hx).
    destruct ((_ =? 0) && _) eqn:Hz; [done|]. injection Hx as <-. cbn.
    apply andb_false_iff in Hz. rewrite !Z.eqb_neq in Hz. done.
  - intros (Hp & Hs & Hc & Ho & Hhi & Hlo & Hz & Hid). exists (purpose (reference row)). split; [done|].
    exists (status row). split; [done|]. exists (raw_origin raw). split; [done|].
    exists (raw_serial_hi raw). split; [done|]. exists (raw_serial_lo raw). split; [done|].
    replace ((_ =? 0) && _) with false by (symmetry; apply andb_false_iff; rewrite !Z.eqb_neq; tauto).
    rewrite <- Hid, Hc. by destruct row as [[]].
Qed.

Lemma invalid_Ok {E A : Type} (r : result E A) a : Snapshot.invalid r = Ok a -> r = Ok a.
Proof. destruct r; cbn; naive_solver. Qed.

(** C23: A snapshot is accepted exactly when its rows decode and its keys are usable: eleven
    purposes, each with one active key of the right origin, rows in strict order, and no
    serial of the selected origin above the high water of its purpose. *)
Theorem compose_snapshot_exact raw prebootstrap facts :
  Snapshot.compose_state_mac_key_snapshot raw prebootstrap = Ok facts
  <-> length (Snapshot.raw_selected_origin raw) = 32%nat
      /\ Snapshot.selected_origin facts = Snapshot.raw_selected_origin raw
      /\ Forall2 high_water_of (Snapshot.raw_high_waters raw) (Snapshot.high_waters facts)
      /\ Forall2 row_of (Snapshot.raw_manifest_rows raw) (Snapshot.manifest_rows facts)
      /\ manifest_ok (Snapshot.manifest_rows facts) (Snapshot.selected_origin facts) prebootstrap
      /\ high_water_ok (Snapshot.manifest_rows facts) (Snapshot.selected_origin facts)
           (Snapshot.high_waters facts).
Proof.
  unfold Snapshot.compose_state_mac_key_snapshot, MetaRow.decode_state_mac_key_meta_rows.
  assert (forall l k, mapM MetaRow.decode_high_water l = Ok k <-> Forall2 high_water_of l k) as Hhw.
  { intros l k. rewrite mapM_Ok. split; intros Hf; (eapply Forall2_impl; [exact Hf|intros; by apply decode_high_water_Ok]). }
  assert (forall l k, mapM decode_state_mac_key_manifest_row l = Ok k <-> Forall2 row_of l k) as Hrows.
  { intros l k. rewrite mapM_Ok. split; intros Hf; (eapply Forall2_impl; [exact Hf|intros; by apply decode_row_Ok]). }
  split.
  - intros (meta & (o & [Ho ->]%try_array_Ok & (l & Hl & <-%Ok_inj)%bind_Ok)%invalid_Ok%bind_Ok & Hx)%bind_Ok.
    apply bind_Ok in Hx as (rows & Hr%invalid_Ok & Hx).
    apply bind_Ok in Hx as ([] & Hm%invalid_Ok & Hx). apply bind_Ok in Hx as ([] & Hh%invalid_Ok & <-%Ok_inj).
    split; [done|]. split; [done|]. split; [by apply Hhw|]. split; [by apply Hrows|].
    split; [by apply validate_manifest_exact|by apply validate_high_water_exact].
  - destruct facts as [o l rows]. cbn. intros (Ho & -> & Hl & Hr & Hm & Hh).
    apply Hhw in Hl. apply Hrows in Hr. apply validate_manifest_exact in Hm. apply validate_high_water_exact in Hh.
    rewrite (proj2 (try_array_Ok 32 _ _ _)) by done. rewrite Ok_bind, Hl, Ok_bind.
    unfold Snapshot.invalid, map_err. cbn [MetaRow.selected_origin MetaRow.high_waters].
    rewrite Ok_bind, Hr, Ok_bind. cbn [MetaRow.selected_origin MetaRow.high_waters].
    by rewrite Hm, Ok_bind, Hh, Ok_bind.
Qed.

(** ** Paths *)

Lemma purpose_code_inj p q : purpose_code p = purpose_code q -> p = q.
Proof. by destruct p, q. Qed.

(** Different keys lie at different paths. *)
Theorem relative_path_injective a b :
  array 40 (key_id a) = true -> array 40 (key_id b) = true ->
  state_mac_key_relative_path a = state_mac_key_relative_path b -> a = b.
Proof.
  intros Ha%is_bytes_array Hb%is_bytes_array Hp. unfold state_mac_key_relative_path in Hp.
  apply app_inv_head in Hp. apply app_inj_1 in Hp as [Hc Hp]; [|done].
  apply app_inv_head, hex_bytes_inj in Hp; [|done..].
  assert (purpose a = purpose b) as Hq by (destruct a as [[] ?], b as [[] ?]; done).
  destruct a, b. cbn in *. by subst.
Qed.

(** ** A snapshot that is accepted *)

Definition example_origin : bytes := repeat 3 32.
Definition example_prebootstrap : bytes := repeat 4 32.
Definition example_row (status : Z) (serial : Z) (p : MacPurpose) : RawStateMacKeyManifestRow :=
  ManifestRow.mkRaw (purpose_code p) (origin_for example_origin example_prebootstrap p) 0 serial status 17.

(** Every purpose has an active key, and the first a retained one before it. *)
Definition example_snapshot : Snapshot.SelectedKeySnapshotRaw :=
  Snapshot.mkSnapshotRaw example_origin
    (map (fun p => MetaRow.mkRaw (purpose_code p) 0 9) ALL_PURPOSES)
    (example_row 2 4 ApiKeyVerifyV1 :: map (example_row 1 5) ALL_PURPOSES).

Example example_snapshot_composes :
  is_ok (Snapshot.compose_state_mac_key_snapshot example_snapshot example_prebootstrap) = true.
Proof. by vm_compute. Qed.

(** A serial above the high water of its purpose is refused. *)
Example example_snapshot_rejected :
  Snapshot.compose_state_mac_key_snapshot
    (Snapshot.mkSnapshotRaw example_origin (map (fun p => MetaRow.mkRaw (purpose_code p) 0 4) ALL_PURPOSES)
       (map (example_row 1 5) ALL_PURPOSES)) example_prebootstrap = Err Snapshot.InvalidSnapshot.
Proof. by vm_compute. Qed.
