(* ===== verification/StateMacDirectory.v ===== *)
(** * State MAC keys on disk ([state_mac_key_reader.rs] and
    [state_mac_key_directory_verifier.rs] of [crates/msgriver/src])

    Reading one key of a generation, and verifying that a generation holds exactly the
    keys of its manifest: one directory per purpose, one authenticated file per row. Both
    only read, so the generation is an argument and nothing changes it meanwhile. *)

From S2P Require Import Prelude Bytes Text CoreError Generation Ring Sha256 Codec Journal.
From S2P Require Import Host Durable Platform StateMacKeys.
Import StateMacKeys.KeyFile StateMacKeys.ManifestRow.

#[local] Open Scope Z_scope.

(** A purpose's directory: its metadata, the names that reading it yields, its files. *)
Record KeyDirectory : Type := mkKeyDirectory {
  key_stat : DirStat;
  key_listing : list bytes;
  key_files : Directory;
}.

(** The directory [mac] of a generation: the names reading it yields, and what they are. *)
Record Generation : Type := mkGeneration {
  mac_listing : option (list bytes);
  purposes : gmap bytes KeyDirectory;
}.

Section calls.
Context {E : Type} (e : E).

(** [openat] of a directory, and [statat] or [openat] of a file in an open one. *)
Definition open_at {X : Type} (found : option X) : Io E X :=
  _ ← system_call e; pure (ok_or found e).
Definition look_in (d : Directory) (name : bytes) : Io E (nat * Inode) :=
  _ ← system_call e; pure (ok_or (entry d name) e).
End calls.

Definition is_owner_only_state_key_file (uid : Z) (i : Inode) : bool :=
  owner_only uid i && (length (i_data i) =? 106)%nat.

Section with_hmac.
Context `{HmacSha256}.

(** Inspecting, opening, reading and authenticating a leaf, as both sources do it. *)
Definition read_leaf {E : Type} (e : E) (d : Directory) (leaf : bytes) (key : JournalIntegrityKey)
    (reference : MacKeyRef) : Io E StateMacKeySecret :=
  before ← look_in e d leaf;
  uid ← ask euid;
  if negb (is_owner_only_state_key_file uid before.2) then pure (Err e)
  else
    file ← look_in e d leaf;
    _ ← system_call e;
    if negb (is_owner_only_state_key_file uid file.2) || negb (before.1 =? file.1)%nat
    then pure (Err e)
    else
      wire ← read_once e 106 (i_data file.2);
      if negb (length wire =? 106)%nat then pure (Err e)
      else
        eof ← read_once e 1 (drop (length wire) (i_data file.2));
        if negb (length eof =? 0)%nat then pure (Err e)
        else pure (map_err (fun _ => e) (decode_state_mac_key_file key reference wire)).

(** ** [state_mac_key_reader.rs] *)

Inductive StateMacKeyReaderError : Type := MissingStateKeyReader | InvalidStateKeyReader.

Definition purpose_name (p : MacPurpose) : bytes := hex_byte (purpose_code p).

(** [path.0[7..]]. *)
Definition leaf_name (reference : MacKeyRef) : bytes :=
  drop 7 (state_mac_key_relative_path reference).

Definition read_state_mac_key (generation : Generation) (key : JournalIntegrityKey)
    (reference : MacKeyRef) : Io StateMacKeyReaderError StateMacKeySecret :=
  let path := state_mac_key_relative_path reference in
  _ ← open_at InvalidStateKeyReader (mac_listing generation);
  purpose_directory ← open_at InvalidStateKeyReader (purposes generation !! slice path 4 6);
  read_leaf InvalidStateKeyReader (key_files purpose_directory) (drop 7 path) key reference.

(** ** [state_mac_key_directory_verifier.rs] *)

Inductive StateMacKeyDirectoryVerifierError : Type :=
| MissingStateMacKeyDirectoryVerifier | InvalidStateMacKeyDirectoryVerifier.

#[local] Abbreviation INVALID := InvalidStateMacKeyDirectoryVerifier.
#[local] Abbreviation VerifierIo := (Io StateMacKeyDirectoryVerifierError).

Definition PURPOSE_NAMES : list bytes :=
  as_bytes <$> ["01"; "02"; "03"; "04"; "05"; "06"; "07"; "08"; "09"; "0a"; "0b"]%string.

(** The loop over the rows; an [ExpectedPurpose] is the list of its references. *)
Fixpoint expected_loop (purposes : list (list MacKeyRef)) (rows : list StateMacKeyManifestRow)
    : result StateMacKeyDirectoryVerifierError (list (list MacKeyRef)) :=
  match rows with
  | [] => Ok purposes
  | row :: rows =>
    let index := purpose_index (purpose (reference row)) in
    let expected := nth index purposes [] in
    if (length expected =? 16)%nat then Err INVALID
    else if existsb (fun r => bool_decide (leaf_name r = leaf_name (reference row))) expected
    then Err INVALID
    else expected_loop (<[index := expected ++ [reference row]]> purposes) rows
  end.

Definition expected_purposes (rows : list StateMacKeyManifestRow)
    : result StateMacKeyDirectoryVerifierError (list (list MacKeyRef)) :=
  expected_loop (repeat [] 11) rows.

Definition is_dot (name : bytes) : bool :=
  bool_decide (name = as_bytes ".") || bool_decide (name = as_bytes "..").

(** The loop over a directory's entries: each is expected and seen once, and at the end all
    are seen. [verify_namespace_entries] and the first half of [verify_purpose_entries]. *)
Fixpoint entries_loop (expected : list bytes) (seen : list bool) (listing : list bytes)
    : VerifierIo unit :=
  _ ← system_call INVALID;
  match listing with
  | [] => if existsb negb seen then pure (Err INVALID) else mret tt
  | name :: listing =>
    if is_dot name then entries_loop expected seen listing
    else
      match list_find (fun x => x = name) expected with
      | None => pure (Err INVALID)
      | Some (index, _) =>
        if nth index seen false then pure (Err INVALID)
        else entries_loop expected (<[index := true]> seen) listing
      end
  end.

Definition verify_entries (expected listing : list bytes) : VerifierIo unit :=
  _ ← system_call INVALID;
  entries_loop expected (repeat false (length expected)) listing.

Definition verify_namespace_entries (listing : list bytes) : VerifierIo unit :=
  verify_entries PURPOSE_NAMES listing.

Definition read_authenticated_leaf (d : Directory) (key : JournalIntegrityKey)
    (reference : MacKeyRef) : VerifierIo unit :=
  _ ← read_leaf INVALID d (leaf_name reference) key reference; mret tt.

Fixpoint read_authenticated_leaves (d : Directory) (key : JournalIntegrityKey)
    (references : list MacKeyRef) : VerifierIo unit :=
  match references with
  | [] => mret tt
  | r :: references =>
    _ ← read_authenticated_leaf d key r; read_authenticated_leaves d key references
  end.

Definition verify_purpose_entries (dir : KeyDirectory) (key : JournalIntegrityKey)
    (expected : list MacKeyRef) : VerifierIo unit :=
  _ ← verify_entries (map leaf_name expected) (key_listing dir);
  read_authenticated_leaves (key_files dir) key expected.

Definition is_owner_only_purpose_directory (uid : Z) (metadata : DirStat) : bool :=
  d_directory metadata && (d_mode metadata =? 448) && (d_uid metadata =? uid). (* 0o700 *)

(** The loop over [PURPOSE_NAMES]. *)
Fixpoint purposes_loop (generation : Generation) (key : JournalIntegrityKey)
    (names : list bytes) (expected : list (list MacKeyRef)) : VerifierIo unit :=
  match names, expected with
  | name :: names, references :: expected =>
    purpose ← open_at INVALID (purposes generation !! name);
    _ ← system_call INVALID;
    uid ← ask euid;
    if negb (is_owner_only_purpose_directory uid (key_stat purpose)) then pure (Err INVALID)
    else
      _ ← verify_purpose_entries purpose key references;
      purposes_loop generation key names expected
  | _, _ => mret tt
  end.

Definition verify_state_mac_key_directory (generation : Generation) (key : JournalIntegrityKey)
    (rows : list StateMacKeyManifestRow) : VerifierIo unit :=
  expected ← pure (expected_purposes rows);
  listing ← open_at INVALID (mac_listing generation);
  _ ← verify_namespace_entries listing;
  purposes_loop generation key PURPOSE_NAMES expected.
End with_hmac.

(** ** What a success shows *)

Lemma look_in_Ok {E : Type} (e : E) d name h h' r :
  look_in e d name h = (h', Returned (Ok r)) -> h' = set_outcomes (outcomes h') h /\ entry d name = Some r.
Proof.
  intros (h1 & [] & H1%system_call_Ok & [-> Hr%ok_or_Ok]%pure_Ok)%io_bind_Ok. done.
Qed.

Lemma open_at_Ok {E X : Type} (e : E) (found : option X) h h' x :
  open_at e found h = (h', Returned (Ok x)) -> h' = set_outcomes (outcomes h') h /\ found = Some x.
Proof.
  intros (h1 & [] & H1%system_call_Ok & [-> Hr%ok_or_Ok]%pure_Ok)%io_bind_Ok. done.
Qed.

Section entries.
Context (expected : list bytes).

Definition entry_names (listing : list bytes) : list bytes :=
  List.filter (fun name => negb (is_dot name)) listing.

#[local] Abbreviation position name := (fst <$> list_find (fun x => x = name) expected).

Lemma position_lookup name i : position name = Some i -> expected !! i = Some name.
Proof. intros ([j x] & (Hx & -> & _)%list_find_Some & ->)%fmap_Some. done. Qed.

Lemma entries_loop_Ok seen listing h h' :
  length seen = length expected ->
  entries_loop expected seen listing h = (h', Returned (Ok tt)) ->
  h' = set_outcomes (outcomes h') h
  /\ NoDup (entry_names listing)
  /\ (forall x, x ∈ entry_names listing -> exists i, position x = Some i /\ nth i seen false = false)
  /\ (forall i, (i < length seen)%nat ->
      nth i seen false = true \/ exists x, x ∈ entry_names listing /\ position x = Some i).
Proof.
  revert seen h. induction listing as [|name listing IH]; intros seen h Hl;
    cbn [entries_loop]; intros (h1 & [] & H1%system_call_Ok & Hx)%io_bind_Ok.
  - destruct (existsb negb seen) eqn:Hs; [done|]. injection Hx as <-. split; [done|].
    split; [constructor|]. split; [intros x Hx%not_elem_of_nil; done|]. intros i Hi. left.
    destruct (nth i seen false) eqn:Hn; [done|].
    assert (existsb negb seen = true); [|congruence]. apply existsb_exists.
    exists false. split; [|done]. rewrite <- Hn. by apply nth_In.
  - unfold entry_names. cbn [List.filter]. destruct (is_dot name) eqn:Hd; cbn [negb].
    { apply IH in Hx as (Hh & Hx); [|done]. split; [by rewrite Hh, H1|done]. }
    destruct (list_find _ expected) as [[i x]|] eqn:Hf; [|done].
    destruct (nth i seen false) eqn:Hn; [done|].
    assert (position name = Some i) as Hp by (apply fmap_Some; exists (i, x); by split).
    pose proof (lookup_lt_Some _ _ _ (position_lookup _ _ Hp)) as Hlt.
    apply IH in Hx as (Hh & Hnd & Hpos & Hcov); [|by rewrite length_insert].
    assert (forall j, nth j (<[i:=true]> seen) false = if decide (j = i) then true else nth j seen false) as Hnth.
    { intros j. rewrite !nth_lookup. case_decide as Hj.
      - subst j. by rewrite list_lookup_insert_eq by lia.
      - by rewrite list_lookup_insert_ne. }
    split; [by rewrite Hh, H1|]. fold (entry_names listing). split; [|split].
    + constructor; [|done]. intros (j & Hj & Hjn)%Hpos. rewrite Hp in Hj. injection Hj as <-.
      by rewrite Hnth, decide_True in Hjn.
    + intros y [-> | (j & Hj & Hjn)%Hpos]%elem_of_cons; [by exists i|]. exists j. split; [done|].
      rewrite Hnth in Hjn. by case_decide.
    + intros j Hj. rewrite length_insert in Hcov. destruct (Hcov j Hj) as [Hc|(y & Hy & Hc)].
      * rewrite Hnth in Hc. case_decide as Hji; [|by left]. subst j. right. exists name.
        split; [constructor|done].
      * right. exists y. split; [by constructor|done].
Qed.

Lemma verify_entries_Ok listing h h' :
  verify_entries expected listing h = (h', Returned (Ok tt)) ->
  h' = set_outcomes (outcomes h') h /\ entry_names listing ≡ₚ expected.
Proof.
  intros (h1 & [] & H1%system_call_Ok & Hx)%io_bind_Ok.
  apply entries_loop_Ok in Hx as (Hh & Hnd & Hpos & Hcov); [|by rewrite repeat_length].
  split; [by rewrite Hh, H1|].
  assert (forall i x, expected !! i = Some x -> x ∈ entry_names listing /\ position x = Some i) as Hall.
  { intros i x Hi. pose proof (lookup_lt_Some _ _ _ Hi) as Hlt.
    rewrite repeat_length in Hcov. destruct (Hcov i Hlt) as [Hc|(y & Hy & Hp)]; [by rewrite nth_repeat in Hc|].
    pose proof (position_lookup _ _ Hp) as Hi'. rewrite Hi in Hi'. by injection Hi' as <-. }
  apply NoDup_Permutation; [done| |].
  - apply NoDup_alt. intros i j x [_ Hi]%Hall [_ Hj]%Hall. congruence.
  - intros x. split.
    + intros (i & Hp & _)%Hpos. by eapply list_elem_of_lookup_2, position_lookup.
    + intros [i Hi]%list_elem_of_lookup_1. by apply Hall in Hi as [? _].
Qed.
End entries.

Lemma filter_names l : List.filter (fun name => negb (is_dot name)) l = entry_names l.
Proof. done. Qed.

Section with_hmac.
Context `{HmacSha256}.

(** The rows' references of a purpose, in the order of the rows. *)
Definition references_of (p : MacPurpose) (rows : list StateMacKeyManifestRow) : list MacKeyRef :=
  map reference (List.filter (of_purpose p) rows).

Lemma expected_loop_Ok f rows result :
  expected_loop (map f ALL_PURPOSES) rows = Ok result ->
  result = map (fun p => f p ++ references_of p rows) ALL_PURPOSES.
Proof.
  revert f. induction rows as [|row rows IH]; intros f; cbn [expected_loop].
  - intros <-%Ok_inj. apply map_ext. intros p. by rewrite app_nil_r.
  - rewrite nth_purposes. destruct (_ =? 16)%nat; [done|]. destruct (existsb _ _); [done|].
    rewrite insert_purposes. intros ->%IH. apply map_ext. intros p. unfold references_of, of_purpose.
    cbn [List.filter]. case_decide as Hp.
    + subst p. rewrite bool_decide_true by done. cbn [map]. by rewrite <- app_assoc.
    + by rewrite bool_decide_false by (by intros <-).
Qed.

Lemma read_leaf_Ok {E : Type} (e : E) d leaf key reference h h' s :
  read_leaf e d leaf key reference h = (h', Returned (Ok s)) ->
  h' = set_outcomes (outcomes h') h
  /\ exists n i, entry d leaf = Some (n, i) /\ is_owner_only_state_key_file (euid h) i = true
     /\ decode_state_mac_key_file key reference (i_data i) = Ok s.
Proof.
  intros (h1 & [n i] & [H1 He]%look_in_Ok & (h2 & uid & [= <- <-] & Hx)%io_bind_Ok)%io_bind_Ok.
  cbn [fst snd] in Hx. destruct (is_owner_only_state_key_file (euid h1) i) eqn:Hi; [|done].
  apply io_bind_Ok in Hx as (h2 & [m j] & [H2 He2]%look_in_Ok & (h3 & [] & H3%system_call_Ok & Hx)%io_bind_Ok).
  rewrite He in He2. injection He2 as <- <-. cbn [fst snd] in Hx. rewrite Hi, Nat.eqb_refl in Hx. cbn [negb orb] in Hx.
  apply io_bind_Ok in Hx as (h4 & wire & [H4 (count & _ & Hw)]%read_once_Ok & Hx).
  destruct (length wire =? 106)%nat eqn:Hl; [|done]. apply Nat.eqb_eq in Hl.
  apply io_bind_Ok in Hx as (h5 & eof & [H5 _]%read_once_Ok & Hx).
  destruct (length eof =? 0)%nat; [|done]. apply pure_Ok in Hx as [-> Hd].
  assert (wire = i_data i) as ->.
  { unfold is_owner_only_state_key_file in Hi. apply andb_true_iff in Hi as [_ Hlen%Nat.eqb_eq].
    rewrite Hw in Hl |- *. rewrite length_take in Hl. apply take_ge. lia. }
  split; [by rewrite H5, H4, H3, H2, H1|]. exists n, i. split; [done|].
  split; [by rewrite H1 in Hi|]. by destruct (decode_state_mac_key_file key reference (i_data i)); simplify_eq/=.
Qed.

(** A purpose's directory holds exactly its keys: no other name, and under each reference's
    name a private file that authenticates for that reference. *)
Record holds_keys (key : JournalIntegrityKey) (uid : Z) (references : list MacKeyRef) (dir : KeyDirectory)
    : Prop := mkHoldsKeys {
  keys_private : is_owner_only_purpose_directory uid (key_stat dir) = true;
  keys_named : entry_names (key_listing dir) ≡ₚ map leaf_name references;
  keys_read r : r ∈ references -> exists n i s,
    entry (key_files dir) (leaf_name r) = Some (n, i) /\ is_owner_only_state_key_file uid i = true
    /\ decode_state_mac_key_file key r (i_data i) = Ok s;
}.

Lemma read_leaves_Ok d key references h h' :
  read_authenticated_leaves d key references h = (h', Returned (Ok tt)) ->
  h' = set_outcomes (outcomes h') h
  /\ forall r, r ∈ references -> exists n i s,
     entry d (leaf_name r) = Some (n, i) /\ is_owner_only_state_key_file (euid h) i = true
     /\ decode_state_mac_key_file key r (i_data i) = Ok s.
Proof.
  revert h. induction references as [|r references IH]; intros h; cbn [read_authenticated_leaves].
  - intros [= <-]. split; [by destruct h|]. by intros r Hr%not_elem_of_nil.
  - intros (h1 & [] & (h0 & s & [H0 (n & i & Hl)]%read_leaf_Ok & [= H1])%io_bind_Ok & [H2 Hr]%IH)%io_bind_Ok.
    rewrite H1 in H0. split; [by rewrite H2, H0|].
    rewrite H0 in Hr. intros q [-> | Hq]%elem_of_cons; [|by apply Hr]. exists n, i, s. by destruct Hl as (? & ? & ?).
Qed.

Lemma purposes_loop_Ok generation key names expected h h' :
  length names = length expected ->
  purposes_loop generation key names expected h = (h', Returned (Ok tt)) ->
  h' = set_outcomes (outcomes h') h
  /\ Forall2 (fun name references => exists dir,
       purposes generation !! name = Some dir /\ holds_keys key (euid h) references dir) names expected.
Proof.
  revert expected h. induction names as [|name names IH]; intros [|references expected] h Hl; try done;
    cbn [purposes_loop].
  - intros [= <-]. split; [by destruct h|constructor].
  - intros (h1 & dir & [H1 Hd]%open_at_Ok & (h2 & [] & H2%system_call_Ok & Hx)%io_bind_Ok)%io_bind_Ok.
    apply io_bind_Ok in Hx as (h3 & uid & [= <- <-] & Hx).
    destruct (is_owner_only_purpose_directory (euid h2) (key_stat dir)) eqn:Hp; [|done].
    apply io_bind_Ok in Hx as (h3 & [] & (h4 & [] & [H4 Hn]%verify_entries_Ok & [H3 Hr]%read_leaves_Ok)%io_bind_Ok & Hx).
    apply IH in Hx as [Hh Hf]; [|by injection Hl]. split; [by rewrite Hh, H3, H4, H2, H1|].
    rewrite H3, H4, H2, H1 in Hf. rewrite H4, H2, H1 in Hr. rewrite H2, H1 in Hp. cbn in *.
    constructor; [|done]. exists dir. split; [done|]. by split.
Qed.

Lemma verify_directory_Ok generation key rows h h' :
  verify_state_mac_key_directory generation key rows h = (h', Returned (Ok tt)) ->
  h' = set_outcomes (outcomes h') h
  /\ (exists listing, mac_listing generation = Some listing /\ entry_names listing ≡ₚ PURPOSE_NAMES)
  /\ forall p, exists dir, purposes generation !! purpose_name p = Some dir
     /\ holds_keys key (euid h) (references_of p rows) dir.
Proof.
  intros (h1 & expected & [-> He]%pure_Ok & (h2 & l & [H2 Hm]%open_at_Ok & Hx)%io_bind_Ok)%io_bind_Ok.
  apply io_bind_Ok in Hx as (h3 & [] & [H3 Hl]%verify_entries_Ok & Hx).
  unfold expected_purposes in He. change (repeat [] 11) with (map (fun _ : MacPurpose => @nil MacKeyRef) ALL_PURPOSES) in He.
  apply expected_loop_Ok in He as ->. cbn [app] in Hx.
  apply purposes_loop_Ok in Hx as [Hh Hf]; [|done].
  split; [by rewrite Hh, H3, H2|]. split; [by exists l|].
  rewrite H3, H2 in Hf. change PURPOSE_NAMES with (map purpose_name ALL_PURPOSES) in Hf. cbn [euid set_outcomes] in Hf.
  intros p. apply (Forall2_lookup_lr _ _ _ (purpose_index p) _ (references_of p rows) Hf); by destruct p.
Qed.

Lemma call_succeeds {E A : Type} (e : E) (f : unit -> Io E A) h n os :
  outcomes h = Moves n :: os -> (system_call e ≫= f) h = f tt (set_outcomes os h).
Proof. intros Ho. unfold system_call, mbind, io_bind, next_outcome. by rewrite Ho. Qed.

(** A read is whole when it is not cut short. *)
Definition whole (o : Outcome) : Prop := exists n, o = Moves n /\ 106 <= n.

Lemma read_whole {E A : Type} (e : E) (f : bytes -> Io E A) h buffer rest n os :
  outcomes h = Moves n :: os -> (Z.of_nat buffer <= n) -> (0 < buffer)%nat ->
  (read_once e buffer rest ≫= f) h = f (take buffer rest) (set_outcomes os h).
Proof.
  intros Ho Hn Hb. unfold read_once, mbind, io_bind, next_outcome. rewrite Ho. cbn.
  by replace (Z.to_nat _) with buffer by lia.
Qed.

Lemma look_in_succeeds {E A : Type} (e : E) (f : nat * Inode -> Io E A) d leaf r h n os :
  outcomes h = Moves n :: os -> entry d leaf = Some r ->
  (look_in e d leaf ≫= f) h = f r (set_outcomes os h).
Proof.
  intros Ho He. unfold look_in. cbv [mbind io_bind system_call next_outcome pure]. rewrite Ho. cbn.
  by rewrite He.
Qed.

Lemma open_at_succeeds {E A X : Type} (e : E) (f : X -> Io E A) found x h n os :
  outcomes h = Moves n :: os -> found = Some x ->
  (open_at e found ≫= f) h = f x (set_outcomes os h).
Proof. intros Ho ->. unfold open_at. cbv [mbind io_bind system_call next_outcome pure]. by rewrite Ho. Qed.

Lemma ask_succeeds {E A X : Type} (q : Host -> X) (f : X -> Io E A) h : (ask q ≫= f) h = f (q h) h.
Proof. done. Qed.

Lemma read_leaf_whole {E : Type} (e : E) d leaf key reference s n i h :
  entry d leaf = Some (n, i) -> is_owner_only_state_key_file (euid h) i = true ->
  decode_state_mac_key_file key reference (i_data i) = Ok s ->
  Forall whole (outcomes h) -> (5 <= length (outcomes h))%nat ->
  exists h', read_leaf e d leaf key reference h = (h', Returned (Ok s)).
Proof.
  intros He Hi Hs Ho Hl. destruct (outcomes h) as [|o1 [|o2 [|o3 [|o4 [|o5 os]]]]] eqn:Hos; cbn in Hl; try lia.
  rewrite !Forall_cons in Ho. destruct Ho as ((n1 & -> & _) & (n2 & -> & _) & (n3 & -> & _) & (n4 & -> & H4) & (n5 & -> & H5) & _).
  exists (set_outcomes os h). unfold read_leaf.
  assert (length (i_data i) = 106%nat) as Hlen
    by (unfold is_owner_only_state_key_file in Hi; apply andb_true_iff in Hi as [_ ?%Nat.eqb_eq]; done).
  rewrite (look_in_succeeds _ _ _ _ _ _ _ _ Hos He), ask_succeeds. cbn [snd fst euid set_outcomes].
  rewrite Hi. cbn [negb].
  erewrite look_in_succeeds by done. erewrite call_succeeds by done. cbn [snd fst].
  rewrite Hi, Nat.eqb_refl. cbn [negb orb].
  erewrite read_whole by (done || lia). rewrite take_ge, Hlen by lia. cbn [Nat.eqb negb].
  erewrite read_whole by (done || lia). rewrite drop_ge by lia. cbn. by rewrite Hs.
Qed.

Lemma reference_in_purpose row rows :
  row ∈ rows -> reference row ∈ references_of (purpose (reference row)) rows.
Proof.
  intros Hr%list_elem_of_In. unfold references_of. apply list_elem_of_In, in_map, filter_In.
  split; [done|]. unfold of_purpose. by apply bool_decide_eq_true.
Qed.

Lemma read_key_whole generation key reference dir references h :
  is_Some (mac_listing generation) -> purposes generation !! purpose_name (purpose reference) = Some dir ->
  holds_keys key (euid h) references dir -> reference ∈ references ->
  Forall whole (outcomes h) -> (7 <= length (outcomes h))%nat ->
  exists s h', read_state_mac_key generation key reference h = (h', Returned (Ok s)).
Proof.
  intros [listing Hm] Hd [_ _ Hk] Hr Ho Hl. destruct (Hk _ Hr) as (n & i & s & He & Hi & Hs).
  destruct (outcomes h) as [|o1 [|o2 os]] eqn:Hos; cbn in Hl; try lia.
  rewrite !Forall_cons in Ho. destruct Ho as ((n1 & -> & _) & (n2 & -> & _) & Ho).
  destruct (read_leaf_whole InvalidStateKeyReader (key_files dir) (leaf_name reference) key reference s n i
    (set_outcomes os h)) as [h' Hx]; [done..|cbn; lia|].
  exists s, h'. unfold read_state_mac_key.
  replace (slice (state_mac_key_relative_path reference) 4 6) with (purpose_name (purpose reference))
    by (by destruct reference as [[] ?]).
  erewrite open_at_succeeds by done. erewrite open_at_succeeds by done. exact Hx.
Qed.

(** C28: A verification that succeeds changes nothing and shows that the generation is exactly its
    manifest: [mac] holds the eleven purposes and nothing else, each purpose's private
    directory holds the files of its rows and nothing else, each file is private and
    authenticates for its row; so every key of the manifest can then be read. *)
Theorem verified_directory_exact generation key rows h h' :
  verify_state_mac_key_directory generation key rows h = (h', Returned (Ok tt)) ->
  h' = set_outcomes (outcomes h') h
  /\ (exists listing, mac_listing generation = Some listing /\ entry_names listing ≡ₚ PURPOSE_NAMES)
  /\ (forall p, exists dir, purposes generation !! purpose_name p = Some dir
      /\ holds_keys key (euid h) (references_of p rows) dir)
  /\ forall row h2, row ∈ rows -> euid h2 = euid h -> Forall whole (outcomes h2) ->
     (7 <= length (outcomes h2))%nat ->
     exists s h3, read_state_mac_key generation key (reference row) h2 = (h3, Returned (Ok s)).
Proof.
  intros (Hh & (listing & Hm & Hl) & Hp)%verify_directory_Ok.
  split; [done|]. split; [by exists listing|]. split; [done|].
  intros row h2 Hr Hu Ho Hlen. destruct (Hp (purpose (reference row))) as (dir & Hd & Hk).
  rewrite <- Hu in Hk. eapply read_key_whole; [by exists listing|done|exact Hk|by apply reference_in_purpose|done..].
Qed.
End with_hmac.

(** ** A generation that is verified *)

Section example.
#[local] Instance example_hmac : HmacSha256 := fun _ _ => repeat 5 32.

Definition example_key : JournalIntegrityKey := mkJournalIntegrityKey (repeat 6 32).

(** Every purpose has an active key, and the first a retained one before it. *)
Definition example_rows : list StateMacKeyManifestRow :=
  mkRow (mkMacKeyRef ApiKeyVerifyV1 (repeat 3 32 ++ be_bytes 8 4)) Retained 17
  :: map (fun p => mkRow (mkMacKeyRef p (repeat 3 32 ++ be_bytes 8 5)) Active 17) ALL_PURPOSES.

Definition example_file (reference : MacKeyRef) : Inode :=
  mkInode RegularFile 384 1000 1
    (match encode_state_mac_key_file example_key reference (mkStateMacKeySecret (repeat 7 32)) with
     | Ok wire => wire
     | Err _ => []
     end) true.

Definition example_purpose (p : MacPurpose) : KeyDirectory :=
  let references := references_of p example_rows in
  mkKeyDirectory (mkDirStat true 448 1000 1 1)
    ([as_bytes "."; as_bytes ".."] ++ map leaf_name references)
    (mkDirectory (list_to_map (imap (fun n r => (leaf_name r, n)) references)) []
       (list_to_map (imap (fun n r => (n, example_file r)) references))).

Definition example_generation : Generation :=
  mkGeneration (Some (as_bytes "." :: PURPOSE_NAMES))
    (list_to_map (map (fun p => (purpose_name p, example_purpose p)) ALL_PURPOSES)).

Definition example_host : Host :=
  mkHost (mkDirectory ∅ [] ∅) (mkDirStat true 448 1000 1 1) (mkDirStat true 448 1000 1 1)
    (mkDirStat true 448 1000 1 1) 1000 1 false (mkProcess 63 (Some 0, Some 0) false) 0
    (repeat (Moves 200) 200).

Lemma example_verified :
  exists h', verify_state_mac_key_directory example_generation example_key example_rows example_host
    = (h', Returned (Ok tt)).
Proof.
  exists (fst (verify_state_mac_key_directory example_generation example_key example_rows example_host)).
  apply run_of. vm_compute. reflexivity.
Qed.

(** A second entry under another name is refused. *)
Example example_not_verified :
  snd (verify_state_mac_key_directory
    (mkGeneration (Some (as_bytes "0c" :: PURPOSE_NAMES)) (purposes example_generation))
    example_key example_rows example_host) = Returned (Err InvalidStateMacKeyDirectoryVerifier).
Proof. vm_compute. reflexivity. Qed.

Lemma verified_directory_exact_witness :
  (exists h', verify_state_mac_key_directory example_generation example_key example_rows example_host
    = (h', Returned (Ok tt)))
  /\ exists s h3, read_state_mac_key example_generation example_key
       (mkMacKeyRef ApiKeyVerifyV1 (repeat 3 32 ++ be_bytes 8 4)) example_host = (h3, Returned (Ok s)).
Proof.
  destruct example_verified as [h' Hv]. split; [exists h'; exact Hv|].
  refine (proj2 (proj2 (proj2 (verified_directory_exact _ _ _ _ _ Hv)))
    (mkRow (mkMacKeyRef ApiKeyVerifyV1 (repeat 3 32 ++ be_bytes 8 4)) Retained 17) example_host _ eq_refl _ _).
  - apply list_elem_of_here.
  - apply Forall_forall. intros o ->%list_elem_of_In%repeat_spec. exists 200. split; [reflexivity|lia].
  - cbn. lia.
Defined.
End example.
