(* ===== verification/StoreSchema.v ===== *)
(** * The schema of the store ([crates/msgriver-store/src/lib.rs])

    The migrations with their checksums, and their transactions. A database is what the statements of the migrations create; the
    version-2 batch is text that the build takes out of [tasks/0010-v2-ddl-contract.md]: here
    it is any text ([MigrationV2] is the repository's), and of the tables that it creates
    those that the store reads are modelled. Every call of the engine has a fate, and one whose answer is lost has taken effect. *)

From S2P Require Import Prelude Bytes Text Sha256 Store StoreSpec Ring StateMacKeys.

#[local] Open Scope Z_scope.

(** ** The migrations' text *)

Definition MIGRATION_V1_SQL : bytes := as_bytes "CREATE TABLE schema_migrations (
    version INTEGER PRIMARY KEY CHECK (version > 0),
    checksum BLOB NOT NULL CHECK (length(checksum) = 32),
    applied_binary BLOB NOT NULL CHECK (length(applied_binary) > 0),
    applied_at_unix_ms INTEGER NOT NULL
);
"%string.
Definition MIGRATION_V1_CHECKSUM : bytes :=
  [0xf8; 0x7b; 0x65; 0xde; 0xb2; 0x95; 0x6b; 0x5a; 0x43; 0x41; 0x63; 0x4f; 0x24; 0xf4; 0xc0; 0x30;
   0xbc; 0x91; 0xcd; 0xdd; 0xbf; 0x6d; 0x73; 0x5c; 0xb4; 0xb2; 0x7d; 0x44; 0x18; 0x12; 0x0e; 0x84].

Definition MIGRATION_V2_CHECKSUM : bytes :=
  [0xd2; 0x8d; 0x42; 0xfb; 0xa1; 0x3f; 0x53; 0xd1; 0x90; 0x9c; 0xe0; 0x44; 0xd5; 0x99; 0x24; 0xf5;
   0x2e; 0x27; 0x6d; 0x3c; 0xed; 0xc1; 0xc3; 0x88; 0x4b; 0xc4; 0x04; 0xdb; 0x45; 0x55; 0x6d; 0x43].

Definition MIGRATION_V3_SQL : bytes := as_bytes "CREATE TABLE m2_messages (
    message_id TEXT PRIMARY KEY CHECK(length(message_id) = 64),
    idempotency_key TEXT NOT NULL UNIQUE CHECK(length(idempotency_key) BETWEEN 1 AND 128),
    topic TEXT NOT NULL CHECK(length(topic) BETWEEN 1 AND 64),
    title TEXT,
    body TEXT NOT NULL CHECK(length(body) BETWEEN 1 AND 4096),
    state TEXT NOT NULL CHECK(state IN ('queued', 'sending', 'retry_scheduled', 'provider_accepted', 'ambiguous', 'failed')),
    attempts INTEGER NOT NULL CHECK(attempts BETWEEN 0 AND 5),
    next_attempt_at_unix_ms INTEGER,
    provider_ack TEXT,
    last_error TEXT,
    created_at_unix_ms INTEGER NOT NULL,
    updated_at_unix_ms INTEGER NOT NULL,
    CHECK((state IN ('queued', 'retry_scheduled')) = (next_attempt_at_unix_ms IS NOT NULL)),
    CHECK((state = 'provider_accepted') = (provider_ack IS NOT NULL)),
    CHECK((state IN ('ambiguous', 'failed')) = (last_error IS NOT NULL))
);

CREATE INDEX m2_messages_due_idx
ON m2_messages (state, next_attempt_at_unix_ms, created_at_unix_ms);
"%string.
Definition MIGRATION_V3_CHECKSUM : bytes :=
  [0x98; 0x72; 0x5f; 0x75; 0xc0; 0xa3; 0xd2; 0x85; 0xd2; 0xf4; 0x0a; 0x47; 0x33; 0x52; 0xb1; 0x5b;
   0xce; 0xdb; 0x3b; 0x09; 0x43; 0x5f; 0xfc; 0x4f; 0x49; 0xf3; 0x1a; 0x32; 0x38; 0x13; 0x76; 0xa6].

Definition MIGRATION_V4_SQL : bytes := as_bytes "-- M3 preserves the M2 queue in place, then gives every row a provider-neutral
-- envelope. Legacy ntfy columns remain only so an M2-created row can be
-- dispatched identically after upgrade; all future drivers use the closed
-- driver/destination/payload fields and do not require another store shape.
ALTER TABLE m2_messages RENAME TO m3_messages;

ALTER TABLE m3_messages
ADD COLUMN driver TEXT NOT NULL DEFAULT 'ntfy'
CHECK(driver IN ('ntfy', 'whatsapp'));

ALTER TABLE m3_messages
ADD COLUMN destination TEXT NOT NULL DEFAULT '';

ALTER TABLE m3_messages
ADD COLUMN payload TEXT NOT NULL DEFAULT '';

UPDATE m3_messages
SET destination = topic
WHERE driver = 'ntfy';

CREATE INDEX m3_messages_driver_due_idx
ON m3_messages (driver, state, next_attempt_at_unix_ms, created_at_unix_ms);
"%string.
Definition MIGRATION_V4_CHECKSUM : bytes :=
  [0x44; 0x9b; 0xb7; 0xc7; 0x53; 0x4e; 0xd3; 0x46; 0x99; 0x46; 0xc3; 0x82; 0x63; 0xf2; 0x87; 0xb1;
   0x69; 0x47; 0xc8; 0x91; 0xf4; 0x95; 0xc0; 0xd8; 0xcd; 0x55; 0x65; 0xc4; 0x54; 0x34; 0xd7; 0x4f].

Definition MIGRATION_V5_SQL : bytes := as_bytes "-- M4 keeps the inbound control plane independent from callback input.  The
-- switch, receipt identity, rate accounting and fixed outbound intent share
-- one service-owned SQLite transaction.
CREATE TABLE m4_inbound_control (
    singleton INTEGER PRIMARY KEY CHECK (singleton = 1),
    enabled INTEGER NOT NULL CHECK (enabled IN (0, 1))
);

INSERT INTO m4_inbound_control (singleton, enabled) VALUES (1, 0);

CREATE TABLE m4_inbound_receipts (
    provider_message_id TEXT PRIMARY KEY,
    sender TEXT NOT NULL,
    verb TEXT NOT NULL CHECK (verb IN ('notify', 'status')),
    accepted_at_unix_ms INTEGER NOT NULL
);

CREATE TABLE m4_notify_rate_events (
    sender TEXT NOT NULL,
    accepted_at_unix_ms INTEGER NOT NULL
);

CREATE INDEX m4_notify_rate_events_sender_time_idx
ON m4_notify_rate_events (sender, accepted_at_unix_ms);
"%string.
Definition MIGRATION_V5_CHECKSUM : bytes :=
  [0xf7; 0x12; 0x7c; 0xa8; 0x7e; 0xf7; 0x5d; 0x0c; 0xf1; 0xe0; 0x1a; 0x9c; 0x6c; 0x9d; 0x24; 0xd6;
   0x79; 0x89; 0xda; 0xc6; 0xe1; 0xf8; 0xae; 0xf0; 0xdc; 0x1b; 0x98; 0xec; 0x12; 0x51; 0x56; 0xa9].

Lemma checksums_pinned :
  sha256 MIGRATION_V1_SQL = MIGRATION_V1_CHECKSUM /\ sha256 MIGRATION_V3_SQL = MIGRATION_V3_CHECKSUM
  /\ sha256 MIGRATION_V4_SQL = MIGRATION_V4_CHECKSUM /\ sha256 MIGRATION_V5_SQL = MIGRATION_V5_CHECKSUM.
Proof. split; [|split; [|split]]; vm_compute; reflexivity. Qed.

(** ** A database *)

Record MigrationProvenance : Type := mkProvenance {
  binary_identity : bytes;
  applied_at_unix_ms : Z;
}.

(** [schema_migrations]: the text that [sqlite_master] keeps of it, and its rows. *)
Record Applied : Type := mkApplied {
  applied_checksum : bytes;
  applied_binary : bytes;
  applied_at : Z;
}.
Record History : Type := mkHistory {
  history_sql : bytes;
  history_rows : gmap Z Applied;
}.

(** The tables of version 2 that the store reads; a row of [meta] is its singleton key and
    its selected origin, and [state_mac_keys] is a table that may be missing. *)
Record SelectedState : Type := mkSelectedState {
  meta : list (Z * bytes);
  meta_mac_serial_high_water : list MetaRow.RawStateMacKeyHighWater;
  state_mac_keys : option (list ManifestRow.RawStateMacKeyManifestRow);
}.

(** A row of [m2_messages], the table of version 3. *)
Record M2Row : Type := mkM2Row {
  m2row_key : string;
  m2row_topic : string;
  m2row_title : option string;
  m2row_body : string;
  m2row_state : MState;
  m2row_attempts : Z;
  m2row_next_attempt_at : option Z;
  m2row_provider_ack : option string;
  m2row_last_error : option string;
  m2row_created_at : Z;
  m2row_updated_at : Z;
}.

(** The tables of version 5. *)
Record Inbound : Type := mkInbound {
  control : option Z;
  receipts : gmap string Receipt;
  rate_events : list (string * Z);
}.

Record Database : Type := mkDatabase {
  schema_migrations : option History;
  selected_state : option SelectedState;
  m2_messages : option (gmap string M2Row);
  m3_table : option (gmap string Row);
  inbound : option Inbound;
}.

Definition empty_database : Database := mkDatabase None None None None None.

(** The text that the build takes from the contract of version 2. *)
Class SelectedStateMigration : Type := MIGRATION_V2_SQL : bytes.

(** The catalogs that the store answers with. *)
Record MigrationDescriptor : Type := mkDescriptor {
  version : Z;
  checksum : bytes;
  sql : bytes;
}.

Definition MIGRATION_CATALOG : list MigrationDescriptor :=
  [mkDescriptor 1 MIGRATION_V1_CHECKSUM MIGRATION_V1_SQL].
Definition SELECTED_STATE_MIGRATION_CATALOG `{SelectedStateMigration} : list MigrationDescriptor :=
  [mkDescriptor 1 MIGRATION_V1_CHECKSUM MIGRATION_V1_SQL; mkDescriptor 2 MIGRATION_V2_CHECKSUM MIGRATION_V2_SQL].
Definition PRODUCT_MIGRATION_CATALOG `{SelectedStateMigration} : list MigrationDescriptor :=
  [mkDescriptor 1 MIGRATION_V1_CHECKSUM MIGRATION_V1_SQL; mkDescriptor 2 MIGRATION_V2_CHECKSUM MIGRATION_V2_SQL;
   mkDescriptor 3 MIGRATION_V3_CHECKSUM MIGRATION_V3_SQL; mkDescriptor 4 MIGRATION_V4_CHECKSUM MIGRATION_V4_SQL;
   mkDescriptor 5 MIGRATION_V5_CHECKSUM MIGRATION_V5_SQL].

(** Every entry but the generated one carries the digest of its text. *)
Lemma catalog_pinned `{SelectedStateMigration} entry :
  entry ∈ PRODUCT_MIGRATION_CATALOG -> version entry <> 2 -> sha256 (sql entry) = checksum entry.
Proof.
  destruct checksums_pinned as (H1 & H3 & H4 & H5). unfold PRODUCT_MIGRATION_CATALOG.
  rewrite !elem_of_cons, elem_of_nil. intros Hin Hv.
  destruct Hin as [-> | [-> | [-> | [-> | [-> | []]]]]]; cbn [sql checksum];
    [exact H1|destruct (Hv eq_refl)|exact H3|exact H4|exact H5].
Qed.

(** The tables that a text creates: its statements stand at the beginning of a line, and
    [CREATE TABLE] stands nowhere else. *)
Definition created_tables (sql : bytes) : list bytes :=
  omap (fun line => rest ← strip_prefix (as_bytes "CREATE TABLE ") line; fst <$> split_once 32 rest) (split_on 10 sql).

Definition creates (table : string) (sql : bytes) : bool := bool_decide (as_bytes table ∈ created_tables sql).

(** What the batch of version 2 leaves of the tables that the store reads: [meta] and
    [meta_mac_serial_high_water], both empty, and [state_mac_keys] if the text creates it. *)
Definition selected_tables `{SelectedStateMigration} : SelectedState :=
  mkSelectedState [] [] (if creates "state_mac_keys" MIGRATION_V2_SQL then Some [] else None).

(** ** The batches

    A CREATE of what exists fails, and so does an ALTER of what does not. *)

(** [sqlite_master] keeps the text of a statement up to its semicolon. *)
Definition schema_text (sql : bytes) : bytes := take (length sql - 2) sql.

Definition batch_v1 (d : Database) : option Database :=
  match schema_migrations d with
  | Some _ => None
  | None => Some (mkDatabase (Some (mkHistory (schema_text MIGRATION_V1_SQL) ∅))
                    (selected_state d) (m2_messages d) (m3_table d) (inbound d))
  end.

Definition batch_v2 `{SelectedStateMigration} (d : Database) : option Database :=
  match selected_state d with
  | Some _ => None
  | None => Some (mkDatabase (schema_migrations d) (Some selected_tables) (m2_messages d)
                    (m3_table d) (inbound d))
  end.

Definition batch_v3 (d : Database) : option Database :=
  match m2_messages d with
  | Some _ => None
  | None => Some (mkDatabase (schema_migrations d) (selected_state d) (Some ∅) (m3_table d) (inbound d))
  end.

(** The added columns take their defaults; then the destination of a driver's row is its
    topic, and every row is the ntfy driver's. *)
Definition row_of_m2 (r : M2Row) : Row :=
  mkRow (m2row_key r) (m2row_topic r) (m2row_title r) (m2row_body r) "ntfy" (m2row_topic r) ""
    (m2row_state r) (m2row_attempts r) (m2row_next_attempt_at r) (m2row_provider_ack r)
    (m2row_last_error r) (m2row_created_at r) (m2row_updated_at r).

Definition batch_v4 (d : Database) : option Database :=
  match m2_messages d, m3_table d with
  | Some rows, None => Some (mkDatabase (schema_migrations d) (selected_state d) None
                               (Some (row_of_m2 <$> rows)) (inbound d))
  | _, _ => None
  end.

Definition batch_v5 (d : Database) : option Database :=
  match inbound d with
  | Some _ => None
  | None => Some (mkDatabase (schema_migrations d) (selected_state d) (m2_messages d) (m3_table d)
                    (Some (mkInbound (Some 0) ∅ [])))
  end.

(** INSERT INTO schema_migrations, with the constraints of the table. *)
Definition insert_applied (version : Z) (checksum : bytes) (provenance : MigrationProvenance)
    (d : Database) : option Database :=
  h ← schema_migrations d;
  if (0 <? version) && (length checksum =? 32)%nat && (0 <? len (binary_identity provenance))
     && bool_decide (history_rows h !! version = None)
  then Some (mkDatabase
               (Some (mkHistory (history_sql h)
                  (<[version := mkApplied checksum (binary_identity provenance)
                                 (applied_at_unix_ms provenance)]> (history_rows h))))
               (selected_state d) (m2_messages d) (m3_table d) (inbound d))
  else None.

(** ** The engine *)

(** How a call ends; the answer of one that is lost is an error, its effect is there. *)
Inductive Fate : Type := Works | Fails | Lost.

Record Engine : Type := mkEngine {
  is_open : bool;
  stored : Database;
  current : Database;
  fates : list Fate;
}.

Definition Sql (E A : Type) : Type := Engine -> Engine * result E A.

#[export] Instance sql_ret {E : Type} : MRet (Sql E) := fun A a s => (s, Ok a).
#[export] Instance sql_bind {E : Type} : MBind (Sql E) := fun A B f m s =>
  match m s with
  | (s, Ok a) => f a s
  | (s, Err e) => (s, Err e)
  end.

Section engine.
Context {E : Type} (e : E).

Definition give {A : Type} (r : result E A) : Sql E A := fun s => (s, r).

(** A call with an effect, or none when the engine refuses it. *)
Definition engine_call {A : Type} (f : Engine -> option (A * Engine)) : Sql E A := fun s =>
  let rest := mkEngine (is_open s) (stored s) (current s) (tail (fates s)) in
  match f rest, head (fates s) with
  | Some (a, s), (None | Some Works) => (s, Ok a)
  | Some (_, s), Some Lost => (s, Err e)
  | _, _ => (rest, Err e)
  end.

Definition set_current (d : Database) (s : Engine) : Engine :=
  mkEngine (is_open s) (stored s) d (fates s).
Definition set_stored (d : Database) (s : Engine) : Engine :=
  mkEngine (is_open s) d (current s) (fates s).

Definition query {A : Type} (f : Database -> option A) : Sql E A :=
  engine_call (fun s => a ← f (current s); Some (a, s)).
Definition execute (f : Database -> option Database) : Sql E unit :=
  engine_call (fun s => d ← f (current s); Some (tt, set_current d s)).
Definition begin_transaction : Sql E unit :=
  engine_call (fun s => Some (tt, set_current (stored s) s)).
Definition commit : Sql E unit :=
  engine_call (fun s => Some (tt, set_stored (current s) s)).
Definition rollback : Sql E unit :=
  engine_call (fun s => Some (tt, set_current (stored s) s)).
End engine.

(** ** The migrations *)

Inductive SqliteError : Type := InvalidQuery | SqliteFailure.
Inductive MigrationTransactionFailure : Type := Rejected | ConnectionPoisoned.

#[local] Abbreviation SqliteSql := (Sql SqliteError).

Definition recorded_checksum (version : Z) : SqliteSql (option bytes) :=
  query SqliteFailure (fun d => h ← schema_migrations d; Some (applied_checksum <$> history_rows h !! version)).

Definition install (batch : Database -> option Database) (version : Z) (checksum : bytes)
    (provenance : MigrationProvenance) : SqliteSql unit :=
  _ ← execute SqliteFailure batch;
  execute SqliteFailure (insert_applied version checksum provenance).

Definition apply_catalog_v1_in_transaction (provenance : MigrationProvenance) : SqliteSql unit :=
  schema_sql ← query SqliteFailure (fun d => Some (history_sql <$> schema_migrations d));
  match schema_sql with
  | Some schema_sql =>
    expected_schema_sql ← give (ok_or (strip_suffix [59; 10] MIGRATION_V1_SQL) InvalidQuery);
    if negb (bool_decide (schema_sql = expected_schema_sql)) then give (Err InvalidQuery)
    else
      count ← query SqliteFailure (fun d => h ← schema_migrations d; Some (size (history_rows h)));
      checksum ← recorded_checksum 1;
      if (count <? 1)%nat || negb (bool_decide (checksum = Some MIGRATION_V1_CHECKSUM))
      then give (Err InvalidQuery) else mret tt
  | None => install batch_v1 1 MIGRATION_V1_CHECKSUM provenance
  end.

Definition allowed_versions (allow_product_versions : bool) : list Z :=
  if allow_product_versions then [1; 2; 3; 4; 5] else [1; 2].

(** [version NOT IN (..)]. *)
Definition unknown_versions (allowed : list Z) (h : History) : nat :=
  length (List.filter (fun row => negb (bool_decide (row.1 ∈ allowed))) (map_to_list (history_rows h))).

(** The [match existing] of versions 2 to 5. *)
Definition apply_version (batch : Database -> option Database) (version : Z) (checksum : bytes)
    (provenance : MigrationProvenance) : SqliteSql unit :=
  existing ← recorded_checksum version;
  match existing with
  | Some found => if bool_decide (found = checksum) then mret tt else give (Err InvalidQuery)
  | None => install batch version checksum provenance
  end.

Section migrations.
Context `{SelectedStateMigration}.

Definition apply_catalog_v2_in_transaction (provenance : MigrationProvenance)
    (allow_product_versions : bool) : SqliteSql unit :=
  unknown ← query SqliteFailure (fun d =>
    unknown_versions (allowed_versions allow_product_versions) <$> schema_migrations d);
  if negb (unknown =? 0)%nat then give (Err InvalidQuery)
  else apply_version batch_v2 2 MIGRATION_V2_CHECKSUM provenance.

Definition apply_catalog_v3_in_transaction : MigrationProvenance -> SqliteSql unit :=
  apply_version batch_v3 3 MIGRATION_V3_CHECKSUM.
Definition apply_catalog_v4_in_transaction : MigrationProvenance -> SqliteSql unit :=
  apply_version batch_v4 4 MIGRATION_V4_CHECKSUM.
Definition apply_catalog_v5_in_transaction : MigrationProvenance -> SqliteSql unit :=
  apply_version batch_v5 5 MIGRATION_V5_CHECKSUM.

(** The transaction around a catalog. *)
Definition in_migration (catalog : SqliteSql unit) : Sql MigrationTransactionFailure unit := fun s =>
  match begin_transaction Rejected s with
  | (s, Err e) => (s, Err e)
  | (s, Ok tt) =>
    match catalog s with
    | (s, Ok tt) => commit ConnectionPoisoned s
    | (s, Err _) =>
      match rollback tt s with
      | (s, Ok tt) => (s, Err Rejected)
      | (s, Err _) => (s, Err ConnectionPoisoned)
      end
    end
  end.

Definition apply_catalog (provenance : MigrationProvenance) : Sql MigrationTransactionFailure unit :=
  in_migration (_ ← apply_catalog_v1_in_transaction provenance;
                apply_catalog_v2_in_transaction provenance false).

Definition apply_product_catalog (provenance : MigrationProvenance) : Sql MigrationTransactionFailure unit :=
  in_migration (_ ← apply_catalog_v1_in_transaction provenance;
                _ ← apply_catalog_v2_in_transaction provenance true;
                _ ← apply_catalog_v3_in_transaction provenance;
                _ ← apply_catalog_v4_in_transaction provenance;
                apply_catalog_v5_in_transaction provenance).

(** The end of both operations: a poisoned connection is dropped. *)
Definition run_catalog (catalog : Sql MigrationTransactionFailure unit) : Sql StoreError unit := fun s =>
  if negb (is_open s) then (s, Err Migration)
  else
    match catalog s with
    | (s, Ok tt) => (s, Ok tt)
    | (s, Err Rejected) => (s, Err Migration)
    | (s, Err ConnectionPoisoned) => (mkEngine false (stored s) (current s) (fates s), Err Migration)
    end.

Definition apply_migrations (provenance : MigrationProvenance) : Sql StoreError unit :=
  if (length (binary_identity provenance) =? 0)%nat then give (Err Migration)
  else if negb (bool_decide (sha256 MIGRATION_V1_SQL = MIGRATION_V1_CHECKSUM))
          || negb (bool_decide (sha256 MIGRATION_V2_SQL = MIGRATION_V2_CHECKSUM))
          || negb (bool_decide (sha256 MIGRATION_V3_SQL = MIGRATION_V3_CHECKSUM))
          || negb (bool_decide (sha256 MIGRATION_V4_SQL = MIGRATION_V4_CHECKSUM))
          || negb (bool_decide (sha256 MIGRATION_V5_SQL = MIGRATION_V5_CHECKSUM))
  then give (Err Migration)
  else run_catalog (apply_catalog provenance).

Definition apply_product_migrations (provenance : MigrationProvenance) : Sql StoreError unit :=
  if (length (binary_identity provenance) =? 0)%nat then give (Err Migration)
  else run_catalog (apply_product_catalog provenance).
End migrations.

(** ** What an upgrade is *)

(** A recorded version has the pinned checksum, a missing one is installed. *)
Definition ensure (batch : Database -> option Database) (version : Z) (checksum : bytes)
    (provenance : MigrationProvenance) (d : Database) : option Database :=
  match schema_migrations d ≫= fun h => history_rows h !! version with
  | Some row => if bool_decide (applied_checksum row = checksum) then Some d else None
  | None => batch d ≫= insert_applied version checksum provenance
  end.

(** The history table is the one the store makes, with its first row and no other version
    than the allowed ones. *)
Definition history_known (allowed : list Z) (d : Database) : Prop :=
  match schema_migrations d with
  | None => True
  | Some h => history_sql h = schema_text MIGRATION_V1_SQL /\ is_Some (history_rows h !! 1)
              /\ forall v, is_Some (history_rows h !! v) -> v ∈ allowed
  end.

Section upgrade.
Context `{SelectedStateMigration}.

Inductive catalog_step : Type := catalogStep (batch : Database -> option Database) (version : Z) (checksum : bytes).

Definition product_catalog : list catalog_step :=
  [catalogStep batch_v1 1 MIGRATION_V1_CHECKSUM; catalogStep batch_v2 2 MIGRATION_V2_CHECKSUM;
   catalogStep batch_v3 3 MIGRATION_V3_CHECKSUM; catalogStep batch_v4 4 MIGRATION_V4_CHECKSUM;
   catalogStep batch_v5 5 MIGRATION_V5_CHECKSUM].

Fixpoint upgrade (catalog : list catalog_step) (provenance : MigrationProvenance) (d : Database)
    : option Database :=
  match catalog with
  | [] => Some d
  | catalogStep batch version checksum :: catalog =>
    d ← ensure batch version checksum provenance d; upgrade catalog provenance d
  end.
End upgrade.

(** ** What the statements compute *)

Definition working (s : Engine) : Prop := Forall (eq Works) (fates s).

(** Inside a transaction: whatever fails the stored database stays; an answer is the
    function's, and when every call works the function's answer is given. *)
Definition computes {E A : Type} (m : Sql E A) (f : Database -> option (A * Database)) : Prop :=
  forall s s' r, m s = (s', r) ->
    stored s' = stored s /\ is_open s' = is_open s
    /\ (forall a, r = Ok a -> f (current s) = Some (a, current s'))
    /\ (working s -> working s' /\ forall a d, f (current s) = Some (a, d) -> r = Ok a /\ current s' = d).

Section computes.
Context {E : Type}.

Lemma computes_ext {A : Type} (m : Sql E A) f g : (forall d, f d = g d) -> computes m f -> computes m g.
Proof.
  intros Heq Hm s s' r Hx. destruct (Hm s s' r Hx) as (Hs & Ho & Ha & Hw).
  split; [done|]. split; [done|]. split; [intros a Hr; rewrite <- Heq; by apply Ha|].
  intros [Hw' Hd]%Hw. split; [done|]. intros a d. rewrite <- Heq. apply Hd.
Qed.

Lemma computes_give {A : Type} (r : result E A) :
  computes (give r) (fun d => match r with Ok a => Some (a, d) | Err _ => None end).
Proof.
  intros s s' r' [= <- <-]. split; [done|]. split; [done|]. split; [by intros a ->|].
  intros Hw. split; [done|]. intros a d. by destruct r; intros [= <- <-].
Qed.

Lemma computes_ret {A : Type} (a : A) : computes (mret a : Sql E A) (fun d => Some (a, d)).
Proof. exact (computes_give (Ok a)). Qed.

Lemma computes_bind {A B : Type} (m : Sql E A) (k : A -> Sql E B) f g :
  computes m f -> (forall a, computes (k a) (g a)) -> computes (m ≫= k) (fun d => '(a, d) ← f d; g a d).
Proof.
  intros Hm Hk s s' r. unfold mbind, sql_bind.
  destruct (m s) as [s1 [a|e]] eqn:Hx; destruct (Hm s s1 _ Hx) as (Hs & Ho & Ha & Hw).
  - intros Hy. destruct (Hk a s1 s' r Hy) as (Hs' & Ho' & Ha' & Hw').
    rewrite Hs', Ho'. split; [done|]. split; [done|]. rewrite (Ha a eq_refl). cbn. split; [done|].
    intros [Hv _]%Hw. exact (Hw' Hv).
  - intros [= <- <-]. split; [done|]. split; [done|]. split; [done|]. intros [Hv Hn]%Hw. split; [done|].
    intros b d. destruct (f (current s)) as [[a d']|] eqn:Hf; [|done]. by destruct (Hn a d' eq_refl).
Qed.

Lemma computes_call {A : Type} (e : E) (f : Database -> option (A * Database)) :
  computes (engine_call e (fun s => '(a, d) ← f (current s); Some (a, set_current d s))) f.
Proof.
  intros s s' r. unfold engine_call. cbn [current]. destruct (f (current s)) as [[a d]|] eqn:Hf; cbn.
  - assert (working s -> head (fates s) = None \/ head (fates s) = Some Works) as Hhd.
    { unfold working. destruct (fates s); [by left|]. rewrite Forall_cons. by intros [<- _]; right. }
    assert (working s -> Forall (eq Works) (tail (fates s))) as Htl.
    { unfold working. destruct (fates s); [done|]. rewrite Forall_cons. by intros [_ ?]. }
    destruct (head (fates s)) as [[| |]|]; intros [= <- <-]; (split; [done|]); (split; [done|]); cbn.
    1,4: split; [by intros b [= <-]|]; intros Hw; split; [exact (Htl Hw)|]; by intros b d' [= <- <-].
    all: split; [done|]; intros Hw; by destruct (Hhd Hw).
  - intros [= <- <-]. split; [done|]. split; [done|]. split; [done|]. intros Hw. split; [|done].
    unfold working in *. cbn. destruct (fates s); [done|]. by apply Forall_cons in Hw as [_ ?].
Qed.

Lemma computes_query {A : Type} (e : E) (f : Database -> option A) :
  computes (query e f) (fun d => a ← f d; Some (a, d)).
Proof.
  intros s s' r Hx. apply (computes_call e (fun d => a ← f d; Some (a, d)) s s' r). rewrite <- Hx.
  unfold query, engine_call. cbn [current]. by destruct (f (current s)).
Qed.

Lemma computes_execute (e : E) (f : Database -> option Database) :
  computes (execute e f) (fun d => d ← f d; Some (tt, d)).
Proof.
  intros s s' r Hx. apply (computes_call e (fun d => d ← f d; Some (tt, d)) s s' r). rewrite <- Hx.
  unfold execute, engine_call. cbn [current]. by destruct (f (current s)).
Qed.

Lemma computes_if {A : Type} (b : bool) (m k : Sql E A) f g :
  computes m f -> computes k g -> computes (if b then m else k) (fun d => if b then f d else g d).
Proof. by destruct b. Qed.
End computes.

#[export] Hint Resolve computes_give computes_ret computes_query computes_execute : computes.

(** ** The catalogs compute the upgrade *)

Lemma insert_applied_history version checksum provenance d d' :
  insert_applied version checksum provenance d = Some d' ->
  exists h row, schema_migrations d = Some h /\ history_rows h !! version = None
    /\ applied_checksum row = checksum
    /\ schema_migrations d' = Some (mkHistory (history_sql h) (<[version := row]> (history_rows h))).
Proof.
  unfold insert_applied. destruct (schema_migrations d) as [h|]; [|done]. cbn.
  destruct (_ && _) eqn:Hc; [|done]. apply andb_true_iff in Hc as [_ Hn%bool_decide_eq_true].
  intros [= <-]. exists h, (mkApplied checksum (binary_identity provenance) (applied_at_unix_ms provenance)).
  done.
Qed.

(** A batch that leaves the history alone. *)
Definition quiet (batch : Database -> option Database) : Prop :=
  forall d d', batch d = Some d' -> schema_migrations d' = schema_migrations d.

Lemma quiet_v2 `{SelectedStateMigration} : quiet batch_v2.
Proof. intros d d'. unfold batch_v2. by destruct (selected_state d); intros [= <-]. Qed.
Lemma quiet_v3 : quiet batch_v3.
Proof. intros d d'. unfold batch_v3. by destruct (m2_messages d); intros [= <-]. Qed.
Lemma quiet_v4 : quiet batch_v4.
Proof. intros d d'. unfold batch_v4. by destruct (m2_messages d), (m3_table d); intros [= <-]. Qed.
Lemma quiet_v5 : quiet batch_v5.
Proof. intros d d'. unfold batch_v5. by destruct (inbound d); intros [= <-]. Qed.

Lemma ensure_history batch version checksum provenance d d' :
  quiet batch -> ensure batch version checksum provenance d = Some d' ->
  is_Some (schema_migrations d) /\ is_Some (schema_migrations d').
Proof.
  intros Hq. unfold ensure. destruct (schema_migrations d ≫= _) as [row|] eqn:Hrow.
  - case_bool_decide; [|done]. intros [= <-]. apply bind_Some in Hrow as (h & -> & _). by split.
  - intros (d1 & Hd1%Hq & (h & row & Hs & _ & _ & ->)%insert_applied_history)%bind_Some.
    rewrite <- Hd1, Hs. by split.
Qed.

Section refinement.
Context `{SelectedStateMigration} (provenance : MigrationProvenance).

Lemma computes_install batch version checksum :
  computes (install batch version checksum provenance)
    (fun d => d ← batch d; d ← insert_applied version checksum provenance d; Some (tt, d)).
Proof.
  eapply computes_ext; [|apply computes_bind; [apply computes_execute|intros done_; apply computes_execute]].
  intros d. cbn beta. destruct (batch d); reflexivity.
Qed.

Lemma computes_recorded version :
  computes (recorded_checksum version)
    (fun d => h ← schema_migrations d; Some (applied_checksum <$> history_rows h !! version, d)).
Proof.
  eapply computes_ext; [|apply computes_query]. intros d. cbn beta. destruct (schema_migrations d); reflexivity.
Qed.

Lemma computes_version batch version checksum :
  computes (apply_version batch version checksum provenance)
    (fun d => _ ← schema_migrations d; d ← ensure batch version checksum provenance d; Some (tt, d)).
Proof.
  eapply computes_ext; [|apply computes_bind; [apply computes_recorded|]]; cycle 1.
  { intros existing. refine (_ : computes _ (fun d => match existing with
      | Some found => if bool_decide (found = checksum) then Some (tt, d) else None
      | None => d ← batch d; d ← insert_applied version checksum provenance d; Some (tt, d)
      end)). destruct existing; [|apply computes_install].
    case_bool_decide; [apply computes_ret|apply (computes_give (Err InvalidQuery))]. }
  intros d. unfold ensure. destruct (schema_migrations d) as [h|]; [|done]. cbn.
  destruct (history_rows h !! version) as [row|]; cbn; [by case_bool_decide|].
  destruct (batch d); reflexivity.
Qed.

Lemma computes_v1 :
  computes (apply_catalog_v1_in_transaction provenance)
    (fun d => if match schema_migrations d with
                 | None => true
                 | Some h => bool_decide (history_sql h = schema_text MIGRATION_V1_SQL)
                             && bool_decide (is_Some (history_rows h !! 1))
                 end
              then d ← ensure batch_v1 1 MIGRATION_V1_CHECKSUM provenance d; Some (tt, d) else None).
Proof.
  eapply computes_ext; [|apply computes_bind; [apply computes_query|]]; cycle 1.
  { intros schema_sql. refine (_ : computes _ (fun d => match schema_sql with
      | Some sql =>
        if negb (bool_decide (sql = schema_text MIGRATION_V1_SQL)) then None
        else h ← schema_migrations d;
             let checksum := applied_checksum <$> history_rows h !! 1 in
             if (size (history_rows h) <? 1)%nat || negb (bool_decide (checksum = Some MIGRATION_V1_CHECKSUM))
             then None else Some (tt, d)
      | None => d ← batch_v1 d; d ← insert_applied 1 MIGRATION_V1_CHECKSUM provenance d; Some (tt, d)
      end)). destruct schema_sql as [sql|]; [|apply computes_install].
    replace (strip_suffix [59; 10] MIGRATION_V1_SQL) with (Some (schema_text MIGRATION_V1_SQL))
      by (vm_compute; reflexivity).
    cbn [ok_or]. eapply computes_ext; [|apply computes_bind; [apply computes_give|]]; cycle 1.
    { intros text. apply computes_if; [apply (computes_give (Err InvalidQuery))|].
      apply computes_bind; [apply computes_query|]. intros count.
      apply computes_bind; [apply computes_recorded|]. intros checksum.
      apply computes_if; [apply (computes_give (Err InvalidQuery))|apply computes_ret]. }
    intros d. cbn. destruct (negb _); [done|]. destruct (schema_migrations d) eqn:Hs; cbn; rewrite ?Hs; reflexivity. }
  intros d. unfold ensure, batch_v1. destruct (schema_migrations d) as [h|] eqn:Hs; cbn -[schema_text];
    rewrite Hs; [|reflexivity]. cbn -[schema_text].
  case_bool_decide; [|reflexivity]. cbn [negb andb].
  destruct (history_rows h !! 1) as [row|] eqn:Hrow; cbn.
  - assert (size (history_rows h) <> 0%nat) as Hsz
      by (intros Hz%map_size_empty_iff; by rewrite Hz, lookup_empty in Hrow).
    replace (size (history_rows h) <? 1)%nat with false by (symmetry; apply Nat.ltb_ge; lia). cbn [orb].
    destruct (decide (applied_checksum row = MIGRATION_V1_CHECKSUM)) as [He|He].
    + by rewrite He, !bool_decide_eq_true_2.
    + by rewrite !bool_decide_eq_false_2 by congruence.
  - by rewrite orb_true_r.
Qed.

Lemma computes_v2 allow :
  computes (apply_catalog_v2_in_transaction provenance allow)
    (fun d => h ← schema_migrations d;
              if (unknown_versions (allowed_versions allow) h =? 0)%nat
              then d ← ensure batch_v2 2 MIGRATION_V2_CHECKSUM provenance d; Some (tt, d) else None).
Proof.
  eapply computes_ext; [|apply computes_bind; [apply computes_query|]]; cycle 1.
  { intros unknown. apply computes_if; [apply (computes_give (Err InvalidQuery))|apply computes_version]. }
  intros d. destruct (schema_migrations d) as [h|] eqn:Hs; cbn; rewrite ?Hs; [|reflexivity]. cbn.
  destruct (unknown_versions (allowed_versions allow) h =? 0)%nat; cbn; [rewrite Hs|]; reflexivity.
Qed.

(** One operation after another. *)
Lemma computes_seq {E : Type} (m k : Sql E unit) f g :
  computes m (fun d => d ← f d; Some (tt, d)) -> computes k g ->
  computes (_ ← m; k) (fun d => d ← f d; g d).
Proof.
  intros Hm Hk. eapply computes_ext; [|apply computes_bind; [exact Hm|intros done_; exact Hk]].
  intros d. cbn beta. destruct (f d); reflexivity.
Qed.

Definition known1 (d : Database) : bool :=
  match schema_migrations d with
  | None => true
  | Some h => bool_decide (history_sql h = schema_text MIGRATION_V1_SQL)
              && bool_decide (is_Some (history_rows h !! 1))
  end.

Definition known_versions (allowed : list Z) (d : Database) : bool :=
  match schema_migrations d with Some h => (unknown_versions allowed h =? 0)%nat | None => false end.

Lemma computes_v2_known allow :
  computes (apply_catalog_v2_in_transaction provenance allow)
    (fun d => d ← (if known_versions (allowed_versions allow) d
                   then ensure batch_v2 2 MIGRATION_V2_CHECKSUM provenance d else None); Some (tt, d)).
Proof.
  eapply computes_ext; [|apply computes_v2]. intros d. cbn beta.
  unfold known_versions. destruct (schema_migrations d) as [h|]; [|reflexivity]. cbn.
  destruct (_ =? 0)%nat; reflexivity.
Qed.

Lemma computes_v1_then (k : Sql SqliteError unit) g :
  computes k g ->
  computes (_ ← apply_catalog_v1_in_transaction provenance; k)
    (fun d => d ← (if known1 d then ensure batch_v1 1 MIGRATION_V1_CHECKSUM provenance d else None); g d).
Proof.
  intros Hk. apply computes_seq; [|exact Hk].
  eapply computes_ext; [|apply computes_v1]. intros d. cbn beta. fold (known1 d). destruct (known1 d); reflexivity.
Qed.

Lemma unknown_versions_0 allowed h :
  unknown_versions allowed h = 0%nat <-> forall v, is_Some (history_rows h !! v) -> v ∈ allowed.
Proof.
  unfold unknown_versions. rewrite length_zero_iff_nil. split.
  - intros Hn v [row Hv]. destruct (decide (v ∈ allowed)) as [|Hout]; [done|]. exfalso.
    assert (List.In (v, row) []) as []. rewrite <- Hn. apply filter_In.
    split; [by apply list_elem_of_In, elem_of_map_to_list|]. by rewrite bool_decide_eq_false_2.
  - intros Hall. destruct (List.filter _ _) as [|[v row] l] eqn:Hf; [done|]. exfalso.
    assert (List.In (v, row) ((v, row) :: l)) as Hin by (by left). rewrite <- Hf in Hin.
    apply filter_In in Hin as [Hin%list_elem_of_In%elem_of_map_to_list Hb].
    rewrite bool_decide_eq_true_2 in Hb; [done|]. by apply Hall; exists row.
Qed.

(** After the first version the history is known exactly when it was before. *)
Lemma known_after_v1 allowed d d' :
  1 ∈ allowed -> ensure batch_v1 1 MIGRATION_V1_CHECKSUM provenance d = Some d' ->
  known1 d && known_versions allowed d' = true <-> history_known allowed d.
Proof.
  intros H1. unfold known1, history_known, known_versions, ensure, batch_v1.
  destruct (schema_migrations d) as [h|] eqn:Hs; cbn -[schema_text insert_applied].
  - destruct (history_rows h !! 1) as [row|] eqn:Hrow; [|done]. case_bool_decide; [|done].
    intros [= <-]. rewrite Hs, !andb_true_iff, !bool_decide_eq_true, Nat.eqb_eq, unknown_versions_0. tauto.
  - intros (h & row & [= <-] & _ & _ & ->)%insert_applied_history. cbn [history_rows andb].
    rewrite Nat.eqb_eq, unknown_versions_0. split; [done|]. intros _ v. cbn [history_rows].
    destruct (decide (v = 1)) as [->|]; [done|]. rewrite lookup_insert_ne, lookup_empty by done. by intros [? ?].
Qed.

Lemma ensure_guard batch version checksum d (f : Database -> option (unit * Database)) :
  quiet batch ->
  (_ ← schema_migrations d; d ← ensure batch version checksum provenance d; f d)
  = (d ← ensure batch version checksum provenance d; f d).
Proof.
  intros Hq. destruct (ensure batch version checksum provenance d) as [d'|] eqn:He.
  - by destruct (ensure_history _ _ _ _ _ _ Hq He) as [[h ->] _].
  - by destruct (schema_migrations d).
Qed.

Lemma computes_ensure batch version checksum :
  quiet batch ->
  computes (apply_version batch version checksum provenance)
    (fun d => d ← ensure batch version checksum provenance d; Some (tt, d)).
Proof.
  intros Hq. eapply computes_ext; [|apply computes_version]. intros d. by apply ensure_guard.
Qed.
End refinement.

(** ** The transaction *)

Section transaction.
Context `{SelectedStateMigration} (provenance : MigrationProvenance).

(** The checks of the first two versions are those of the whole history. *)
Lemma known_upgrade allowed rest d d' :
  1 ∈ allowed ->
  (d ← (if known1 d then ensure batch_v1 1 MIGRATION_V1_CHECKSUM provenance d else None);
   d ← (if known_versions allowed d then ensure batch_v2 2 MIGRATION_V2_CHECKSUM provenance d else None);
   d ← upgrade rest provenance d; Some (tt, d)) = Some (tt, d')
  <-> history_known allowed d
      /\ upgrade (catalogStep batch_v1 1 MIGRATION_V1_CHECKSUM :: catalogStep batch_v2 2 MIGRATION_V2_CHECKSUM :: rest)
           provenance d = Some d'.
Proof.
  intros Ha. cbn [upgrade].
  destruct (ensure batch_v1 1 MIGRATION_V1_CHECKSUM provenance d) as [d1|] eqn:H1; cbn.
  2: { split; [by destruct (known1 d)|by intros [_ ?]]. }
  rewrite <- (known_after_v1 provenance allowed _ _ Ha H1), andb_true_iff.
  destruct (known1 d); [|split; [done|by intros [[? _] _]]]. cbn.
  destruct (known_versions allowed d1); [|split; [done|by intros [[_ ?] _]]].
  destruct (ensure batch_v2 _ _ _ d1) as [d2|]; cbn; [|by split; [|intros [_ ?]]].
  destruct (upgrade rest provenance d2) as [d3|]; cbn; [|by split; [|intros [_ ?]]].
  split; [by intros [= ->]|by intros [_ [= ->]]].
Qed.

Lemma in_migration_spec catalog f s s' r :
  computes catalog f -> in_migration catalog s = (s', r) ->
  is_open s' = is_open s
  /\ match r with
     | Ok _ => f (stored s) = Some (tt, stored s')
     | Err Rejected => stored s' = stored s
     | Err ConnectionPoisoned => stored s' = stored s \/ f (stored s) = Some (tt, stored s')
     end
  /\ (working s -> forall d, f (stored s) = Some (tt, d) -> r = Ok tt).
Proof.
  intros Hc. unfold in_migration.
  destruct (begin_transaction Rejected s) as [s1 [[]|e]] eqn:Hb.
  2: { intros [= <- <-]. revert Hb. unfold begin_transaction, engine_call. cbn.
       unfold working. destruct s as [? ? ? [|[] ?]]; cbn; intros [= <- <-]; cbn; (split; [done|]); (split; [done|]);
       intros Hw%Forall_cons; by destruct Hw. }
  assert (is_open s1 = is_open s /\ stored s1 = stored s /\ current s1 = stored s /\ (working s -> working s1))
    as (Ho1 & Hs1 & Hc1 & Hw1).
  { revert Hb. unfold begin_transaction, engine_call, working. destruct s as [? ? ? [|[] ?]]; cbn; intros [= <-]; cbn;
    rewrite ?Forall_cons; naive_solver. }
  destruct (catalog s1) as [s2 r2] eqn:Hx. destruct (Hc _ _ _ Hx) as (Hs2 & Ho2 & Ha & Hn).
  rewrite Hc1 in Ha, Hn. rewrite Hs1 in Hs2. rewrite Ho1 in Ho2. destruct r2 as [[]|e].
  - specialize (Ha tt eq_refl). unfold commit, engine_call. cbn.
    assert (working s -> working s2) as Hw2 by (intros Hw%Hw1; by apply Hn).
    unfold working in Hw2. destruct s2 as [o2 t2 c2 [|[] l2]]; cbn in *; intros [= <- <-]; cbn; (split; [done|]).
    1,2: by split.
    + split; [by left|]. intros [Hw _]%Hw2%Forall_cons. done.
    + split; [by right|]. intros [Hw _]%Hw2%Forall_cons. done.
  - assert (working s -> forall d, f (stored s) = Some (tt, d) -> Err e = Ok tt) as Hno.
    { intros [_ Hd]%Hw1%Hn d Hf. by apply Hd in Hf as [? _]. }
    unfold rollback, engine_call. cbn.
    destruct s2 as [o2 t2 c2 [|[] l2]]; cbn in *; intros [= <- <-]; cbn; (split; [done|]); (split; [by auto|]);
      intros Hw d Hf; by specialize (Hno Hw d Hf).
Qed.

(** A migration is an atomic upgrade: an error leaves the database as it was, unless the
    engine could not tell, and then the connection is given up and the database is the old
    or the upgraded one; when the calls work, an upgrade that exists is made. *)
Definition refines (m : Sql StoreError unit) (upgraded : Database -> Database -> Prop) : Prop :=
  forall s s' r, m s = (s', r) ->
    match r with
    | Ok _ => upgraded (stored s) (stored s') /\ is_open s' = true
    | Err e => e = Migration
               /\ (stored s' = stored s \/ is_open s' = false /\ upgraded (stored s) (stored s'))
    end
    /\ (working s -> is_open s = true -> forall d, upgraded (stored s) d -> r = Ok tt).

Lemma run_catalog_refines catalog f (upgraded : Database -> Database -> Prop) :
  computes catalog f -> (forall d d', f d = Some (tt, d') <-> upgraded d d') ->
  refines (run_catalog (in_migration catalog)) upgraded.
Proof.
  intros Hc Hf s s' r. unfold run_catalog. destruct (is_open s) eqn:Ho; cbn [negb].
  2: { intros [= <- <-]. split; [by split; [|left]|done]. }
  destruct (in_migration catalog s) as [s1 r1] eqn:Hx.
  destruct (in_migration_spec _ _ _ _ _ Hc Hx) as (Ho1 & Hr & Hw). rewrite Ho in Ho1.
  destruct r1 as [[]|[]]; intros [= <- <-]; cbn [is_open stored]; (split; [|intros Hv _ d Hd; by eapply Hf, Hw in Hd]).
  - split; [by apply Hf|done].
  - split; [done|by left].
  - split; [done|]. destruct Hr as [Hr|Hr]; [by left|right]. split; [done|by apply Hf].
Qed.

(** The history is known, and the versions of the catalog that are missing are installed. *)
Definition upgrades (allow_product_versions : bool) (catalog : list catalog_step) (d d' : Database) : Prop :=
  history_known (allowed_versions allow_product_versions) d /\ upgrade catalog provenance d = Some d'.

Lemma computes_rest :
  computes (_ ← apply_catalog_v3_in_transaction provenance;
            _ ← apply_catalog_v4_in_transaction provenance;
            apply_catalog_v5_in_transaction provenance)
    (fun d => d ← upgrade (drop 2 product_catalog) provenance d; Some (tt, d)).
Proof.
  eapply computes_ext; [|apply computes_seq; [apply computes_ensure, quiet_v3|];
    apply computes_seq; [apply computes_ensure, quiet_v4|]; apply computes_ensure, quiet_v5].
  intros d. cbn [drop product_catalog upgrade].
  destruct (ensure batch_v3 _ _ _ d) as [d3|]; cbn; [|reflexivity].
  destruct (ensure batch_v4 _ _ _ d3) as [d4|]; cbn; [|reflexivity].
  destruct (ensure batch_v5 _ _ _ d4); reflexivity.
Qed.

Lemma product_refines :
  refines (run_catalog (apply_product_catalog provenance)) (upgrades true product_catalog).
Proof.
  eapply run_catalog_refines; [|intros d d'; apply (known_upgrade (allowed_versions true)), list_elem_of_here].
  apply computes_v1_then. apply computes_seq; [apply computes_v2_known|exact computes_rest].
Qed.

Lemma refused_refines (b : bool) (P : Prop) m upgraded :
  (b = false <-> P) -> refines m upgraded ->
  refines (if b then give (Err Migration) else m) (fun d d' => P /\ upgraded d d').
Proof.
  intros Hb Hm s s' r. destruct b.
  - intros [= <- <-]. split; [split; [done|by left]|]. intros _ _ d [Hp _]. by apply Hb in Hp.
  - intros Hx. destruct (Hm s s' r Hx) as [Hr Hw]. assert P as Hp by by apply Hb. split.
    + destruct r as [[]|e]; [tauto|]. destruct Hr as (? & [?|[? ?]]); tauto.
    + intros Hv Ho d [_ Hd]. exact (Hw Hv Ho d Hd).
Qed.

Lemma identity_given : (length (binary_identity provenance) =? 0)%nat = false <-> binary_identity provenance <> [].
Proof. by destruct (binary_identity provenance). Qed.

Lemma start_refines :
  refines (apply_product_migrations provenance)
    (fun d d' => binary_identity provenance <> [] /\ upgrades true product_catalog d d').
Proof. apply refused_refines; [exact identity_given|exact product_refines]. Qed.

(** C12: The maintenance call installs the first two versions, a start all five; both are atomic
    upgrades of exactly the histories they know. The checksums of the embedded texts are
    right, so of those the maintenance call compares only the generated one matters. *)
Theorem migrations_refine :
  refines (apply_migrations provenance)
    (fun d d' => binary_identity provenance <> [] /\ sha256 MIGRATION_V2_SQL = MIGRATION_V2_CHECKSUM
                 /\ upgrades false (take 2 product_catalog) d d')
  /\ refines (apply_product_migrations provenance)
    (fun d d' => binary_identity provenance <> [] /\ upgrades true product_catalog d d').
Proof.
  split; [|exact start_refines]. destruct checksums_pinned as (H1 & H3 & H4 & H5). unfold apply_migrations.
  assert (forall l : bytes, bool_decide (l = l) = true) as Hrefl by (intros l; by apply bool_decide_eq_true_2).
  rewrite H1, H3, H4, H5, !Hrefl. cbn [negb orb]. rewrite !orb_false_r.
  apply refused_refines; [exact identity_given|]. apply refused_refines.
  { rewrite negb_false_iff. apply bool_decide_eq_true. }
  eapply run_catalog_refines; [|intros d d'; apply (known_upgrade (allowed_versions false) []), list_elem_of_here].
  apply computes_v1_then. eapply computes_ext; [|apply computes_v2_known]. intros d. cbn beta.
  destruct (known_versions _ d); [|reflexivity]. destruct (ensure batch_v2 _ _ _ d); reflexivity.
Qed.
End transaction.

(** ** What an upgrade does to a store of any earlier version *)

Section content.
Context `{SelectedStateMigration}.

Definition pinned_checksum (version : Z) : bytes :=
  if version =? 1 then MIGRATION_V1_CHECKSUM else if version =? 2 then MIGRATION_V2_CHECKSUM
  else if version =? 3 then MIGRATION_V3_CHECKSUM else if version =? 4 then MIGRATION_V4_CHECKSUM
  else MIGRATION_V5_CHECKSUM.

(** The store after the first [n] migrations: their rows, and the tables they leave. *)
Record schema_at (n : Z) (d : Database) : Prop := mkSchemaAt {
  at_history : match schema_migrations d with
    | None => n = 0
    | Some h => 1 <= n /\ history_sql h = schema_text MIGRATION_V1_SQL
                /\ forall v, (applied_checksum <$> history_rows h !! v)
                             = if within 1 n v then Some (pinned_checksum v) else None
    end;
  at_selected : is_Some (selected_state d) <-> 2 <= n;
  at_m2 : is_Some (m2_messages d) <-> n = 3;
  at_m3 : is_Some (m3_table d) <-> 4 <= n;
  at_inbound : is_Some (inbound d) <-> 5 <= n;
}.

(** What the store holds, in the tables of the last version. *)
Definition selected_of (d : Database) : SelectedState := default selected_tables (selected_state d).
Definition messages_of (d : Database) : gmap string Row :=
  match m3_table d, m2_messages d with
  | Some rows, _ => rows
  | None, Some rows => row_of_m2 <$> rows
  | None, None => ∅
  end.
Definition inbound_of (d : Database) : Inbound := default (mkInbound (Some 0) ∅ []) (inbound d).

Definition same_content (d d' : Database) : Prop :=
  selected_of d' = selected_of d /\ messages_of d' = messages_of d /\ inbound_of d' = inbound_of d.

(** The tables that the operations of the store work on. *)
Definition delivery_tables (d : Database) : option Db :=
  messages ← m3_table d; tables ← inbound d;
  Some (mkDb messages (control tables) (receipts tables) (rate_events tables)).

Lemma empty_schema : schema_at 0 empty_database.
Proof. split; cbn; [done|..]; (split; [by intros []|lia]). Qed.

Lemma schema_known n d : 0 <= n <= 5 -> schema_at n d -> history_known (allowed_versions true) d.
Proof.
  intros Hn [Hh _ _ _ _]. unfold history_known. destruct (schema_migrations d) as [h|]; [|done].
  destruct Hh as (Hn1 & -> & Hv). split; [done|]. split.
  - specialize (Hv 1). rewrite (proj2 (within_spec 1 n 1)) in Hv by lia. apply fmap_Some in Hv as (row & -> & _). by eexists.
  - intros v [row Hrow]. specialize (Hv v). rewrite Hrow in Hv. cbn in Hv.
    destruct (within 1 n v) eqn:Hw; [|done]. apply within_spec in Hw.
    assert (v = 1 \/ v = 2 \/ v = 3 \/ v = 4 \/ v = 5) as Hc by lia.
    unfold allowed_versions. rewrite !elem_of_cons. naive_solver.
Qed.

Section installing.
Context (provenance : MigrationProvenance).

Lemma ensure_recorded batch version n d :
  1 <= version <= n -> schema_at n d ->
  ensure batch version (pinned_checksum version) provenance d = Some d.
Proof.
  intros Hv [Hh _ _ _ _]. unfold ensure. destruct (schema_migrations d) as [h|]; [|lia].
  destruct Hh as (_ & _ & Hr). specialize (Hr version). rewrite (proj2 (within_spec _ _ _)) in Hr by done.
  apply fmap_Some in Hr as (row & Hrow & Hc). cbn. rewrite Hrow. by rewrite bool_decide_eq_true_2.
Qed.

(** The history after the row of the next version. *)
Lemma ensure_next batch n d d1 h :
  binary_identity provenance <> [] -> 0 <= n < 5 ->
  schema_at n d -> batch d = Some d1 -> schema_migrations d1 = Some h ->
  history_sql h = schema_text MIGRATION_V1_SQL ->
  (forall v, (applied_checksum <$> history_rows h !! v) = if within 1 n v then Some (pinned_checksum v) else None) ->
  exists h', ensure batch (n + 1) (pinned_checksum (n + 1)) provenance d
             = Some (mkDatabase (Some h') (selected_state d1) (m2_messages d1) (m3_table d1) (inbound d1))
    /\ history_sql h' = schema_text MIGRATION_V1_SQL
    /\ forall v, (applied_checksum <$> history_rows h' !! v)
                 = if within 1 (n + 1) v then Some (pinned_checksum v) else None.
Proof.
  intros Hb Hn [Hh _ _ _ _] Hbatch Hh1 Hsql Hrows. unfold ensure.
  assert ((schema_migrations d ≫= fun h => history_rows h !! (n + 1)) = None) as ->.
  { destruct (schema_migrations d) as [h0|]; [|done]. cbn. destruct Hh as (_ & _ & Hv). specialize (Hv (n + 1)).
    destruct (within 1 n (n + 1)) eqn:Hw; [apply within_spec in Hw; lia|]. by apply fmap_None in Hv. }
  rewrite Hbatch. cbn [mbind option_bind]. unfold insert_applied. rewrite Hh1. cbn [mbind option_bind].
  assert (history_rows h !! (n + 1) = None) as Hnone.
  { specialize (Hrows (n + 1)). destruct (within 1 n (n + 1)) eqn:Hw; [apply within_spec in Hw; lia|].
    by apply fmap_None in Hrows. }
  assert (length (pinned_checksum (n + 1)) = 32%nat) as Hlen
    by (assert (n = 0 \/ n = 1 \/ n = 2 \/ n = 3 \/ n = 4) as Hc by lia; by destruct Hc as [->|[->|[->|[->| ->]]]]).
  rewrite Hlen, (proj2 (Z.ltb_lt 0 (n + 1))), (bool_decide_eq_true_2 (_ = None)) by (done || lia).
  assert (0 <? len (binary_identity provenance) = true) as -> by (destruct (binary_identity provenance); [done|apply Z.ltb_lt; unfold len; cbn [length]; lia]).
  eexists. split; [done|]. cbn. split; [done|]. intros v. destruct (decide (v = n + 1)) as [->|Hne].
  - rewrite lookup_insert_eq. by rewrite (proj2 (within_spec _ _ _)) by lia.
  - rewrite lookup_insert_ne by done. rewrite Hrows.
    destruct (within 1 n v) eqn:Hw, (within 1 (n + 1) v) eqn:Hw'; try done;
      rewrite ?within_spec in *; [rewrite <- not_true_iff_false, within_spec in Hw'|rewrite <- not_true_iff_false, within_spec in Hw]; lia.
Qed.

#[local] Abbreviation step batch version d :=
  (ensure batch version (pinned_checksum version) provenance d).

(** One step from the version before it. *)
Definition steps_to (batch : Database -> option Database) (n : Z) : Prop :=
  forall d, binary_identity provenance <> [] -> schema_at n d ->
  exists d', step batch (n + 1) d = Some d' /\ schema_at (n + 1) d' /\ same_content d d'.

Lemma next_v1 : steps_to batch_v1 0.
Proof.
  intros d Hb Hd. pose proof Hd as [Hh Hs H2 H3 Hi].
  assert (schema_migrations d = None) as Hnone by (destruct (schema_migrations d); [lia|done]).
  destruct (ensure_next batch_v1 0 d
    (mkDatabase (Some (mkHistory (schema_text MIGRATION_V1_SQL) ∅)) (selected_state d) (m2_messages d) (m3_table d) (inbound d))
    (mkHistory (schema_text MIGRATION_V1_SQL) ∅)) as (h' & He & Hq & Hr); try done.
  - unfold batch_v1. by rewrite Hnone.
  - intros v. cbn. rewrite lookup_empty. cbn. destruct (within 1 0 v) eqn:Hw; [apply within_spec in Hw; lia|done].
  - eexists. split; [exact He|]. split; [|done]. split; cbn; [by split|..]; rewrite ?Hs, ?H2, ?H3, ?Hi; lia.
Qed.

(** The batches after the first leave the history alone. *)
Lemma next_quiet batch n d d1 :
  quiet batch -> binary_identity provenance <> [] -> 0 < n < 5 -> schema_at n d -> batch d = Some d1 ->
  (is_Some (selected_state d1) <-> 2 <= n + 1) -> (is_Some (m2_messages d1) <-> n + 1 = 3) ->
  (is_Some (m3_table d1) <-> 4 <= n + 1) -> (is_Some (inbound d1) <-> 5 <= n + 1) -> same_content d d1 ->
  exists d', step batch (n + 1) d = Some d' /\ schema_at (n + 1) d' /\ same_content d d'.
Proof.
  intros Hq Hb Hn Hd H1 Hs H2 H3 Hi Hc. pose proof Hd as [Hh _ _ _ _].
  destruct (schema_migrations d) as [h|] eqn:Hh0; [|lia]. destruct Hh as (_ & Hsql & Hrows).
  destruct (ensure_next batch n d d1 h) as (h' & He & Hq' & Hr); try done; [lia|by rewrite (Hq _ _ H1)|].
  eexists. split; [exact He|]. split; [|exact Hc]. split; cbn; [|done..]. split; [lia|]. by split.
Qed.

Lemma absent {A : Type} (o : option A) (P : Prop) : (is_Some o <-> P) -> ~ P -> o = None.
Proof. intros Ho Hp. destruct o; [|done]. exfalso. apply Hp, Ho. by eexists. Qed.

Lemma next_v2 : steps_to batch_v2 1.
Proof.
  intros d Hb Hd. pose proof Hd as [_ Hs H2 H3 Hi]. assert (selected_state d = None) as Hn by (eapply absent; [exact Hs|lia]).
  eapply next_quiet; [exact quiet_v2|done|lia|done|by unfold batch_v2; rewrite Hn|..]; cbn.
  - split; [lia|by eexists].
  - rewrite H2. lia.
  - rewrite H3. lia.
  - rewrite Hi. lia.
  - unfold same_content, selected_of. cbn. by rewrite Hn.
Qed.

Lemma next_v3 : steps_to batch_v3 2.
Proof.
  intros d Hb Hd. pose proof Hd as [_ Hs H2 H3 Hi]. assert (m2_messages d = None) as Hn by (eapply absent; [exact H2|lia]).
  assert (m3_table d = None) as Hn3 by (eapply absent; [exact H3|lia]).
  eapply next_quiet; [exact quiet_v3|done|lia|done|by unfold batch_v3; rewrite Hn|..]; cbn.
  - rewrite Hs. lia.
  - split; [lia|by eexists].
  - rewrite H3. lia.
  - rewrite Hi. lia.
  - unfold same_content, messages_of. cbn. rewrite Hn, Hn3. split; [done|]. split; [|done]. apply fmap_empty.
Qed.

Lemma next_v4 : steps_to batch_v4 3.
Proof.
  intros d Hb Hd. pose proof Hd as [_ Hs H2 H3 Hi].
  assert (m3_table d = None) as Hn by (eapply absent; [exact H3|lia]).
  destruct (proj2 H2 eq_refl) as [rows Hrows].
  eapply next_quiet; [exact quiet_v4|done|lia|done|by unfold batch_v4; rewrite Hn, Hrows|..]; cbn.
  - rewrite Hs. lia.
  - split; [by intros []|lia].
  - split; [lia|by eexists].
  - rewrite Hi. lia.
  - unfold same_content, messages_of. cbn. by rewrite Hrows, Hn.
Qed.

Lemma next_v5 : steps_to batch_v5 4.
Proof.
  intros d Hb Hd. pose proof Hd as [_ Hs H2 H3 Hi]. assert (inbound d = None) as Hn by (eapply absent; [exact Hi|lia]).
  eapply next_quiet; [exact quiet_v5|done|lia|done|by unfold batch_v5; rewrite Hn|..]; cbn.
  - rewrite Hs. lia.
  - rewrite H2. lia.
  - rewrite H3. lia.
  - split; [lia|by eexists].
  - unfold same_content, inbound_of. cbn. by rewrite Hn.
Qed.

Lemma step_at batch version n d :
  steps_to batch (version - 1) -> binary_identity provenance <> [] -> 1 <= version <= n + 1 -> schema_at n d ->
  exists d', step batch version d = Some d' /\ schema_at (Z.max n version) d' /\ same_content d d'
    /\ (version <= n -> d' = d).
Proof.
  intros Hs Hb Hv Hd. destruct (decide (version <= n)) as [Hle|Hgt].
  - exists d. rewrite (ensure_recorded _ _ n) by (done || lia). rewrite Z.max_l by done. by split.
  - assert (n = version - 1) as -> by lia. destruct (Hs d Hb Hd) as (d' & He & Hd' & Hc).
    rewrite Z.sub_add in He, Hd'. exists d'. rewrite Z.max_r by lia. split; [done|]. split; [done|]. split; [done|lia].
Qed.

(** A store of an earlier version is brought to the last one, and holds what it held. *)
Lemma upgrade_at n d :
  binary_identity provenance <> [] -> 0 <= n <= 5 -> schema_at n d ->
  exists d', upgrade product_catalog provenance d = Some d' /\ schema_at 5 d' /\ same_content d d'
    /\ (n = 5 -> d' = d).
Proof.
  intros Hb Hn Hd. cbn [upgrade product_catalog].
  destruct (step_at batch_v1 1 n d next_v1 Hb) as (d1 & H1 & Hd1 & C1 & E1); [lia|done|].
  destruct (step_at batch_v2 2 (Z.max n 1) d1 next_v2 Hb) as (d2 & H2 & Hd2 & C2 & E2); [lia|done|].
  destruct (step_at batch_v3 3 (Z.max (Z.max n 1) 2) d2 next_v3 Hb) as (d3 & H3 & Hd3 & C3 & E3); [lia|done|].
  destruct (step_at batch_v4 4 (Z.max (Z.max (Z.max n 1) 2) 3) d3 next_v4 Hb) as (d4 & H4 & Hd4 & C4 & E4); [lia|done|].
  destruct (step_at batch_v5 5 (Z.max (Z.max (Z.max (Z.max n 1) 2) 3) 4) d4 next_v5 Hb) as (d5 & H5 & Hd5 & C5 & E5); [lia|done|].
  cbn [pinned_checksum Z.eqb] in H1, H2, H3, H4, H5. exists d5.
  change (pinned_checksum 1) with MIGRATION_V1_CHECKSUM in H1. change (pinned_checksum 2) with MIGRATION_V2_CHECKSUM in H2.
  change (pinned_checksum 3) with MIGRATION_V3_CHECKSUM in H3. change (pinned_checksum 4) with MIGRATION_V4_CHECKSUM in H4.
  change (pinned_checksum 5) with MIGRATION_V5_CHECKSUM in H5.
  rewrite H1. cbn [mbind option_bind]. rewrite H2. cbn [mbind option_bind]. rewrite H3. cbn [mbind option_bind].
  rewrite H4. cbn [mbind option_bind]. rewrite H5. split; [done|].
  replace (Z.max _ 5) with 5 in Hd5 by lia. split; [done|]. split.
  - unfold same_content in *. intuition congruence.
  - intros ->. rewrite E5, E4, E3, E2, E1 by lia. done.
Qed.
End installing.

(** The tables of a store at the last version. *)
Lemma last_tables d : schema_at 5 d ->
  delivery_tables d = Some (mkDb (messages_of d) (control (inbound_of d)) (receipts (inbound_of d))
                              (rate_events (inbound_of d))).
Proof.
  intros [_ _ _ Hm Hi]. destruct (proj2 Hm ltac:(lia)) as [rows Hrows], (proj2 Hi ltac:(lia)) as [i Hin]. unfold delivery_tables, messages_of, inbound_of.
  by rewrite Hrows, Hin.
Qed.

(** The CHECK constraints of [m2_messages]. *)
Definition m2_row_ok (message_id : string) (r : M2Row) : bool :=
  (sql_length message_id =? 64)
  && within 1 128 (sql_length (m2row_key r))
  && within 1 64 (sql_length (m2row_topic r))
  && within 1 4096 (sql_length (m2row_body r))
  && within 0 5 (m2row_attempts r)
  && eqb (is_due_state (m2row_state r)) (bool_decide (is_Some (m2row_next_attempt_at r)))
  && eqb (bool_decide (m2row_state r = ProviderAccepted)) (bool_decide (is_Some (m2row_provider_ack r)))
  && eqb (bool_decide (m2row_state r = AmbiguousState) || bool_decide (m2row_state r = Failed))
         (bool_decide (is_Some (m2row_last_error r))).

(** Each table satisfies its own constraints. *)
Record tables_ok (d : Database) : Prop := mkTablesOk {
  ok_m2 : forall rows, m2_messages d = Some rows ->
    (forall id r, rows !! id = Some r -> m2_row_ok id r = true)
    /\ forall id id' r r', rows !! id = Some r -> rows !! id' = Some r' -> m2row_key r = m2row_key r' -> id = id';
  ok_m3 : forall rows, m3_table d = Some rows ->
    (forall id r, rows !! id = Some r -> row_ok id r = true) /\ unique_keys rows;
  ok_inbound : forall i, inbound d = Some i -> control i = Some 0 \/ control i = Some 1;
}.

(** The store's tables with what a database of any version holds. *)
Definition content_db (d : Database) : Db :=
  mkDb (messages_of d) (control (inbound_of d)) (receipts (inbound_of d)) (rate_events (inbound_of d)).

Lemma content_wf d : tables_ok d -> wf (content_db d).
Proof.
  intros [H2 H3 Hi]. assert ((forall id r, messages_of d !! id = Some r -> row_ok id r = true)
    /\ unique_keys (messages_of d)) as [Hr Hk].
  { unfold messages_of. destruct (m3_table d) as [rows|]; [by apply H3|].
    destruct (m2_messages d) as [rows|]; [|by split; intros ? ? ?; rewrite ?lookup_empty].
    destruct (H2 rows eq_refl) as [Hr Hk]. split.
    - intros id r. rewrite lookup_fmap. intros (m & Hm & ->)%fmap_Some. specialize (Hr id m Hm).
      unfold row_ok, m2_row_ok in *. cbn. by rewrite Hr.
    - intros id id' r r'. rewrite !lookup_fmap. intros (m & Hm & ->)%fmap_Some (m' & Hm' & ->)%fmap_Some.
      by apply Hk. }
  split; [done|done|]. cbn. unfold inbound_of. destruct (inbound d); [by apply Hi|by left].
Qed.

Lemma migrations_keep_content provenance n s s' r :
  0 <= n <= 5 -> schema_at n (stored s) -> binary_identity provenance <> [] ->
  apply_product_migrations provenance s = (s', r) -> same_content (stored s) (stored s').
Proof.
  intros Hn Hd Hb Hr. destruct (start_refines provenance s s' r Hr) as [Hres _].
  destruct (upgrade_at provenance n _ Hb Hn Hd) as (d & Hu & _ & Hc & _).
  assert (stored s' = stored s \/ stored s' = d) as [-> | ->]; [|done|exact Hc].
  assert (forall d', upgrade product_catalog provenance (stored s) = Some d' -> d' = d) as Heq
    by (intros d' Hd'; rewrite Hu in Hd'; by injection Hd').
  destruct r as [[]|e]; [right; apply Heq; by destruct Hres as [(_ & _ & ?) _]|].
  destruct Hres as [_ [?|(_ & _ & _ & ?)]]; [by left|right; by apply Heq].
Qed.

(** What a database [d] holds is what the tables [db] of its successor [d'] hold: the selected
    state, messages and callbacks as they are, a message of version 3 as a message to the ntfy
    driver for the same topic, and where there was no table an empty one, or a switch that is off. *)
Record kept (d d' : Database) (db : Db) : Prop := mkKept {
  kept_selected : forall t, selected_state d = Some t -> selected_state d' = Some t;
  kept_m3 : forall rows, m3_table d = Some rows -> m3_messages db = rows;
  kept_m2 : forall rows, m2_messages d = Some rows -> forall id r,
    m3_messages db !! id = Some r <->
    exists m, rows !! id = Some m
      /\ driver r = "ntfy"%string /\ destination r = m2row_topic m /\ payload r = ""%string
      /\ idempotency_key r = m2row_key m /\ topic r = m2row_topic m /\ title r = m2row_title m
      /\ body r = m2row_body m /\ state r = m2row_state m /\ attempts r = m2row_attempts m
      /\ next_attempt_at r = m2row_next_attempt_at m /\ provider_ack r = m2row_provider_ack m
      /\ last_error r = m2row_last_error m /\ created_at r = m2row_created_at m
      /\ updated_at r = m2row_updated_at m;
  kept_none : m2_messages d = None -> m3_table d = None -> m3_messages db = ∅;
  kept_inbound : forall i, inbound d = Some i ->
    m4_inbound_control db = control i /\ m4_inbound_receipts db = receipts i
    /\ m4_notify_rate_events db = rate_events i;
  kept_off : inbound d = None ->
    m4_inbound_control db = Some 0 /\ m4_inbound_receipts db = ∅ /\ m4_notify_rate_events db = [];
}.

Lemma content_kept n d d' : schema_at n d -> schema_at 5 d' -> same_content d d' -> kept d d' (content_db d).
Proof.
  intros [_ _ H2 H3 _] [_ Hs' _ _ _] (Hs & _ & _). unfold content_db, messages_of, inbound_of. split; cbn.
  - intros t Ht. destruct (proj2 Hs' ltac:(lia)) as [t' Ht']. unfold selected_of in Hs. rewrite Ht, Ht' in Hs.
    cbn in Hs. congruence.
  - by intros rows ->.
  - intros rows Hrows id r. rewrite Hrows. assert (m3_table d = None) as ->.
    { eapply absent; [exact H3|]. assert (n = 3) by (apply H2; by eexists). lia. }
    rewrite lookup_fmap, fmap_Some. split.
    + intros (m & Hm & ->). by exists m.
    + intros (m & Hm & Hr). exists m. split; [done|]. destruct r. cbn in Hr. unfold row_of_m2. naive_solver.
  - by intros -> ->.
  - by intros i ->.
  - by intros ->.
Qed.

(** C19: Over a store of any earlier version whose tables satisfy their constraints, and whichever
    calls fail, the migrations either leave the database as it was or make it ready: of the
    last version, the tables of the service there and well formed, and holding what it held,
    every message of version 3 as the ntfy driver's for its topic. They make it ready when they
    succeed, leave a store of the last version as it is, and succeed when the calls work. *)
Theorem product_migrations_ready provenance n s s' r :
  0 <= n <= 5 -> schema_at n (stored s) -> tables_ok (stored s) -> binary_identity provenance <> [] ->
  apply_product_migrations provenance s = (s', r) ->
  let ready := schema_at 5 (stored s') /\ exists db, delivery_tables (stored s') = Some db /\ wf db
                 /\ kept (stored s) (stored s') db in
  (stored s' = stored s \/ ready)
  /\ (r = Ok tt -> ready)
  /\ (n = 5 -> stored s' = stored s)
  /\ (working s -> is_open s = true -> r = Ok tt).
Proof.
  intros Hn Hd Ht Hb Hr ready. destruct (start_refines provenance s s' r Hr) as [Hres Hw].
  destruct (upgrade_at provenance n _ Hb Hn Hd) as (d & Hu & H5 & Hc & He).
  assert (forall d', upgrade product_catalog provenance (stored s) = Some d' -> d' = d) as Heq
    by (intros d' Hd'; rewrite Hu in Hd'; by injection Hd').
  pose proof (schema_known _ _ Hn Hd) as Hk. assert (stored s' = d -> ready) as Hready.
  { intros Hst. unfold ready. rewrite Hst. split; [done|]. exists (content_db (stored s)). rewrite (last_tables d H5).
    split; [|split; [by apply content_wf|by eapply content_kept]].
    destruct Hc as (_ & Hm & Hi). unfold content_db. by rewrite Hm, Hi. }
  assert (stored s' = stored s \/ stored s' = d) as Hst.
  { destruct r as [[]|e]; [right; apply Heq; by destruct Hres as [(_ & _ & ?) _]|].
    destruct Hres as [_ [?|(_ & _ & _ & ?)]]; [by left|right; by apply Heq]. }
  split; [destruct Hst; [by left|right; by apply Hready]|]. split.
  { intros ->. apply Hready, Heq. by destruct Hres as [(_ & _ & ?) _]. }
  split; [intros H5n; destruct Hst as [->|Hst]; [done|]; by rewrite Hst, He|].
  intros Hv Ho. by apply (Hw Hv Ho d).
Qed.
End content.

(** ** A store of version 3 with one queued message *)

Section example.

#[local] Instance example_selected : SelectedStateMigration :=
  as_bytes "CREATE TABLE meta (singleton INTEGER PRIMARY KEY);".

Definition example_provenance : MigrationProvenance := mkProvenance (as_bytes "msgriver-0.1.0-alpha") 1700.

Definition example_applied (version : Z) : Applied :=
  mkApplied (pinned_checksum version) (as_bytes "msgriver-0.0.9") 900.

Definition example_message : M2Row :=
  mkM2Row "order-7" "alerts" None "disk full" Queued 0 (Some 900) None None 900 900.
Definition example_id : string := of_bytes (repeat 97 64).

Definition example_v3 : Database :=
  mkDatabase
    (Some (mkHistory (schema_text MIGRATION_V1_SQL)
       (<[1 := example_applied 1]> (<[2 := example_applied 2]> (<[3 := example_applied 3]> ∅)))))
    (Some selected_tables) (Some {[ example_id := example_message ]}) None None.

Definition example_engine (fates : list Fate) : Engine := mkEngine true example_v3 example_v3 fates.

Lemma example_at_3 : schema_at 3 example_v3.
Proof.
  split; cbn -[MIGRATION_V1_SQL].
  - split; [lia|]. split; [done|]. intros v.
    destruct (decide (v = 1)) as [->|]; [done|]. rewrite lookup_insert_ne by done.
    destruct (decide (v = 2)) as [->|]; [done|]. rewrite lookup_insert_ne by done.
    destruct (decide (v = 3)) as [->|]; [done|]. rewrite lookup_insert_ne, lookup_empty by done.
    destruct (within 1 3 v) eqn:Hw; [apply within_spec in Hw; lia|done].
  - split; [lia|by eexists].
  - split; [lia|by eexists].
  - split; [by intros []|lia].
  - split; [by intros []|lia].
Qed.

Lemma example_tables : tables_ok example_v3.
Proof.
  split; [|done..]. intros rows [= <-]. split.
  - intros id r [<- <-]%lookup_singleton_Some. by vm_compute.
  - intros id id' r r' [<- _]%lookup_singleton_Some [<- _]%lookup_singleton_Some _. done.
Qed.

(** The message is there after the upgrade, for the ntfy driver. *)
Lemma product_migrations_ready_witness :
  exists s', apply_product_migrations example_provenance (example_engine []) = (s', Ok tt)
    /\ exists db r, delivery_tables (stored s') = Some db /\ wf db /\ m3_messages db !! example_id = Some r
       /\ driver r = "ntfy"%string /\ destination r = "alerts"%string.
Proof.
  destruct (apply_product_migrations example_provenance (example_engine [])) as [s' r] eqn:Hr.
  destruct (product_migrations_ready example_provenance 3 (example_engine []) s' r ltac:(lia) example_at_3
    example_tables ltac:(discriminate) Hr) as (_ & Hok & _ & Hw).
  assert (r = Ok tt) as -> by (apply Hw; [constructor|reflexivity]).
  destruct (Hok eq_refl) as (_ & db & Hdb & Hwf & Hkept). exists s'. split; [reflexivity|].
  exists db, (row_of_m2 example_message). split; [exact Hdb|]. split; [exact Hwf|]. split; [|split; reflexivity].
  apply (kept_m2 _ _ _ Hkept {[ example_id := example_message ]} eq_refl).
  exists example_message. split; [apply lookup_singleton_eq|]. by split_and!.
Defined.

(** When the answer to the commit is lost the connection is given up, and the database has the
    new tables. *)
Example lost_commit :
  let s := fst (apply_product_migrations example_provenance (example_engine (repeat Works 13 ++ [Lost]))) in
  is_open s = false /\ is_Some (delivery_tables (stored s)).
Proof. vm_compute. split; [reflexivity|]. eexists. reflexivity. Qed.
End example.
