(* ===== verification/StoreOpening.v ===== *)
(** * Opening the store, and the selected state keys ([crates/msgriver-store/src/lib.rs])

    [Store::open] with the profile it installs and reads back, and the snapshot of the
    selected state keys that [StateMacKeys] validates. What SQLite makes of a setting, its
    version and its integrity report are those of a library class. *)

From S2P Require Import Prelude Bytes Store Ring Codec StateMacKeys StoreSchema MigrationV2.
From stdpp Require Import sorting.
Import StateMacKeys.ManifestRow.

#[local] Open Scope Z_scope.

Definition SQLITE_VERSION_FLOOR : Z := 3051003.
Definition BUSY_TIMEOUT_MS : Z := 5000.
Definition SYNCHRONOUS_FULL : Z := 2.
Definition i32_max : Z := 2 ^ 31 - 1.

Record StoreOpenConfig : Type := mkStoreOpenConfig {
  wal_autocheckpoint_pages : Z;
  journal_size_limit_bytes : Z;
}.

Record VerifiedStoreProfile : Type := mkProfile {
  sqlite_version_number : Z;
  verified_autocheckpoint_pages : Z;
  verified_journal_limit_bytes : Z;
}.

(** ** The library *)

Inductive Pragma : Type :=
| TrustedSchema | RecursiveTriggers | ForeignKeys | Synchronous | WalAutocheckpoint
| JournalSizeLimit | BusyTimeout.

#[export] Instance Pragma_eq_dec : EqDecision Pragma.
Proof. solve_decision. Defined.

(** SQLite answers a setting it does not take without an error; hence the reading back. *)
Class SqliteLibrary : Type := mkSqliteLibrary {
  version_number : Z;
  set_pragma : Pragma -> Z -> (Pragma -> Z) -> Pragma -> Z;
  journal_mode_answer : bytes;
  integrity_report : list bytes;
}.

(** The settings of a connection that is being opened. *)
Record Session : Type := mkSession {
  settings : Pragma -> Z;
  pending : list Fate;
}.

Definition Opening (A : Type) : Type := Session -> Session * result StoreError A.

#[export] Instance opening_ret : MRet Opening := fun A a s => (s, Ok a).
#[export] Instance opening_bind : MBind Opening := fun A B f m s =>
  match m s with
  | (s, Ok a) => f a s
  | (s, Err e) => (s, Err e)
  end.

Definition answer_with {A : Type} (r : result StoreError A) : Opening A := fun s => (s, r).

(** A call of the library: an error, or its effect and its answer. *)
Definition library_call {A : Type} (e : StoreError) (f : (Pragma -> Z) -> (Pragma -> Z) * A) : Opening A :=
  fun s =>
  let '(new, a) := f (settings s) in
  match head (pending s) with
  | None | Some Works => (mkSession new (tail (pending s)), Ok a)
  | Some Lost => (mkSession new (tail (pending s)), Err e)
  | Some Fails => (mkSession (settings s) (tail (pending s)), Err e)
  end.

Definition validate_runtime_version (sqlite_version_number : Z) : result StoreError unit :=
  if sqlite_version_number <? SQLITE_VERSION_FLOOR then Err RuntimeVersion else Ok tt.

Definition pragma_i64 (p : Pragma) : Opening Z := library_call Profile (fun st => (st, st p)).

(** One row of the report and its column, or the end of it. *)
Definition next_row (rows : list bytes) : Opening (option bytes) :=
  _ ← library_call Integrity (fun st => (st, tt));
  match rows with
  | [] => mret None
  | row :: _ => _ ← library_call Integrity (fun st => (st, tt)); mret (Some row)
  end.

Definition verify_integrity_rows (rows : list bytes) : Opening unit :=
  first ← next_row rows;
  match first with
  | None => answer_with (Err Integrity)
  | Some first =>
    if negb (bool_decide (first = as_bytes "ok")) then answer_with (Err Integrity)
    else
      second ← next_row (tail rows);
      match second with
      | Some _ => answer_with (Err Integrity)
      | None => mret tt
      end
  end.

Section open.
Context `{SqliteLibrary}.

Definition pragma_update (p : Pragma) (v : Z) : Opening unit :=
  library_call Profile (fun st => (set_pragma p v st, tt)).

(** [prepare] and [query], then the rows. *)
Definition verify_integrity : Opening unit :=
  _ ← library_call Integrity (fun st => (st, tt));
  _ ← library_call Integrity (fun st => (st, tt));
  verify_integrity_rows integrity_report.

(** [Store::open]; [synchronous = FULL] is the setting 2. *)
Definition open (config : StoreOpenConfig) : Opening VerifiedStoreProfile :=
  let autocheckpoint_pages := wal_autocheckpoint_pages config in
  let limit := journal_size_limit_bytes config in
  if i32_max <? autocheckpoint_pages then answer_with (Err InvalidProfile)
  else if (autocheckpoint_pages =? 0) || (limit <? 0) then answer_with (Err InvalidProfile)
  else
    _ ← answer_with (validate_runtime_version version_number);
    _ ← library_call Open (fun st => (st, tt));
    _ ← pragma_update BusyTimeout BUSY_TIMEOUT_MS;
    _ ← pragma_update TrustedSchema 0;
    _ ← pragma_update RecursiveTriggers 0;
    _ ← pragma_update ForeignKeys 1;
    journal_mode ← library_call Profile (fun st => (st, journal_mode_answer));
    if negb (bool_decide (journal_mode = as_bytes "wal")) then answer_with (Err Profile)
    else
      _ ← pragma_update Synchronous SYNCHRONOUS_FULL;
      _ ← pragma_update WalAutocheckpoint autocheckpoint_pages;
      _ ← pragma_update JournalSizeLimit limit;
      synchronous ← pragma_i64 Synchronous;
      foreign_keys ← pragma_i64 ForeignKeys;
      trusted_schema ← pragma_i64 TrustedSchema;
      recursive_triggers ← pragma_i64 RecursiveTriggers;
      busy_timeout ← pragma_i64 BusyTimeout;
      verified_autocheckpoint ← pragma_i64 WalAutocheckpoint;
      verified_journal_limit ← pragma_i64 JournalSizeLimit;
      if negb (synchronous =? SYNCHRONOUS_FULL) || negb (foreign_keys =? 1)
         || negb (trusted_schema =? 0) || negb (recursive_triggers =? 0)
         || negb (busy_timeout =? BUSY_TIMEOUT_MS)
         || negb (verified_autocheckpoint =? autocheckpoint_pages)
         || negb (verified_journal_limit =? limit)
      then answer_with (Err Profile)
      else
        _ ← verify_integrity;
        mret (mkProfile version_number autocheckpoint_pages verified_journal_limit).
End open.

(** ** The selected state keys *)

(** ORDER BY purpose. *)
Definition high_water_before (a b : MetaRow.RawStateMacKeyHighWater) : Prop :=
  MetaRow.raw_purpose a <= MetaRow.raw_purpose b.

(** ORDER BY purpose, origin, serial_hi, serial_lo; a BLOB is ordered by its bytes. *)
Definition key_cmp (a b : RawStateMacKeyManifestRow) : comparison :=
  match raw_purpose a ?= raw_purpose b with
  | Eq =>
    match bytes_cmp (raw_origin a) (raw_origin b) with
    | Eq =>
      match raw_serial_hi a ?= raw_serial_hi b with
      | Eq => raw_serial_lo a ?= raw_serial_lo b
      | c => c
      end
    | c => c
    end
  | c => c
  end.
Definition key_before (a b : RawStateMacKeyManifestRow) : Prop := key_cmp a b <> Gt.

#[local] Instance high_water_before_dec : RelDecision high_water_before.
Proof. intros a b. unfold high_water_before. apply _. Defined.
#[local] Instance key_before_dec : RelDecision key_before.
Proof. intros a b. unfold key_before. destruct (key_cmp a b); [left|left|right]; congruence. Defined.

Definition SNAPSHOT : StoreError := SelectedKeySnapshot.

Definition snapshot_call : Sql StoreError unit := engine_call SNAPSHOT (fun s => Some (tt, s)).

(** [rows.collect]: a row and its columns are one call. *)
Fixpoint collect_rows {A : Type} (rows : list A) : Sql StoreError (list A) :=
  match rows with
  | [] => _ ← snapshot_call; mret []
  | row :: rows => _ ← snapshot_call; rest ← collect_rows rows; mret (row :: rest)
  end.

(** [prepare], which needs the table. *)
Definition select {A : Type} (f : SelectedState -> option (list A)) : Sql StoreError (list A) :=
  rows ← query SNAPSHOT (fun d => t ← selected_state d; f t);
  _ ← snapshot_call;
  mret rows.

(** WHERE singleton = 1. *)
Definition selected_origins (t : SelectedState) : list bytes :=
  snd <$> List.filter (fun row => row.1 =? 1) (meta t).

Definition read_selected_origin : Sql StoreError bytes :=
  rows ← select (fun t => Some (selected_origins t));
  _ ← snapshot_call;
  match rows with
  | [] => give (Err SNAPSHOT)
  | origin :: rows =>
    _ ← snapshot_call;
    _ ← snapshot_call;
    match rows with
    | [] => mret origin
    | _ => give (Err SNAPSHOT)
    end
  end.

Definition read_selected_key_snapshot_raw_in_transaction : Sql StoreError Snapshot.SelectedKeySnapshotRaw :=
  origin ← read_selected_origin;
  high_water_rows ← select (fun t =>
    Some (merge_sort high_water_before (meta_mac_serial_high_water t)));
  high_waters ← collect_rows high_water_rows;
  key_rows ← select (fun t => merge_sort key_before <$> state_mac_keys t);
  manifest_rows ← collect_rows key_rows;
  mret (Snapshot.mkSnapshotRaw origin high_waters manifest_rows).

Definition read_selected_key_snapshot_raw : Sql StoreError Snapshot.SelectedKeySnapshotRaw := fun s =>
  if negb (is_open s) then (s, Err SNAPSHOT)
  else
    (_ ← begin_transaction SNAPSHOT;
     checksum ← query SNAPSHOT (fun d => h ← schema_migrations d; Some (applied_checksum <$> history_rows h !! 2));
     if negb (bool_decide (checksum = Some MIGRATION_V2_CHECKSUM)) then give (Err SNAPSHOT)
     else
       snapshot ← read_selected_key_snapshot_raw_in_transaction;
       _ ← commit SNAPSHOT;
       mret snapshot) s.

(** ** What opening verifies *)

Lemma opening_bind_Ok {A B : Type} (m : Opening A) (f : A -> Opening B) s s' b :
  (m ≫= f) s = (s', Ok b) -> exists s1 a, m s = (s1, Ok a) /\ f a s1 = (s', Ok b).
Proof. unfold mbind, opening_bind. destruct (m s) as [s1 [a|e]]; [|done]. intros Hf. by exists s1, a. Qed.

Lemma library_call_Ok {A : Type} e (f : (Pragma -> Z) -> (Pragma -> Z) * A) s s' a :
  library_call e f s = (s', Ok a) -> f (settings s) = (settings s', a).
Proof.
  unfold library_call. destruct (f (settings s)) as [new b].
  destruct (head (pending s)) as [[| |]|]; intros [= <- <-]; done.
Qed.

(** The calls work. *)
Definition all_work (s : Session) : Prop := Forall (eq Works) (pending s).

Lemma library_call_works {A B : Type} e (f : (Pragma -> Z) -> (Pragma -> Z) * A) (k : A -> Opening B) s :
  all_work s -> exists s', all_work s' /\ settings s' = fst (f (settings s))
    /\ (library_call e f ≫= k) s = k (snd (f (settings s))) s'.
Proof.
  intros Hw. exists (mkSession (fst (f (settings s))) (tail (pending s))). split; [|split; [done|]].
  - unfold all_work in *. cbn. destruct (pending s); [done|]. by apply Forall_cons in Hw as [_ ?].
  - unfold mbind, opening_bind, library_call. destruct (f (settings s)) as [new b]. cbn.
    unfold all_work in Hw. destruct (pending s) as [|o os]; [done|]. by apply Forall_cons in Hw as [<- _].
Qed.

Section opening.
Context `{SqliteLibrary} (config : StoreOpenConfig).

(** What each setting has to be. *)
Definition required (p : Pragma) : Z :=
  match p with
  | TrustedSchema | RecursiveTriggers => 0
  | ForeignKeys => 1
  | Synchronous => SYNCHRONOUS_FULL
  | BusyTimeout => BUSY_TIMEOUT_MS
  | WalAutocheckpoint => wal_autocheckpoint_pages config
  | JournalSizeLimit => journal_size_limit_bytes config
  end.

Record openable : Prop := mkOpenable {
  open_pages : wal_autocheckpoint_pages config <> 0 /\ wal_autocheckpoint_pages config <= i32_max;
  open_limit : 0 <= journal_size_limit_bytes config;
  open_version : SQLITE_VERSION_FLOOR <= version_number;
  open_wal : journal_mode_answer = as_bytes "wal";
  open_whole : integrity_report = [as_bytes "ok"];
}.

Lemma next_row_Ok rows s s' o : next_row rows s = (s', Ok o) -> o = head rows /\ settings s' = settings s.
Proof.
  intros (s1 & [] & [= H1]%library_call_Ok & Hx)%opening_bind_Ok. rewrite H1. destruct rows as [|row rows].
  - by injection Hx as <- <-.
  - apply opening_bind_Ok in Hx as (s2 & [] & [= ->]%library_call_Ok & [= <- <-]). done.
Qed.

Lemma verify_integrity_Ok s s' :
  verify_integrity s = (s', Ok tt) -> integrity_report = [as_bytes "ok"] /\ settings s' = settings s.
Proof.
  intros (s1 & [] & [= ->]%library_call_Ok & (s2 & [] & [= ->]%library_call_Ok & Hx)%opening_bind_Ok)%opening_bind_Ok.
  apply opening_bind_Ok in Hx as (s3 & first & [-> <-]%next_row_Ok & Hx).
  destruct integrity_report as [|row rows]; [done|]. cbn [head tail] in Hx.
  case_bool_decide as Hrow; [|done]. cbn [negb] in Hx. subst row.
  apply opening_bind_Ok in Hx as (s4 & second & [-> <-]%next_row_Ok & Hx).
  destruct rows; [|done]. by injection Hx as <-.
Qed.

(** A setting that reads back. *)
Lemma pragma_i64_Ok p s s' v : pragma_i64 p s = (s', Ok v) -> v = settings s p /\ settings s' = settings s.
Proof. unfold pragma_i64. intros [= Hs Hv]%library_call_Ok. by subst v. Qed.

(** A library that installs what is asked. *)
Definition installs : Prop := forall p v st q, set_pragma p v st q = if decide (q = p) then v else st q.

Lemma open_Ok s s' profile :
  open config s = (s', Ok profile) ->
  openable /\ (forall p, settings s' p = required p)
  /\ profile = mkProfile version_number (wal_autocheckpoint_pages config) (journal_size_limit_bytes config).
Proof.
  unfold open. destruct (Z.ltb_spec i32_max (wal_autocheckpoint_pages config)); [done|].
  destruct (Z.eqb_spec (wal_autocheckpoint_pages config) 0); [done|].
  destruct (Z.ltb_spec (journal_size_limit_bytes config) 0); [done|]. cbn [orb].
  intros (s0 & [] & Hv & Hx)%opening_bind_Ok. injection Hv as -> Hv. unfold validate_runtime_version in Hv.
  destruct (Z.ltb_spec version_number SQLITE_VERSION_FLOOR); [done|].
  do 5 (apply opening_bind_Ok in Hx as (? & [] & _ & Hx)).
  apply opening_bind_Ok in Hx as (? & mode & [= _ <-]%library_call_Ok & Hx).
  case_bool_decide as Hmode; [|done]. cbn [negb] in Hx.
  do 3 (apply opening_bind_Ok in Hx as (? & [] & _ & Hx)).
  do 7 (apply opening_bind_Ok in Hx as (? & ? & [-> <-]%pragma_i64_Ok & Hx)).
  match type of Hx with context [settings ?st _] => set (now := settings st) in * end.
  destruct (_ || _) eqn:Hc in Hx; [done|]. rewrite !orb_false_iff, !negb_false_iff, !Z.eqb_eq in Hc.
  apply opening_bind_Ok in Hx as (s2 & [] & [Hi Hs]%verify_integrity_Ok & [= <- <-]).
  destruct Hc as [[[[[[? ?] ?] ?] ?] ?] ?]. split; [by split|]. split; [|by f_equal].
  rewrite Hs. by intros [].
Qed.

#[local] Ltac library_step Hw :=
  match goal with
  | |- context [(library_call ?e ?f ≫= ?k) ?s] =>
    let s' := fresh "s" in let Hs := fresh "Hs" in
    destruct (library_call_works e f k s Hw) as (s' & Hw' & Hs & ->);
    clear Hw; rename Hw' into Hw; cbn [fst snd] in Hs |- *; cbn beta
  end.

Lemma verify_integrity_works {B : Type} (k : unit -> Opening B) s :
  integrity_report = [as_bytes "ok"] -> all_work s ->
  exists s', (verify_integrity ≫= k) s = k tt s'.
Proof.
  intros Hi Hw. assert (exists s', verify_integrity s = (s', Ok tt)) as [s' Hs'].
  { unfold verify_integrity. rewrite Hi. library_step Hw. library_step Hw. unfold verify_integrity_rows, next_row.
    unfold mbind at 1, opening_bind at 1. library_step Hw.
    unfold mbind at 1, opening_bind at 1, library_call.
    unfold all_work in Hw. destruct (pending _) as [|o os] eqn:Hp; cbn.
    - eexists. unfold mbind, opening_bind, library_call. cbn. done.
    - apply Forall_cons in Hw as [<- Hw]. cbn. unfold mbind, opening_bind, library_call. cbn.
      destruct Hw as [|? ? <- Hw]; cbn; by eexists. }
  exists s'. unfold mbind, opening_bind. by rewrite Hs'.
Qed.

Lemma open_works s :
  installs -> openable -> all_work s ->
  exists s', open config s
    = (s', Ok (mkProfile version_number (wal_autocheckpoint_pages config) (journal_size_limit_bytes config))).
Proof.
  intros Hin [[Hp Hp'] Hl Hv Hj Hi] Hw. unfold open.
  rewrite (proj2 (Z.ltb_ge _ _) Hp'), (proj2 (Z.eqb_neq _ _) Hp), (proj2 (Z.ltb_ge _ _) Hl). cbn [orb].
  unfold validate_runtime_version. rewrite (proj2 (Z.ltb_ge _ _) Hv).
  unfold mbind at 1, opening_bind at 1, answer_with at 1.
  unfold pragma_update, pragma_i64.
  do 6 library_step Hw. rewrite Hj, bool_decide_eq_true_2 by done. cbn [negb].
  do 10 library_step Hw.
  repeat match goal with H : settings ?a = settings ?b |- _ => rewrite H; rewrite H in *; clear H end.
  match goal with |- context [settings ?st Synchronous] => assert (forall q, settings st q = required q) as Hreq end.
  { intros q. repeat match goal with H : settings ?a = _ |- context [settings ?a] => rewrite H; clear H end.
    rewrite !Hin. by destruct q. }
  rewrite !Hreq. cbn [required]. rewrite !Z.eqb_refl. cbn [negb orb].
  match goal with Hw : all_work ?s |- context [verify_integrity ≫= ?k] =>
    destruct (verify_integrity_works k s Hi Hw) as [s' ->] end.
  by exists s'.
Qed.

(** C22: Opening succeeds only with a profile that is in range, on a library of at least the
    required version whose every setting reads back as required and whose integrity report
    is exactly "ok"; and on a library that installs what it is asked, it succeeds whenever
    the calls work. *)
Theorem open_verified :
  (forall s s' profile, open config s = (s', Ok profile) ->
     openable /\ (forall p, settings s' p = required p)
     /\ profile = mkProfile version_number (wal_autocheckpoint_pages config) (journal_size_limit_bytes config))
  /\ (installs -> openable -> forall s, all_work s ->
      exists s', open config s
        = (s', Ok (mkProfile version_number (wal_autocheckpoint_pages config) (journal_size_limit_bytes config)))).
Proof. split; [exact open_Ok|]. intros Hin Ho s Hw. by apply open_works. Qed.
End opening.

(** ** What a snapshot is *)

(** The origin, and the sorted rows, of a store whose version 2 is the pinned one. *)
Definition snapshot_in (d : Database) : option Snapshot.SelectedKeySnapshotRaw :=
  t ← selected_state d;
  match selected_origins t with
  | [origin] =>
    keys ← state_mac_keys t;
    Some (Snapshot.mkSnapshotRaw origin (merge_sort high_water_before (meta_mac_serial_high_water t))
            (merge_sort key_before keys))
  | _ => None
  end.

Definition snapshot_of (d : Database) : option Snapshot.SelectedKeySnapshotRaw :=
  h ← schema_migrations d;
  if bool_decide (applied_checksum <$> history_rows h !! 2 = Some MIGRATION_V2_CHECKSUM)
  then snapshot_in d else None.

Lemma computes_snapshot_call : computes snapshot_call (fun d => Some (tt, d)).
Proof.
  intros s s' r Hx. apply (computes_call SNAPSHOT (fun d => Some (tt, d)) s s' r). rewrite <- Hx.
  unfold snapshot_call, engine_call. done.
Qed.

Lemma computes_collect {A : Type} (rows : list A) : computes (collect_rows rows) (fun d => Some (rows, d)).
Proof.
  induction rows as [|row rows IH]; cbn [collect_rows].
  - eapply computes_ext; [|apply computes_bind; [apply computes_snapshot_call|intros a; apply computes_ret]]. done.
  - eapply computes_ext; [|apply computes_bind; [apply computes_snapshot_call|intros a; apply computes_bind;
      [exact IH|intros rest; apply computes_ret]]]. done.
Qed.

Lemma computes_select {A : Type} (f : SelectedState -> option (list A)) :
  computes (select f) (fun d => t ← selected_state d; rows ← f t; Some (rows, d)).
Proof.
  eapply computes_ext; [|apply computes_bind; [apply computes_query|intros rows; apply computes_bind;
    [apply computes_snapshot_call|intros a; apply computes_ret]]].
  intros d. cbn beta. destruct (selected_state d) as [t|]; cbn; [|reflexivity]. destruct (f t); reflexivity.
Qed.

Lemma computes_origin :
  computes read_selected_origin
    (fun d => t ← selected_state d; match selected_origins t with [origin] => Some (origin, d) | _ => None end).
Proof.
  eapply computes_ext; [|apply computes_bind; [apply computes_select|intros rows; apply computes_bind;
    [apply computes_snapshot_call|intros a]]]; cycle 1.
  { refine (_ : computes _ (fun d => match rows with [origin] => Some (origin, d) | _ => None end)).
    destruct rows as [|origin rows]; [apply (computes_give (Err SNAPSHOT))|].
    eapply computes_ext; [|apply computes_bind; [apply computes_snapshot_call|intros b; apply computes_bind;
      [apply computes_snapshot_call|intros c]]]; cycle 1.
    { refine (_ : computes _ (fun d => match rows with [] => Some (origin, d) | _ => None end)).
      destruct rows; [apply computes_ret|apply (computes_give (Err SNAPSHOT))]. }
    done. }
  intros d. cbn beta. destruct (selected_state d) as [t|]; reflexivity.
Qed.

Lemma computes_in_transaction :
  computes read_selected_key_snapshot_raw_in_transaction (fun d => raw ← snapshot_in d; Some (raw, d)).
Proof.
  eapply computes_ext; [|apply computes_bind; [apply computes_origin|intros origin; apply computes_bind;
    [apply computes_select|intros hs; apply computes_bind; [apply computes_collect|intros hs'; apply computes_bind;
    [apply computes_select|intros ks; apply computes_bind; [apply computes_collect|intros ks'; apply computes_ret]]]]]].
  intros d. unfold snapshot_in. cbn beta. destruct (selected_state d) as [t|] eqn:Ht; cbn; [|reflexivity].
  destruct (selected_origins t) as [|origin [|]]; cbn; rewrite ?Ht; [reflexivity| |reflexivity]. cbn. rewrite Ht. cbn.
  destruct (state_mac_keys t); reflexivity.
Qed.

Lemma begin_spec {E : Type} (e : E) s s' r :
  begin_transaction e s = (s', r) ->
  stored s' = stored s /\ (forall a, r = Ok a -> current s' = stored s)
  /\ (working s -> r = Ok tt /\ working s' /\ current s' = stored s).
Proof.
  unfold begin_transaction, engine_call, working. destruct s as [o st cu [|[] fs]]; cbn; intros [= <- <-]; cbn;
    rewrite ?Forall_cons; naive_solver.
Qed.

Lemma commit_spec {E : Type} (e : E) s s' r :
  commit e s = (s', r) -> (stored s' = stored s \/ stored s' = current s) /\ (working s -> r = Ok tt).
Proof.
  unfold commit, engine_call, working. destruct s as [o st cu [|[] fs]]; cbn; intros [= <- <-]; cbn;
    rewrite ?Forall_cons; naive_solver.
Qed.

(** A transaction that only reads. *)
Lemma read_transaction {A : Type} (m : Sql StoreError A) (f : Database -> option A) s s' r :
  computes m (fun d => a ← f d; Some (a, d)) ->
  (_ ← begin_transaction SNAPSHOT; a ← m; _ ← commit SNAPSHOT; mret a) s = (s', r) ->
  stored s' = stored s
  /\ (forall a, r = Ok a -> f (stored s) = Some a)
  /\ (working s -> forall a, f (stored s) = Some a -> r = Ok a).
Proof.
  intros Hm. unfold mbind, sql_bind. destruct (begin_transaction SNAPSHOT s) as [s1 [u|e]] eqn:Hb;
    destruct (begin_spec _ _ _ _ Hb) as (Hs1 & Hc1 & Hw1).
  2: { intros [= <- <-]. split; [done|]. split; [done|]. by intros [? _]%Hw1. }
  specialize (Hc1 u eq_refl). destruct (m s1) as [s2 [a|e]] eqn:Hx; destruct (Hm _ _ _ Hx) as (Hs2 & _ & Ha & Hw2);
    rewrite Hc1 in Ha, Hw2.
  2: { intros [= <- <-]. split; [by rewrite Hs2|]. split; [done|]. intros (_ & Hv & _)%Hw1 a Hf.
       apply Hw2 in Hv as [_ Hv]. destruct (Hv a (stored s)) as [? _]; [by rewrite Hf|done]. }
  specialize (Ha a eq_refl). destruct (f (stored s)) as [b|] eqn:Hf; [|done]. injection Ha as <- Hcur.
  destruct (commit SNAPSHOT s2) as [s3 [v|e]] eqn:Hc; destruct (commit_spec _ _ _ _ Hc) as (Hs3 & Hw3);
    intros [= <- <-].
  all: assert (stored s3 = stored s) as -> by (destruct Hs3 as [-> | ->]; [by rewrite Hs2|by rewrite <- Hcur]).
  all: split; [done|]; split; [by intros ? [= <-]|].
  - by intros _ a [= <-].
  - intros (_ & Hv & _)%Hw1. apply Hw2 in Hv as [Hv _]. by apply Hw3 in Hv.
Qed.

Lemma read_snapshot_spec s s' r :
  read_selected_key_snapshot_raw s = (s', r) ->
  stored s' = stored s
  /\ (forall raw, r = Ok raw -> is_open s = true /\ snapshot_of (stored s) = Some raw)
  /\ (working s -> is_open s = true -> forall raw, snapshot_of (stored s) = Some raw -> r = Ok raw).
Proof.
  unfold read_selected_key_snapshot_raw. destruct (is_open s) eqn:Ho; cbn [negb].
  2: { by intros [= <- <-]. }
  set (checked := checksum ← query SNAPSHOT (fun d => h ← schema_migrations d; Some (applied_checksum <$> history_rows h !! 2));
     if negb (bool_decide (checksum = Some MIGRATION_V2_CHECKSUM)) then give (Err SNAPSHOT)
     else read_selected_key_snapshot_raw_in_transaction).
  intros Hr. destruct (read_transaction checked snapshot_of s s' r) as (Hs & Ha & Hw).
  - eapply computes_ext; [|apply computes_bind; [apply computes_query|intros checksum; apply computes_if;
      [apply (computes_give (Err SNAPSHOT))|exact computes_in_transaction]]].
    intros d. unfold snapshot_of. cbn beta. destruct (schema_migrations d) as [h|]; cbn; [|reflexivity].
    destruct (bool_decide _); reflexivity.
  - rewrite <- Hr. unfold checked, mbind, sql_bind. destruct (begin_transaction SNAPSHOT s) as [s1 [u|e]]; [|done].
    destruct (query SNAPSHOT _ s1) as [s2 [checksum|e]]; [|done]. by destruct (negb _).
  - split; [done|]. split; [intros raw Hraw; split; [done|by apply Ha]|]. intros Hv _ raw. by apply Hw.
Qed.

(** ** The order of what is read *)

Lemma compare_div x y : (x ?= y) = match x / 256 ?= y / 256 with Eq => x mod 256 ?= y mod 256 | c => c end.
Proof.
  pose proof (Z.div_mod x 256). pose proof (Z.div_mod y 256).
  pose proof (Z.mod_pos_bound x 256). pose proof (Z.mod_pos_bound y 256).
  destruct (Z.compare_spec (x / 256) (y / 256)).
  - destruct (Z.compare_spec (x mod 256) (y mod 256)).
    + apply Z.compare_eq_iff. lia.
    + apply Z.compare_lt_iff. lia.
    + apply Z.compare_gt_iff. lia.
  - apply Z.compare_lt_iff. lia.
  - apply Z.compare_gt_iff. lia.
Qed.

Lemma bytes_cmp_app a a' b b' :
  length a = length a' ->
  bytes_cmp (a ++ b) (a' ++ b') = match bytes_cmp a a' with Eq => bytes_cmp b b' | c => c end.
Proof.
  revert a'. induction a as [|x a IH]; intros [|x' a'] Hl; try done. cbn. injection Hl as Hl.
  destruct (x ?= x'); [by apply IH|done|done].
Qed.

(** Big-endian bytes are ordered as the numbers are. *)
Lemma bytes_cmp_be n x y :
  0 <= x < 256 ^ Z.of_nat n -> 0 <= y < 256 ^ Z.of_nat n -> bytes_cmp (be_bytes n x) (be_bytes n y) = (x ?= y).
Proof.
  revert x y. induction n as [|n IH]; intros x y Hx Hy.
  - cbn in Hx, Hy. by assert (x = 0 /\ y = 0) as [-> ->] by lia.
  - rewrite Nat2Z.inj_succ, Z.pow_succ_r in Hx, Hy by lia. unfold be_bytes; fold be_bytes.
    rewrite bytes_cmp_app by (by rewrite !length_be_bytes). rewrite IH.
    2,3: split; [apply Z.div_pos; lia|apply Z.div_lt_upper_bound; lia].
    rewrite (compare_div x y). destruct (x / 256 ?= y / 256); [|done|done]. cbn.
    by destruct (x mod 256 ?= y mod 256).
Qed.

Lemma row_of_lt ra rb a b : row_of ra a -> row_of rb b -> key_cmp ra rb = Lt -> row_lt a b.
Proof.
  intros (Hpa & _ & _ & Hla & Hha & Hloa & _ & Hka) (Hpb & _ & _ & Hlb & Hhb & Hlob & _ & Hkb).
  unfold key_cmp, row_lt, Manifest.order_le, Manifest.row_order. cbn [fst snd]. rewrite <- Hpa, <- Hpb, Hka, Hkb.
  rewrite (Z.compare_antisym (raw_purpose ra)). destruct (raw_purpose ra ?= raw_purpose rb); cbn [CompOpp]; [|done|done].
  rewrite bytes_cmp_app, (bytes_cmp_antisym (raw_origin ra)) by congruence.
  destruct (bytes_cmp (raw_origin ra) (raw_origin rb)); cbn [CompOpp]; [|done|done].
  unfold is_u32 in *. rewrite within_spec in *. unfold u32_max in *.
  rewrite bytes_cmp_app, !bytes_cmp_be by (rewrite ?length_be_bytes; cbn; lia || done).
  rewrite (Z.compare_antisym (raw_serial_hi ra)), (Z.compare_antisym (raw_serial_lo ra)).
  destruct (raw_serial_hi ra ?= raw_serial_hi rb); cbn [CompOpp]; [|done|done].
  by destruct (raw_serial_lo ra ?= raw_serial_lo rb).
Qed.

Definition key_of (row : RawStateMacKeyManifestRow) : Z * bytes * Z * Z :=
  (raw_purpose row, raw_origin row, raw_serial_hi row, raw_serial_lo row).

Lemma key_cmp_eq a b : key_cmp a b = Eq -> key_of a = key_of b.
Proof.
  unfold key_cmp, key_of. destruct (Z.compare_spec (raw_purpose a) (raw_purpose b)) as [-> | |]; [|done|done].
  destruct (bytes_cmp (raw_origin a) (raw_origin b)) eqn:Ho; [|done|done]. apply bytes_cmp_eq in Ho as ->.
  destruct (Z.compare_spec (raw_serial_hi a) (raw_serial_hi b)) as [-> | |]; [|done|done].
  by intros ->%Z.compare_eq_iff.
Qed.

Lemma key_cmp_antisym a b : key_cmp b a = CompOpp (key_cmp a b).
Proof.
  unfold key_cmp. rewrite (Z.compare_antisym (raw_purpose a)), (bytes_cmp_antisym (raw_origin a)),
    (Z.compare_antisym (raw_serial_hi a)), (Z.compare_antisym (raw_serial_lo a)).
  by destruct (raw_purpose a ?= raw_purpose b), (bytes_cmp (raw_origin a) (raw_origin b)),
    (raw_serial_hi a ?= raw_serial_hi b).
Qed.

#[local] Instance key_before_total : Total key_before.
Proof. intros a b. unfold key_before. rewrite (key_cmp_antisym a b). destruct (key_cmp a b); [left|left|right]; done. Qed.
#[local] Instance high_water_before_total : Total high_water_before.
Proof. intros a b. unfold high_water_before. lia. Qed.

Lemma sorted_rows raws rows :
  Sorted key_before raws -> NoDup (map key_of raws) -> Forall2 row_of raws rows -> Sorted row_lt rows.
Proof.
  intros Hs. revert rows. induction Hs as [|raw raws Hs IH Hd]; intros rows Hn Hf.
  - apply Forall2_nil_inv_l in Hf as ->. constructor.
  - apply Forall2_cons_inv_l in Hf as (row & rows' & Hr & Hf & ->). cbn in Hn.
    apply NoDup_cons in Hn as [Hnot Hn]. constructor; [by apply IH|].
    destruct Hd as [|next raws Hb]; [apply Forall2_nil_inv_l in Hf as ->; constructor|].
    apply Forall2_cons_inv_l in Hf as (row2 & rows'' & Hr2 & _ & ->). constructor.
    apply (row_of_lt raw next); [done|done|]. unfold key_before in Hb.
    destruct (key_cmp raw next) eqn:Hc; [|done|done]. apply key_cmp_eq in Hc. exfalso. apply Hnot.
    rewrite Hc. apply list_elem_of_here.
Qed.

(** C27: Reading the selected keys changes nothing. What is read comes from a store whose version
    2 is the pinned one: its only origin, all its high waters in order, and all its keys in
    the order that the validation of a manifest asks for, when no key is there twice. When
    the calls work, a store that has them is read. *)
Theorem snapshot_reads_selected s s' r :
  read_selected_key_snapshot_raw s = (s', r) ->
  let pinned := exists h row, schema_migrations (stored s) = Some h /\ history_rows h !! 2 = Some row
                  /\ applied_checksum row = MIGRATION_V2_CHECKSUM in
  stored s' = stored s
  /\ (forall raw, r = Ok raw -> is_open s = true /\ pinned
      /\ exists t keys, selected_state (stored s) = Some t /\ state_mac_keys t = Some keys
         /\ selected_origins t = [Snapshot.raw_selected_origin raw]
         /\ Snapshot.raw_high_waters raw ≡ₚ meta_mac_serial_high_water t
         /\ Sorted high_water_before (Snapshot.raw_high_waters raw)
         /\ Snapshot.raw_manifest_rows raw ≡ₚ keys
         /\ forall rows, NoDup (map key_of keys) -> Forall2 row_of (Snapshot.raw_manifest_rows raw) rows ->
            Sorted row_lt rows)
  /\ (working s -> is_open s = true -> pinned ->
      forall t keys origin, selected_state (stored s) = Some t -> state_mac_keys t = Some keys ->
      selected_origins t = [origin] -> is_ok r = true).
Proof.
  intros (Hs & Ha & Hw)%read_snapshot_spec. cbv zeta. split; [done|]. split.
  - intros raw [Ho Hraw]%Ha. split; [done|]. unfold snapshot_of in Hraw.
    destruct (schema_migrations (stored s)) as [h|]; [|done]. cbn in Hraw.
    case_bool_decide as Hc; [|done]. apply fmap_Some in Hc as (row & Hrow & Hc).
    split; [by exists h, row|]. unfold snapshot_in in Hraw.
    destruct (selected_state (stored s)) as [t|]; [|done]. cbn in Hraw.
    destruct (selected_origins t) as [|origin [|]] eqn:Hor; [done| |done].
    destruct (state_mac_keys t) as [keys|] eqn:Hk; [|done]. injection Hraw as <-. cbn.
    exists t, keys. split; [done|]. split; [done|]. split; [done|]. split; [apply merge_sort_Permutation|].
    split; [apply Sorted_merge_sort, _|]. split; [apply merge_sort_Permutation|].
    intros rows Hn Hf. eapply sorted_rows; [apply Sorted_merge_sort, _| |exact Hf].
    by rewrite (merge_sort_Permutation key_before keys).
  - intros Hv Ho (h & row & Hh & Hrow & Hc) t keys origin Ht Hk Hor.
    assert (is_Some (snapshot_of (stored s))) as [raw Hraw].
    { unfold snapshot_of, snapshot_in. rewrite Hh, Ht. cbn. rewrite Hrow. cbn. rewrite Hc, bool_decide_eq_true_2 by done.
      rewrite Hor, Hk. by eexists. }
    by rewrite (Hw Hv Ho raw Hraw).
Qed.

(** The same tables of version 2, whatever rows are in them. *)
Definition same_tables (d d' : Database) : Prop :=
  option_relation (fun t t' => is_Some (state_mac_keys t) <-> is_Some (state_mac_keys t')) (fun _ => False) (fun _ => False)
    (selected_state d) (selected_state d').

(** C36: No migration creates [state_mac_keys]: on a store that the migrations made, with the
    text that the build embeds and whatever calls failing, the selected keys cannot be read,
    whatever rows are written into its tables afterwards. *)
Theorem migrated_snapshot_unreadable provenance n s s1 r1 s2 s3 r :
  0 <= n <= 1 -> schema_at n (stored s) -> binary_identity provenance <> [] ->
  apply_product_migrations provenance s = (s1, r1) -> same_tables (stored s1) (stored s2) ->
  read_selected_key_snapshot_raw s2 = (s3, r) -> is_ok r = false.
Proof.
  intros Hn Hd Hb Hm Hs2 (_ & Ha & _)%read_snapshot_spec.
  assert (0 <= n <= 5) as Hn5 by lia.
  destruct (migrations_keep_content provenance n s s1 r1 Hn5 Hd Hb Hm) as [Hsel _].
  destruct r as [raw|]; [|done]. exfalso. destruct (Ha raw eq_refl) as [_ Hraw].
  unfold snapshot_of in Hraw. destruct (schema_migrations (stored s2)); [|discriminate]. cbn [mbind option_bind] in Hraw.
  case_bool_decide; [|discriminate]. unfold snapshot_in in Hraw.
  destruct (selected_state (stored s2)) as [t2|] eqn:E2; [|discriminate]. cbn [mbind option_bind] in Hraw.
  destruct (selected_origins t2) as [|origin [|]]; [discriminate| |discriminate].
  destruct (state_mac_keys t2) as [keys|] eqn:Ek; [|discriminate].
  unfold same_tables in Hs2. rewrite E2 in Hs2. unfold selected_of in Hsel.
  destruct Hd as [_ Hsn _ _ _]. rewrite (absent _ _ Hsn) in Hsel by lia. unfold from_option, id in Hsel.
  destruct (selected_state (stored s1)) as [t1|]; [|exact Hs2]. subst t1.
  cbn [option_relation] in Hs2. rewrite Ek in Hs2. destruct (proj2 Hs2 ltac:(by eexists)) as [x Hx].
  rewrite embedded_v2_no_keys in Hx. discriminate Hx.
Qed.

(** ** A library, and a store *)

Section example.
#[local] Instance plain_library : SqliteLibrary :=
  mkSqliteLibrary 3051003 (fun p v st q => if decide (q = p) then v else st q) (as_bytes "wal") [as_bytes "ok"].

Definition STORE_CONFIG : StoreOpenConfig := mkStoreOpenConfig 1000 (16 * 1024 * 1024).

(** The service's own configuration opens. *)
Example service_store_opens :
  snd (open STORE_CONFIG (mkSession (fun _ => 0) [])) = Ok (mkProfile 3051003 1000 16777216).
Proof. vm_compute. reflexivity. Qed.

Lemma open_verified_witness :
  (exists s', open STORE_CONFIG (mkSession (fun _ => 0) []) = (s', Ok (mkProfile 3051003 1000 16777216)))
  /\ forall s s' profile, open STORE_CONFIG s = (s', Ok profile) -> settings s' ForeignKeys = 1.
Proof.
  destruct (open_verified STORE_CONFIG) as [Hok Hw]. split.
  - refine (Hw (fun _ _ _ _ => eq_refl) _ (mkSession (fun _ => 0) []) (List.Forall_nil _)).
    split; [split; [discriminate|vm_compute; discriminate]|vm_compute; discriminate|vm_compute; discriminate|reflexivity|reflexivity].
  - intros s s' profile Ho. destruct (Hok s s' profile Ho) as (_ & Hr & _). exact (Hr ForeignKeys).
Defined.

(** A library that keeps foreign keys off is refused. *)
Example stubborn_library :
  snd (open (H := mkSqliteLibrary 3051003 (fun p v st q =>
         if decide (q = p) then (if decide (p = ForeignKeys) then 0 else v) else st q) (as_bytes "wal") [as_bytes "ok"])
    STORE_CONFIG (mkSession (fun _ => 0) [])) = Err Profile.
Proof. vm_compute. reflexivity. Qed.

Definition selected_row (serial : Z) : RawStateMacKeyManifestRow := ManifestRow.mkRaw 2 (repeat 3 32) 0 serial 1 17.

Definition selected_database : Database :=
  mkDatabase (Some (mkHistory (schema_text MIGRATION_V1_SQL)
                (<[2 := mkApplied MIGRATION_V2_CHECKSUM [1] 5]> ∅)))
    (Some (mkSelectedState [(1, repeat 3 32)] [MetaRow.mkRaw 2 0 9; MetaRow.mkRaw 1 0 8]
             (Some [selected_row 7; selected_row 4]))) None None None.

Definition selected_engine : Engine := mkEngine true selected_database selected_database [].

Lemma snapshot_reads_selected_witness :
  exists raw, snd (read_selected_key_snapshot_raw selected_engine) = Ok raw
    /\ Snapshot.raw_manifest_rows raw ≡ₚ [selected_row 7; selected_row 4].
Proof.
  destruct (read_selected_key_snapshot_raw selected_engine) as [s' r] eqn:Hr.
  destruct (snapshot_reads_selected _ _ _ Hr) as (_ & Ha & Hw). cbn [snd].
  assert (is_ok r = true) as Hok.
  { refine (Hw (List.Forall_nil _) eq_refl _ _ _ (repeat 3 32) eq_refl eq_refl eq_refl).
    eexists. eexists. split; [reflexivity|]. split; [apply lookup_insert_eq|reflexivity]. }
  destruct r as [raw|]; [|discriminate]. exists raw. split; [reflexivity|].
  destruct (Ha raw eq_refl) as (_ & _ & t & keys & Ht & Hk & _ & _ & _ & Hp & _).
  injection Ht as <-. injection Hk as <-. exact Hp.
Defined.

(** A migrated store whose [meta] is then given its row. *)
Definition with_origin (d : Database) : Database :=
  mkDatabase (schema_migrations d)
    ((fun t => mkSelectedState [(1, repeat 3 32)] [MetaRow.mkRaw 2 0 9] (state_mac_keys t)) <$> selected_state d)
    (m2_messages d) (m3_table d) (inbound d).

Lemma migrated_snapshot_unreadable_witness :
  let s := mkEngine true empty_database empty_database [] in
  let migrated := stored (fst (apply_product_migrations (mkProvenance [1] 5) s)) in
  is_ok (snd (read_selected_key_snapshot_raw (mkEngine true (with_origin migrated) (with_origin migrated) []))) = false.
Proof.
  cbv zeta. destruct (apply_product_migrations _ _) as [s1 r1] eqn:Hm. cbn [fst].
  set (s2 := mkEngine true _ _ _). destruct (read_selected_key_snapshot_raw s2) as [s3 r] eqn:Hr. cbn [snd].
  refine (migrated_snapshot_unreadable (mkProvenance [1] 5) 0
    (mkEngine true empty_database empty_database []) s1 r1 s2 s3 r _ empty_schema _ Hm _ Hr).
  - lia.
  - discriminate.
  - unfold same_tables, s2, with_origin. cbn [stored selected_state].
    destruct (selected_state (stored s1)); cbn [fmap option_fmap option_map option_relation state_mac_keys]; split; tauto.
Defined.
End example.
