(* ===== verification/KeyFiles.v ===== *)
(** * Publishing and loading the initialization key pair
    ([initialization_key_pair/publication.rs] of [crates/msgriver/src])

    [publish_with] writes the two keys one after the other, each through its own
    temporary; [load_with] reads them back. The hooks are functions of step and phase:
    a run passes each pair of them once, so nothing is lost by their having no state. *)

From S2P Require Import Prelude Bytes Text CoreError Generation Sha256 Codec Journal Host Durable Platform.

#[local] Open Scope Z_scope.

Inductive Phase : Type := Before | After.

(** The file names, of the publication and of the loader alike. *)
Definition temporary_of (role : InitializationKeyRole) : bytes :=
  match role with
  | JournalIntegrity => as_bytes ".initialization-journal-integrity.tmp"
  | PortableReservation => as_bytes ".initialization-portable-reservation.tmp"
  end.
Definition final_of (role : InitializationKeyRole) : bytes :=
  match role with
  | JournalIntegrity => as_bytes "initialization-journal-integrity.key"
  | PortableReservation => as_bytes "initialization-portable-reservation.key"
  end.
Arguments temporary_of : simpl never.
Arguments final_of : simpl never.

Module Load.

Inductive LoadStep : Type :=
| Policy | Guard | Lock | OpenRoot | TemporaryPreflight (index : Z)
| Open (role : InitializationKeyRole) | Read (role : InitializationKeyRole)
| Verify (role : InitializationKeyRole).

Inductive LoadDirective : Type := Continue | Fail.

Definition LoadHooks : Type := LoadStep -> Phase -> LoadDirective.
Definition NoLoadFaults : LoadHooks := fun _ _ => Continue.

Inductive LoadError : Type :=
| MissingLoad | PolicyError | Root | LockError | DirectoryError | TemporaryEntry
| Entry (role : InitializationKeyRole) | Io_ (step : LoadStep)
| Invalid (role : InitializationKeyRole) | Equal.

Definition observe (hooks : LoadHooks) (step : LoadStep) (phase : Phase) : Io LoadError unit :=
  match hooks step phase with
  | Continue => mret tt
  | Fail => pure (Err (match step with
                       | Policy => PolicyError
                       | Guard => Root
                       | Lock => LockError
                       | OpenRoot | TemporaryPreflight _ => DirectoryError
                       | _ => Io_ step
                       end))
  end.

(** The loop over [TEMPORARIES], numbered from [index]. *)
Fixpoint temporaries_absent (hooks : LoadHooks) (index : Z) (l : list bytes) : Io LoadError unit :=
  match l with
  | [] => mret tt
  | temporary :: l =>
    let step := TemporaryPreflight index in
    _ ← observe hooks step Before;
    found ← look_up DirectoryError temporary;
    match found with
    | Some _ => pure (Err TemporaryEntry)
    | None => _ ← observe hooks step After; temporaries_absent hooks (index + 1) l
    end
  end.

Definition read_final (name : bytes) (role : InitializationKeyRole) (hooks : LoadHooks)
    : Io LoadError bytes :=
  _ ← observe hooks (Open role) Before;
  before ← look_up (Io_ (Open role)) name;
  uid ← ask euid;
  match before with
  | None => pure (Err (Entry role))
  | Some (_, i) =>
    if negb (owner_only uid i) then pure (Err (Entry role))
    else
      file ← look_up (Io_ (Open role)) name;
      match file with
      | None => pure (Err (Entry role))
      | Some (_, i) =>
        if bool_decide (i_type i = Symlink) then pure (Err (Entry role))
        else
          _ ← system_call (Io_ (Open role));
          if negb (owner_only uid i) then pure (Err (Entry role))
          else
            _ ← observe hooks (Open role) After;
            _ ← observe hooks (Read role) Before;
            material ← read_once (Io_ (Read role)) 32 (i_data i);
            if negb (length material =? 32)%nat then pure (Err (Invalid role))
            else
              eof ← read_once (Io_ (Read role)) 1 (drop (length material) (i_data i));
              if negb (length eof =? 0)%nat then pure (Err (Invalid role))
              else
                _ ← observe hooks (Read role) After;
                _ ← observe hooks (Verify role) Before;
                if all_zero material then pure (Err (Invalid role))
                else _ ← observe hooks (Verify role) After; mret material
      end
  end.

Definition load_with (hooks : LoadHooks) : Io LoadError InitializationKeyPair :=
  _ ← observe hooks Policy Before;
  _ ← mapped (fun _ => PolicyError) apply_linux_startup_policy;
  _ ← observe hooks Policy After;
  _ ← observe hooks Guard Before;
  _ ← mapped (fun _ => Root) ensure_linux_non_root;
  _ ← observe hooks Guard After;
  _ ← observe hooks Lock Before;
  _ ← mapped (fun _ => LockError) acquire_with_private_root_reference;
  _ ← observe hooks Lock After;
  _ ← observe hooks OpenRoot Before;
  _ ← open_operational DirectoryError;
  _ ← observe hooks OpenRoot After;
  _ ← temporaries_absent hooks 0 [temporary_of JournalIntegrity; temporary_of PortableReservation];
  journal ← read_final (final_of JournalIntegrity) JournalIntegrity hooks;
  portable ← read_final (final_of PortableReservation) PortableReservation hooks;
  if bool_decide (journal = portable) then pure (Err Equal)
  else mret (mkInitializationKeyPair (mkJournalIntegrityKey journal)
               (mkPortableReservationKey portable)).

Definition load : Io LoadError InitializationKeyPair := load_with NoLoadFaults.

End Load.

Module Publish.

Inductive Step : Type :=
| Policy | Guard | Lock | OpenRoot | Preflight (index : Z)
| Create (role : InitializationKeyRole) | Write (role : InitializationKeyRole)
| FileSync (role : InitializationKeyRole) | Rename (role : InitializationKeyRole)
| DirectorySync (role : InitializationKeyRole).

Inductive Directive : Type := Continue | Fail | WriteLimit (count : nat).

Definition PublicationHooks : Type := Step -> Phase -> Directive.
Definition NoFaults : PublicationHooks := fun _ _ => Continue.

Inductive PublicationError : Type :=
| MissingPublication | PolicyError | Root | LockError | DirectoryError | ExistingEntry
| EntropyError (e : InitializationKeyPairError) | Io_ (step : Step).

Definition observe (hooks : PublicationHooks) (step : Step) (phase : Phase)
    : Io PublicationError Directive :=
  match hooks step phase, step, phase with
  | Continue, _, _ => mret Continue
  | WriteLimit count, Write _, Before => mret (WriteLimit count)
  | _, _, _ => pure (Err (match step with
                          | Policy => PolicyError
                          | Guard => Root
                          | Lock => LockError
                          | OpenRoot | Preflight _ => DirectoryError
                          | _ => Io_ step
                          end))
  end.

Definition NAMES : list bytes :=
  [temporary_of JournalIntegrity; final_of JournalIntegrity;
   temporary_of PortableReservation; final_of PortableReservation].

Fixpoint preflight (hooks : PublicationHooks) (index : Z) (l : list bytes)
    : Io PublicationError unit :=
  match l with
  | [] => mret tt
  | name :: l =>
    let step := Preflight index in
    _ ← observe hooks step Before;
    found ← look_up DirectoryError name;
    match found with
    | Some _ => pure (Err ExistingEntry)
    | None => _ ← observe hooks step After; preflight hooks (index + 1) l
    end
  end.

(** The loop body for one role. *)
Definition store_key (hooks : PublicationHooks) (role : InitializationKeyRole) (l : bytes)
    : Io PublicationError unit :=
  _ ← observe hooks (Create role) Before;
  created ← open_new (Io_ (Create role)) (temporary_of role);
  file ← pure (ok_or created (Io_ (Create role)));
  _ ← observe hooks (Create role) After;
  directive ← observe hooks (Write role) Before;
  let count := match directive with
               | WriteLimit count => Nat.min count (length l)
               | _ => length l
               end in
  written ← write_once (Io_ (Write role)) file (take count l);
  if negb (written =? length l)%nat then pure (Err (Io_ (Write role)))
  else
    _ ← observe hooks (Write role) After;
    _ ← observe hooks (FileSync role) Before;
    _ ← sync_file (Io_ (FileSync role)) file;
    _ ← observe hooks (FileSync role) After;
    _ ← observe hooks (Rename role) Before;
    _ ← rename (Io_ (Rename role)) false (temporary_of role) (final_of role);
    _ ← observe hooks (Rename role) After;
    _ ← observe hooks (DirectorySync role) Before;
    _ ← sync_directory (Io_ (DirectorySync role));
    _ ← observe hooks (DirectorySync role) After;
    mret tt.

Section with_source.
Context `{InitializationEntropySource Src}.

Definition publish_with (source : Src) (hooks : PublicationHooks) : Io PublicationError unit :=
  _ ← observe hooks Policy Before;
  _ ← mapped (fun _ => PolicyError) apply_linux_startup_policy;
  _ ← observe hooks Policy After;
  _ ← observe hooks Guard Before;
  _ ← mapped (fun _ => Root) ensure_linux_non_root;
  _ ← observe hooks Guard After;
  _ ← observe hooks Lock Before;
  _ ← mapped (fun _ => LockError) acquire_with_private_root_reference;
  _ ← observe hooks Lock After;
  _ ← observe hooks OpenRoot Before;
  _ ← open_operational DirectoryError;
  _ ← observe hooks OpenRoot After;
  _ ← preflight hooks 0 NAMES;
  pair ← pure (map_err EntropyError (acquire_initialization_key_pair_with source).2);
  _ ← store_key hooks JournalIntegrity (key_bytes (journal_integrity pair));
  store_key hooks PortableReservation (reservation_bytes (portable_reservation pair)).

Definition publish (source : Src) : Io PublicationError unit := publish_with source NoFaults.
End with_source.

End Publish.

(** ** Names *)

Lemma temporary_final role role' : temporary_of role <> final_of role'.
Proof. destruct role, role'; intros Hx; apply (f_equal (hd 0)) in Hx; done. Qed.
Lemma lock_final role : LOCK_NAME <> final_of role.
Proof. destruct role; intros Hx; apply (f_equal (hd 0)) in Hx; done. Qed.
Lemma final_inj : final_of JournalIntegrity <> final_of PortableReservation.
Proof. intros Hx. apply (f_equal length) in Hx. done. Qed.

(** ** Idle calls *)

Lemma idle_observe_load hooks step phase : idle (Load.observe hooks step phase).
Proof. unfold Load.observe. idle. Qed.
Lemma idle_observe hooks step phase : idle (Publish.observe hooks step phase).
Proof. unfold Publish.observe. idle. Qed.
#[export] Hint Resolve idle_observe_load idle_observe : idle.

Lemma idle_read_final name role hooks : idle (Load.read_final name role hooks).
Proof. unfold Load.read_final. idle. Qed.
Lemma idle_temporaries hooks index l : idle (Load.temporaries_absent hooks index l).
Proof. revert index. induction l as [|name l IH]; intros index; cbn; idle. Qed.
#[export] Hint Resolve idle_read_final idle_temporaries : idle.

(** ** Storing one key *)

Section store.
Context (hooks : Publish.PublicationHooks) (role : InitializationKeyRole) (l : bytes).
Context (t : bytes) (V : option bytes -> Prop) (v : option bytes).
Hypothesis not_temporary : temporary_of role <> t.
Context (Q Q' B : Directory -> Prop).
Hypothesis before_fails : forall d, within t V v d -> B d.
Hypothesis after_rename : forall d, written t V v (temporary_of role) l d ->
  Q (rename_entry (temporary_of role) (final_of role) d).
Hypothesis renamed_fails : forall d, Q d -> B d.
Hypothesis after_sync : forall d, Q d -> Q' (sync_names d).
Hypothesis synced_fails : forall d, Q' d -> B d.

#[local] Abbreviation X := (fun _ : Publish.PublicationError => B).

Lemma observe_runs step phase (P : Directory -> Prop) :
  (forall d, P d -> B d) -> runs (Publish.observe hooks step phase) P (fun _ => P) X B.
Proof. intros HP. apply idle_runs; auto with idle. Qed.

Lemma write_once_runs e name n data :
  runs (write_once e n data) (writing t V v name n [])
    (fun k d => writing t V v name n (take k data) d /\ (k <= length data)%nat) X B.
Proof.
  assert (forall d, writing t V v name n [] d -> B d) as HB by (intros d []; auto).
  unfold write_once. step (fun _ => writing t V v name n []) as o; [by apply runs_next|].
  destruct o as [| |k]; [intros h Hh; cbn; auto..|]. intros h Hh. cbn. split.
  - by apply (append_writing _ _ _ _ _ []).
  - unfold len. lia.
Qed.

Lemma store_key_runs :
  runs (Publish.store_key hooks role l) (within t V v) (fun _ => Q') X B.
Proof.
  set (P := within t V v). set (W := writing t V v (temporary_of role)).
  set (S := written t V v (temporary_of role) l).
  assert (forall n data d, W n data d -> B d) as HW by (intros n data d []; auto).
  assert (forall d, S d -> B d) as HS by (intros d []; auto).
  unfold Publish.store_key. step (fun _ => P); [by apply observe_runs|].
  step (fun r d => match r with Some n => W n [] d | None => P d end) as created.
  { apply runs_open_new; auto. intros d uid mode Hd _. by apply create_writing. }
  step (fun n => W n []) as n; [destruct created; intros h Hh; cbn; auto|].
  step (fun _ => W n []); [apply observe_runs, HW|].
  step (fun _ => W n []) as directive; [apply observe_runs, HW|]. cbv zeta.
  set (data := take _ l).
  step (fun k d => W n (take k data) d /\ (k <= length data)%nat) as k; [apply write_once_runs|].
  apply runs_fact. intros Hk. destruct (Nat.eqb_spec k (length l)) as [-> |]; [|intros h Hh; by eapply HW].
  cbn [negb]. assert (take (length l) data = l) as ->.
  { subst data. rewrite length_take in Hk. rewrite take_take, take_ge; [done|]. lia. }
  step (fun _ => W n l); [apply observe_runs, HW|].
  step (fun _ => W n l); [apply observe_runs, HW|].
  step (fun _ => S).
  { apply runs_sync_file; [apply HW..|]. intros d. apply (sync_written _ V v). }
  step (fun _ => S); [by apply observe_runs|].
  step (fun _ => S); [by apply observe_runs|].
  step (fun _ => Q); [apply runs_rename; auto|].
  step (fun _ => Q); [by apply observe_runs|].
  step (fun _ => Q); [by apply observe_runs|].
  step (fun _ => Q'); [apply runs_sync_directory; auto|].
  step (fun _ => Q'); [by apply observe_runs|]. by intros h Hh.
Qed.
End store.

(** What storing a key leaves under its own final name, and under any other. *)
Definition maybe_stored (t data : bytes) (V : option bytes -> Prop) (d : Directory) : Prop :=
  exists w, within t (fun w => V w \/ w = Some data) w d.

Lemma store_key_own hooks role l V v :
  let t := final_of role in
  runs (Publish.store_key hooks role l) (within t V v)
    (fun _ => within t (eq (Some l)) (Some l))
    (fun _ => maybe_stored t l V) (maybe_stored t l V).
Proof.
  intros t. apply (store_key_runs hooks role l t V v (temporary_final role role)
    (within t (fun w => V w \/ w = Some l) (Some l))).
  - intros d Hd. exists v. eapply within_weaken, Hd. by left.
  - intros d. apply replace_written.
  - intros d Hd. by exists (Some l).
  - intros d. apply within_names.
  - intros d Hd. exists (Some l). eapply within_weaken, Hd. by right.
Qed.

Lemma store_key_other hooks role l t V v :
  temporary_of role <> t -> final_of role <> t ->
  runs (Publish.store_key hooks role l) (within t V v) (fun _ => within t V v)
    (fun _ => within t V v) (within t V v).
Proof.
  intros Ht Hf. apply (store_key_runs hooks role l t V v Ht (within t V v)); try done.
  - intros d [Hd _]. by apply within_rename_other.
  - intros d Hd. pose proof (within_one _ _ _ _ Hd). eapply within_weaken, (within_names _ V), Hd.
    by intros w <-.
Qed.

(** ** The publication of both *)

Section publication.
Context `{InitializationEntropySource Src} (source : Src).
Context (vj vp : option bytes).

#[local] Abbreviation J := (final_of JournalIntegrity).
#[local] Abbreviation P := (final_of PortableReservation).

Definition keys_kept (d : Directory) : Prop := within J (eq vj) vj d /\ within P (eq vp) vp d.

Definition sampled (pair : InitializationKeyPair) : Prop :=
  (acquire_initialization_key_pair_with source).2 = Ok pair.

(** The journal key is being stored, then the other one, then both are. *)
Definition storing_journal (pair : InitializationKeyPair) (d : Directory) : Prop :=
  maybe_stored J (key_bytes (journal_integrity pair)) (eq None) d /\ within P (eq None) None d.
Definition storing_portable (pair : InitializationKeyPair) (d : Directory) : Prop :=
  let j := Some (key_bytes (journal_integrity pair)) in
  within J (eq j) j d
  /\ maybe_stored P (reservation_bytes (portable_reservation pair)) (eq None) d.
Definition keys_stored (pair : InitializationKeyPair) (d : Directory) : Prop :=
  let j := Some (key_bytes (journal_integrity pair)) in
  let p := Some (reservation_bytes (portable_reservation pair)) in
  within J (eq j) j d /\ within P (eq p) p d.

Definition unfinished (d : Directory) : Prop :=
  keys_kept d
  \/ (vj = None /\ vp = None
      /\ exists pair, sampled pair /\ (storing_journal pair d \/ storing_portable pair d)).

#[local] Abbreviation X := (fun _ : Publish.PublicationError => unfinished).

Lemma kept_unfinished d : keys_kept d -> unfinished d.
Proof. by left. Qed.
#[local] Hint Resolve kept_unfinished : core.

Lemma kept_lock :
  runs acquire_with_private_root_reference keys_kept (fun _ => keys_kept) (fun _ => keys_kept)
    keys_kept.
Proof. apply runs_and; apply acquire_lock_runs, lock_final. Qed.

Lemma preflight_runs hooks l index (S : Directory -> Prop) :
  (forall d, S d -> unfinished d) ->
  runs (Publish.preflight hooks index l) S
    (fun _ d => S d /\ Forall (fun name => entry d name = None) l) X unfinished.
Proof.
  revert index S. induction l as [|name l IH]; intros index S HS; cbn [Publish.preflight].
  { intros h Hh. done. }
  step (fun _ => S); [by apply idle_runs; auto with idle|].
  step (fun r d => S d /\ r = entry d name) as found; [by apply runs_look_up|].
  destruct found as [e|]; [intros h [Hh _]; cbn; auto|].
  set (S' d := S d /\ None = entry d name).
  assert (forall d, S' d -> unfinished d) as HS' by (intros d []; auto).
  step (fun _ => S'); [by apply idle_runs; auto with idle|].
  eapply runs_weaken; [..|by apply (IH _ S')]; [done|]. intros u d [[Hs He] Hl]. split; [done|]. by constructor.
Qed.

Lemma entry_within t V v d : within t V v d -> entry d t = None -> v = None.
Proof. intros Hw He. rewrite <- (within_named _ _ _ _ Hw), named_entry. by rewrite He. Qed.

(** The two stores, once the finals are known to be missing. *)
Lemma store_keys_runs hooks pair :
  vj = None -> vp = None -> sampled pair ->
  runs (_ ← Publish.store_key hooks JournalIntegrity (key_bytes (journal_integrity pair));
        Publish.store_key hooks PortableReservation (reservation_bytes (portable_reservation pair)))
    keys_kept (fun _ => keys_stored pair) X unfinished.
Proof.
  intros Hj Hp Hs. unfold keys_kept. rewrite Hj, Hp.
  set (j := Some (key_bytes (journal_integrity pair))).
  assert (forall d, storing_journal pair d -> unfinished d) as H1.
  { intros d Hd. right. split; [done|]. split; [done|]. exists pair. auto. }
  assert (forall d, storing_portable pair d -> unfinished d) as H2.
  { intros d Hd. right. split; [done|]. split; [done|]. exists pair. auto. }
  step (fun _ d => within J (eq j) j d /\ within P (eq None) None d).
  - intros h Hh. pose proof (runs_and _ _ _ _ _ _ _ _ _
      (store_key_own hooks JournalIntegrity (key_bytes (journal_integrity pair)) (eq None) None)
      (store_key_other hooks JournalIntegrity (key_bytes (journal_integrity pair)) P (eq None) None
        (temporary_final _ _) final_inj) h Hh) as Hr.
    destruct (Publish.store_key _ _ _ h) as [h' [[u|e]|]]; auto.
  - intros h Hh. pose proof (runs_and _ _ _ _ _ _ _ _ _
      (store_key_other hooks PortableReservation (reservation_bytes (portable_reservation pair)) J
        (eq j) j (temporary_final _ _) (not_eq_sym final_inj))
      (store_key_own hooks PortableReservation (reservation_bytes (portable_reservation pair))
        (eq None) None) h Hh) as Hr.
    destruct (Publish.store_key _ _ _ h) as [h' [[u|e]|]]; auto.
Qed.

Lemma publish_with_runs hooks :
  runs (Publish.publish_with source hooks) keys_kept
    (fun _ d => vj = None /\ vp = None /\ exists pair, sampled pair /\ keys_stored pair d)
    X unfinished.
Proof.
  assert (forall A (m : Io Publish.PublicationError A), idle m ->
    runs m keys_kept (fun _ => keys_kept) X unfinished) as Hidle by (intros; apply idle_runs; auto).
  assert (runs (mapped (fun _ => Publish.LockError) acquire_with_private_root_reference)
    keys_kept (fun _ => keys_kept) X unfinished) as Hlock.
  { eapply (runs_mapped _ _ _ _ (fun _ => unfinished)); [done|]. eapply runs_ends, kept_lock; auto. }
  unfold Publish.publish_with.
  do 7 (step (fun _ => keys_kept); [apply Hidle; auto with idle|]).
  step (fun _ => keys_kept); [exact Hlock|].
  do 4 (step (fun _ => keys_kept); [apply Hidle; auto with idle|]).
  step (fun _ d => keys_kept d /\ Forall (fun name => entry d name = None) Publish.NAMES);
    [apply preflight_runs, kept_unfinished|].
  step (fun pair d => (keys_kept d /\ vj = None /\ vp = None) /\ sampled pair) as pair.
  { intros h [Hh Hn]. unfold sampled, pure.
    assert (vj = None /\ vp = None) as [Hj Hp].
    { destruct Hh as [Hj Hp]. unfold Publish.NAMES in Hn. rewrite !Forall_cons in Hn.
      destruct Hn as (_ & Hnj & _ & Hnp & _). split; by eapply entry_within. }
    destruct (acquire_initialization_key_pair_with source).2 as [pair|e]; cbn; auto. }
  apply runs_fact. intros Hs h (Hh & Hj & Hp).
  pose proof (store_keys_runs hooks pair Hj Hp Hs h Hh) as Hr.
  destruct ((mbind (M := Io Publish.PublicationError) _ _) h) as [h' [[u|e]|]]; eauto.
Qed.
End publication.

(** C24: Whatever is injected, fails or is killed, and whenever the machine crashes afterwards:
    a success leaves both sampled keys, whole; any other end leaves both files as they
    were, or, where there were none, each of them missing or whole, the second one only
    beside the first. *)
Theorem publish_keys_crash_safe `{InitializationEntropySource Src} (source : Src) hooks h h' run after :
  settled (final_of JournalIntegrity) (directory h) ->
  settled (final_of PortableReservation) (directory h) ->
  Publish.publish_with source hooks h = (h', run) ->
  crash (directory h') after ->
  let held role d := named (final_of role) d in
  let j := held JournalIntegrity after in
  let p := held PortableReservation after in
  let old role := held role (directory h) in
  let sampled pair := (acquire_initialization_key_pair_with source).2 = Ok pair
                      /\ old JournalIntegrity = None /\ old PortableReservation = None in
  match run with
  | Returned (Ok tt) => exists pair, sampled pair
      /\ j = Some (key_bytes (journal_integrity pair))
      /\ p = Some (reservation_bytes (portable_reservation pair))
  | _ => (j = old JournalIntegrity /\ p = old PortableReservation)
      \/ exists pair, sampled pair
         /\ (p = None /\ j = None
             \/ j = Some (key_bytes (journal_integrity pair))
                /\ (p = None \/ p = Some (reservation_bytes (portable_reservation pair))))
  end.
Proof.
  intros Hj%settled_within Hp%settled_within Hpub Hc held j p old sampled'.
  pose proof (publish_with_runs source _ _ hooks h (conj Hj Hp)) as Hr. rewrite Hpub in Hr.
  assert (forall t V v d, within t V v d -> crash d after -> V (named t after)) as Hcr
    by (intros t V v d Hw Hd; by destruct (crash_within _ _ _ _ _ Hw Hd)).
  assert (unfinished source (old JournalIntegrity) (old PortableReservation) (directory h') ->
    (j = old JournalIntegrity /\ p = old PortableReservation)
    \/ exists pair, sampled' pair
       /\ (p = None /\ j = None
           \/ j = Some (key_bytes (journal_integrity pair))
              /\ (p = None \/ p = Some (reservation_bytes (portable_reservation pair))))) as Hun.
  { intros [[Hkj Hkp]|(Hnj & Hnp & pair & Hs & Hst)].
    - left. split; symmetry; [exact (Hcr _ _ _ _ Hkj Hc)|exact (Hcr _ _ _ _ Hkp Hc)].
    - right. exists pair. split; [done|]. destruct Hst as [[[w Hw] Hkp]|[Hkj [w Hw]]].
      + pose proof (eq_sym (Hcr _ _ _ _ Hkp Hc) : p = None) as Hy.
        destruct (Hcr _ _ _ _ Hw Hc) as [Hx|Hx]; [by left|right]. split; [exact Hx|by left].
      + right. split; [exact (eq_sym (Hcr _ _ _ _ Hkj Hc))|].
        destruct (Hcr _ _ _ _ Hw Hc) as [Hx|Hx]; [by left|by right]. }
  destruct run as [[[]|e]|]; [|by apply Hun..].
  destruct Hr as (Hnj & Hnp & pair & Hs & Hkj & Hkp). exists pair. split; [done|].
  split; symmetry; [exact (Hcr _ _ _ _ Hkj Hc)|exact (Hcr _ _ _ _ Hkp Hc)].
Qed.

(** ** Loading *)

Lemma observe_load_Ok hooks step phase h h' u :
  Load.observe hooks step phase h = (h', Returned (Ok u)) -> h' = h.
Proof. unfold Load.observe. destruct (hooks step phase); by intros [= <-]. Qed.

Definition key_file (uid : Z) (d : Directory) (name material : bytes) : Prop :=
  exists n i, entry d name = Some (n, i) /\ owner_only uid i = true /\ i_data i = material
              /\ length material = 32%nat /\ all_zero material = false.

Lemma read_final_Ok name role hooks h h' material :
  Load.read_final name role hooks h = (h', Returned (Ok material)) ->
  h' = set_outcomes (outcomes h') h /\ key_file (euid h) (directory h) name material.
Proof.
  intros (h1 & u1 & ->%observe_load_Ok & Hx)%io_bind_Ok.
  apply io_bind_Ok in Hx as (h2 & before & [H2 _]%look_up_Ok & Hx).
  apply io_bind_Ok in Hx as (h3 & uid & [= <- <-] & Hx).
  destruct before as [[m j]|]; [|done]. destruct (negb _); [done|].
  apply io_bind_Ok in Hx as (h4 & file & [H4 Hf]%look_up_Ok & Hx).
  destruct file as [[n i]|]; [|done]. case_bool_decide; [done|].
  apply io_bind_Ok in Hx as (h5 & [] & H5%system_call_Ok & Hx).
  destruct (owner_only (euid h2) i) eqn:Ho; [|done]. cbn [negb] in Hx.
  apply io_bind_Ok in Hx as (h6 & ? & ->%observe_load_Ok & Hx).
  apply io_bind_Ok in Hx as (h6 & ? & ->%observe_load_Ok & Hx).
  apply io_bind_Ok in Hx as (h7 & l & [H7 (k & _ & Hl)]%read_once_Ok & Hx).
  destruct (Nat.eqb_spec (length l) 32) as [H32|]; [|done]. cbn [negb] in Hx.
  apply io_bind_Ok in Hx as (h8 & eof & [H8 (k' & Hk' & Heof)]%read_once_Ok & Hx).
  destruct (Nat.eqb_spec (length eof) 0) as [H0|]; [|done]. cbn [negb] in Hx.
  apply io_bind_Ok in Hx as (h9 & ? & ->%observe_load_Ok & Hx).
  apply io_bind_Ok in Hx as (h9 & ? & ->%observe_load_Ok & Hx).
  destruct (all_zero l) eqn:Hz; [done|].
  apply io_bind_Ok in Hx as (h9 & ? & ->%observe_load_Ok & [= -> <-]).
  assert (drop (length l) (i_data i) = []) as Hd.
  { apply nil_length_inv. rewrite Heof, length_take in H0. lia. }
  assert (i_data i = l) as Hi.
  { apply (f_equal length) in Hd. rewrite length_drop in Hd. cbn in Hd. rewrite Hl. symmetry.
    apply take_ge. rewrite Hl, length_take in Hd. lia. }
  rewrite H8, H7, H5, H4, H2. split; [done|]. exists n, i. rewrite H2 in Hf, Ho. by cbn in Hf, Ho.
Qed.

Lemma temporaries_absent_Ok hooks index l h h' :
  Load.temporaries_absent hooks index l h = (h', Returned (Ok tt)) ->
  h' = set_outcomes (outcomes h') h /\ Forall (fun name => entry (directory h) name = None) l.
Proof.
  revert index h. induction l as [|name l IH]; intros index h; cbn [Load.temporaries_absent].
  { intros [= <-]. split; [by destruct h|done]. }
  intros (h1 & u & ->%observe_load_Ok & Hx)%io_bind_Ok.
  apply io_bind_Ok in Hx as (h2 & r & [H2 Hr]%look_up_Ok & Hx). destruct r; [done|].
  apply io_bind_Ok in Hx as (h3 & ? & ->%observe_load_Ok & [H3 Hl]%IH). rewrite H2 in H3, Hl.
  split; [done|]. by constructor.
Qed.

Lemma open_operational_Ok {E : Type} (e : E) h h' :
  open_operational e h = (h', Returned (Ok tt)) ->
  h' = set_outcomes (outcomes h') h /\ is_private_root (euid h) (opened_root h) = true
  /\ same_root (opened_root h) (reference_root h) = true.
Proof.
  intros (h1 & [] & H1%system_call_Ok & Hx)%io_bind_Ok.
  apply io_bind_Ok in Hx as (h2 & [] & H2%system_call_Ok & Hx).
  apply io_bind_Ok in Hx as (h3 & [] & H3%system_call_Ok & Hx).
  apply io_bind_Ok in Hx as (h4 & ? & [= <- <-] & Hx).
  apply io_bind_Ok in Hx as (h4 & ? & [= <- <-] & Hx).
  apply io_bind_Ok in Hx as (h4 & ? & [= <- <-] & Hx).
  destruct (_ || _) eqn:Hb; [done|]. injection Hx as <-.
  apply orb_false_iff in Hb as [Hp%negb_false_iff Hs%negb_false_iff].
  rewrite H3, H2, H1 in *. by cbn in *.
Qed.

(** A loaded pair is what two private files of 32 bytes hold, neither zero and the two
    distinct, with no temporary beside them, under the lock of a private root, in a
    process that is not root's and dumps no core. *)
Theorem load_with_sound hooks h h' pair :
  Load.load_with hooks h = (h', Returned (Ok pair)) ->
  let j := key_bytes (journal_integrity pair) in
  let p := reservation_bytes (portable_reservation pair) in
  let d := directory h' in
  key_file (euid h) d (final_of JournalIntegrity) j
  /\ key_file (euid h) d (final_of PortableReservation) p
  /\ j <> p
  /\ entry d (temporary_of JournalIntegrity) = None
  /\ entry d (temporary_of PortableReservation) = None
  /\ d = locked (set_process restrictive h) (directory h) /\ locked_by (euid h) d
  /\ lock_contended h = false /\ euid h <> 0 /\ process h' = restrictive.
Proof.
  intros (h1 & u & ->%observe_load_Ok & Hx)%io_bind_Ok.
  apply io_bind_Ok in Hx as (h2 & [] & H2%mapped_Ok%startup_policy_sound & Hx).
  apply io_bind_Ok in Hx as (h3 & ? & ->%observe_load_Ok & Hx).
  apply io_bind_Ok in Hx as (h3 & ? & ->%observe_load_Ok & Hx).
  apply io_bind_Ok in Hx as (h3 & [] & H3%mapped_Ok & Hx).
  apply io_bind_Ok in Hx as (h4 & ? & ->%observe_load_Ok & Hx).
  apply io_bind_Ok in Hx as (h4 & ? & ->%observe_load_Ok & Hx).
  apply io_bind_Ok in Hx as (h4 & [] & H4%mapped_Ok & Hx).
  apply io_bind_Ok in Hx as (h5 & ? & ->%observe_load_Ok & Hx).
  apply io_bind_Ok in Hx as (h5 & ? & ->%observe_load_Ok & Hx).
  apply io_bind_Ok in Hx as (h5 & [] & [H5 _]%open_operational_Ok & Hx).
  apply io_bind_Ok in Hx as (h6 & ? & ->%observe_load_Ok & Hx).
  apply io_bind_Ok in Hx as (h6 & [] & [H6 Ht]%temporaries_absent_Ok & Hx).
  apply io_bind_Ok in Hx as (h7 & j & [H7 Hj]%read_final_Ok & Hx).
  apply io_bind_Ok in Hx as (h8 & p & [H8 Hp]%read_final_Ok & Hx).
  case_bool_decide; [done|]. injection Hx as <- <-. cbn [journal_integrity portable_reservation
    key_bytes reservation_bytes].
  apply io_bind_Ok in H3 as (h9 & uid & [= <- <-] & [-> Hu]%pure_Ok).
  apply acquire_lock_sound in H4 as (_ & _ & Hc & Hd & Hl).
  set (h' := set_directory (locked h2 (directory h2)) h2) in Hd.
  assert (h8 = set_outcomes (outcomes h8) h') as H9 by (rewrite H8, H7, H6, H5, Hd; done).
  assert (forall h0, h0 = set_outcomes (outcomes h0) h' ->
    directory h0 = directory h8 /\ euid h0 = euid h) as Hsame.
  { intros h0 ->. rewrite H9. cbn. split; [done|]. by rewrite H2. }
  destruct (Hsame h7) as [Hd7 He7]; [rewrite H7, H6, H5, Hd; done|].
  destruct (Hsame h6) as [Hd6 He6]; [rewrite H6, H5, Hd; done|].
  destruct (Hsame h5) as [Hd5 He5]; [rewrite H5, Hd; done|].
  destruct (Hsame h4) as [Hd4 He4]; [exact Hd|].
  rewrite Hd7, He7 in Hp. rewrite Hd6, He6 in Hj. rewrite Hd5 in Ht. rewrite Hd4 in Hl.
  rewrite !Forall_cons in Ht. destruct Ht as (Ht1 & Ht2 & _).
  assert (directory h8 = locked (set_process restrictive h) (directory h)) as Hdir
    by (rewrite H9; cbn; by rewrite H2).
  assert (process h8 = restrictive) as Hproc by (rewrite H9; cbn; by rewrite H2).
  rewrite H2 in Hl, Hc, Hu. cbn in Hl, Hc, Hu.
  assert (euid h <> 0) as Hne by (intros Hz; unfold ensure_linux_non_root_with in Hu; by rewrite Hz in Hu).
  repeat (split; [assumption|]). assumption.
Qed.

Lemma load_with_runs hooks t V v :
  LOCK_NAME <> t ->
  runs (Load.load_with hooks) (within t V v) (fun _ => within t V v) (fun _ => within t V v)
    (within t V v).
Proof.
  intros Ht. set (P := within t V v).
  assert (forall A (m : Io Load.LoadError A), idle m -> runs m P (fun _ => P) (fun _ => P) P) as Hidle
    by (intros; by apply idle_runs).
  unfold Load.load_with.
  do 7 (step (fun _ => P); [apply Hidle; auto with idle|]).
  step (fun _ => P); [by eapply runs_mapped, acquire_lock_runs|].
  do 7 (step (fun _ => P); [apply Hidle; auto with idle|]).
  case_bool_decide; by intros h Hh.
Qed.

(** C33: What was published is what is loaded, also after a crash: by whatever process, with
    whatever hooks, a load that succeeds on the published directory gives the sampled
    pair. *)
Theorem published_keys_load `{InitializationEntropySource Src} (source : Src) hooks hooks' h h1 h2 h3 pair :
  settled (final_of JournalIntegrity) (directory h) ->
  settled (final_of PortableReservation) (directory h) ->
  Publish.publish_with source hooks h = (h1, Returned (Ok tt)) ->
  directory h2 = directory h1 \/ crash (directory h1) (directory h2) ->
  Load.load_with hooks' h2 = (h3, Returned (Ok pair)) ->
  (acquire_initialization_key_pair_with source).2 = Ok pair.
Proof.
  intros Hj%settled_within Hp%settled_within Hpub Hd Hload.
  pose proof (publish_with_runs source _ _ hooks h (conj Hj Hp)) as Hr. rewrite Hpub in Hr.
  destruct Hr as (_ & _ & pair' & Hs & Hkj & Hkp). rewrite Hs. f_equal.
  assert (forall t v, within t (eq v) v (directory h1) ->
    exists V, within t V v (directory h2)) as Hw.
  { intros t v Hv. destruct Hd as [-> | Hc]; [by exists (eq v)|].
    destruct (crash_within _ _ _ _ _ Hv Hc) as [-> Hset%settled_within]. by eexists. }
  assert (forall role v material, within (final_of role) (eq v) v (directory h1) ->
    key_file (euid h2) (directory h3) (final_of role) material -> v = Some material) as Hx.
  { intros role v material [V Hv]%Hw (n & i & He & _ & <- & _).
    pose proof (load_with_runs hooks' _ V v (lock_final role) h2 Hv) as Hr. rewrite Hload in Hr.
    apply within_named in Hr. by rewrite named_entry, He in Hr. }
  apply load_with_sound in Hload as (Hfj & Hfp & _).
  pose proof (Hx _ _ _ Hkj Hfj) as [= Ej]. pose proof (Hx _ _ _ Hkp Hfp) as [= Ep].
  destruct pair as [[j] [p]], pair' as [[j'] [p']]. cbn in *. by subst.
Qed.

(** ** An empty directory, and a source that counts *)

Section example.
#[local] Existing Instance counting_source.

Definition keys_root : DirStat := mkDirStat true 448 1000 2 3.
Definition keys_host (calls : nat) : Host :=
  mkHost (mkDirectory ∅ [] ∅) keys_root keys_root keys_root 1000 7 false
    (mkProcess 18 (None, None) true) 0 (repeat (Moves 64) calls).
Definition keys_pair : InitializationKeyPair :=
  mkInitializationKeyPair (mkJournalIntegrityKey (repeat 1 32)) (mkPortableReservationKey (repeat 2 32)).

Lemma keys_settled t : settled t (directory (keys_host 28)).
Proof. split; [reflexivity|]. intros n Hn. cbn in Hn. by rewrite lookup_empty in Hn. Qed.

(** Killed at the sync of the second file. *)
Lemma keys_killed :
  exists h', Publish.publish_with 0 Publish.NoFaults (keys_host 28) = (h', Killed)
    /\ named (final_of JournalIntegrity) (lenient (directory h')) = Some (repeat 1 32)
    /\ named (final_of PortableReservation) (lenient (directory h')) = None.
Proof.
  exists (fst (Publish.publish_with 0 Publish.NoFaults (keys_host 28))).
  split; [apply run_of|split]; vm_compute; reflexivity.
Qed.

Lemma publish_keys_crash_safe_witness :
  exists h', Publish.publish_with 0 Publish.NoFaults (keys_host 28) = (h', Killed)
    /\ named (final_of PortableReservation) (lenient (directory h')) = None
    /\ let old role := named (final_of role) (directory (keys_host 28)) in
       let held role := named (final_of role) (lenient (directory h')) in
       (held JournalIntegrity = old JournalIntegrity /\ held PortableReservation = old PortableReservation)
       \/ exists pair, ((acquire_initialization_key_pair_with (Src := Z) 0).2 = Ok pair
              /\ old JournalIntegrity = None /\ old PortableReservation = None)
            /\ (held PortableReservation = None /\ held JournalIntegrity = None
                \/ held JournalIntegrity = Some (key_bytes (journal_integrity pair))
                   /\ (held PortableReservation = None
                       \/ held PortableReservation
                          = Some (reservation_bytes (portable_reservation pair)))).
Proof.
  destruct keys_killed as (h' & Hk & _ & Hp). exists h'. split; [exact Hk|]. split; [exact Hp|].
  exact (publish_keys_crash_safe (Src := Z) 0 Publish.NoFaults (keys_host 28) h' Killed _
    (keys_settled _) (keys_settled _) Hk (crash_of _)).
Defined.

(** Published, after a power loss loaded by another process. *)
Definition keys_directory : Directory :=
  Eval vm_compute in directory (fst (Publish.publish_with 0 Publish.NoFaults (keys_host 31))).
Definition keys_reader : Host := set_directory (lenient keys_directory) (keys_host 40).

Lemma keys_published :
  exists h1, Publish.publish_with 0 Publish.NoFaults (keys_host 31) = (h1, Returned (Ok tt))
    /\ directory h1 = keys_directory.
Proof.
  exists (fst (Publish.publish_with 0 Publish.NoFaults (keys_host 31))).
  split; [apply run_of|]; vm_compute; reflexivity.
Qed.

Lemma keys_loaded :
  exists h3, Load.load_with Load.NoLoadFaults keys_reader = (h3, Returned (Ok keys_pair)).
Proof.
  exists (fst (Load.load_with Load.NoLoadFaults keys_reader)). apply run_of. vm_compute. reflexivity.
Qed.

Lemma published_keys_load_witness :
  exists h1 h3, Publish.publish_with 0 Publish.NoFaults (keys_host 31) = (h1, Returned (Ok tt))
    /\ Load.load_with Load.NoLoadFaults keys_reader = (h3, Returned (Ok keys_pair))
    /\ (acquire_initialization_key_pair_with (Src := Z) 0).2 = Ok keys_pair.
Proof.
  destruct keys_published as (h1 & Hp & Hd), keys_loaded as (h3 & Hl). exists h1, h3.
  split; [exact Hp|]. split; [exact Hl|].
  refine (published_keys_load (Src := Z) 0 Publish.NoFaults Load.NoLoadFaults (keys_host 31) h1
    keys_reader h3 keys_pair (keys_settled _) (keys_settled _) Hp (or_intror _) Hl).
  rewrite Hd. apply crash_of.
Defined.

Lemma load_with_sound_witness :
  exists h3, Load.load_with Load.NoLoadFaults keys_reader = (h3, Returned (Ok keys_pair))
    /\ key_file 1000 (directory h3) (final_of JournalIntegrity) (repeat 1 32).
Proof.
  destruct keys_loaded as (h3 & Hl). exists h3. split; [exact Hl|].
  exact (proj1 (load_with_sound _ _ _ _ Hl)).
Defined.
End example.
