(* ===== verification/PointerPublication.v ===== *)
(** * Publishing the active-state pointer, and what follows it
    ([active_state_pointer_publisher.rs], [active_state_pointer_caller.rs],
    [active_state_pointer_coordinator.rs] and [active_state_pointer_generation_reopen.rs]
    of [crates/msgriver/src/initialization_key_pair])

    The operational directory is opened as "." of the reference to the root, so its
    metadata is that of the reference. The values the phases hand on ([PointerRenamed] and
    the like) own descriptors and lifetimes only; what they carry of data is modelled. *)

From S2P Require Import Prelude Bytes Text CoreError Generation Sha256 Codec Journal Pointer.
From S2P Require Import Host Durable Platform.

#[local] Open Scope Z_scope.

(** ** [active_state_pointer_publisher.rs] *)

Definition ACTIVE_STATE_NAME : bytes := as_bytes "active-state".
Definition TEMPORARY_NAME_DOMAIN : bytes := as_bytes "msgriver/active-state-pointer-temp/v1".
Arguments ACTIVE_STATE_NAME : simpl never.

Inductive ActiveStatePointerPublicationMode : Type := RequireAbsent | ReplaceExisting.

Inductive ActiveStatePointerPublisherError : Type :=
| MissingActiveStatePointerPublisher | InvalidActiveStatePointerPublisher.

Inductive PublisherFault : Type := NoFault | TemporaryFsync | RootFsync | RenameNoReplace.

#[export] Instance PublisherFault_eq_dec : EqDecision PublisherFault.
Proof. solve_decision. Defined.

#[local] Abbreviation INVALID := InvalidActiveStatePointerPublisher.
#[local] Abbreviation PublisherIo := (Io ActiveStatePointerPublisherError).

Definition temporary_basename (pointer : ActiveStatePointer) : bytes :=
  as_bytes "active-state.tmp." ++ hex_bytes (sha256 (TEMPORARY_NAME_DOMAIN ++ transition_id pointer)).

Definition is_owner_only_file (uid : Z) (metadata : Inode) (expected_size : option nat) : bool :=
  owner_only uid metadata
  && match expected_size with Some size => (length (i_data metadata) =? size)%nat | None => true end.

(** Both loops of [read_exact]: [need] bytes are missing, then the end of the file is. *)
Fixpoint read_exact_loop (os : list Outcome) (need : nat) (rest acc : bytes)
    : list Outcome * Run ActiveStatePointerPublisherError bytes :=
  match os with
  | [] => ([], Killed)
  | Fails :: os => (os, Returned (Err INVALID))
  | Interrupted :: os => read_exact_loop os need rest acc
  | Moves n :: os =>
    let count := Z.to_nat (Z.min (Z.max 1 n) (Z.min (Z.of_nat (Nat.max need 1)) (len rest))) in
    match need with
    | O => (os, Returned (if (count =? 0)%nat then Ok acc else Err INVALID))
    | S _ =>
      if (count =? 0)%nat then (os, Returned (Err INVALID))
      else read_exact_loop os (need - count) (drop count rest) (acc ++ take count rest)
    end
  end.

Definition read_exact (data : bytes) (size : nat) : PublisherIo bytes := fun h =>
  let '(os, r) := read_exact_loop (outcomes h) size data [] in (set_outcomes os h, r).

(** [statat], [openat] and [fstat] of an entry that has to stay the same private file. *)
Definition verify_entry (name : bytes) (expected_size : option nat) : PublisherIo (nat * Inode) :=
  before ← look_up INVALID name;
  uid ← ask euid;
  match before with
  | None => pure (Err INVALID)
  | Some (before, i) =>
    if negb (is_owner_only_file uid i expected_size) then pure (Err INVALID)
    else
      file ← look_up INVALID name;
      match file with
      | None => pure (Err INVALID)
      | Some (after, j) =>
        if bool_decide (i_type j = Symlink) then pure (Err INVALID)
        else
          _ ← system_call INVALID;
          if negb (is_owner_only_file uid j expected_size) || negb (before =? after)%nat
          then pure (Err INVALID) else mret (after, j)
      end
  end.

Definition verify_exact_temporary (temporary wire : bytes) : PublisherIo nat :=
  file ← verify_entry temporary (Some (length wire));
  actual ← read_exact (i_data file.2) (length wire);
  if bool_decide (actual = wire) then mret file.1 else pure (Err INVALID).

Definition verify_replaceable_destination : PublisherIo unit :=
  _ ← verify_entry ACTIVE_STATE_NAME None; mret tt.

Definition write_all (file : nat) (l : bytes) : PublisherIo unit := write_file INVALID file l.

Definition open_or_verify_temporary (temporary wire : bytes) : PublisherIo nat :=
  created ← open_new INVALID temporary;
  match created with
  | Some file => _ ← write_all file wire; mret file
  | None => verify_exact_temporary temporary wire
  end.

Definition fails_at (fault point : PublisherFault) : PublisherIo unit :=
  if bool_decide (fault = point) then pure (Err INVALID) else mret tt.

Definition sync_temporary (file : nat) (fault : PublisherFault) : PublisherIo unit :=
  _ ← fails_at fault TemporaryFsync; sync_file INVALID file.

Definition rename_require_absent (temporary : bytes) (fault : PublisherFault) : PublisherIo unit :=
  _ ← fails_at fault RenameNoReplace; rename INVALID false temporary ACTIVE_STATE_NAME.

Definition sync_root (fault : PublisherFault) : PublisherIo unit :=
  _ ← fails_at fault RootFsync; sync_directory INVALID.

Section with_hmac.
Context `{HmacSha256}.

Definition publish_active_state_pointer_inner (key : JournalIntegrityKey)
    (pointer : ActiveStatePointer) (mode : ActiveStatePointerPublicationMode)
    (fault : PublisherFault) : PublisherIo unit :=
  _ ← system_call INVALID;
  root ← ask reference_root;
  if negb (d_directory root) then pure (Err INVALID)
  else
    wire ← pure (map_err (fun _ => INVALID) (encode_active_state_pointer key pointer));
    let temporary := temporary_basename pointer in
    file ← open_or_verify_temporary temporary wire;
    _ ← sync_temporary file fault;
    _ ← match mode with
        | RequireAbsent => rename_require_absent temporary fault
        | ReplaceExisting =>
          _ ← verify_replaceable_destination; rename INVALID true temporary ACTIVE_STATE_NAME
        end;
    sync_root fault.

(** ** [active_state_pointer_caller.rs] *)

Inductive ActiveStatePointerCallerError : Type :=
| MissingActiveStatePointerCallerCapability | MissingActiveStatePointerCallerPublication
| Publication (e : ActiveStatePointerPublisherError).

Definition caller_acquire : Io ActiveStatePointerCallerError unit :=
  _ ← mapped (fun _ => MissingActiveStatePointerCallerCapability) acquire_with_private_root_reference;
  system_call MissingActiveStatePointerCallerCapability.

Definition caller_publish (key : JournalIntegrityKey) (pointer : ActiveStatePointer)
    (mode : ActiveStatePointerPublicationMode) : Io ActiveStatePointerCallerError unit :=
  mapped Publication (publish_active_state_pointer_inner key pointer mode NoFault).

Definition caller_publish_with_test_fault (key : JournalIntegrityKey) (pointer : ActiveStatePointer)
    (mode : ActiveStatePointerPublicationMode) (fault : PublisherFault)
    : Io ActiveStatePointerCallerError unit :=
  mapped Publication (publish_active_state_pointer_inner key pointer mode fault).
End with_hmac.

(** ** [active_state_pointer_coordinator.rs] *)

Record PreTerminalCoordinator : Type := mkPreTerminalCoordinator {
  coordinator_generation : Z;
  coordinator_digest : bytes;
}.

Record PointerNamedGeneration : Type := mkPointerNamedGeneration {
  named_final_generation : Z;
  named_certificate_digest : bytes;
}.

Definition coordinator_enter (pointer : ActiveStatePointer) : PreTerminalCoordinator :=
  mkPreTerminalCoordinator (final_generation pointer) (database_certificate_digest pointer).

Definition pointer_named_generation (self : PreTerminalCoordinator) : PointerNamedGeneration :=
  mkPointerNamedGeneration (coordinator_generation self) (coordinator_digest self).

(** ** [active_state_pointer_generation_reopen.rs] *)

Inductive ActiveStatePointerGenerationReopenError : Type :=
| MissingCandidateReopen | RejectedCandidateReopen.

#[local] Abbreviation ReopenIo := (Io ActiveStatePointerGenerationReopenError).

Definition require_owner_directory (metadata : DirStat) : ReopenIo unit :=
  _ ← system_call RejectedCandidateReopen;
  uid ← ask euid;
  if is_private_root uid metadata then mret tt else pure (Err RejectedCandidateReopen).

(** [openat] of a directory with [NOFOLLOW]: [None] when there is no such directory. *)
Definition open_directory (metadata : option DirStat) : ReopenIo DirStat :=
  _ ← system_call RejectedCandidateReopen; pure (ok_or metadata RejectedCandidateReopen).

(** [format!("g-{:016x}", ..)]. *)
Definition generation_name (generation : Z) : bytes :=
  as_bytes "g-" ++ hex_bytes (be_bytes 8 generation).

(** [generations] and [candidates] are the subdirectories of the root and of it. *)
Definition reopen_candidate (self : PointerNamedGeneration) (generations : option DirStat)
    (candidates : bytes -> option DirStat) : ReopenIo DirStat :=
  if named_final_generation self =? 0 then pure (Err RejectedCandidateReopen)
  else
    directory ← open_directory generations;
    _ ← require_owner_directory directory;
    candidate ← open_directory (candidates (generation_name (named_final_generation self)));
    _ ← require_owner_directory candidate;
    mret candidate.

(** ** Names and reads *)

Lemma temporary_is_no_pointer pointer : temporary_basename pointer <> ACTIVE_STATE_NAME.
Proof.
  intros Hx. apply (f_equal length) in Hx. unfold temporary_basename in Hx. rewrite length_app in Hx.
  change (length (as_bytes "active-state.tmp.")) with 17%nat in Hx.
  change (length ACTIVE_STATE_NAME) with 12%nat in Hx. lia.
Qed.

Lemma lock_is_no_pointer : LOCK_NAME <> ACTIVE_STATE_NAME.
Proof. intros Hx. apply (f_equal (hd 0)) in Hx. done. Qed.

Lemma read_exact_whole os need rest acc os' l :
  read_exact_loop os need rest acc = (os', Returned (Ok l)) -> l = acc ++ rest.
Proof.
  revert need rest acc. induction os as [|[| |n] os IH]; intros need rest acc; cbn [read_exact_loop];
    try done; [apply IH|].
  set (count := Z.to_nat _). destruct need as [|need]; destruct (Nat.eqb_spec count 0) as [Hc|Hc]; try done.
  - intros [= <- <-]. unfold count, len in Hc. destruct rest; [by rewrite app_nil_r|]. cbn in Hc. lia.
  - intros Hl%IH. by rewrite Hl, <- app_assoc, take_drop.
Qed.

Lemma idle_read_exact data size : idle (read_exact data size).
Proof. intros h. unfold read_exact. by destruct (read_exact_loop _ _ _ _). Qed.
Lemma idle_verify_entry name size : idle (verify_entry name size).
Proof. unfold verify_entry. idle. Qed.
Lemma idle_fails_at fault point : idle (fails_at fault point).
Proof. unfold fails_at. idle. Qed.
#[export] Hint Resolve idle_read_exact idle_verify_entry idle_fails_at : idle.

Lemma idle_verify_exact temporary wire : idle (verify_exact_temporary temporary wire).
Proof. unfold verify_exact_temporary. idle. Qed.
Lemma idle_verify_replaceable : idle verify_replaceable_destination.
Proof. unfold verify_replaceable_destination. idle. Qed.
#[export] Hint Resolve idle_verify_exact idle_verify_replaceable : idle.

Section verify.
Context (P : Directory -> Prop) (X : ActiveStatePointerPublisherError -> Directory -> Prop).
Context (K : Directory -> Prop).
Hypothesis fails : forall e d, P d -> X e d.
Hypothesis killed : forall d, P d -> K d.

(** What a verified entry is: private, of the expected size, and still there. *)
Lemma verify_entry_runs name size :
  runs (verify_entry name size) P
    (fun f d => P d /\ entry d name = Some f
                /\ exists uid, is_owner_only_file uid f.2 size = true) X K.
Proof.
  unfold verify_entry. step (fun _ => P) as before; [apply idle_runs; auto with idle|].
  step (fun _ => P) as uid; [apply runs_ask|]. destruct before as [[n i]|]; [|intros h Hh; cbn; auto].
  destruct (negb _); [intros h Hh; cbn; auto|].
  step (fun r d => P d /\ r = entry d name) as file; [apply runs_look_up; auto|].
  destruct file as [[m j]|]; [|intros h [Hh _]; cbn; auto].
  case_bool_decide; [intros h [Hh _]; cbn; auto|].
  step (fun _ d => P d /\ Some (m, j) = entry d name); [apply runs_call; intros d [? _]; auto|].
  destruct (is_owner_only_file uid j size) eqn:Ho; cbn [negb orb]; [|intros h [Hh _]; cbn; auto].
  destruct (negb _); intros h [Hh He]; cbn; eauto.
Qed.

Lemma verify_exact_runs temporary wire :
  runs (verify_exact_temporary temporary wire) P
    (fun n d => P d /\ exists i, entry d temporary = Some (n, i) /\ i_data i = wire) X K.
Proof.
  unfold verify_exact_temporary.
  step (fun f d => P d /\ entry d temporary = Some f) as [n i].
  { eapply runs_weaken; [..|apply verify_entry_runs]; [done|]. by intros f d (? & ? & _). }
  step (fun actual d => (P d /\ entry d temporary = Some (n, i)) /\ actual = i_data i) as actual.
  { intros h Hh. unfold read_exact. destruct (read_exact_loop _ _ _ _) as [os [[r|e]|]] eqn:Hr; cbn;
      [|destruct Hh; auto..]. apply read_exact_whole in Hr. by subst. }
  apply runs_fact. intros ->. case_bool_decide; intros h [Hh He]; cbn; eauto.
Qed.
End verify.

(** ** The publication *)

Section publication.
Context `{HmacSha256} (key : JournalIntegrityKey) (pointer : ActiveStatePointer).
Context (mode : ActiveStatePointerPublicationMode) (wire : bytes).
Context (V : option bytes -> Prop) (v : option bytes).

#[local] Abbreviation A := ACTIVE_STATE_NAME.
#[local] Abbreviation temporary := (temporary_basename pointer).

Definition pointer_kept : Directory -> Prop := within A V v.
Definition pointer_renamed : Directory -> Prop :=
  within A (fun w => V w \/ w = Some wire) (Some wire).
Definition pointer_published : Directory -> Prop := within A (eq (Some wire)) (Some wire).

(** What the mode requires of the destination. *)
Definition mode_admits : Prop :=
  match mode with RequireAbsent => v = None | ReplaceExisting => v <> None end.

Definition pointer_unfinished (d : Directory) : Prop :=
  pointer_kept d \/ (pointer_renamed d /\ mode_admits).

#[local] Abbreviation X := (fun _ : ActiveStatePointerPublisherError => pointer_unfinished).

Definition temporary_ready (n : nat) (d : Directory) : Prop :=
  pointer_kept d /\ names d !! temporary = Some n
  /\ exists i, inodes d !! n = Some i /\ i_data i = wire.

Lemma kept_is_unfinished d : pointer_kept d -> pointer_unfinished d.
Proof. by left. Qed.
#[local] Hint Resolve kept_is_unfinished : core.

Lemma open_or_verify_runs :
  runs (open_or_verify_temporary temporary wire) pointer_kept temporary_ready X pointer_unfinished.
Proof.
  unfold open_or_verify_temporary.
  step (fun r d => match r with Some n => writing A V v temporary n [] d | None => pointer_kept d end)
    as created.
  { apply runs_open_new; auto. intros d uid m Hd _. apply create_writing; [|done].
    apply temporary_is_no_pointer. }
  destruct created as [n|].
  - step (fun _ => writing A V v temporary n wire); [apply runs_write_file; auto|].
    intros h []. cbn. by split.
  - eapply runs_weaken; [..|apply (verify_exact_runs pointer_kept); auto]; [done|].
    intros n d (Hd & i & He & Hi). split; [done|]. unfold entry in He.
    destruct (names d !! temporary) as [k|]; [|done]. cbn in He.
    destruct (inodes d !! k) as [j|] eqn:Hj; [|done]. injection He as -> ->. eauto.
Qed.

(** The two renames, each when its mode admits the destination. *)
Lemma rename_runs fault :
  let S := written A V v temporary wire in
  runs (match mode with
        | RequireAbsent => rename_require_absent temporary fault
        | ReplaceExisting =>
          _ ← verify_replaceable_destination; rename INVALID true temporary ACTIVE_STATE_NAME
        end) S (fun _ d => pointer_renamed d /\ mode_admits) X pointer_unfinished.
Proof.
  intros S. assert (forall d, S d -> pointer_unfinished d) as HS by (intros d []; auto).
  unfold mode_admits. destruct mode; cbn beta iota.
  - unfold rename_require_absent. step (fun _ => S); [apply idle_runs; auto with idle|].
    apply runs_rename; auto. intros d n Hd _ [[=]|Hn]. split; [by apply (replace_written _ V v)|].
    destruct Hd as [Hd _]. rewrite <- (within_named _ _ _ _ Hd). unfold named. by rewrite Hn.
  - step (fun _ d => S d /\ v <> None).
    + unfold verify_replaceable_destination.
      step (fun f d => S d /\ entry d A = Some f) as f.
      * eapply runs_weaken; [..|apply (verify_entry_runs S); auto]; [done|]. by intros g d (? & ? & _).
      * intros h [Hh He]. cbn. split; [done|]. destruct Hh as [Hh _].
        rewrite <- (within_named _ _ _ _ Hh), named_entry, He. done.
    + apply runs_fact. intros Hv. apply runs_rename; auto. intros d n Hd _ _. split; [|done].
      by apply (replace_written _ V v).
Qed.

Lemma publish_pointer_runs fault :
  map_err (fun _ => INVALID) (encode_active_state_pointer key pointer) = Ok wire ->
  runs (publish_active_state_pointer_inner key pointer mode fault) pointer_kept
    (fun _ d => pointer_published d /\ mode_admits) X pointer_unfinished.
Proof.
  intros He. unfold publish_active_state_pointer_inner.
  step (fun _ => pointer_kept); [apply runs_call; auto|].
  step (fun _ => pointer_kept) as root; [apply runs_ask|].
  destruct (negb _); [intros h Hh; cbn; auto|]. rewrite He.
  step (fun l d => pointer_kept d /\ l = wire) as l; [by intros h Hh|].
  apply runs_fact. intros ->. cbv zeta.
  step temporary_ready as n; [apply open_or_verify_runs|].
  set (S := written A V v temporary wire).
  step (fun _ => S).
  { unfold sync_temporary.
    assert (forall d, temporary_ready n d -> pointer_unfinished d) as Hr by (intros d []; auto).
    step (fun _ => temporary_ready n); [apply idle_runs; auto with idle|].
    apply runs_sync_file; auto. intros d (Hd & Hn & Hi). by apply sync_ready. }
  set (R d := pointer_renamed d /\ mode_admits).
  assert (forall d, R d -> pointer_unfinished d) as HR by (intros d Hd; by right).
  step (fun _ => R); [apply rename_runs|].
  unfold sync_root. step (fun _ => R); [apply idle_runs; auto with idle|].
  apply runs_sync_directory; auto. intros d [Hd Hm]. split; [|done]. by eapply within_names.
Qed.
End publication.

Lemma publish_pointer_refused `{HmacSha256} key pointer mode fault e (P : Directory -> Prop) :
  encode_active_state_pointer key pointer = Err e ->
  runs (publish_active_state_pointer_inner key pointer mode fault) P (fun _ _ => False)
    (fun _ => P) P.
Proof.
  intros He. unfold publish_active_state_pointer_inner.
  step (fun _ => P); [by apply runs_call|]. step (fun _ => P); [apply runs_ask|].
  destruct (negb _); [by intros h Hh|]. rewrite He. by intros h Hh.
Qed.

(** C35: Whatever is injected, fails or is killed, and whenever the machine crashes afterwards,
    the pointer is the old one or the whole new certificate; success means the new one.
    The new one appears only where its mode admits it: [RequireAbsent] never replaces a
    pointer, [ReplaceExisting] never makes a first one. *)
Theorem publish_pointer_crash_safe `{HmacSha256} key pointer mode fault h h' run after :
  settled ACTIVE_STATE_NAME (directory h) ->
  publish_active_state_pointer_inner key pointer mode fault h = (h', run) ->
  crash (directory h') after ->
  let before := named ACTIVE_STATE_NAME (directory h) in
  let now := named ACTIVE_STATE_NAME after in
  let new := (exists wire, encode_active_state_pointer key pointer = Ok wire /\ now = Some wire)
             /\ match mode with RequireAbsent => before = None | ReplaceExisting => before <> None end in
  match run with Returned (Ok tt) => new | _ => now = before \/ new end.
Proof.
  intros Hs%settled_within Hp Hc before now new.
  destruct (encode_active_state_pointer key pointer) as [wire|e] eqn:He.
  - pose proof (publish_pointer_runs key pointer mode wire _ _ fault
      (f_equal (map_err (fun _ => INVALID)) He) h Hs) as Hr. rewrite Hp in Hr.
    assert (pointer_unfinished mode wire (eq before) before (directory h') -> now = before \/ new) as Hun.
    { intros [Hk|[Hk Hm]]; destruct (crash_within _ _ _ _ _ Hk Hc) as [Hx _]; [by left|].
      destruct Hx as [Hx|Hx]; [by left|right]. split; [by exists wire|done]. }
    destruct run as [[[]|e]|]; [|by apply Hun..]. destruct Hr as [Hk Hm].
    destruct (crash_within _ _ _ _ _ Hk Hc) as [Hx _]. split; [by exists wire|done].
  - pose proof (publish_pointer_refused key pointer mode fault e
      (within ACTIVE_STATE_NAME (eq before) before) He h Hs) as Hr. rewrite Hp in Hr.
    destruct run as [[[]|]|]; [done|..];
      destruct (crash_within _ _ _ _ _ Hr Hc) as [Hx _]; by left.
Qed.

(** A temporary that holds anything but the certificate, what an earlier attempt that was
    killed while writing leaves for one, makes every later attempt for the transition
    fail, and neither it nor anything else in the directory is touched. *)
Theorem rejected_temporary_preserved `{HmacSha256} key pointer mode fault h h' run n :
  names (directory h) !! temporary_basename pointer = Some n ->
  (forall i, inodes (directory h) !! n = Some i ->
    encode_active_state_pointer key pointer <> Ok (i_data i)) ->
  publish_active_state_pointer_inner key pointer mode fault h = (h', run) ->
  directory h' = directory h /\ run <> Returned (Ok tt).
Proof.
  intros Hn Hi Hp. set (P d := d = directory h).
  assert (runs (publish_active_state_pointer_inner key pointer mode fault) P (fun _ _ => False)
    (fun _ => P) P) as Hr.
  { destruct (encode_active_state_pointer key pointer) as [wire|e] eqn:He;
      [|by eapply publish_pointer_refused].
    unfold publish_active_state_pointer_inner. rewrite He.
    step (fun _ => P); [by apply runs_call|]. step (fun _ => P); [apply runs_ask|].
    destruct (negb _); [by intros h0 Hh|].
    step (fun l d => P d /\ l = wire) as l; [by intros h0 Hh|]. apply runs_fact. intros ->. cbv zeta.
    step (fun _ _ => False) as file; [|by intros h0 Hh].
    unfold open_or_verify_temporary.
    step (fun r d => P d /\ r = None) as r.
    { apply runs_open_new; try done. intros d uid m -> Hnone. congruence. }
    apply runs_fact. intros ->.
    eapply runs_weaken; [..|by apply (verify_exact_runs P)]; [done|].
    intros m d (-> & i & Hentry & Hd). unfold entry in Hentry. rewrite Hn in Hentry. cbn in Hentry.
    destruct (inodes (directory h) !! n) as [j|] eqn:Hj; [|done]. injection Hentry as -> ->.
    apply (Hi _ eq_refl). by rewrite Hd. }
  specialize (Hr h eq_refl). rewrite Hp in Hr. by destruct run as [[[]|e]|].
Qed.

(** ** The generation a pointer names *)

Lemma generation_name_inj a b :
  is_u64 a = true -> is_u64 b = true -> generation_name a = generation_name b -> a = b.
Proof.
  intros Ha Hb Hx%(inj (app _))%hex_bytes_inj; [|apply is_bytes_be_bytes..].
  apply be_bytes_inj in Hx; [done|..]; change (256 ^ Z.of_nat 8) with 18446744073709551616;
    unfold is_u64, u64_max in *; b2p; lia.
Qed.

(** A candidate is reopened only for a nonzero generation, under the name that no other
    generation has, through two directories that are private. *)
Theorem reopen_candidate_sound pointer generations candidates h h' st :
  reopen_candidate (pointer_named_generation (coordinator_enter pointer)) generations candidates h
  = (h', Returned (Ok st)) ->
  final_generation pointer <> 0
  /\ (exists g, generations = Some g /\ is_private_root (euid h) g = true)
  /\ candidates (generation_name (final_generation pointer)) = Some st
  /\ is_private_root (euid h) st = true
  /\ directory h' = directory h.
Proof.
  unfold reopen_candidate. cbn [named_final_generation pointer_named_generation coordinator_generation
    coordinator_enter]. destruct (Z.eqb_spec (final_generation pointer) 0); [done|].
  assert (forall m h h' st, open_directory m h = (h', Returned (Ok st)) ->
    h' = set_outcomes (outcomes h') h /\ m = Some st) as Hopen.
  { intros m h1 h2 s (h3 & [] & H3%system_call_Ok & [-> Hm]%pure_Ok)%io_bind_Ok.
    split; [done|]. by destruct m; [injection Hm as ->|]. }
  assert (forall m h h' u, require_owner_directory m h = (h', Returned (Ok u)) ->
    h' = set_outcomes (outcomes h') h /\ is_private_root (euid h) m = true) as Hreq.
  { intros m h1 h2 u (h3 & [] & H3%system_call_Ok & (h4 & uid & [= <- <-] & Hx)%io_bind_Ok)%io_bind_Ok.
    destruct (is_private_root _ _) eqn:Hp; [|done]. injection Hx as <- _. split; [done|].
    by rewrite H3 in Hp. }
  intros (h1 & g & [H1 Hg]%Hopen & Hx)%io_bind_Ok.
  apply io_bind_Ok in Hx as (h2 & u & [H2 Hpg]%Hreq & Hx).
  apply io_bind_Ok in Hx as (h3 & c & [H3 Hc]%Hopen & Hx).
  apply io_bind_Ok in Hx as (h4 & u' & [H4 Hpc]%Hreq & [= <- <-]).
  rewrite H1 in Hpg. rewrite H3, H2, H1 in Hpc.
  split; [done|]. split; [by exists g|]. split; [done|]. split; [done|]. by rewrite H4, H3, H2, H1.
Qed.

(** ** A concrete pointer and root *)

Section example.
#[local] Existing Instance sum_hmac.

Definition sample_key : JournalIntegrityKey := mkJournalIntegrityKey (repeat 7 32).
Definition sample_pointer : ActiveStatePointer :=
  mkActiveStatePointer 7 (as_bytes "transition-17") 9 (as_bytes "lineage-9") (repeat 34 32) Restore
    (repeat 51 32).
Definition sample_root : DirStat := mkDirStat true 448 1000 2 3.
Definition sample_host (d : Directory) (calls : nat) : Host :=
  mkHost d sample_root sample_root sample_root 1000 7 false (mkProcess 63 (Some 0, Some 0) false) 0
    (repeat (Moves 8192) calls).
Definition empty_directory : Directory := mkDirectory ∅ [] ∅.

Definition sample_name : bytes := Eval vm_compute in temporary_basename sample_pointer.
Lemma sample_name_is : temporary_basename sample_pointer = sample_name.
Proof. vm_compute. reflexivity. Qed.

(** Killed between the rename and the sync of the root. *)
Lemma sample_killed :
  exists h', publish_active_state_pointer_inner sample_key sample_pointer RequireAbsent NoFault
               (sample_host empty_directory 5) = (h', Killed)
    /\ named ACTIVE_STATE_NAME (lenient (directory h')) <> None.
Proof.
  exists (fst (publish_active_state_pointer_inner sample_key sample_pointer RequireAbsent NoFault
    (sample_host empty_directory 5))).
  split; [apply run_of; vm_compute; reflexivity|]. vm_compute. discriminate.
Qed.

Lemma publish_pointer_crash_safe_witness :
  exists h', publish_active_state_pointer_inner sample_key sample_pointer RequireAbsent NoFault
               (sample_host empty_directory 5) = (h', Killed)
    /\ named ACTIVE_STATE_NAME (lenient (directory h')) <> None
    /\ (named ACTIVE_STATE_NAME (lenient (directory h')) = named ACTIVE_STATE_NAME empty_directory
        \/ (exists wire, encode_active_state_pointer sample_key sample_pointer = Ok wire
                         /\ named ACTIVE_STATE_NAME (lenient (directory h')) = Some wire)
           /\ named ACTIVE_STATE_NAME empty_directory = None).
Proof.
  destruct sample_killed as (h' & Hk & Hn). exists h'. split; [exact Hk|]. split; [exact Hn|].
  refine (publish_pointer_crash_safe sample_key sample_pointer RequireAbsent NoFault
    (sample_host empty_directory 5) h' Killed _ _ Hk (crash_of _)).
  split; [reflexivity|]. intros n Hx. cbn in Hx. by rewrite lookup_empty in Hx.
Defined.

(** The temporary of an attempt that was killed after three bytes. *)
Definition partial_directory : Directory :=
  mkDirectory {[ sample_name := 1%nat ]} [] {[ 1%nat := mkInode RegularFile 384 1000 1 [1; 0; 0] true ]}.

Lemma rejected_temporary_preserved_witness :
  exists h' run, publish_active_state_pointer_inner sample_key sample_pointer RequireAbsent NoFault
                   (sample_host partial_directory 40) = (h', run)
    /\ directory h' = partial_directory /\ run <> Returned (Ok tt).
Proof.
  destruct (publish_active_state_pointer_inner sample_key sample_pointer RequireAbsent NoFault
    (sample_host partial_directory 40)) as [h' run] eqn:Hp.
  exists h', run. split; [reflexivity|].
  apply (rejected_temporary_preserved sample_key sample_pointer RequireAbsent NoFault
    (sample_host partial_directory 40) h' run 1%nat); [|  |exact Hp].
  - rewrite sample_name_is. reflexivity.
  - intros i Hi. injection Hi as <-. vm_compute. discriminate.
Defined.

Lemma reopen_candidate_sound_witness :
  exists h', reopen_candidate (pointer_named_generation (coordinator_enter sample_pointer))
      (Some sample_root) (fun _ => Some sample_root) (sample_host empty_directory 4)
    = (h', Returned (Ok sample_root))
    /\ final_generation sample_pointer <> 0.
Proof.
  assert (reopen_candidate (pointer_named_generation (coordinator_enter sample_pointer))
    (Some sample_root) (fun _ => Some sample_root) (sample_host empty_directory 4)
    = (sample_host empty_directory 0, Returned (Ok sample_root))) as Hr by reflexivity.
  exists (sample_host empty_directory 0). split; [exact Hr|].
  exact (proj1 (reopen_candidate_sound _ _ _ _ _ _ Hr)).
Defined.
End example.
