(* ===== verification/Publication.v ===== *)
(** * Publishing and reopening the control-journal image
    ([initialization_key_pair/control_journal_image.rs] of [crates/msgriver/src],
    lines 366-373 and 2759-2982)

    The owner's directory is that of [Host]. *)

From S2P Require Import Prelude Bytes Text CoreError Generation Bounded Ring Sha256 Codec Clock.
From S2P Require Import Journal RecoveryRing GenerateProfile Pointer ImageWire Addressed.
From S2P Require Import Checkpoint CheckpointCodec Replay Image Append Host Durable Platform.

#[local] Open Scope Z_scope.

(** ** [#[derive(PartialEq, Eq)]] of the image and its parts *)

#[export] Instance ClockAuthorityProjection_eq_dec : EqDecision ClockAuthority.ClockAuthorityProjection.
Proof. solve_decision. Defined.
#[export] Instance RuntimeMode_eq_dec : EqDecision ClockBody.RuntimeMode.
Proof. solve_decision. Defined.
#[export] Instance CheckpointReason_eq_dec : EqDecision ClockBody.CheckpointReason.
Proof. solve_decision. Defined.
#[export] Instance NamedHold_eq_dec : EqDecision ClockBody.NamedHold.
Proof. solve_decision. Defined.
#[export] Instance PreMirrorWitness_eq_dec : EqDecision ClockBody.PreMirrorWitness.
Proof. solve_decision. Defined.
#[export] Instance ClockCheckpointBody_eq_dec : EqDecision ClockBody.ClockCheckpointBody.
Proof. solve_decision. Defined.
#[export] Instance PointerOrigin_eq_dec : EqDecision PointerOrigin.
Proof. solve_decision. Defined.
#[export] Instance ActiveStatePointer_eq_dec : EqDecision ActiveStatePointer.
Proof. solve_decision. Defined.
#[export] Instance RecoveryRingEntry_eq_dec : EqDecision RecoveryRingEntry.
Proof. solve_decision. Defined.
#[export] Instance StableActorNamespace_eq_dec : EqDecision StableActorNamespace.
Proof. solve_decision. Defined.
#[export] Instance CommandTag_eq_dec : EqDecision CommandTag.
Proof. solve_decision. Defined.
#[export] Instance CommandRuntime_eq_dec : EqDecision CommandRuntime.
Proof. solve_decision. Defined.
#[export] Instance CommandRetention_eq_dec : EqDecision CommandRetention.
Proof. solve_decision. Defined.
#[export] Instance CommandSafeResult_eq_dec : EqDecision CommandSafeResult.
Proof. solve_decision. Defined.
#[export] Instance CommandParentWitness_eq_dec : EqDecision CommandParentWitness.
Proof. solve_decision. Defined.
#[export] Instance CommandTargetBinding_eq_dec : EqDecision CommandTargetBinding.
Proof. solve_decision. Defined.
#[export] Instance FixedRootCommandProjection_eq_dec : EqDecision FixedRootCommandProjection.
Proof. solve_decision. Defined.
#[export] Instance AddressedCell_eq_dec : EqDecision AddressedCell.
Proof. solve_decision. Defined.
#[export] Instance ProvenanceHeads_eq_dec : EqDecision ProvenanceHeads.
Proof. solve_decision. Defined.
#[export] Instance UpgradeDivergedResolution_eq_dec : EqDecision UpgradeDivergedResolution.
Proof. solve_decision. Defined.
#[export] Instance UpgradeDivergedProvenance_eq_dec : EqDecision UpgradeDivergedProvenance.
Proof. solve_decision. Defined.
#[export] Instance CoordinatorPhase_eq_dec : EqDecision CoordinatorPhase.
Proof. solve_decision. Defined.
#[export] Instance CoordinatorOutcome_eq_dec : EqDecision CoordinatorOutcome.
Proof. solve_decision. Defined.
#[export] Instance CoordinatorPreparedHeads_eq_dec : EqDecision CoordinatorPreparedHeads.
Proof. solve_decision. Defined.
#[export] Instance FixedRootCoordinator_eq_dec : EqDecision FixedRootCoordinator.
Proof. solve_decision. Defined.
#[export] Instance UpgradeAuthorityMirror_eq_dec : EqDecision UpgradeAuthorityMirror.
Proof. solve_decision. Defined.
#[export] Instance OpenUpgradeProjection_eq_dec : EqDecision OpenUpgradeProjection.
Proof. solve_decision. Defined.
#[export] Instance CompleteCheckpoint_eq_dec : EqDecision CompleteCheckpoint.
Proof. solve_decision. Defined.
#[export] Instance AuthenticatedControlJournalHeader_eq_dec : EqDecision AuthenticatedControlJournalHeader.
Proof. solve_decision. Defined.
#[export] Instance TailRecord_eq_dec : EqDecision TailRecord.
Proof. solve_decision. Defined.
#[export] Instance AuthenticatedTailFrame_eq_dec : EqDecision AuthenticatedTailFrame.
Proof. solve_decision. Defined.
#[export] Instance CompleteControlJournalImage_eq_dec : EqDecision CompleteControlJournalImage.
Proof. solve_decision. Defined.

(** ** [ImageOwner] *)

Definition JOURNAL_NAME : bytes := as_bytes "control-journal".

Inductive PublicationFault : Type :=
| UniqueTemporaryCreate | TemporaryWrite | FileSync | ReplacementRename | DirectorySync.

#[export] Instance PublicationFault_eq_dec : EqDecision PublicationFault.
Proof. solve_decision. Defined.

(** The path was accepted by the lock, so [CString::new] succeeds. *)
Definition ImageOwner_acquire : Io ControlJournalImageError unit :=
  _ ← mapped (fun _ => WriteFailed) acquire_with_private_root_reference;
  open_operational WriteFailed.

(** The loop over [read]: what is left of the file, and what was read. *)
Fixpoint read_loop (os : list Outcome) (left_ acc : bytes)
    : list Outcome * Run ControlJournalImageError bytes :=
  match os with
  | [] => ([], Killed)
  | Fails :: os => (os, Returned (Err INVALID))
  | Interrupted :: os => read_loop os left_ acc
  | Moves n :: os =>
    let count := Z.to_nat (Z.min (Z.max 1 n) (Z.min 8192 (len left_))) in
    if (count =? 0)%nat then (os, Returned (Ok acc))
    else if IMAGE_LIMIT <? len acc + Z.of_nat count then (os, Returned (Err INVALID))
    else read_loop os (drop count left_) (acc ++ take count left_)
  end.

Definition read_data (l : bytes) : Io ControlJournalImageError bytes := fun h =>
  let '(os, r) := read_loop (outcomes h) l [] in (set_outcomes os h, r).

Definition publication_barrier (injected : option PublicationFault) (barrier : PublicationFault)
    : image_result unit :=
  if bool_decide (injected = Some barrier) then
    Err (if bool_decide (barrier = DirectorySync) then PublishUncertain else WriteFailed)
  else Ok tt.

Definition write_image_bytes (file : nat) (l : bytes) : Io ControlJournalImageError unit := write_file WriteFailed file l.

(** [format!(".control-journal-{}-{serial}.tmp", std::process::id())]. *)
Definition temporary_name (process serial : Z) : bytes :=
  as_bytes ".control-journal-" ++ decimal process ++ as_bytes "-" ++ decimal serial
  ++ as_bytes ".tmp".

(** [TEMPORARY_SERIAL.fetch_update(.., checked_add(1))]. *)
Definition next_serial : Io ControlJournalImageError Z := fun h =>
  let serial := temporary_serial h in
  match checked_add_u64 serial 1 with
  | Some next => (set_serial next h, Returned (Ok serial))
  | None => (h, Returned (Err WriteFailed))
  end.

(** [openat] with [CREATE] and [EXCL]. *)
Definition create_temporary (name : bytes) : Io ControlJournalImageError nat :=
  file ← open_new WriteFailed name; pure (ok_or file WriteFailed).

(** The closure [before_rename]. *)
Definition before_rename (fault : option PublicationFault) (name : bytes) (file : nat) (l : bytes)
    : Io ControlJournalImageError unit :=
  _ ← (if bool_decide (fault = Some TemporaryWrite)
       then write_image_bytes file (take (length l / 2) l) else mret tt);
  _ ← pure (publication_barrier fault TemporaryWrite);
  _ ← write_image_bytes file l;
  _ ← pure (publication_barrier fault FileSync);
  _ ← sync_file WriteFailed file;
  _ ← pure (publication_barrier fault ReplacementRename);
  rename WriteFailed true name JOURNAL_NAME.

(** [let _ = unlinkat(..)]: whatever comes of it. *)
Definition unlink_temporary (name : bytes) : Io ControlJournalImageError unit :=
  o ← next_outcome;
  match o with
  | Moves _ => update_directory (rename_names (delete name))
  | Fails | Interrupted => mret tt
  end.

Section with_hmac.
Context `{HmacSha256}.

Definition ImageOwner_read (key : JournalIntegrityKey)
    : Io ControlJournalImageError (option CompleteControlJournalImage) :=
  o ← next_outcome;
  file ← ask (fun h => entry (directory h) JOURNAL_NAME);
  match o, file with
  | Moves _, None => mret None
  | Moves _, Some (_, i) =>
    if bool_decide (i_type i = Symlink) then pure (Err INVALID)
    else
      _ ← system_call INVALID;
      uid ← ask euid;
      if negb (bool_decide (i_type i = RegularFile)) || negb (i_mode i =? 384)
         || negb (i_uid i =? uid) || negb (i_nlink i =? 1) || (IMAGE_LIMIT <? len (i_data i))
      then pure (Err INVALID)
      else
        l ← read_data (i_data i);
        if negb (len l =? len (i_data i)) then pure (Err INVALID)
        else image ← pure (decode_control_journal_image key l); mret (Some image)
  | _, _ => pure (Err INVALID)
  end.

(** What may replace what: nothing goes back, and a missing journal is initialized. *)
Definition replacement_admitted (previous : option CompleteControlJournalImage)
    (image : CompleteControlJournalImage) : image_result unit :=
  match previous with
  | Some previous =>
    old ← replay_tail previous;
    new ← replay_tail image;
    if (image_high_water (header image) <? image_high_water (header previous))
       || (generation (checkpoint image) <? generation (checkpoint previous))
       || (sequence (covered_head new) <? sequence (covered_head old))
       || ((sequence (covered_head new) =? sequence (covered_head old))
           && negb (bool_decide (digest (covered_head new) = digest (covered_head old))))
       || (clock_safe_time new <? clock_safe_time old)
    then Err INVALID else Ok tt
  | None =>
    if negb (image_high_water (header image) =? 0)
       || negb (generation (checkpoint image) =? 1)
       || negb (sequence (covered_head (checkpoint image)) =? 0)
       || negb (length (tail image) =? 0)%nat
    then Err INVALID else Ok tt
  end.

Definition publish_image (key : JournalIntegrityKey) (image : CompleteControlJournalImage)
    (fault : option PublicationFault) : Io ControlJournalImageError unit :=
  l ← pure (encode_control_journal_image key image);
  _ ← ImageOwner_acquire;
  previous ← ImageOwner_read key;
  _ ← pure (replacement_admitted previous image);
  _ ← pure (publication_barrier fault UniqueTemporaryCreate);
  serial ← next_serial;
  process ← ask pid;
  let name := temporary_name process serial in
  file ← create_temporary name;
  written ← caught (before_rename fault name file l);
  _ ← match written with
      | Ok _ => mret tt
      | Err e => _ ← unlink_temporary name; pure (Err e)
      end;
  _ ← pure (publication_barrier fault DirectorySync);
  _ ← sync_directory PublishUncertain;
  selected ← caught (ImageOwner_read key);
  match selected with
  | Ok selected =>
    if bool_decide (selected = Some image) then mret tt else pure (Err PublishUncertain)
  | Err _ => pure (Err PublishUncertain)
  end.

Definition publish_control_journal_image (key : JournalIntegrityKey)
    (image : CompleteControlJournalImage) : Io ControlJournalImageError unit := publish_image key image None.

Definition publish_control_journal_image_with_fault (key : JournalIntegrityKey)
    (image : CompleteControlJournalImage) (fault : PublicationFault) : Io ControlJournalImageError unit :=
  publish_image key image (Some fault).

Definition reopen_control_journal_image (key : JournalIntegrityKey)
    : Io ControlJournalImageError CompleteControlJournalImage :=
  _ ← ImageOwner_acquire;
  image ← ImageOwner_read key;
  pure (ok_or image INVALID).
End with_hmac.
