(* ===== verification/CrashSafety.v ===== *)
(** * What a crash can leave of a publication

    [publish_image] is run against any list of system-call outcomes, and the machine may
    crash after any of its ends: a result, or a kill in the middle. The journal a crash
    leaves is the one from before or the whole new image, and the result says which: an
    error other than [PublishUncertain] means the old one, success the new one. A new
    image gets there only when it takes nothing of the selected one back.

    The runs start from any directory, also one an earlier publication left unsynced. *)

From S2P Require Import Prelude Bytes Text CoreError Generation Bounded Ring Sha256 Codec Clock.
From S2P Require Import Journal RecoveryRing GenerateProfile Pointer ImageWire Addressed.
From S2P Require Import Checkpoint CheckpointCodec Replay Image Append Host Durable Platform Publication.

#[local] Open Scope Z_scope.

(** The journal of a directory: the data of the file under its name. *)
Definition journal_bytes : Directory -> option bytes := named JOURNAL_NAME.

(** ** What may replace what *)

(** [image] takes nothing of [previous] back. *)
Definition goes_forward (previous image : CompleteControlJournalImage) : Prop :=
  exists old new,
    replay_tail previous = Ok old /\ replay_tail image = Ok new
    /\ image_high_water (header previous) <= image_high_water (header image)
    /\ generation (checkpoint previous) <= generation (checkpoint image)
    /\ sequence (covered_head old) <= sequence (covered_head new)
    /\ (sequence (covered_head new) = sequence (covered_head old) ->
        digest (covered_head new) = digest (covered_head old))
    /\ clock_safe_time old <= clock_safe_time new.

Definition first_image (image : CompleteControlJournalImage) : Prop :=
  image_high_water (header image) = 0 /\ generation (checkpoint image) = 1
  /\ sequence (covered_head (checkpoint image)) = 0 /\ tail image = [].

Definition may_replace (previous : option CompleteControlJournalImage)
    (image : CompleteControlJournalImage) : Prop :=
  match previous with Some previous => goes_forward previous image | None => first_image image end.

Lemma replacement_admitted_spec previous image :
  replacement_admitted previous image = Ok tt <-> may_replace previous image.
Proof.
  destruct previous as [previous|]; cbn [replacement_admitted may_replace].
  - split.
    + intros (old & Ho & (new & Hn & Hx)%bind_Ok)%bind_Ok. exists old, new.
      destruct (_ || _) eqn:Hb; [done|]. b2p. destruct_and!. split_and!; try done; try lia.
      tauto.
    + intros (old & new & -> & -> & ? & ? & ? & Hd & ?). cbn.
      replace (_ || _) with false; [done|]. symmetry. b2p. split_and!; try lia.
      destruct (decide (sequence (covered_head new) = sequence (covered_head old))); tauto.
  - unfold first_image. destruct (_ || _) eqn:Hb; b2p.
    + split; [done|]. intros (?&?&?&Ht). rewrite Ht in Hb. cbn in Hb. lia.
    + destruct_and!. split; [intros _|done]. split_and!; try lia. by apply nil_length_inv.
Qed.

(** What a journal selects: nothing, or the image it decodes to. *)
Definition selects `{HmacSha256} (key : JournalIntegrityKey) (v : option bytes)
    (previous : option CompleteControlJournalImage) : Prop :=
  match previous with
  | Some p => exists l, v = Some l /\ decode_control_journal_image key l = Ok p
  | None => v = None
  end.

Definition justified `{HmacSha256} (key : JournalIntegrityKey) (v : option bytes)
    (image : CompleteControlJournalImage) : Prop :=
  exists previous, selects key v previous /\ may_replace previous image.

(** ** Names and reads *)

Lemma temporary_is_no_journal process serial : temporary_name process serial <> JOURNAL_NAME.
Proof. intros Hx. apply (f_equal (hd 0)) in Hx. change (46 = 99) in Hx. done. Qed.

Lemma lock_is_no_journal : LOCK_NAME <> JOURNAL_NAME.
Proof. intros Hx. apply (f_equal (hd 0)) in Hx. change (109 = 99) in Hx. done. Qed.

Lemma idle_read_data l : idle (read_data l).
Proof. intros h. unfold read_data. by destruct (read_loop _ _ _). Qed.
Lemma idle_serial : idle next_serial.
Proof. intros h. unfold next_serial. by destruct (checked_add_u64 _ _). Qed.
#[export] Hint Resolve idle_read_data idle_serial : idle.

Lemma idle_read `{HmacSha256} key : idle (ImageOwner_read key).
Proof. unfold ImageOwner_read. idle. Qed.
#[export] Hint Resolve idle_read : idle.

Lemma read_loop_whole os l acc os' r :
  read_loop os l acc = (os', Returned (Ok r)) -> r = acc ++ l.
Proof.
  revert l acc. induction os as [|[| |n] os IH]; intros l acc; cbn [read_loop]; try done.
  - apply IH.
  - set (count := Z.to_nat (Z.min (Z.max 1 n) (Z.min 8192 (len l)))).
    destruct (Nat.eqb_spec count 0) as [Hc|Hc].
    + intros [= <- <-]. unfold count, len in Hc. destruct l; [by rewrite app_nil_r|]. cbn in Hc. lia.
    + destruct (_ <? _); [done|]. intros Hr%IH. rewrite Hr, <- app_assoc. by rewrite take_drop.
Qed.

Lemma read_data_whole l (P : Directory -> Prop) X K :
  (forall e d, P d -> X e d) -> (forall d, P d -> K d) ->
  runs (read_data l) P (fun a d => P d /\ a = l) X K.
Proof.
  intros HX HK h Hh. unfold read_data. destruct (read_loop _ _ _) as [os [[r|e]|]] eqn:Hr; cbn; auto.
  apply read_loop_whole in Hr. cbn in Hr. by subst.
Qed.

(** ** The publication, step by step *)

Section publication.
Context `{HmacSha256} (key : JournalIntegrityKey).
Context (V : option bytes -> Prop) (v : option bytes).

(** Until the rename; after it; after the sync of the directory. *)
Definition unrenamed : Directory -> Prop := within JOURNAL_NAME V v.
Definition renamed (new : bytes) : Directory -> Prop :=
  within JOURNAL_NAME (fun w => V w \/ w = Some new) (Some new).
Definition published (new : bytes) : Directory -> Prop :=
  within JOURNAL_NAME (eq (Some new)) (Some new).

Lemma unrenamed_lock :
  runs acquire_with_private_root_reference unrenamed (fun _ => unrenamed) (fun _ => unrenamed) unrenamed.
Proof. apply acquire_lock_runs, lock_is_no_journal. Qed.

Lemma acquire_runs :
  runs ImageOwner_acquire unrenamed (fun _ => unrenamed) (fun _ => unrenamed) unrenamed.
Proof.
  unfold ImageOwner_acquire. step (fun _ => unrenamed).
  - by eapply runs_mapped, unrenamed_lock.
  - apply idle_runs; auto with idle.
Qed.

Lemma read_selects :
  runs (ImageOwner_read key) unrenamed (fun p d => unrenamed d /\ selects key v p)
    (fun _ => unrenamed) unrenamed.
Proof.
  unfold ImageOwner_read. step (fun _ => unrenamed) as o; [by apply runs_next|].
  step (fun f d => unrenamed d /\ v = i_data ∘ snd <$> f) as file.
  { intros h Hh. cbn. split; [done|]. rewrite <- named_entry. by rewrite (within_named _ _ _ _ Hh). }
  apply runs_fact. intros Hv.
  destruct o as [| |k]; [by destruct file as [[]|]; intros h Hh..|].
  destruct file as [[n i]|]; [|by intros h Hh].
  case_bool_decide; [by intros h Hh|].
  step (fun _ => unrenamed); [by apply runs_call|].
  step (fun _ => unrenamed); [apply runs_ask|].
  destruct (_ || _); [by intros h Hh|].
  step (fun l d => unrenamed d /\ l = i_data i) as l; [by apply read_data_whole|].
  apply runs_fact. intros ->. destruct (negb _); [by intros h Hh|].
  step (fun p d => unrenamed d /\ decode_control_journal_image key (i_data i) = Ok p) as p;
    [by apply runs_result|].
  apply runs_fact. intros Hp h Hh. cbn. split; [done|]. exists (i_data i). by rewrite Hv.
Qed.

Section image.
Context (new : bytes) (image : CompleteControlJournalImage).

Definition refused (e : ControlJournalImageError) (d : Directory) : Prop :=
  unrenamed d \/ (e = PublishUncertain /\ renamed new d /\ justified key v image).
Definition killed (d : Directory) : Prop :=
  unrenamed d \/ (renamed new d /\ justified key v image).

Lemma refused_unrenamed e d : unrenamed d -> refused e d.
Proof. by left. Qed.
Lemma killed_unrenamed d : unrenamed d -> killed d.
Proof. by left. Qed.
#[local] Hint Resolve refused_unrenamed killed_unrenamed : core.

Lemma create_runs name :
  name <> JOURNAL_NAME ->
  runs (create_temporary name) unrenamed (fun n => writing JOURNAL_NAME V v name n [])
    refused killed.
Proof.
  intros Hname. unfold create_temporary.
  step (fun r d => match r with Some n => writing JOURNAL_NAME V v name n [] d | None => unrenamed d end) as r.
  - apply runs_open_new; auto. intros d uid mode Hd _. by apply create_writing.
  - destruct r as [n|]; intros h Hh; cbn; auto.
Qed.

Lemma before_rename_runs fault name n :
  runs (before_rename fault name n new) (writing JOURNAL_NAME V v name n [])
    (fun _ => renamed new) (fun _ => unrenamed) unrenamed.
Proof.
  set (W := writing JOURNAL_NAME V v name n).
  assert (forall l d, W l d -> unrenamed d) as HW by by intros l d [].
  assert (forall l, runs (write_image_bytes n l) (W []) (fun _ => W ([] ++ l)) (fun _ => unrenamed)
    unrenamed) as Hwrite by (intros l; by apply runs_write_file).
  unfold before_rename. destruct (bool_decide (fault = Some TemporaryWrite)) eqn:Hf.
  - apply bool_decide_eq_true in Hf as ->.
    step (fun _ => unrenamed).
    + eapply runs_weaken; [..|apply Hwrite]; [done|]. intros []. apply HW.
    + step (fun _ _ => False); by intros h Hh.
  - step (fun _ => W []); [by intros h Hh|].
    step (fun _ => W []).
    { eapply runs_weaken; [..|apply (runs_result _ _ _ (W []))]; [done|by intros ? ? [? _]|eauto]. }
    step (fun _ => W new); [apply Hwrite|].
    step (fun _ => W new).
    { eapply runs_weaken; [..|apply (runs_result _ _ _ (W new))]; [done|by intros ? ? [? _]|eauto]. }
    set (S := written JOURNAL_NAME V v name new).
    assert (forall d, S d -> unrenamed d) as HS by by intros d [].
    step (fun _ => S); [apply runs_sync_file; eauto; intros d; apply sync_written|].
    step (fun _ => S).
    { eapply runs_weaken; [..|apply (runs_result _ _ _ S)]; [done|by intros ? ? [? _]|eauto]. }
    apply runs_rename; eauto. intros d m Hd _ _. by apply (replace_written _ V v).
Qed.

Lemma unlink_runs name :
  name <> JOURNAL_NAME ->
  runs (unlink_temporary name) unrenamed (fun _ => unrenamed) refused killed.
Proof.
  intros Hname. unfold unlink_temporary.
  step (fun _ => unrenamed) as o; [apply runs_next; auto|].
  destruct o as [| |k]; try by intros h Hh. apply runs_update. intros d. by apply within_unlink.
Qed.

(** After the rename every error is [PublishUncertain]. *)
Lemma finish_runs fault :
  justified key v image ->
  runs (_ ← pure (publication_barrier fault DirectorySync);
        _ ← sync_directory PublishUncertain;
        selected ← caught (ImageOwner_read key);
        match selected with
        | Ok selected =>
          if bool_decide (selected = Some image) then mret tt else pure (Err PublishUncertain)
        | Err _ => pure (Err PublishUncertain)
        end) (renamed new) (fun _ => published new) refused killed.
Proof.
  intros Hj.
  assert (forall d, renamed new d -> refused PublishUncertain d) as Hr by (by right).
  assert (forall d, renamed new d -> killed d) as Hk by (by right).
  assert (forall d, published new d -> renamed new d) as Hp
    by (intros d; apply within_weaken; intros w; by right).
  step (fun _ => renamed new).
  { intros h Hh. unfold publication_barrier. case_bool_decide; cbn; auto. }
  step (fun _ => published new).
  { apply runs_sync_directory; auto. intros d. apply within_names. }
  step (fun _ => published new) as r.
  { apply (runs_weaken _ _ _ (published new) _ (fun r d => match r with
      | Ok _ => published new d | Err _ => published new d end)); [done|by intros []|].
    apply (runs_caught _ _ (fun _ => published new) (fun _ => published new)).
    apply idle_runs; auto with idle. }
  destruct r as [selected|e]; [case_bool_decide|]; intros h Hh; cbn; auto.
Qed.
End image.

Lemma publish_runs image fault :
  match encode_control_journal_image key image with
  | Ok new => runs (publish_image key image fault) unrenamed
      (fun _ d => published new d /\ justified key v image) (refused new image) (killed new image)
  | Err e => forall h, publish_image key image fault h = (h, Returned (Err e))
  end.
Proof.
  unfold publish_image. destruct (encode_control_journal_image key image) as [new|e] eqn:He; [|done].
  set (X := refused new image). set (K := killed new image).
  assert (forall e d, unrenamed d -> X e d) as HX by by left.
  assert (forall d, unrenamed d -> K d) as HK by by left.
  step (fun l d => unrenamed d /\ l = new) as l; [intros h Hh; done|]. apply runs_fact. intros ->.
  step (fun _ => unrenamed).
  { intros h Hh. pose proof (acquire_runs h Hh) as Ha. destruct (ImageOwner_acquire h) as [? [[]|]]; auto. }
  step (fun p d => unrenamed d /\ selects key v p) as previous.
  { intros h Hh. pose proof (read_selects h Hh) as Ha. destruct (ImageOwner_read key h) as [? [[]|]]; auto. }
  apply runs_fact. intros Hsel.
  step (fun _ d => unrenamed d /\ replacement_admitted previous image = Ok tt).
  { intros h Hh. unfold pure. destruct (replacement_admitted previous image) as [[]|e]; cbn; auto. }
  apply runs_fact. intros Hadm%replacement_admitted_spec.
  assert (justified key v image) as Hj by by exists previous.
  step (fun _ => unrenamed).
  { eapply runs_weaken; [..|apply (runs_result _ _ _ unrenamed)]; [done|by intros ? ? [? _]|auto]. }
  step (fun _ => unrenamed) as serial; [apply idle_runs; auto with idle|].
  step (fun _ => unrenamed) as process; [apply runs_ask|]. cbv zeta.
  pose proof (temporary_is_no_journal process serial) as Hname.
  set (name := temporary_name process serial) in *. clearbody name.
  step (fun n => writing JOURNAL_NAME V v name n []) as n; [by apply create_runs|].
  step (fun r d => match r with Ok _ => renamed new d | Err _ => unrenamed d end) as r.
  { intros h Hh. pose proof (runs_caught _ _ _ _ X _ (before_rename_runs new fault name n) h Hh) as Hc.
    destruct (caught _ h) as [? [[]|]]; auto. }
  step (fun _ => renamed new).
  { destruct r as [u|e]; [by intros h Hh|].
    step (fun _ => unrenamed); [by apply unlink_runs|]. intros h Hh. cbn. auto. }
  eapply runs_weaken; [..|by apply (finish_runs new image fault)]; [done|]. by intros u d Hd.
Qed.
End publication.

(** C4: A publication is atomic and durable whatever fails, wherever it is killed and
    whenever the machine crashes afterwards: the journal left is the old one or exactly
    the whole new image; an answered success means the new image, every error other
    than [PublishUncertain] the old one. *)
Theorem publish_image_crash_safe `{HmacSha256} key image fault h h' run after :
  settled JOURNAL_NAME (directory h) ->
  publish_image key image fault h = (h', run) ->
  crash (directory h') after ->
  let old := journal_bytes after = journal_bytes (directory h) in
  let new := exists l, encode_control_journal_image key image = Ok l
                       /\ journal_bytes after = Some l in
  match run with
  | Returned (Ok _) => new
  | Returned (Err PublishUncertain) | Killed => old \/ new
  | Returned (Err _) => old
  end.
Proof.
  intros Hs%settled_within Hp Hc old new. subst old new.
  assert (forall V v d, within JOURNAL_NAME V v d -> crash d after -> V (journal_bytes after)) as Hcr.
  { intros V v d Hw Hd. by destruct (crash_within _ _ _ _ _ Hw Hd). }
  pose proof (publish_runs key (eq (journal_bytes (directory h))) (journal_bytes (directory h)) image fault) as Hr.
  destruct (encode_control_journal_image key image) as [l|e] eqn:He.
  - specialize (Hr h Hs). rewrite Hp in Hr.
    assert (forall d, renamed (eq (journal_bytes (directory h))) l d -> crash d after ->
      journal_bytes after = journal_bytes (directory h)
      \/ exists l', Ok (E := ControlJournalImageError) l = Ok l' /\ journal_bytes after = Some l')
      as Hnew.
    { intros d Hd Hcd. destruct (Hcr _ _ _ Hd Hcd) as [Hx|Hx]; [by left|right; by exists l]. }
    destruct run as [[u|e]|].
    + exists l. split; [done|]. destruct Hr as [Hr _]. by rewrite <- (Hcr _ _ _ Hr Hc).
    + destruct Hr as [Hr|(-> & Hr & _)]; [|by eapply Hnew].
      pose proof (Hcr _ _ _ Hr Hc). destruct e; eauto.
    + destruct Hr as [Hr|[Hr _]]; [left; symmetry; by apply (Hcr _ _ _ Hr)|by eapply Hnew].
  - rewrite Hr in Hp. injection Hp as <- <-. pose proof (Hcr _ _ _ Hs Hc). by destruct e; [..|left].
Qed.
