(* ===== verification/PublicationLive.v ===== *)
(** * What publication admits, and that it succeeds

    A publication replaces the journal only by an image that does not go back behind the
    selected one, and initializes a missing journal only with a first image. On a host
    whose calls work it succeeds, and reopening gives the published image; images grown
    from the selected one are always admitted. The loops over [read] and [write] end. *)

From S2P Require Import Prelude Bytes Text CoreError Generation Bounded Ring Sha256 Codec Clock.
From S2P Require Import Journal RecoveryRing GenerateProfile Pointer ImageWire Addressed.
From S2P Require Import Checkpoint CheckpointCodec Replay Image Append Host Durable Platform.
From S2P Require Import Publication CrashSafety.

#[local] Open Scope Z_scope.

(** ** The loops *)

(** The moving outcomes a loop can use before it ends. *)
Lemma moved_count n l :
  l <> [] -> let count := Z.to_nat (Z.min (Z.max 1 n) (Z.min 8192 (len l))) in
  (0 < count <= length l)%nat.
Proof. intros Hl count. subst count. unfold len. destruct l; [done|]. cbn [length]. lia. Qed.

Lemma read_loop_ends os l acc :
  (length l < length (List.filter progress os))%nat -> (read_loop os l acc).2 <> Killed.
Proof.
  revert l acc. induction os as [|[| |n] os IH]; intros l acc; cbn [read_loop]; try done.
  - cbn. lia.
  - apply IH.
  - cbn [List.filter progress length]. intros Hl.
    set (count := Z.to_nat (Z.min (Z.max 1 n) (Z.min 8192 (len l)))).
    destruct (Nat.eqb_spec count 0) as [Hc|Hc]; [done|]. destruct (_ <? _); [done|].
    apply IH. rewrite length_drop.
    assert (l <> []) as Hne by (intros ->; apply Hc; subst count; unfold len; cbn [length]; lia).
    pose proof (moved_count n l Hne) as Hm. cbv zeta in Hm. fold count in Hm. lia.
Qed.

(** C32: The loops over [read] and [write] end: with more calls that are not interrupted than
    there are bytes, neither is still running when the calls run out, however short the
    reads and writes are. *)
Theorem image_loops_terminate os file l d :
  (length l < length (List.filter progress os))%nat ->
  (read_loop os l []).2 <> Killed /\ (write_loop WriteFailed os file l d).2 <> Killed.
Proof. intros Hl. split; [by apply read_loop_ends|apply write_loop_ends; lia]. Qed.

(** What a working host makes of them. *)
Lemma read_loop_healthy os l acc :
  Forall healthy os -> (length l < length os)%nat -> len acc + len l <= IMAGE_LIMIT ->
  exists os', read_loop os l acc = (os', Returned (Ok (acc ++ l))) /\ Forall healthy os'
    /\ (length os <= length os' + length l + 1)%nat.
Proof.
  intros Hos. revert l acc. induction Hos as [|o os (n & -> & Hn) Hos IH]; intros l acc; cbn [length];
    [lia|]. intros Hl Hlim. cbn [read_loop].
  set (count := Z.to_nat (Z.min (Z.max 1 n) (Z.min 8192 (len l)))).
  destruct (Nat.eqb_spec count 0) as [Hc|Hc].
  - assert (l = []) as -> by (destruct l; [done|]; unfold count, len in Hc; cbn [length] in Hc; lia).
    exists os. rewrite app_nil_r. split; [done|]. split; [done|]. cbn. lia.
  - assert (l <> []) as Hne by (intros ->; apply Hc; subst count; unfold len; cbn [length]; lia).
    pose proof (moved_count n l Hne) as Hm. cbv zeta in Hm. fold count in Hm.
    rewrite (proj2 (Z.ltb_ge _ _)) by (unfold len in *; lia).
    destruct (IH (drop count l) (acc ++ take count l)) as (os' & -> & Hos' & Hlen).
    { rewrite length_drop. lia. }
    { rewrite len_cat. unfold len in *. rewrite length_take, length_drop. lia. }
    exists os'. rewrite <- app_assoc, take_drop. split; [done|]. split; [done|].
    rewrite length_drop in Hlen. lia.
Qed.

(** ** What publication admits *)

(** A publication that succeeds, or changes the journal at all, replaced an image that it
    does not go back behind, or initialized a directory that had no journal. *)
Theorem publish_image_monotone `{HmacSha256} key V v image fault h h' run :
  within JOURNAL_NAME V v (directory h) ->
  publish_image key image fault h = (h', run) ->
  run = Returned (Ok tt) \/ journal_bytes (directory h') <> journal_bytes (directory h) ->
  exists previous, selects key (journal_bytes (directory h)) previous /\ may_replace previous image.
Proof.
  intros Hw Hp Hx. pose proof (publish_runs key V v image fault) as Hr.
  pose proof (within_named _ _ _ _ Hw : journal_bytes _ = v) as Hv. rewrite Hv in *.
  destruct (encode_control_journal_image key image) as [l|e].
  - specialize (Hr h Hw). rewrite Hp in Hr. destruct run as [[[]|e]|]; [apply Hr|..];
      (destruct Hr as [Hr%within_named|Hr]; [|apply Hr]);
      (destruct Hx as [?|[]]; [done|exact Hr]).
  - rewrite Hr in Hp. injection Hp as <- <-. destruct Hx as [?|[]]; [done|exact Hv].
Qed.

(** ** A host whose calls work *)

Section working.
Context `{HmacOutput} (host : Host).

#[local] Abbreviation works := (works host).
#[local] Abbreviation does := (does host).

Lemma does_serial d s k : 0 <= s < u64_max -> does next_serial d s k s d (s + 1) k.
Proof.
  intros Hs h [-> Ho Hk]. unfold next_serial. cbn.
  unfold checked_add_u64, checked. replace (is_u64 (s + 1)) with true by (symmetry; unfold is_u64; b2p; lia).
  cbn. eexists. split; [done|]. by split.
Qed.

Lemma does_read_data l d s k :
  len l <= IMAGE_LIMIT -> does (read_data l) d s (length l + 1 + k) l d s k.
Proof.
  intros Hl h [-> Ho Hk]. unfold read_data. cbn in *.
  destruct (read_loop_healthy (outcomes h) l []) as (os & Hr & Hos & Hlen);
    [done|lia|unfold len in *; cbn; lia|]. cbn in Hr. rewrite Hr.
  eexists. split; [done|]. split; [done..|]. cbn. lia.
Qed.

(** What a publication asks of the root, of the file mode mask, and of the journal. *)
Definition private_file (i : Inode) : Prop :=
  i_type i = RegularFile /\ i_mode i = 384 /\ i_uid i = euid host /\ i_nlink i = 1.

Definition keeps_mode : Prop := Z.land 384 (Z.lnot (umask (process host))) = 384.

Lemma does_acquire d s k :
  private_root host -> lock_ready host d -> does ImageOwner_acquire d s (12 + k) tt (locked host d) s k.
Proof.
  intros Hr Hl. unfold ImageOwner_acquire. change (12 + k)%nat with (9 + (3 + k))%nat.
  eapply does_bind; [apply does_mapped; by apply does_lock|]. by apply does_operational.
Qed.

Lemma does_read_none key d s k :
  entry d JOURNAL_NAME = None -> does (ImageOwner_read key) d s (1 + k) None d s k.
Proof.
  intros He. apply does_next. intros n.
  eapply does_bind; [apply (does_ask _ None); by intros ? [-> _ _]|]. apply does_ret.
Qed.

Lemma does_read_some key d s k n i p :
  entry d JOURNAL_NAME = Some (n, i) -> private_file i ->
  decode_control_journal_image key (i_data i) = Ok p ->
  does (ImageOwner_read key) d s (length (i_data i) + 3 + k) (Some p) d s k.
Proof.
  intros He (Ht & Hm & Hu & Hl) Hp.
  assert (len (i_data i) <= IMAGE_LIMIT) as Hlim.
  { unfold decode_control_journal_image in Hp. destruct (Z.ltb_spec IMAGE_LIMIT (len (i_data i))); [done|lia]. }
  replace (length (i_data i) + 3 + k)%nat with (S (S (length (i_data i) + 1 + k))) by lia.
  apply does_next. intros m.
  eapply does_bind; [apply (does_ask _ (Some (n, i))); by intros ? [-> _ _]|]. cbn beta iota.
  rewrite Ht. change (bool_decide (RegularFile = Symlink)) with false. cbn iota.
  eapply does_bind; [apply does_call|].
  eapply does_bind; [apply (does_ask _ (euid host)); by intros ? [-> _ _]|].
  rewrite Hm, Hu, Hl, !Z.eqb_refl, (proj2 (Z.ltb_ge _ _)) by done.
  change (bool_decide (RegularFile = RegularFile)) with true. cbn [negb orb].
  eapply does_bind; [by apply does_read_data|]. rewrite Z.eqb_refl. cbn [negb].
  eapply does_bind; [by apply does_pure|]. apply does_ret.
Qed.

(** The directory a publication under a fresh temporary name leaves. *)
Definition published_directory (name l : bytes) (d : Directory) : Directory :=
  let n := fresh (dom (inodes d)) in
  sync_names (rename_entry name JOURNAL_NAME
    (sync_data n (append_data n l (create_file name (euid host) 384 d)))).

Lemma published_entry name l d :
  name <> JOURNAL_NAME ->
  entry (published_directory name l d) JOURNAL_NAME
  = Some (fresh (dom (inodes d)), mkInode RegularFile 384 (euid host) 1 l true).
Proof.
  intros Hn. unfold published_directory, rename_entry, sync_data, append_data, create_file, entry.
  cbn [names inodes rename_names sync_names]. rewrite lookup_insert_eq. cbn [names inodes rename_names sync_names].
  rewrite lookup_insert_eq. cbn. by rewrite !lookup_alter_eq, lookup_insert_eq.
Qed.

Lemma published_settled name l d :
  name <> JOURNAL_NAME -> settled JOURNAL_NAME (published_directory name l d).
Proof.
  intros Hn. pose proof (published_entry name l d Hn) as He. unfold entry in He.
  split; [unfold published_directory; by destruct (rename_entry _ _ _)|]. intros n Hx.
  rewrite Hx in He. cbn in He. destruct (inodes _ !! n); [|done]. cbn in He. injection He as _ ->. eauto.
Qed.

Lemma published_locked name l d :
  name <> JOURNAL_NAME -> name <> LOCK_NAME -> locked_by (euid host) d ->
  locked_by (euid host) (published_directory name l d).
Proof.
  intros Hj Hl (n & i & He & Hi). exists n, i. split; [|done]. unfold entry in *.
  unfold published_directory, rename_entry, sync_data, append_data, create_file.
  cbn [names inodes rename_names sync_names]. rewrite lookup_insert_eq. cbn [names inodes rename_names sync_names].
  rewrite lookup_insert_ne, lookup_delete_ne, lookup_insert_ne by (done || apply not_eq_sym, lock_is_no_journal).
  destruct (names d !! LOCK_NAME) as [m|]; [|done]. cbn in *.
  destruct (inodes d !! m) as [j|] eqn:Hm; [|done]. cbn in He.
  assert (m <> fresh (dom (inodes d))).
  { intros ->. pose proof (is_fresh (dom (inodes d))) as Hf. apply not_elem_of_dom in Hf. congruence. }
  by rewrite !lookup_alter_ne, lookup_insert_ne, Hm.
Qed.

(** What a directory holds under the journal's name. *)
Definition holds key (d : Directory) (previous : option CompleteControlJournalImage) : Prop :=
  match previous with
  | Some p => exists n i, entry d JOURNAL_NAME = Some (n, i) /\ private_file i
                          /\ decode_control_journal_image key (i_data i) = Ok p
  | None => names d !! JOURNAL_NAME = None
  end.

Lemma temporary_is_no_lock serial : temporary_name (pid host) serial <> LOCK_NAME.
Proof. intros Hx. apply (f_equal (hd 0)) in Hx. change (46 = 109) in Hx. done. Qed.

Lemma journal_locked key d previous :
  holds key d previous -> journal_bytes (locked host d) = journal_bytes d.
Proof.
  pose proof (not_eq_sym lock_is_no_journal). unfold journal_bytes. destruct previous as [p|]; cbn [holds].
  - intros (n & i & He & _). rewrite !named_entry, He. by erewrite locked_entry.
  - intros Hn. unfold named. by rewrite locked_names, Hn.
Qed.

Lemma holds_locked key d previous : holds key d previous -> holds key (locked host d) previous.
Proof.
  pose proof (not_eq_sym lock_is_no_journal). destruct previous as [p|]; cbn [holds].
  - intros (n & i & He & Hi & Hp). exists n, i. split; [by apply locked_entry|done].
  - by rewrite locked_names.
Qed.

(** The calls of a publication over the journal of [d]. *)
Definition publication_calls (l : bytes) (d : Directory) : nat :=
  22 + length (default [] (journal_bytes d)) + 2 * length l.

Lemma does_read key d s k previous :
  holds key d previous ->
  does (ImageOwner_read key) d s (length (default [] (journal_bytes d)) + 3 + k) previous d s k.
Proof.
  unfold journal_bytes. rewrite named_entry. destruct previous as [p|]; cbn [holds].
  - intros (n & i & He & Hi & Hp). rewrite He. by apply (does_read_some _ _ _ _ n).
  - intros Hn. assert (entry d JOURNAL_NAME = None) as He by (unfold entry; by rewrite Hn).
    rewrite He. cbn. eapply (does_fewer _ _ _ _ _ _ _ _ _ (2 + k)); [|lia].
    by apply (does_read_none key d s (2 + k)).
Qed.

Lemma does_before_rename name n l d s k :
  l <> [] -> names d !! name = Some n ->
  does (before_rename None name n l) d s (length l + 2 + k) tt
    (rename_entry name JOURNAL_NAME (sync_data n (append_data n l d))) s k.
Proof.
  intros Hl Hname. unfold before_rename.
  change (bool_decide (None = Some TemporaryWrite)) with false. cbn iota.
  eapply does_bind; [apply does_ret|]. eapply does_bind; [by apply does_pure|].
  rewrite <- Nat.add_assoc. eapply does_bind; [by apply does_write|].
  eapply does_bind; [by apply does_pure|]. eapply does_bind; [apply does_sync_file|].
  eapply does_bind; [by apply does_pure|]. eapply does_rename; [exact Hname|by left].
Qed.

Lemma does_create name d s k :
  keeps_mode -> names d !! name = None ->
  does (create_temporary name) d s (S k) (fresh (dom (inodes d)))
    (create_file name (euid host) 384 d) s k.
Proof.
  intros Hm Hn. unfold create_temporary.
  eapply does_bind; [by apply does_open_new|]. rewrite Hm. by apply does_pure.
Qed.

Lemma does_publish key image previous l d s k :
  private_root host -> keeps_mode -> lock_ready host d ->
  0 <= s < u64_max -> names d !! temporary_name (pid host) s = None ->
  typed_image image = true -> encode_control_journal_image key image = Ok l ->
  holds key d previous -> may_replace previous image ->
  does (publish_control_journal_image key image) d s (publication_calls l d + k) tt
    (published_directory (temporary_name (pid host) s) l (locked host d)) (s + 1) k.
Proof.
  intros Hroot Hmode Hlock Hs Hname Ht He Hold Hmay.
  assert (decode_control_journal_image key l = Ok image) as Hdec by by apply (codec_roundtrip (encode := encode_control_journal_image key)).
  assert (l <> []) as Hl by (intros ->; by vm_compute in Hdec).
  rewrite <- (locked_names host d) in Hname by apply temporary_is_no_lock.
  assert (journal_bytes (locked host d) = journal_bytes d) as Hj by by eapply journal_locked.
  apply holds_locked in Hold.
  unfold publication_calls. rewrite <- Hj. set (old := length (default [] (journal_bytes (locked host d)))).
  replace (22 + old + 2 * length l + k)%nat
    with (12 + (old + 3 + (1 + (length l + 2 + (1 + (length l + 3 + k))))))%nat by lia.
  set (d' := locked host d) in *.
  unfold publish_control_journal_image, publish_image.
  eapply does_bind; [by apply does_pure|].
  eapply does_bind; [by apply does_acquire|]. fold d'.
  eapply does_bind; [by apply does_read|].
  eapply does_bind; [apply does_pure; by apply replacement_admitted_spec|].
  eapply does_bind; [by apply does_pure|].
  eapply does_bind; [by apply does_serial|].
  eapply does_bind; [apply (does_ask _ (pid host)); by intros ? [-> _ _]|]. cbv zeta.
  eapply does_bind; [by apply does_create|].
  eapply does_bind; [apply does_caught, does_before_rename; [done|cbn; by rewrite lookup_insert_eq]|].
  eapply does_bind; [apply does_ret|].
  eapply does_bind; [by apply does_pure|].
  eapply does_bind; [apply does_sync_directory|]. fold (published_directory (temporary_name (pid host) s) l d').
  pose proof (published_entry _ l d' (temporary_is_no_journal (pid host) s)) as Hentry.
  eapply does_bind; [apply does_caught; by apply (does_read_some _ _ _ _ _ _ image Hentry)|].
  cbn beta iota. rewrite bool_decide_eq_true_2 by done. apply does_ret.
Qed.
End working.

(** ** Publishing what has grown from the selected image *)

Section published.
Context `{HmacOutput} (key : JournalIntegrityKey).

(** A host that is ready for publishing the wire [l] over what it selects. *)
Record ready (h : Host) (previous : option CompleteControlJournalImage) (l : bytes) : Prop :=
  mkReady {
  ready_root : private_root h;
  ready_mode : keeps_mode h;
  ready_lock : lock_ready h (directory h);
  ready_serial : 0 <= temporary_serial h < u64_max;
  ready_name : names (directory h) !! temporary_name (pid h) (temporary_serial h) = None;
  ready_holds : holds h key (directory h) previous;
  ready_healthy : Forall healthy (outcomes h);
  ready_calls : (publication_calls l (directory h) + (length l + 15) <= length (outcomes h))%nat;
}.

Lemma ready_publishes h previous image l :
  ready h previous l -> typed_image image = true ->
  encode_control_journal_image key image = Ok l -> may_replace previous image ->
  exists h' h'',
    publish_control_journal_image key image h = (h', Returned (Ok tt))
    /\ settled JOURNAL_NAME (directory h') /\ journal_bytes (directory h') = Some l
    /\ reopen_control_journal_image key h' = (h'', Returned (Ok image))
    /\ directory h'' = directory h'.
Proof.
  intros [Hroot Hmode Hlock Hs Hn Hold Hh Hk] Ht He Hmay.
  assert (works h (directory h) (temporary_serial h)
            (publication_calls l (directory h) + (length l + 15)) h) as Hw.
  { split; [by destruct h|done..]. }
  destruct (does_publish h key image previous l _ _ (length l + 15) Hroot Hmode Hlock Hs Hn Ht He Hold
    Hmay h Hw) as (h' & Hp & Hw').
  set (name := temporary_name (pid h) (temporary_serial h)) in *.
  assert (name <> JOURNAL_NAME) as Hne by apply temporary_is_no_journal.
  assert (locked_by (euid h) (published_directory h name l (locked h (directory h)))) as Hl.
  { apply published_locked; [done|apply temporary_is_no_lock|by apply locked_ready]. }
  set (d := published_directory h name l (locked h (directory h))) in *.
  pose proof (published_entry h name l (locked h (directory h)) Hne : entry d _ = _) as Hentry.
  assert (does h (reopen_control_journal_image key) d (temporary_serial h + 1) (length l + 15) image d
    (temporary_serial h + 1) 0) as Hre.
  { replace (length l + 15)%nat with (12 + (length l + 3 + 0))%nat by lia.
    eapply does_bind; [apply does_acquire; [done|by right]|]. rewrite (locked_by_locked _ _ _ Hl).
    eapply (does_bind _ _ _ _ _ (Some image)); [|by apply does_pure].
    apply (does_read_some h _ _ _ _ _ _ image Hentry); [done|].
    by apply (codec_roundtrip (encode := encode_control_journal_image key)). }
  destruct (Hre h' Hw') as (h'' & Hq & Hw''). exists h', h''. split; [done|].
  rewrite (works_directory _ _ _ _ _ Hw'), (works_directory _ _ _ _ _ Hw'').
  split; [by apply published_settled|]. split; [unfold journal_bytes; by rewrite named_entry, Hentry|]. done.
Qed.

(** What grew from an image replaces it. *)
Lemma grown_replaces selected image p :
  typed_image selected = true -> replay_tail selected = Ok p -> rtc (grows key) selected image ->
  may_replace (Some selected) image.
Proof.
  intros Ht Hp Hg. destruct (grown_advances key selected image p Ht Hp Hg) as (Hh & _ & q & Hq & [] & _).
  exists p, q. rewrite Hh. split_and!; try done; try lia.
  - destruct (replay_tail_evolves _ _ Hp) as [He _], (replay_tail_evolves _ _ Hq) as [He' _].
    rewrite (evolves_generation _ _ He), (evolves_generation _ _ He') in *. done.
  - intros Heq. by rewrite advances_head.
Qed.
End published.

(** C5: Whatever sequence of addressed actions, clock checkpoints and new clock authorities
    led from the selected image to a new one, on a host whose calls work publishing the
    new one succeeds, the journal is durably its wire, and reopening gives it back. *)
Theorem grown_image_published `{HmacOutput} key h selected image l :
  is_bytes (default [] (journal_bytes (directory h))) = true ->
  rtc (grows key) selected image ->
  encode_control_journal_image key image = Ok l ->
  ready key h (Some selected) l ->
  exists h' h'',
    publish_control_journal_image key image h = (h', Returned (Ok tt))
    /\ settled JOURNAL_NAME (directory h') /\ journal_bytes (directory h') = Some l
    /\ reopen_control_journal_image key h' = (h'', Returned (Ok image))
    /\ directory h'' = directory h'.
Proof.
  intros Hb Hg He Hr. destruct (ready_holds _ _ _ _ Hr) as (n & i & Hentry & _ & Hdec).
  unfold journal_bytes in Hb; rewrite named_entry, Hentry in Hb. cbn in Hb.
  apply (codec_exact (encode := encode_control_journal_image key)) in Hdec as [Ht Hs]; [|done].
  destruct (encode_image_replays key _ _ Hs) as [p Hp].
  destruct (grown_advances key selected image p Ht Hp Hg) as (_ & Hti & _).
  eapply ready_publishes; [done|done|done|]. by eapply grown_replaces.
Qed.
