(* ===== verification/PublicationHistory.v ===== *)
(** * Histories of the journal directory

    Successive processes publish and reopen the image; calls fail, processes are killed
    and machines crash, in any order. The history remembers the image of the last
    publication that was answered with success. Whatever happens, the directory selects
    an image that goes forward from that one, and so does everything a crash may still
    bring back. *)

From S2P Require Import Prelude Bytes Text CoreError Generation Bounded Ring Sha256 Codec Clock.
From S2P Require Import Journal RecoveryRing GenerateProfile Pointer ImageWire Addressed.
From S2P Require Import Checkpoint CheckpointCodec Replay Image Append Host Durable Platform.
From S2P Require Import Publication CrashSafety.

#[local] Open Scope Z_scope.

(** ** Going forward, in any number of steps *)

Lemma goes_forward_trans a b c : goes_forward a b -> goes_forward b c -> goes_forward a c.
Proof.
  intros (pa & pb & Ha & Hb & ? & ? & ? & Hd & ?) (pb' & pc & Hb' & Hc & ? & ? & ? & Hd' & ?).
  rewrite Hb in Hb'. injection Hb' as <-. exists pa, pc. split_and!; try done; try lia.
  intros Heq. rewrite Hd' by lia. apply Hd. lia.
Qed.

(** [q] is [p], or replaces it without taking anything back. *)
Definition not_behind (p q : CompleteControlJournalImage) : Prop := q = p \/ goes_forward p q.

#[export] Instance not_behind_preorder : PreOrder not_behind.
Proof.
  split; [by left|]. intros a b c [-> | Hab]; [done|]. intros [-> | Hbc]; right; [done|].
  by eapply goes_forward_trans.
Qed.

(** The same of what a directory selects; nothing is behind everything. *)
Definition reaches (confirmed selected : option CompleteControlJournalImage) : Prop :=
  match confirmed, selected with
  | None, _ => True
  | Some p, Some q => not_behind p q
  | Some _, None => False
  end.

#[export] Instance reaches_preorder : PreOrder reaches.
Proof.
  split; [by intros [p|]; [left|]|]. intros [a|] [b|] [c|]; cbn; try done. apply transitivity.
Qed.

(** ** Histories *)

Section history.
Context `{HmacSha256} (key : JournalIntegrityKey).

Record State : Type := mkState {
  disk : Directory;
  confirmed : option CompleteControlJournalImage;
}.

Inductive happens : State -> State -> Prop :=
| publication_succeeds h h' image fault s :
    directory h = disk s -> typed_image image = true ->
    publish_image key image fault h = (h', Returned (Ok tt)) ->
    happens s (mkState (directory h') (Some image))
| publication_ends h h' image fault run s :
    directory h = disk s -> typed_image image = true ->
    publish_image key image fault h = (h', run) -> run <> Returned (Ok tt) ->
    happens s (mkState (directory h') (confirmed s))
| reopens h h' run s :
    directory h = disk s ->
    reopen_control_journal_image key h = (h', run) ->
    happens s (mkState (directory h') (confirmed s))
| crashes after s :
    crash (disk s) after ->
    happens s (mkState after (confirmed s)).

(** Everything a crash may bring back selects an image that is not behind. *)
Definition forward (c : option CompleteControlJournalImage) (w : option bytes) : Prop :=
  exists p, selects key w p /\ reaches c p.

Definition safe (s : State) : Prop :=
  within JOURNAL_NAME (forward (confirmed s)) (journal_bytes (disk s)) (disk s).

Lemma safe_within V v d c :
  within JOURNAL_NAME V v d -> (forall w, V w -> forward c w) -> safe (mkState d c).
Proof.
  intros Hw HV. unfold safe. cbn [disk confirmed]. unfold journal_bytes.
  rewrite (within_named _ _ _ _ Hw). by eapply within_weaken.
Qed.

Lemma selects_unique w p q : selects key w p -> selects key w q -> p = q.
Proof.
  destruct p as [p|], q as [q|]; cbn.
  - intros (l & -> & Hp) (l' & [= <-] & Hq). congruence.
  - intros (l & -> & _) [=].
  - intros -> (l & [=] & _).
  - done.
Qed.
End history.

Section theorems.
Context `{HmacOutput} (key : JournalIntegrityKey).

(** An admitted image is ahead of what was confirmed. *)
Lemma justified_reaches c v image :
  forward key c v -> justified key v image -> reaches c (Some image).
Proof.
  intros (p & Hp & Hr) (q & Hq & Hm). pose proof (selects_unique key _ _ _ Hp Hq) as ->.
  etransitivity; [exact Hr|]. destruct q as [q|]; [|by cbn]. by right.
Qed.

Lemma image_forward image l c :
  typed_image image = true -> encode_control_journal_image key image = Ok l ->
  reaches c (Some image) -> forward key c (Some l).
Proof.
  intros Ht He Hr. exists (Some image). split; [|done]. exists l. split; [done|].
  by apply (codec_roundtrip (encode := encode_control_journal_image key)).
Qed.

Lemma publication_safe s h h' image fault run :
  safe key s -> directory h = disk s -> typed_image image = true ->
  publish_image key image fault h = (h', run) ->
  (run = Returned (Ok tt) -> safe key (mkState (directory h') (Some image))
                             /\ reaches (confirmed s) (Some image))
  /\ (run <> Returned (Ok tt) -> safe key (mkState (directory h') (confirmed s))).
Proof.
  intros Hs Hd Ht Hp. set (V := forward key (confirmed s)). set (v := journal_bytes (disk s)).
  pose proof (publish_runs key V v image fault) as Hr.
  destruct (encode_control_journal_image key image) as [l|e] eqn:He.
  2: { rewrite Hr in Hp. injection Hp as <- <-. split; [done|]. intros _. rewrite Hd. exact Hs. }
  specialize (Hr h). rewrite Hd, Hp in Hr. specialize (Hr Hs).
  assert (forall d, unrenamed V v d -> safe key (mkState d (confirmed s))) as Hold
    by (intros d Hx; by eapply safe_within).
  assert (forall d, renamed V l d /\ justified key v image -> safe key (mkState d (confirmed s))) as Hnew.
  { intros d [Hx Hj]. eapply safe_within; [exact Hx|]. intros w [Hw | ->]; [done|].
    apply (image_forward image); [done..|]. eapply justified_reaches, Hj. apply Hs. }
  destruct run as [[[]|e]|]; (split; [|intros Hne]); try done.
  - intros _. destruct Hr as [Hx Hj]. assert (reaches (confirmed s) (Some image)) as Hc
      by (eapply justified_reaches, Hj; apply Hs).
    split; [|done]. eapply safe_within; [exact Hx|]. intros w <-. by apply (image_forward image).
  - destruct Hr as [Hr|(_ & Hr)]; auto.
  - destruct Hr as [Hr|Hr]; auto.
Qed.

Lemma happens_safe s s' :
  happens key s s' -> safe key s -> safe key s' /\ reaches (confirmed s) (confirmed s').
Proof.
  intros Hstep Hs. destruct Hstep as [h h' image fault s Hd Ht Hp|h h' image fault run s Hd Ht Hp Hne
    |h h' run s Hd Hr|after s Hc].
  - by apply (publication_safe s h h' image fault _ Hs Hd Ht Hp).
  - split; [|done]. by apply (publication_safe s h h' image fault run Hs Hd Ht Hp).
  - split; [|done]. set (V := forward key (confirmed s)). set (v := journal_bytes (disk s)).
    assert (runs (reopen_control_journal_image key) (unrenamed V v) (fun _ => unrenamed V v)
      (fun _ => unrenamed V v) (unrenamed V v)) as Hx.
    { unfold reopen_control_journal_image. step (fun _ => unrenamed V v); [apply acquire_runs|].
      apply idle_runs; auto. idle. }
    specialize (Hx h). rewrite Hd, Hr in Hx. specialize (Hx Hs).
    destruct run as [[a|e]|]; by eapply safe_within.
  - split; [|done]. destruct (crash_within _ _ _ _ _ Hs Hc) as [HV Hset%settled_within].
    eapply safe_within; [exact Hset|]. by intros w <-.
Qed.

(** C14: Through any history of publications, reopenings, failing calls, kills and crashes the
    journal stays readable and never falls behind the last image whose publication was
    answered with success; those images never go back either. *)
Theorem history_never_goes_back s s' :
  settled JOURNAL_NAME (disk s) ->
  selects key (journal_bytes (disk s)) (confirmed s) ->
  rtc (happens key) s s' ->
  reaches (confirmed s) (confirmed s')
  /\ exists selected, selects key (journal_bytes (disk s')) selected
                      /\ reaches (confirmed s') selected.
Proof.
  intros Hset%settled_within Hsel Hrtc.
  assert (safe key s) as Hs.
  { destruct s as [d c]. eapply safe_within; [exact Hset|]. intros w <-. by exists c. }
  clear Hset Hsel. induction Hrtc as [s|s1 s2 s3 Hstep _ IH].
  - split; [done|]. apply Hs.
  - destruct (happens_safe _ _ Hstep Hs) as [Hs2 Hr]. destruct (IH Hs2) as [Hr' Hsel].
    split; [by etransitivity|done].
Qed.
End theorems.
