(* ===== verification/ImageTheorems.v ===== *)
(** * What the control-journal image guarantees

    The theorems over the image and its operations, and a concrete image they are
    applied to: a first image, grown by a clock checkpoint and a shutdown request, on a
    host that holds it. *)

From S2P Require Import Prelude Bytes Text CoreError Generation Bounded Ring Sha256 Codec Clock.
From S2P Require Import Journal RecoveryRing GenerateProfile Pointer ImageWire Addressed.
From S2P Require Import Checkpoint CheckpointCodec Replay Image Append History Host Durable Platform Publication.
From S2P Require Import CrashSafety PublicationLive PublicationHistory.

#[local] Open Scope Z_scope.

(** ** The wire and the types *)

Section image.
Context `{HmacOutput} (key : JournalIntegrityKey).

(** C15: A wire is accepted exactly when it is what the encoder writes for a well-typed
    image, and that image is what is read from it. *)
Theorem image_wire_exact wire image :
  is_bytes wire = true ->
  decode_control_journal_image key wire = Ok image
  <-> typed_image image = true /\ encode_control_journal_image key image = Ok wire.
Proof. apply (codec_exact (encode := encode_control_journal_image key)). Qed.

(** C31: Whatever grows from an image that was read is well typed: every field of it and of
    what it replays to is within the range of its Rust type. *)
Theorem image_stays_typed wire image next :
  is_bytes wire = true -> decode_control_journal_image key wire = Ok image ->
  rtc (grows key) image next ->
  typed_image next = true /\ exists p, replay_tail next = Ok p /\ typed_checkpoint p = true.
Proof.
  intros Hb Hd Hg. apply (codec_exact (encode := encode_control_journal_image key)) in Hd as [Ht He]; [|done].
  destruct (encode_image_replays key _ _ He) as [p Hp].
  destruct (grown_advances key image next p Ht Hp Hg) as (_ & Hn & q & Hq & _).
  split; [done|]. exists q. split; [done|]. by eapply typed_replay_tail.
Qed.

(** ** Growing *)

(** C7: Whatever sequence of operations an image grows by, its header stays, and in the
    projection neither the generation nor the sequence nor the safe time goes back; the
    pointer, the recovery ring and the local commands are kept. *)
Theorem grown_never_goes_back image next p :
  typed_image image = true -> replay_tail image = Ok p -> rtc (grows key) image next ->
  header next = header image
  /\ exists q, replay_tail next = Ok q
     /\ generation p <= generation q
     /\ sequence (covered_head p) <= sequence (covered_head q)
     /\ (sequence (covered_head p) = sequence (covered_head q) -> covered_head p = covered_head q)
     /\ clock_safe_time p <= clock_safe_time q
     /\ active_pointer q = active_pointer p /\ recovery_ring q = recovery_ring p
     /\ local_commands q = local_commands p.
Proof.
  intros Ht Hp Hg. destruct (grown_advances key image next p Ht Hp Hg) as (Hh & _ & q & Hq & [] & _).
  split; [done|]. by exists q.
Qed.

(** C13: An addressed action that is appended is one record: its head follows the
    projection's by hash and sequence, replaying it gives the new projection, a
    superseded shutdown result is dropped and anything else is kept, and the image
    returned is one that is written and read back; it is the old image with one frame
    more, or its fold. *)
Theorem append_addressed_action_records image operation action process recovery next :
  typed_image image = true -> typed_action action = true ->
  append_addressed_action key image operation action process recovery = Ok next ->
  exists p body action' head c,
    replay_tail image = Ok p
    /\ encode_addressed_action operation action = Ok body
    /\ encode_addressed_action operation action' = Ok body
    /\ head_follows (operation_kind operation) body (covered_head p) head
    /\ replay_addressed p operation action' head = Ok c
    /\ header next = header image
    /\ exists q, publishes key next q
       /\ (next = push_frame image (mkTailFrame (covered_head p) head
                                      (tail_record_of operation action'))
           /\ q = set_covered head c
           \/ tail next = []
              /\ exists superseded : bool,
                   let kept := if superseded then set_state 3 Absent (set_covered head c)
                               else set_covered head c in
                   (superseded = true ->
                    operation = SystemShutdown /\ superseded_shutdown c process = true)
                   /\ q = set_generation (generation kept + 1) kept).
Proof. apply append_action_facts. Qed.

(** C16: A new clock authority is published only when neither the safe time nor the hold
    goes back; the pending obligations stay exactly as they were, and of the completed
    ones none is altered: each is kept or dropped. *)
Theorem publish_authority_keeps_obligations image clock process next :
  typed_image image = true -> ClockAuthority.typed clock = true ->
  publish_addressed_authority key image clock process = Ok next ->
  exists p q,
    replay_tail image = Ok p /\ publishes key next q /\ tail next = []
    /\ clock_authority q = clock /\ clock_safe_time p <= ClockAuthority.safe_time clock
    /\ (forall old, clock_hold p = Some old -> exists new, ClockAuthority.hold clock = Some new
        /\ (new = old \/ ClockAuthority.generation old < ClockAuthority.generation new))
    /\ generation q = generation p + 1 /\ covered_head q = covered_head p
    /\ cell_state q 0 = cell_state p 0 /\ cell_state q 2 = cell_state p 2
    /\ (cell_state q 1 = cell_state p 1 \/ cell_state q 1 = Absent)
    /\ (cell_state q 3 = cell_state p 3 \/ cell_state q 3 = Absent).
Proof.
  intros Ht Hk Hx. apply publish_authority_facts in Hx
    as (p & q & Hp & Hq & _ & Htl & Hc & Hs & Hh & ? & ? & _ & _ & _ & ?); [|done..].
  exists p, q. pose proof (proj1 (hold_advances_spec _ _) Hh) as Hh'. repeat (split; [done|]). done.
Qed.
End image.

(** ** A concrete image and host *)

Section example.
#[local] Existing Instance sum_hmac.
#[local] Existing Instance sum_hmac_output.

Definition example_key : JournalIntegrityKey := mkJournalIntegrityKey (repeat 7 32).

Definition example_namespace : bytes :=
  Eval vm_compute in
  match control_journal_header_with_branch_high_water example_key 0 with
  | Ok header => namespace_bytes (owner_namespace header)
  | Err _ => []
  end.

Definition example_image : CompleteControlJournalImage :=
  mkImage (mkImageHeader example_namespace 0)
    (mkCompleteCheckpoint 1 genesis (ClockAuthority.mkClockAuthorityProjection 0 None None) None
       [] [] empty_cells [] None None) [].

(** A periodic clock checkpoint five ticks on, and the request to stop the process. *)
Definition example_body : ClockBody.ClockCheckpointBody :=
  ClockBody.mkClockCheckpointBody ClockBody.Maintenance (repeat 1 16) 5 0 0 5 ClockBody.Periodic
    None None.

Definition example_action : AddressedAction :=
  PublishRequest (mkAddressedStateValue StateOwner (ProcessInstance (repeat 1 16)) (StopProcess 100)
    (ShutdownEvidence 7 107) 1 (ShutdownResult 0)
    (mkJournalHead 1 (repeat 1 32)) (mkJournalHead 1 (repeat 1 32)) NotApplicable).

Definition wire_of (image : CompleteControlJournalImage) : bytes :=
  match encode_control_journal_image example_key image with Ok w => w | Err _ => [] end.

Definition image_or (default : CompleteControlJournalImage)
    (r : image_result CompleteControlJournalImage) : CompleteControlJournalImage :=
  match r with Ok image => image | Err _ => default end.

(** Their frames over the first image, and the images they lead to. *)
Definition example_clock_body : bytes :=
  match ClockBody.encode_clock_checkpoint_body example_body with Ok l => l | Err _ => [] end.
Definition example_action_body : bytes :=
  match encode_addressed_action SystemShutdown example_action with Ok l => l | Err _ => [] end.

Definition example_frame (kind : ControlJournalRecordKind) (body : bytes) : bytes * JournalHead :=
  match authenticated_frame example_key kind body genesis with Ok x => x | Err _ => ([], genesis) end.

Definition example_clock_frame : bytes * JournalHead :=
  Eval vm_compute in example_frame Journal.ClockCheckpoint example_clock_body.
Definition example_action_frame : bytes * JournalHead :=
  Eval vm_compute in example_frame (operation_kind SystemShutdown) example_action_body.

Definition example_clocked : CompleteControlJournalImage :=
  push_frame example_image
    (mkTailFrame genesis example_clock_frame.2 (ClockCheckpointEvent example_body)).
Definition example_requested : CompleteControlJournalImage :=
  push_frame example_image
    (mkTailFrame genesis example_action_frame.2
       (TailSystemShutdown (match example_action with
          | PublishRequest v => PublishRequest (set_phase 1 (safe_result v) example_action_frame.2
                                  example_action_frame.2 (mirror v) v)
          | action => action end))).

Definition example_wire : bytes := Eval vm_compute in wire_of example_image.
Definition example_clocked_wire : bytes := Eval vm_compute in wire_of example_clocked.

Lemma example_encodes : encode_control_journal_image example_key example_image = Ok example_wire.
Proof. vm_compute. reflexivity. Qed.

Lemma example_decodes : decode_control_journal_image example_key example_wire = Ok example_image.
Proof.
  apply (codec_roundtrip (encode := encode_control_journal_image example_key)); [done|].
  apply example_encodes.
Qed.

Lemma example_clocked_encodes :
  encode_control_journal_image example_key example_clocked = Ok example_clocked_wire.
Proof. vm_compute. reflexivity. Qed.

Lemma example_appends :
  append_clock_checkpoint example_key example_image example_body = Ok example_clocked.
Proof.
  unfold append_clock_checkpoint. rewrite example_encodes, Ok_bind.
  assert (authenticated_frame example_key Journal.ClockCheckpoint example_clock_body genesis
          = Ok example_clock_frame) as Hf by (vm_compute; reflexivity).
  change (invalid (ClockBody.encode_clock_checkpoint_body example_body))
    with (Ok (E := ControlJournalImageError) example_clock_body).
  rewrite Ok_bind. change (tail_bytes example_key 0 (tail example_image)) with (Ok (E := ControlJournalImageError) 0).
  rewrite Ok_bind. cbv zeta. change (last (tail example_image)) with (@None AuthenticatedTailFrame).
  cbv iota. change (covered_head (checkpoint example_image)) with genesis. rewrite Hf, Ok_bind.
  rewrite (surjective_pairing example_clock_frame) at 1. cbv beta iota.
  change (_ || _) with false. cbv iota. rewrite Ok_bind.
  fold example_clocked. by rewrite example_clocked_encodes.
Qed.

Lemma example_grows : rtc (grows example_key) example_image example_clocked.
Proof. apply rtc_once, (grows_clock _ _ _ example_body); [done|apply example_appends]. Qed.

Lemma example_replays : replay_tail example_image = Ok (checkpoint example_image).
Proof. reflexivity. Qed.

Lemma example_requests :
  append_addressed_action example_key example_image SystemShutdown example_action (repeat 1 16) false
  = Ok example_requested.
Proof.
  unfold append_addressed_action. rewrite example_encodes, Ok_bind, example_replays, Ok_bind.
  assert (authenticated_frame example_key (operation_kind SystemShutdown) example_action_body genesis
          = Ok example_action_frame) as Hf by (vm_compute; reflexivity).
  assert (exists w, encode_control_journal_image example_key example_requested = Ok w) as [w Hw]
    by (eexists; vm_compute; reflexivity).
  change (bool_decide (repeat 1 16 = repeat 0 16)) with false. cbv iota.
  change (shutdown_admitted (checkpoint example_image) example_action (repeat 1 16) false)
    with (Ok (E := ControlJournalImageError) tt).
  rewrite Ok_bind. change (encode_addressed_action SystemShutdown example_action)
    with (Ok (E := ControlJournalImageError) example_action_body). rewrite Ok_bind. cbv zeta.
  change (covered_head (checkpoint example_image)) with genesis. rewrite Hf, Ok_bind.
  rewrite (surjective_pairing example_action_frame) at 1. cbv beta iota.
  set (m := decode_addressed_action _ _ _). vm_compute in m. subst m. rewrite Ok_bind.
  set (m := replay_addressed _ _ _ _). vm_compute in m. subst m. rewrite Ok_bind.
  change (tail_bytes example_key 104 (tail example_image)) with (Ok (E := ControlJournalImageError) 104).
  rewrite Ok_bind. change (_ || _) with false. cbv iota. rewrite Ok_bind.
  match goal with |- context [encode_control_journal_image example_key ?i] =>
    change i with example_requested end.
  rewrite Hw, Ok_bind. reflexivity.
Qed.

Lemma example_typed : typed_image example_image = true.
Proof. reflexivity. Qed.

Lemma image_wire_exact_witness :
  is_bytes example_wire = true
  /\ (decode_control_journal_image example_key example_wire = Ok example_image
      <-> typed_image example_image = true
          /\ encode_control_journal_image example_key example_image = Ok example_wire).
Proof. split; [reflexivity|]. by apply image_wire_exact. Defined.

Lemma image_stays_typed_witness :
  decode_control_journal_image example_key example_wire = Ok example_image
  /\ typed_image example_clocked = true
  /\ exists p, replay_tail example_clocked = Ok p /\ typed_checkpoint p = true.
Proof.
  split; [apply example_decodes|].
  apply (image_stays_typed example_key example_wire example_image); [reflexivity|apply example_decodes|].
  apply example_grows.
Defined.

Lemma grown_never_goes_back_witness :
  rtc (grows example_key) example_image example_clocked
  /\ header example_clocked = header example_image
  /\ exists q, replay_tail example_clocked = Ok q
     /\ 1 <= generation q /\ 0 <= sequence (covered_head q)
     /\ (0 = sequence (covered_head q) -> genesis = covered_head q)
     /\ 0 <= clock_safe_time q
     /\ active_pointer q = None /\ recovery_ring q = [] /\ local_commands q = [].
Proof.
  split; [apply example_grows|].
  apply (grown_never_goes_back example_key example_image example_clocked (checkpoint example_image));
    [apply example_typed|apply example_replays|apply example_grows].
Defined.

Lemma append_addressed_action_records_witness :
  append_addressed_action example_key example_image SystemShutdown example_action (repeat 1 16) false
  = Ok example_requested
  /\ exists p body action' head c,
    replay_tail example_image = Ok p
    /\ encode_addressed_action SystemShutdown example_action = Ok body
    /\ encode_addressed_action SystemShutdown action' = Ok body
    /\ head_follows (operation_kind SystemShutdown) body (covered_head p) head
    /\ replay_addressed p SystemShutdown action' head = Ok c
    /\ header example_requested = header example_image
    /\ exists q, publishes example_key example_requested q
       /\ (example_requested = push_frame example_image (mkTailFrame (covered_head p) head
                                      (tail_record_of SystemShutdown action'))
           /\ q = set_covered head c
           \/ tail example_requested = []
              /\ exists superseded : bool,
                   let kept := if superseded then set_state 3 Absent (set_covered head c)
                               else set_covered head c in
                   (superseded = true ->
                    SystemShutdown = SystemShutdown /\ superseded_shutdown c (repeat 1 16) = true)
                   /\ q = set_generation (generation kept + 1) kept).
Proof.
  split; [apply example_requests|].
  eapply (append_addressed_action_records example_key example_image SystemShutdown example_action);
    [apply example_typed|reflexivity|apply example_requests].
Defined.

Definition example_clock : ClockAuthority.ClockAuthorityProjection :=
  ClockAuthority.mkClockAuthorityProjection 9 None None.

Lemma example_publishes : exists next,
  publish_addressed_authority example_key example_image example_clock (repeat 1 16) = Ok next.
Proof.
  unfold publish_addressed_authority. rewrite example_encodes, Ok_bind.
  eexists. vm_compute. reflexivity.
Qed.

Lemma publish_authority_keeps_obligations_witness :
  exists next p q,
    replay_tail example_image = Ok p /\ publishes example_key next q /\ tail next = []
    /\ clock_authority q = example_clock /\ clock_safe_time p <= 9
    /\ (forall old, clock_hold p = Some old -> exists new, None = Some new
        /\ (new = old \/ ClockAuthority.generation old < ClockAuthority.generation new))
    /\ generation q = generation p + 1 /\ covered_head q = covered_head p
    /\ cell_state q 0 = cell_state p 0 /\ cell_state q 2 = cell_state p 2
    /\ (cell_state q 1 = cell_state p 1 \/ cell_state q 1 = Absent)
    /\ (cell_state q 3 = cell_state p 3 \/ cell_state q 3 = Absent).
Proof.
  destruct example_publishes as [next Hn]. exists next.
  apply (publish_authority_keeps_obligations example_key example_image example_clock (repeat 1 16));
    [apply example_typed|reflexivity|apply Hn].
Defined.

Definition example_projection : CompleteCheckpoint :=
  Eval vm_compute in match replay_tail example_clocked with
                     | Ok p => p | Err _ => checkpoint example_image end.

Lemma example_clocked_replays : replay_tail example_clocked = Ok example_projection.
Proof. vm_compute. reflexivity. Qed.

Lemma head_commits_to_tail_witness :
  exists p, replay_tail example_clocked = Ok p
    /\ (tail example_clocked = tail example_clocked
        \/ collide (tail example_clocked) (tail example_clocked)).
Proof.
  exists example_projection. split; [apply example_clocked_replays|].
  apply (head_commits_to_tail example_clocked example_clocked example_projection example_projection);
    [reflexivity..|apply example_clocked_replays|apply example_clocked_replays|reflexivity].
Defined.

(** A directory that holds the first image, on a host whose calls all work. *)
Definition example_directory : Directory :=
  mkDirectory {[ JOURNAL_NAME := 1%nat ]} []
    {[ 1%nat := mkInode RegularFile 384 1000 1 example_wire true ]}.

Definition example_root : DirStat := mkDirStat true 448 1000 2 3.

Definition example_host (outcomes : list Outcome) : Host :=
  mkHost example_directory example_root example_root example_root 1000 4242 false
    (mkProcess 18 (None, None) true) 0 outcomes.

Lemma example_settled : settled JOURNAL_NAME example_directory.
Proof. split; [reflexivity|]. intros n Hn. vm_compute in Hn. injection Hn as <-. by eexists. Qed.

(** A publication that is killed after twenty calls, and a crash. *)
Definition example_killed : Host := example_host (repeat (Moves 8192) 20).
#[local] Abbreviation example_run := (publish_image example_key example_clocked None example_killed).
Definition example_crashed : Directory := lenient (directory (fst example_run)).

Lemma publish_image_crash_safe_witness :
  settled JOURNAL_NAME (directory example_killed)
  /\ crash (directory (fst example_run)) example_crashed
  /\ let old := journal_bytes example_crashed = journal_bytes (directory example_killed) in
     let new := exists l, encode_control_journal_image example_key example_clocked = Ok l
                          /\ journal_bytes example_crashed = Some l in
     match (snd example_run) with
     | Returned (Ok _) => new
     | Returned (Err PublishUncertain) | Killed => old \/ new
     | Returned (Err _) => old
     end.
Proof.
  assert (crash (directory (fst example_run)) example_crashed) as Hc by apply crash_of.
  split; [apply example_settled|]. split; [exact Hc|].
  exact (publish_image_crash_safe example_key example_clocked None example_killed (fst example_run)
    (snd example_run) example_crashed example_settled (surjective_pairing example_run) Hc).
Defined.

Lemma image_loops_terminate_witness :
  (length example_wire < length (List.filter progress (repeat (Moves 1) 600)))%nat
  /\ (read_loop (repeat (Moves 1) 600) example_wire []).2 <> Killed
  /\ (write_loop WriteFailed (repeat (Moves 1) 600) 1 example_wire example_directory).2 <> Killed.
Proof.
  assert (length example_wire < length (List.filter progress (repeat (Moves 1) 600)))%nat as Hl
    by (vm_compute; lia).
  split; [exact Hl|]. apply image_loops_terminate. exact Hl.
Defined.

Lemma example_ready :
  ready example_key (example_host (repeat (Moves 8192) 2500)) (Some example_image)
    example_clocked_wire.
Proof.
  split.
  - by split.
  - reflexivity.
  - left. reflexivity.
  - done.
  - reflexivity.
  - exists 1%nat, (mkInode RegularFile 384 1000 1 example_wire true). split; [reflexivity|].
    split; [by repeat split|apply example_decodes].
  - apply Forall_forall. intros o Ho. apply list_elem_of_In, repeat_spec in Ho as ->. by exists 8192.
  - apply Nat.leb_le. vm_compute. reflexivity.
Qed.

Lemma grown_image_published_witness :
  exists h' h'',
    publish_control_journal_image example_key example_clocked
      (example_host (repeat (Moves 8192) 2500)) = (h', Returned (Ok tt))
    /\ settled JOURNAL_NAME (directory h') /\ journal_bytes (directory h') = Some example_clocked_wire
    /\ reopen_control_journal_image example_key h' = (h'', Returned (Ok example_clocked))
    /\ directory h'' = directory h'.
Proof.
  apply (grown_image_published example_key _ example_image);
    [reflexivity|apply example_grows|apply example_clocked_encodes|apply example_ready].
Defined.

Lemma publish_without_fault key image h :
  publish_control_journal_image key image h = publish_image key image None h.
Proof. reflexivity. Qed.

Lemma example_published :
  exists h', publish_image example_key example_clocked None (example_host (repeat (Moves 8192) 2500))
             = (h', Returned (Ok tt)).
Proof.
  destruct (ready_publishes example_key (example_host (repeat (Moves 8192) 2500)) (Some example_image)
    example_clocked example_clocked_wire) as (h' & _ & Hp & _);
    [apply example_ready|reflexivity|apply example_clocked_encodes| |].
  { by apply (grown_replaces example_key _ _ (checkpoint example_image)); [| |apply example_grows]. }
  exists h'. by rewrite publish_without_fault in Hp.
Qed.

Lemma publish_image_monotone_witness :
  exists h',
    publish_image example_key example_clocked None (example_host (repeat (Moves 8192) 2500))
    = (h', Returned (Ok tt))
    /\ exists previous, selects example_key (journal_bytes example_directory) previous
         /\ may_replace previous example_clocked.
Proof.
  destruct example_published as [h' Hp]. exists h'. split; [exact Hp|].
  apply (publish_image_monotone example_key _ _ example_clocked None
    (example_host (repeat (Moves 8192) 2500)) h' (Returned (Ok tt))
    (settled_within _ _ example_settled) Hp). by left.
Defined.

(** A publication, a second one that is killed, and a crash. *)
Lemma example_history :
  exists s', rtc (happens example_key) (mkState example_directory (Some example_image)) s'
    /\ confirmed s' = Some example_clocked.
Proof.
  destruct example_published as [h Hp].
  destruct (publish_image example_key example_clocked None (set_outcomes [] h)) as [h' r] eqn:Hk.
  exists (mkState (lenient (directory h')) (Some example_clocked)). split; [|reflexivity].
  apply (rtc_l _ _ (mkState (directory h) (Some example_clocked))).
  { apply (publication_succeeds example_key (example_host (repeat (Moves 8192) 2500)) h example_clocked None);
      [reflexivity|reflexivity|exact Hp]. }
  apply (rtc_l _ _ (mkState (directory h') (Some example_clocked))); [|apply rtc_once, crashes, crash_of].
  destruct (run_succeeds r) as [Hr|Hr].
  - rewrite Hr in Hk. apply (publication_succeeds example_key (set_outcomes [] h) h' example_clocked None
      (mkState (directory h) (Some example_clocked))); [reflexivity|reflexivity|exact Hk].
  - apply (publication_ends example_key (set_outcomes [] h) h' example_clocked None r
      (mkState (directory h) (Some example_clocked))); [reflexivity|reflexivity|exact Hk|exact Hr].
Qed.

Lemma history_never_goes_back_witness :
  exists s', rtc (happens example_key) (mkState example_directory (Some example_image)) s'
    /\ confirmed s' = Some example_clocked
    /\ reaches (Some example_image) (confirmed s')
    /\ exists selected, selects example_key (journal_bytes (disk s')) selected
                        /\ reaches (confirmed s') selected.
Proof.
  destruct example_history as (s' & Hs & Hc). exists s'. split; [exact Hs|]. split; [exact Hc|].
  apply (history_never_goes_back example_key (mkState example_directory (Some example_image)) s').
  - apply example_settled.
  - exists example_wire. split; [reflexivity|apply example_decodes].
  - exact Hs.
Defined.
End example.
